(* ===== verification/_CoqProject ===== *)
-Q . S2P
Prelude.v
Endian.v
StringPiece.v
NetBuffer.v
Format.v
Date.v
TimeZone.v
Timestamp.v
StdSet.v
TimerQueue.v
Channel.v
Poller.v
PollPoller.v
EPollPoller.v
EventLoop.v
BlockingQueue.v
ThreadPool.v
Latch.v
LoopThread.v
TcpConnection.v
Http.v
Codec.v
Rpc.v
LogStream.v
Units.v
Logging.v
LogFile.v
AsyncLogging.v
Connector.v
InetAddress.v
Server.v
TcpClient.v
Mutex.v
Thread.v
Inspector.v
ProcInfo.v
Streams.v
LoopObject.v
RpcServer.v
Sockets.v
EndToEnd.v
HttpOverTcp.v
Gzip.v
Perf.v
Support.v
