(* ===== verification/Prelude.v ===== *)
(** * Muduo: a verified model of the network library

    Muduo is a multithreaded network library in the reactor style. This
    development models its code ([base/] and [net/]) as executable definitions and
    proves the properties that make the parts correct. This file is the prelude:
    faults and results, machine integers, lists with [Z] lengths, the memory
    accesses the components share, and the tactics and hints used everywhere.

    ** The program

    An [EventLoop] runs in one thread: it asks a [Poller] which descriptors are
    ready, lets the [Channel] of each call its handler, then runs the functors that
    were queued, also by other threads, which wake the loop through a descriptor.
    Timers are a [TimerQueue] on a timerfd. A [TcpConnection] owns a channel and two
    [Buffer]s; a [TcpServer] creates connections from what its [Acceptor] accepts and
    spreads them over an [EventLoopThreadPool], a [Connector] creates them on the
    client side. [HttpServer], the protobuf codec and [RpcChannel] are protocols on
    top of a connection; an [Inspector] shows the state of the process through an
    [HttpServer]. Apart from this the library has threads, mutexes and queues, dates
    and time zones, and a logger whose lines go to files through a logging thread.

    ** The files

    - [Endian]: [net/Endian.h]; the host's byte order is a class, so everything holds
      for both orders.
    - [StringPiece]: [base/StringPiece.h].
    - [NetBuffer] ([Module Buffer]): [net/Buffer.h], [net/Buffer.cc]. [run_refines]: any
      sequence of operations behaves as on a plain byte queue with a prependable area.
    - [Format]: the conversions of [snprintf] that are used.
    - [Date], [TimeZone], [Timestamp]: [base/Date.*], [base/TimeZone.*],
      [base/Timestamp.*]. Calendar conversions against a reference calendar, the zone
      file reader, the search in the transition table, time text and arithmetic.
    - [StdSet], [TimerQueue]: [net/Timer.*], [net/TimerId.h], [net/TimerQueue.*]. The two
      sets stay the same timers, handling the descriptor runs exactly the timers that
      are due, and a timer that was inserted and then cancelled never runs again,
      self-cancellation included. A call of [addTimer] in another thread is two steps.
    - [Channel], [Poller], [PollPoller], [EPollPoller]: [net/Channel.*], [net/Poller.*],
      [net/poller/*]. [Poller] is a class of operations with laws; both
      implementations are instances (the two [_refines] theorems show the same in
      closed form), and the loop's theorems are proved from the class.
    - [EventLoop]: [net/EventLoop.*]. [Module Loop]: queued functors run once, in order,
      no wake-up is lost, and on every path of the loop thread what is queued is soon
      started; [Module Channels]: dispatch only to registered channels;
      [Module Timers]: [runAt], [runAfter], [runEvery].
    - [BlockingQueue], [ThreadPool], [Latch], [LoopThread]: the queues of [base/],
      [base/ThreadPool.*], [base/CountDownLatch.*], [net/EventLoopThreadPool.*],
      [net/EventLoopThread.*]. Step relations with invariants over all interleavings, the
      last with its destructor, which reads the loop's address without the mutex and
      whose [quit()] is two steps.
    - [TcpConnection]: [net/TcpConnection.*]. What reaches the kernel is what was sent, in
      order; callbacks come in the documented order; a shutdown waits for the output as
      long as the peer does not hang up.
    - [Http]: [net/http/*]. The parser does not depend on how the stream is cut, ends,
      and inverts the printing of requests and responses.
    - [Codec]: [net/protobuf/ProtobufCodecLite.*]; [Rpc]: [net/protorpc/RpcChannel.*] and
      [base/Atomic.h]. Round trip and soundness of the framing; each call is completed
      by the answer to it, once.
    - [LogStream], [Units], [Logging], [LogFile], [AsyncLogging]: [base/LogStream.*],
      [base/Logging.*], [base/FileUtil.*], [base/LogFile.*], [base/AsyncLogging.*]. From
      the text of one item to the files: nothing overruns, lines are whole and in
      order, and what is dropped is announced. [Units]: three significant digits, the
      nearest value. [Logging]: the right line although times are cached, in
      changing time zones.
    - [Connector], [InetAddress], [Server], [TcpClient]: [net/Connector.*],
      [net/InetAddress.*], address functions of [net/SocketsOps.cc], [net/Acceptor.*],
      [net/TcpServer.*], [net/TcpClient.*]. The retry state machine, addresses as bytes,
      the server's table of connections over all interleavings of its loops, and the
      client together with its connector, whose rules it is shown to keep and which is
      destroyed with its last holder.
    - [Mutex], [Thread]: [base/Mutex.h], [base/Condition.*], [base/Thread.*],
      [base/CurrentThread.cc], [base/Singleton.h], [base/ThreadLocal*.h]. The calls as
      sequences of pthread calls and memory accesses: the holder of a mutex is who it
      says, a thread object may be destroyed at any time after [start()] or never started.
    - [Inspector], [ProcInfo]: [net/inspect/*], [base/ProcessInfo.*]. Routing against a
      registry of commands, through the HTTP server; the pages as functions of the text
      of the files under /proc.
    - [Streams]: [net/ZlibStream.h], [net/protobuf/BufferStream.h]. What goes through a stream is
      in the buffer, compressed by a zlib that keeps the promises of its manual.
    - [LoopObject]: constructors and destructors of [net/EventLoop.cc] and
      [net/TimerQueue.cc], over the poller interface: one loop per thread.
    - [RpcServer]: [net/protorpc/RpcServer.cc], channels and connections by address.
    - [Sockets]: [net/Socket.cc] and the wrappers of [net/SocketsOps.cc].
    - [EndToEnd]: the codec over two connections. [Module Flow] is an induction principle for
      properties of the data that pass through a connection; [messages_delivered]
      composes it with the framing: what one application sends the other is given.
    - [HttpOverTcp]: the callbacks of [HttpServer] on a connection, by the same principle: a
      request that arrives in pieces is answered once, and the client gets the response.
    - [Gzip]: [base/GzipFile.h]; each file is closed exactly once.
    - [Perf]: [net/inspect/PerformanceInspector.*], with gperftools as a class.
    - [Support]: [base/WeakCallback.h], [base/Types.h], [base/Exception.*],
      [net/poller/DefaultPoller.cc], the error texts of [net/protorpc/google-inl.h].

    ** How code is modelled

    - A function is a Rocq function with the same name; a member function takes the
      object and returns it. [result] carries the ways the code stops: a failed
      [assert] (the debug build), an access out of range, a fatal log line, an
      exception of the library, signed overflow. [check] is [assert].
    - Integers are [Z]; unsigned arithmetic wraps and signed arithmetic is checked where
      the code can reach the limit. [double] is exact binary64 arithmetic.
    - Objects with identity (channels, timers, connections) live in stores and are
      named by address; a freed address can be handed out again.
    - Threads are step relations: a critical section is one step, a wait is a state that
      a notification or a spurious wake-up ends. Functors are queued as data.
    - User callbacks, the kernel's answers, the clock, [adler32], protobuf messages,
      [strerror_r] and IPv6 text are parameters or inputs; what is assumed of them is
      a law of a class or a hypothesis, with an instance in the witness.

    ** Rules of the runs

    A theorem about runs names what it asks of them in a predicate [legal] (the kernel
    answers as documented, calls are made within their contract), and says so in its
    comment. Nothing is asked of a run after a call that fails. Where the code does not
    enforce a rule, a lemma next to the theorem shows what breaks without it:
    [TimerQueue.addTimer_return_race], [cancel_before_insert_lost],
    [TcpConnection.connectDestroyed_aborts], [shutdown_race], [shutdown_after_hangup],
    [Loop.early_functor_sleeps], [Connector.early_retry_aborts], [stop_start_aborts],
    [TcpClient.destroy_too_early], [reconnect_aborts], [Logger.stale_zone],
    [AsyncLogging.stop_loses_lines], [stop_drops_buffers],
    [EventLoopThread.wakeup_race], [destructor_races].

    ** Fuel

    Loops that are not structural take a [nat]. [Format.digits] uses the binary
    logarithm, [convert_loop] the number of bits; the binary search of [TimeZone] the
    length of the table; for [Http.parse_loop] and [Codec.receive_loop] the length of
    the buffer is enough, because a round that goes on consumes input
    ([parseRequest_terminates], which also shows that the parser never returns when
    it is entered again after a complete request); [LogFile.append_loop] takes the
    number of bytes left, each round writes at least one or stops;
    [Inspector.split_loop] the length of the path; [Streams.write_loop] and
    [finish_loop] more than the bound zlib gives for the compressed size, since a round
    that goes on fills at least 1024 bytes of output; [Streams.serialize] the
    length of the message; [EndToEnd.codec_calls] is run with the fuel of
    [Codec.onMessage].

    ** Not modelled

    - [ZlibInputStream] and [PerformanceInspector::symbol]: declared, not implemented.
    - [connect], [read], [readv] and [write] of [net/SocketsOps.cc] only forward to the kernel;
      its answers are inputs of the models that use them. Casts between address types,
      empty base classes, the version check of protobuf, and the test programs.
    - pthread itself is assumed to be correct; in the models of its users a critical
      section is one step. zlib, protobuf, the demangler and the kernel are parameters.
    - Strings of 2 GiB and more, whose length does not fit the [int] of [StringPiece],
      keep their length in [TcpConnection.send_buffer] and [HttpResponse.appendToBuffer].
    - Memory is never exhausted, and data races that the code leaves (unlocked reads of
      [bool] members) are read as atomic accesses. *)

From Stdlib Require Export ZArith Lia Ascii.
From stdpp Require Export base tactics strings numbers list.

#[global] Open Scope Z_scope.

(** ** Faults and results

    The C++ code stops in a few ways that are not return values: a failed
    [assert], an access outside an object, a [LOG_FATAL]/[LOG_SYSFATAL]
    (which calls [abort]), an exception of the standard library, and signed
    overflow, which is undefined behaviour. *)

Inductive fault :=
  | AssertFailed
  | OutOfRange
  | FatalLog
  | LengthError
  | SignedOverflow.

#[global] Instance fault_eq_dec : EqDecision fault.
Proof. solve_decision. Defined.

Inductive result (A : Type) :=
  | Ok (a : A)
  | Fail (f : fault).
Arguments Ok {A} a.
Arguments Fail {A} f.

#[global] Instance result_ret : MRet result := @Ok.
#[global] Instance result_bind : MBind result := λ A B k m,
  match m with Ok a => k a | Fail f => Fail f end.
#[global] Instance result_fmap : FMap result := λ A B g m,
  match m with Ok a => Ok (g a) | Fail f => Fail f end.

#[global] Instance result_eq_dec `{EqDecision A} : EqDecision (result A).
Proof. solve_decision. Defined.

(** The computation ends well, or in [std::length_error]: the memory a
    container can have is the only limit. *)
Definition safe {A} (P : A → Prop) (r : result A) : Prop :=
  match r with Ok a => P a | Fail f => f = LengthError end.

Lemma safe_bind {A B} (P : A → Prop) (Q : B → Prop) (r : result A) (k : A → result B) :
  safe P r → (∀ a, P a → safe Q (k a)) → safe Q (r ≫= k).
Proof. destruct r as [a|f]; cbn; [auto|by intros ->]. Qed.

Lemma safe_mono {A} (P Q : A → Prop) (r : result A) :
  safe P r → (∀ a, P a → Q a) → safe Q r.
Proof. destruct r; cbn; auto. Qed.

Lemma safe_Ok {A} (P : A → Prop) (r : result A) a : safe P r → r = Ok a → P a.
Proof. by intros H ->. Qed.

(** A computation on fuel ends, and well unless memory does not suffice. *)
Definition ends_well {A} (P : A → Prop) (o : option (result A)) : Prop :=
  match o with Some r => safe P r | None => False end.

(** [assert(b)] of a debug build. *)
Definition check (b : bool) : result unit := if b then Ok tt else Fail AssertFailed.

Lemma bind_Ok {A B} (a : A) (k : A → result B) : (Ok a ≫= k) = k a.
Proof. reflexivity. Qed.

Lemma bind_Ok_inv {A B} (m : result A) (k : A → result B) b :
  (m ≫= k) = Ok b → ∃ a, m = Ok a ∧ k a = Ok b.
Proof. destruct m; cbn; [eauto|discriminate]. Qed.

Lemma bind_assoc {A B C} (m : result A) (f : A → result B) (g : B → result C) :
  ((m ≫= f) ≫= g) = (m ≫= λ a, f a ≫= g).
Proof. by destruct m. Qed.

Lemma check_true b : b = true → check b = Ok tt.
Proof. by intros ->. Qed.

Lemma check_Ok_inv b u : check b = Ok u → b = true.
Proof. by destruct b. Qed.

(** ** Machine integers

    A [w]-bit unsigned value is a [Z] in [0, 2^w); conversion to a signed type
    of the same width is two's complement. *)
Definition wrapu (w : Z) (z : Z) : Z := z mod 2 ^ w.
Definition wraps (w : Z) (z : Z) : Z := (z + 2 ^ (w - 1)) mod 2 ^ w - 2 ^ (w - 1).

Abbreviation u64 := (wrapu 64).
Abbreviation u32 := (wrapu 32).
Abbreviation s64 := (wraps 64).
Abbreviation s32 := (wraps 32).

Definition in_u (w z : Z) : Prop := 0 ≤ z < 2 ^ w.
Definition in_s (w z : Z) : Prop := - 2 ^ (w - 1) ≤ z < 2 ^ (w - 1).

#[global] Instance in_u_dec w z : Decision (in_u w z).
Proof. unfold in_u. apply _. Defined.
#[global] Instance in_s_dec w z : Decision (in_s w z).
Proof. unfold in_s. apply _. Defined.

(** Signed [int] arithmetic, whose overflow is undefined behaviour. *)
Definition sint (w z : Z) : result Z :=
  if bool_decide (in_s w z) then Ok z else Fail SignedOverflow.

Lemma wrapu_small w z : in_u w z → wrapu w z = z.
Proof. unfold in_u, wrapu. intros. by apply Z.mod_small. Qed.

Lemma wrapu_range w z : 0 ≤ w → in_u w (wrapu w z).
Proof. intros. apply Z.mod_pos_bound. lia. Qed.

Lemma wraps_small w z : 0 < w → in_s w z → wraps w z = z.
Proof.
  unfold in_s, wraps. intros Hw Hz.
  assert (2 ^ w = 2 * 2 ^ (w - 1)) as E.
  { rewrite <- Z.pow_succ_r by lia. f_equal. lia. }
  rewrite Z.mod_small; lia.
Qed.

Lemma wraps_wrapu w z : 0 < w → wraps w (wrapu w z) = wraps w z.
Proof.
  intros Hw. unfold wraps, wrapu. f_equal.
  rewrite Z.add_mod_idemp_l; [done|]. lia.
Qed.

Lemma wrapu_wraps w z : 0 < w → wrapu w (wraps w z) = wrapu w z.
Proof.
  intros Hw. unfold wraps, wrapu.
  rewrite Zminus_mod_idemp_l. f_equal. lia.
Qed.

Lemma wraps_range w z : 0 < w → in_s w (wraps w z).
Proof.
  intros Hw. unfold in_s, wraps.
  pose proof (Z.mod_pos_bound (z + 2 ^ (w - 1)) (2 ^ w) ltac:(lia)).
  assert (2 ^ w = 2 * 2 ^ (w - 1)) as E.
  { rewrite <- Z.pow_succ_r by lia. f_equal. lia. }
  lia.
Qed.

Lemma sint_Ok w z : in_s w z → sint w z = Ok z.
Proof. intros. unfold sint. by rewrite bool_decide_true. Qed.

(** ** Vectors of [char]

    A C++ [std::vector<char>] (or any array of bytes) is a [list ascii];
    indices are [Z], reads and writes outside it are faults. *)
Abbreviation bytes := (list ascii).

Definition zlen {A} (l : list A) : Z := Z.of_nat (length l).
Definition ztake {A} (n : Z) (l : list A) : list A := take (Z.to_nat n) l.
Definition zdrop {A} (n : Z) (l : list A) : list A := drop (Z.to_nat n) l.
Definition zrep {A} (n : Z) (x : A) : list A := replicate (Z.to_nat n) x.

(** [v[i .. i+n)] *)
Definition vec_read {A} (v : list A) (i n : Z) : result (list A) :=
  if bool_decide (0 ≤ i ∧ 0 ≤ n ∧ i + n ≤ zlen v)
  then Ok (ztake n (zdrop i v)) else Fail OutOfRange.

(** [std::copy] of [d] to [v + i]. *)
Definition vec_write {A} (v : list A) (i : Z) (d : list A) : result (list A) :=
  if bool_decide (0 ≤ i ∧ i + zlen d ≤ zlen v)
  then Ok (ztake i v ++ d ++ zdrop (i + zlen d) v) else Fail OutOfRange.

(** [std::vector<char>::resize]: new elements are value-initialised, and a
    request beyond [max_size()] (PTRDIFF_MAX) throws [std::length_error]. *)
Definition vec_max_size : Z := 2 ^ 63 - 1.
Definition vec_resize (v : bytes) (n : Z) : result bytes :=
  if bool_decide (n ≤ vec_max_size)
  then Ok (ztake n v ++ zrep (n - zlen v) "000"%char) else Fail LengthError.

Lemma zlen_nonneg {A} (l : list A) : 0 ≤ zlen l.
Proof. unfold zlen. lia. Qed.

Lemma zlen_nil A : zlen (@nil A) = 0.
Proof. done. Qed.

Lemma zlen_cons {A} (x : A) l : zlen (x :: l) = 1 + zlen l.
Proof. unfold zlen. cbn [length]. lia. Qed.

Lemma zlen_app {A} (l k : list A) : zlen (l ++ k) = zlen l + zlen k.
Proof. unfold zlen. rewrite length_app. lia. Qed.

Lemma zlen_ztake {A} n (l : list A) : 0 ≤ n ≤ zlen l → zlen (ztake n l) = n.
Proof. unfold zlen, ztake. intros. rewrite length_take. lia. Qed.

Lemma zlen_zdrop {A} n (l : list A) : 0 ≤ n ≤ zlen l → zlen (zdrop n l) = zlen l - n.
Proof. unfold zlen, zdrop. intros. rewrite length_drop. lia. Qed.

Lemma zlen_zrep {A} n (x : A) : 0 ≤ n → zlen (zrep n x) = n.
Proof. unfold zlen, zrep. intros. rewrite length_replicate. lia. Qed.

Lemma zrep_nonpos {A} n (x : A) : n ≤ 0 → zrep n x = [].
Proof. intros. unfold zrep. by replace (Z.to_nat n) with 0%nat by lia. Qed.

Lemma zlen_zero_inv {A} (l : list A) : zlen l = 0 → l = [].
Proof. destruct l; [done|]. rewrite zlen_cons. pose proof (zlen_nonneg l). lia. Qed.

Lemma ztake_all {A} n (l : list A) : zlen l ≤ n → ztake n l = l.
Proof. unfold zlen, ztake. intros. apply take_ge. lia. Qed.

Lemma zdrop_all {A} n (l : list A) : zlen l ≤ n → zdrop n l = [].
Proof. unfold zlen, zdrop. intros. apply drop_ge. lia. Qed.

Lemma zdrop_0 {A} (l : list A) : zdrop 0 l = l.
Proof. done. Qed.

Lemma ztake_0 {A} (l : list A) : ztake 0 l = [].
Proof. done. Qed.

Lemma ztake_zdrop {A} n (l : list A) : ztake n l ++ zdrop n l = l.
Proof. apply take_drop. Qed.

Lemma zdrop_zdrop {A} n m (l : list A) :
  0 ≤ n → 0 ≤ m → zdrop n (zdrop m l) = zdrop (m + n) l.
Proof. intros. unfold zdrop. rewrite drop_drop. f_equal. lia. Qed.

Lemma ztake_app_exact {A} n (l k : list A) : zlen l = n → ztake n (l ++ k) = l.
Proof. intros <-. unfold zlen, ztake. rewrite Nat2Z.id. apply take_app_length. Qed.

Lemma zdrop_app_exact {A} n (l k : list A) : zlen l = n → zdrop n (l ++ k) = k.
Proof. intros <-. unfold zlen, zdrop. rewrite Nat2Z.id. apply drop_app_length. Qed.

Lemma ztake_app_le {A} n (l k : list A) : n ≤ zlen l → ztake n (l ++ k) = ztake n l.
Proof. unfold zlen, ztake. intros. apply take_app_le. lia. Qed.

Lemma zdrop_app_le {A} n (l k : list A) : n ≤ zlen l → zdrop n (l ++ k) = zdrop n l ++ k.
Proof. unfold zlen, zdrop. intros. apply drop_app_le. lia. Qed.

Lemma ztake_app_ge {A} n (l k : list A) :
  zlen l ≤ n → ztake n (l ++ k) = l ++ ztake (n - zlen l) k.
Proof.
  unfold zlen, ztake. intros. rewrite take_app_ge by lia. do 2 f_equal. lia.
Qed.

Lemma zdrop_app_ge {A} n (l k : list A) :
  zlen l ≤ n → zdrop n (l ++ k) = zdrop (n - zlen l) k.
Proof.
  unfold zlen, zdrop. intros. rewrite drop_app_ge by lia. f_equal. lia.
Qed.

Lemma ztake_ztake {A} n m (l : list A) : n ≤ m → ztake n (ztake m l) = ztake n l.
Proof. intros. unfold ztake. rewrite take_take. f_equal. lia. Qed.

Lemma zdrop_ztake {A} n m (l : list A) :
  0 ≤ n ≤ m → zdrop n (ztake m l) = ztake (m - n) (zdrop n l).
Proof.
  intros. unfold ztake, zdrop. rewrite skipn_firstn_comm. f_equal. lia.
Qed.

Lemma filter_all {A} (P : A → Prop) `{!∀ x, Decision (P x)} (l : list A) :
  (∀ x, x ∈ l → P x) → filter P l = l.
Proof.
  induction l as [|x l IH]; intros Hin; [done|].
  rewrite filter_cons_True by (apply Hin; left). f_equal. apply IH. intros. apply Hin. by right.
Qed.

Lemma filter_none {A} (P : A → Prop) `{!∀ x, Decision (P x)} (l : list A) :
  (∀ x, x ∈ l → ¬ P x) → filter P l = [].
Proof.
  induction l as [|x l IH]; intros Hin; [done|].
  rewrite filter_cons_False by (apply Hin; left). apply IH. intros. apply Hin. by right.
Qed.

Lemma fmap_ext_in {A B} (f g : A → B) (l : list A) : (∀ x, x ∈ l → f x = g x) → f <$> l = g <$> l.
Proof.
  intros Hfg. induction l as [|x l IH]; [done|]. cbn. f_equal; [apply Hfg; left|].
  apply IH. intros y Hy. apply Hfg. by right.
Qed.

(** ** Counting *)

Definition b2z (b : bool) : Z := if b then 1 else 0.
Fixpoint count {A} (f : A → bool) (l : list A) : Z :=
  match l with [] => 0 | x :: l => b2z (f x) + count f l end.

Lemma count_app {A} (f : A → bool) l k : count f (l ++ k) = count f l + count f k.
Proof. induction l as [|x l IH]; cbn; [done|]. rewrite IH. lia. Qed.

Lemma count_nonneg {A} (f : A → bool) l : 0 ≤ count f l.
Proof. induction l as [|x l IH]; cbn; [done|]. unfold b2z. case_match; lia. Qed.

Lemma count_insert {A} (f : A → bool) (l : list A) i x y :
  l !! i = Some x → count f (<[i := y]> l) = count f l - b2z (f x) + b2z (f y).
Proof.
  revert i. induction l as [|z l IH]; intros [|i] Hi; cbn in Hi; simplify_eq; [cbn; lia|].
  change (<[S i := y]> (z :: l)) with (z :: <[i := y]> l). cbn [count]. rewrite (IH i Hi). lia.
Qed.

Lemma count_pos {A} (f : A → bool) l : 0 < count f l ↔ ∃ i x, l !! i = Some x ∧ f x = true.
Proof.
  induction l as [|z l IH]; cbn; [split; [lia|by intros (i & x & Hi & _)]|].
  pose proof (count_nonneg f l). unfold b2z. destruct (f z) eqn:E.
  - split; [|lia]. intros _. by exists 0%nat, z.
  - rewrite Z.add_0_l, IH. split; intros (i & x & Hi & Hx).
    + by exists (S i), x.
    + destruct i as [|i]; cbn in Hi; [congruence|]. eauto.
Qed.

Lemma count_zero {A} (f : A → bool) l i x : count f l = 0 → l !! i = Some x → f x = false.
Proof.
  intros H0 Hi. destruct (f x) eqn:E; [|done].
  assert (0 < count f l) by (apply count_pos; eauto). lia.
Qed.

Create Rewrite HintDb zlen.
#[export] Hint Rewrite @zlen_nil @zlen_cons @zlen_app : zlen.
#[export] Hint Rewrite @zlen_ztake @zlen_zdrop @zlen_zrep using (unfold zlen in *; lia) : zlen.

Lemma vec_read_Ok {A} (v : list A) i n :
  0 ≤ i → 0 ≤ n → i + n ≤ zlen v → vec_read v i n = Ok (ztake n (zdrop i v)).
Proof. intros. unfold vec_read. by rewrite bool_decide_true. Qed.

Lemma vec_write_Ok {A} (v : list A) i d :
  0 ≤ i → i + zlen d ≤ zlen v →
  vec_write v i d = Ok (ztake i v ++ d ++ zdrop (i + zlen d) v).
Proof. intros. unfold vec_write. by rewrite bool_decide_true. Qed.

Lemma vec_resize_grow v n :
  zlen v ≤ n ≤ vec_max_size → vec_resize v n = Ok (v ++ zrep (n - zlen v) "000"%char).
Proof.
  intros. unfold vec_resize. rewrite bool_decide_true by lia. by rewrite ztake_all by lia.
Qed.

(** ** Tactics *)

(** Invert every monadic equation [_ = Ok _] in the context. *)
Ltac inv_result :=
  repeat match goal with
  | H : (_ ≫= _) = Ok _ |- _ =>
      let a := fresh "r" in let H1 := fresh "Hr" in
      apply bind_Ok_inv in H as (a & H1 & H)
  | H : check _ = Ok _ |- _ => apply check_Ok_inv in H
  | H : Ok _ = Ok _ |- _ => injection H; clear H; intros; subst
  | H : Fail _ = Ok _ |- _ => discriminate H
  end.

(** Turn boolean tests of the code into propositions. *)
Ltac to_prop :=
  repeat match goal with
  | H : bool_decide _ = true |- _ => apply bool_decide_eq_true in H
  | H : bool_decide _ = false |- _ => apply bool_decide_eq_false in H
  | H : (_ && _) = true |- _ => apply andb_true_iff in H as [? ?]
  | H : (_ || _) = false |- _ => apply orb_false_iff in H as [? ?]
  | H : negb _ = true |- _ => apply negb_true_iff in H
  | H : negb _ = false |- _ => apply negb_false_iff in H
  | H : (_ <? _) = true |- _ => apply Z.ltb_lt in H
  | H : (_ <? _) = false |- _ => apply Z.ltb_ge in H
  | H : (_ <=? _) = true |- _ => apply Z.leb_le in H
  | H : (_ <=? _) = false |- _ => apply Z.leb_gt in H
  | H : (_ =? _) = true |- _ => apply Z.eqb_eq in H
  | H : (_ =? _) = false |- _ => apply Z.eqb_neq in H
  end.

(** Linear arithmetic over lengths. *)
Ltac zlia := autorewrite with zlen in *; unfold in_u, in_s, vec_max_size in *; lia.
