(* ===== verification/Endian.v ===== *)
(** * Byte order ([net/Endian.h])

    The host's byte order is a parameter ([Host]); every statement below and
    in the clients holds for both. An [n]-byte integer is stored in memory as
    [obj_bytes n]; [hostToNetworkNN]/[networkToHostNN] are the [htobeNN] and
    [beNNtoh] of <endian.h>. *)

From S2P Require Import Prelude.

Module Endian.

(** [true] on a big-endian host. *)
Class Host := host_big : bool.

Definition byte_of (z : Z) : ascii := ascii_of_N (Z.to_N (z mod 256)).
Definition byte_val (c : ascii) : Z := Z.of_N (N_of_ascii c).

Fixpoint le_bytes (n : nat) (z : Z) : bytes :=
  match n with
  | O => []
  | S n => byte_of z :: le_bytes n (z / 256)
  end.

Fixpoint le_val (l : bytes) : Z :=
  match l with
  | [] => 0
  | c :: l => byte_val c + 256 * le_val l
  end.

Definition be_bytes (n : nat) (z : Z) : bytes := reverse (le_bytes n z).
Definition be_val (l : bytes) : Z := le_val (reverse l).

(** <endian.h>: reverse the bytes of an [n]-byte unsigned value. *)
Definition bswap (n : nat) (z : Z) : Z := le_val (reverse (le_bytes n z)).

Section Host.
Context {H : Host}.

(** The object representation of an [n]-byte integer, and its inverse, as
    [memcpy] and [append(&x, sizeof x)] see it. *)
Definition obj_bytes (n : nat) (z : Z) : bytes :=
  if host_big then be_bytes n z else le_bytes n z.
Definition obj_val (l : bytes) : Z :=
  if host_big then be_val l else le_val l.

Definition htobe (n : nat) (z : Z) : Z := if host_big then z else bswap n z.
Definition betoh (n : nat) (z : Z) : Z := if host_big then z else bswap n z.

Definition hostToNetwork64 (host64 : Z) : Z := htobe 8 host64.
Definition hostToNetwork32 (host32 : Z) : Z := htobe 4 host32.
Definition hostToNetwork16 (host16 : Z) : Z := htobe 2 host16.
Definition networkToHost64 (net64 : Z) : Z := betoh 8 net64.
Definition networkToHost32 (net32 : Z) : Z := betoh 4 net32.
Definition networkToHost16 (net16 : Z) : Z := betoh 2 net16.

End Host.

(** ** Facts *)

Lemma byte_val_range c : 0 ≤ byte_val c < 256.
Proof. unfold byte_val. pose proof (N_ascii_bounded c). lia. Qed.

Lemma byte_val_of z : byte_val (byte_of z) = z mod 256.
Proof.
  unfold byte_val, byte_of. pose proof (Z.mod_pos_bound z 256 ltac:(lia)).
  rewrite N_ascii_embedding by lia. lia.
Qed.

Lemma byte_of_val c : byte_of (byte_val c) = c.
Proof.
  unfold byte_of. rewrite Z.mod_small by apply byte_val_range.
  unfold byte_val. rewrite N2Z.id. apply ascii_N_embedding.
Qed.

Lemma length_le_bytes n z : length (le_bytes n z) = n.
Proof. revert z. induction n; intros; cbn; auto. Qed.

Lemma length_be_bytes n z : length (be_bytes n z) = n.
Proof. unfold be_bytes. by rewrite length_reverse, length_le_bytes. Qed.

Lemma length_obj_bytes `{Host} n z : length (obj_bytes n z) = n.
Proof. unfold obj_bytes. case_match; auto using length_le_bytes, length_be_bytes. Qed.

Lemma le_val_bytes n z : le_val (le_bytes n z) = z mod 256 ^ Z.of_nat n.
Proof.
  revert z. induction n as [|n IH]; intros z; cbn [le_bytes le_val].
  - by rewrite Z.mod_1_r.
  - rewrite IH, byte_val_of, Nat2Z.inj_succ, Z.pow_succ_r by lia.
    rewrite Z.rem_mul_r by lia. done.
Qed.

Lemma le_bytes_val l : le_bytes (length l) (le_val l) = l.
Proof.
  induction l as [|c l IH]; [done|]. cbn [length le_bytes le_val].
  pose proof (byte_val_range c). rewrite (Z.add_comm (byte_val c)), (Z.mul_comm 256).
  rewrite Z.div_add_l by lia. rewrite (Z.div_small (byte_val c)) by lia.
  rewrite Z.add_0_r, IH. f_equal.
  unfold byte_of. rewrite Z.add_comm, Z.mod_add by lia.
  fold (byte_of (byte_val c)). apply byte_of_val.
Qed.

Lemma le_bytes_mod n z : le_bytes n (z mod 256 ^ Z.of_nat n) = le_bytes n z.
Proof.
  rewrite <- le_val_bytes. rewrite <- (length_le_bytes n z) at 1. apply le_bytes_val.
Qed.

Lemma be_val_bytes n z : be_val (be_bytes n z) = z mod 256 ^ Z.of_nat n.
Proof. unfold be_val, be_bytes. by rewrite reverse_involutive, le_val_bytes. Qed.

Lemma be_bytes_val n l : length l = n → be_bytes n (be_val l) = l.
Proof.
  intros <-. unfold be_val, be_bytes.
  rewrite <- (length_reverse l), le_bytes_val. apply reverse_involutive.
Qed.

(** What a client that stores [hostToNetwork] of a value puts in memory is the
    big-endian encoding, on either host. *)
Lemma obj_bytes_htobe `{Host} n z : obj_bytes n (htobe n z) = be_bytes n z.
Proof.
  unfold obj_bytes, htobe, bswap, be_bytes. case_match; [done|].
  rewrite <- (length_le_bytes n z) at 1. rewrite <- length_reverse.
  apply le_bytes_val.
Qed.

Lemma betoh_obj_val `{Host} n l : length l = n → betoh n (obj_val l) = be_val l.
Proof.
  unfold obj_val, betoh, bswap, be_val. case_match; [done|].
  intros <-. by rewrite le_bytes_val.
Qed.

Lemma be_val_range l : 0 ≤ be_val l < 256 ^ zlen l.
Proof.
  rewrite <- (be_bytes_val (length l) l eq_refl) at 1 2.
  rewrite be_val_bytes. apply Z.mod_pos_bound. unfold zlen. lia.
Qed.

End Endian.
