(* ===== verification/StringPiece.v ===== *)
(** * StringPiece ([base/StringPiece.h])

    A [StringPiece] is a pointer into some object together with an [int]
    length. The object is a list of bytes and the pointer an offset into it;
    reading outside the object is a fault. *)

From S2P Require Import Prelude Endian.
Import Endian.

Module StringPiece.

Record StringPiece := mkPiece { obj : bytes; ptr_ : Z; length_ : Z }.

(** ** <string.h> *)

Definition NUL : ascii := "000"%char.

(** [strlen] of the object seen from an offset: no terminator, no result. *)
Fixpoint strlen_at (l : bytes) : result Z :=
  match l with
  | [] => Fail OutOfRange
  | c :: l => if bool_decide (c = NUL) then Ok 0 else n ← strlen_at l; Ok (1 + n)
  end.

(** Sign of [memcmp]: the first differing byte, compared as unsigned char. *)
Fixpoint memcmp (a b : bytes) : Z :=
  match a, b with
  | x :: a, y :: b =>
      if byte_val x <? byte_val y then -1
      else if byte_val y <? byte_val x then 1 else memcmp a b
  | _, _ => 0
  end.

(** ** Constructors *)

Definition of_nothing : StringPiece := mkPiece [] 0 0.
Definition of_cstr (str : bytes) : result StringPiece :=
  n ← strlen_at str; Ok (mkPiece str 0 (s32 n)).
Definition of_string (str : bytes) : StringPiece := mkPiece str 0 (s32 (zlen str)).
Definition of_ptr_len (o : bytes) (offset len : Z) : StringPiece := mkPiece o offset len.

(** ** Accessors *)

Definition data (p : StringPiece) : Z := ptr_ p.
Definition size (p : StringPiece) : Z := length_ p.
Definition empty (p : StringPiece) : bool := length_ p =? 0.

(** The bytes from [ptr_], as a function that takes [(ptr, n)] reads them. *)
Definition mem (p : StringPiece) (n : Z) : result bytes := vec_read (obj p) (ptr_ p) n.

Definition index (p : StringPiece) (i : Z) : result ascii :=
  l ← vec_read (obj p) (ptr_ p + i) 1;
  match l with c :: _ => Ok c | [] => Fail OutOfRange end.

(** ** Mutators *)

Definition clear (_ : StringPiece) : StringPiece := of_nothing.

Definition remove_prefix (p : StringPiece) (n : Z) : result StringPiece :=
  check_ptr ← (if bool_decide (0 ≤ ptr_ p + n ≤ zlen (obj p)) then Ok tt else Fail OutOfRange);
  len ← sint 32 (length_ p - n);
  Ok (mkPiece (obj p) (ptr_ p + n) len).

Definition remove_suffix (p : StringPiece) (n : Z) : result StringPiece :=
  len ← sint 32 (length_ p - n);
  Ok (mkPiece (obj p) (ptr_ p) len).

(** ** Comparison *)

Definition memcmp_n (p x : StringPiece) (n : Z) : result Z :=
  a ← mem p n; b ← mem x n; Ok (memcmp a b).

Definition eqb (p x : StringPiece) : result bool :=
  if length_ p =? length_ x
  then r ← memcmp_n p x (length_ p); Ok (r =? 0)
  else Ok false.

Definition neqb (p x : StringPiece) : result bool := b ← eqb p x; Ok (negb b).

Definition minlen (p x : StringPiece) : Z :=
  if length_ p <? length_ x then length_ p else length_ x.

(** STRINGPIECE_BINARY_PREDICATE(cmp, auxcmp) *)
Definition binary_predicate (cmp auxcmp : Z → Z → bool) (p x : StringPiece) : result bool :=
  r ← memcmp_n p x (minlen p x);
  Ok (auxcmp r 0 || ((r =? 0) && cmp (length_ p) (length_ x))).

Definition ltb := binary_predicate Z.ltb Z.ltb.
Definition leb := binary_predicate Z.leb Z.ltb.
Definition geb := binary_predicate Z.geb Z.gtb.
Definition gtb := binary_predicate Z.gtb Z.gtb.

Definition compare (p x : StringPiece) : result Z :=
  r ← memcmp_n p x (minlen p x);
  if r =? 0
  then if length_ p <? length_ x then Ok (-1)
       else if length_ x <? length_ p then Ok 1 else Ok r
  else Ok r.

Definition as_string (p : StringPiece) : result bytes := mem p (length_ p).
Definition CopyToString (p : StringPiece) (target : bytes) : result bytes := mem p (length_ p).

Definition starts_with (p x : StringPiece) : result bool :=
  if length_ x <=? length_ p
  then r ← memcmp_n p x (length_ x); Ok (r =? 0)
  else Ok false.

(** ** Specification

    A piece denotes the byte string [s] when its pointer and length select it. *)
Definition denotes (p : StringPiece) (s : bytes) : Prop :=
  zlen s = length_ p ∧ mem p (length_ p) = Ok s.

(** Lexicographic order on byte strings, bytes compared as unsigned. *)
Fixpoint lex (a b : bytes) : comparison :=
  match a, b with
  | [], [] => Eq
  | [], _ :: _ => Lt
  | _ :: _, [] => Gt
  | x :: a, y :: b =>
      match byte_val x ?= byte_val y with Eq => lex a b | c => c end
  end.

Definition sign_of (c : comparison) : Z :=
  match c with Lt => -1 | Eq => 0 | Gt => 1 end.

Lemma denotes_mem p s n :
  denotes p s → 0 ≤ n ≤ length_ p → mem p n = Ok (ztake n s).
Proof.
  intros [Hl Hm] Hn. unfold mem in *. unfold vec_read in *. case_bool_decide; [|done].
  rewrite bool_decide_true by lia. f_equal. injection Hm as <-.
  symmetry. apply ztake_ztake; lia.
Qed.

Lemma memcmp_prefix_lex a b :
  let n := Z.min (zlen a) (zlen b) in
  let r := memcmp (ztake n a) (ztake n b) in
  sign_of (lex a b) = if r =? 0 then sign_of (zlen a ?= zlen b) else r.
Proof.
  revert b. induction a as [|x a IH]; intros b n r.
  - subst n r. destruct b as [|y b]; [done|]. rewrite zlen_nil, zlen_cons.
    pose proof (zlen_nonneg b). rewrite Z.min_l by lia.
    by rewrite (proj2 (Z.compare_lt_iff 0 (1 + zlen b))) by lia.
  - destruct b as [|y b].
    + subst n r. rewrite zlen_nil, zlen_cons. pose proof (zlen_nonneg a).
      rewrite Z.min_r by lia.
      by rewrite (proj2 (Z.compare_gt_iff (1 + zlen a) 0)) by lia.
    + specialize (IH b). cbn zeta in IH. pose proof (zlen_nonneg a). pose proof (zlen_nonneg b).
      assert (n = 1 + Z.min (zlen a) (zlen b)) as Hn by (subst n; rewrite !zlen_cons; lia).
      assert (∀ (z : ascii) (l : bytes), ztake n (z :: l) = z :: ztake (Z.min (zlen a) (zlen b)) l) as Ht.
      { intros. rewrite Hn. unfold ztake.
        rewrite Z2Nat.inj_add by lia. done. }
      subst r. rewrite !Ht. cbn [memcmp lex].
      rewrite !zlen_cons, (Zcompare_plus_compat _ _ 1).
      destruct (byte_val x ?= byte_val y) eqn:E.
      * apply Z.compare_eq in E. rewrite (proj2 (Z.ltb_ge (byte_val x) (byte_val y))) by lia.
        rewrite (proj2 (Z.ltb_ge (byte_val y) (byte_val x))) by lia. apply IH.
      * apply Z.compare_lt_iff in E. by rewrite (proj2 (Z.ltb_lt _ _)).
      * apply Z.compare_gt_iff in E.
        rewrite (proj2 (Z.ltb_ge (byte_val x) (byte_val y))) by lia.
        by rewrite (proj2 (Z.ltb_lt (byte_val y) (byte_val x))).
Qed.

Lemma memcmp_n_denotes p x a b n :
  denotes p a → denotes x b → 0 ≤ n ≤ Z.min (zlen a) (zlen b) →
  memcmp_n p x n = Ok (memcmp (ztake n a) (ztake n b)).
Proof.
  intros Ha Hb Hn. pose proof Ha as [Hla _]. pose proof Hb as [Hlb _]. unfold memcmp_n.
  rewrite (denotes_mem p a), (denotes_mem x b) by (auto; lia). done.
Qed.

Lemma minlen_min p x : minlen p x = Z.min (length_ p) (length_ x).
Proof. unfold minlen. destruct (Z.ltb_spec (length_ p) (length_ x)); lia. Qed.

(** The macro-generated predicates in terms of the lexicographic order. *)
Lemma binary_predicate_lex cmp auxcmp p x a b :
  denotes p a → denotes x b →
  (∀ i j, cmp i j = auxcmp i j || ((i =? j) && cmp 0 0)) →
  (∀ c, auxcmp (sign_of c) 0 = true → c ≠ Eq) →
  (∀ i j, auxcmp i j = auxcmp (sign_of (i ?= j)) 0) →
  binary_predicate cmp auxcmp p x =
    Ok (auxcmp (sign_of (lex a b)) 0 || ((sign_of (lex a b) =? 0) && cmp 0 0)).
Proof.
  intros Ha Hb Hcmp Heq Hsign. unfold binary_predicate.
  pose proof Ha as [Hla _]. pose proof Hb as [Hlb _].
  pose proof (zlen_nonneg a). pose proof (zlen_nonneg b).
  rewrite minlen_min, (memcmp_n_denotes p x a b) by (auto; lia). cbn.
  f_equal. pose proof (memcmp_prefix_lex a b) as E. cbn zeta in E.
  rewrite <- Hla, <- Hlb. rewrite E. destruct (memcmp _ _ =? 0) eqn:E0.
  - apply Z.eqb_eq in E0. rewrite E0. rewrite Hcmp, (Hsign (zlen a)).
    assert (auxcmp 0 0 = false) as ->.
    { destruct (auxcmp 0 0) eqn:E1; [|done]. by destruct (Heq Eq E1). }
    cbn. f_equal. f_equal. destruct (Z.compare_spec (zlen a) (zlen b)); cbn;
      [by apply Z.eqb_eq|by apply Z.eqb_neq; lia..].
  - rewrite E0. by rewrite !orb_false_r.
Qed.

Lemma compare_lex p x a b :
  denotes p a → denotes x b → compare p x = Ok (sign_of (lex a b)).
Proof.
  intros Ha Hb. unfold compare. pose proof Ha as [Hla _]. pose proof Hb as [Hlb _].
  pose proof (zlen_nonneg a). pose proof (zlen_nonneg b).
  rewrite minlen_min, (memcmp_n_denotes p x a b) by (auto; lia). cbn.
  pose proof (memcmp_prefix_lex a b) as E. cbn zeta in E. rewrite <- Hla, <- Hlb, E.
  destruct (memcmp _ _ =? 0) eqn:E0; [|done]. apply Z.eqb_eq in E0. rewrite E0.
  destruct (Z.compare_spec (zlen a) (zlen b)).
  - rewrite !(proj2 (Z.ltb_ge _ _)) by lia. done.
  - by rewrite (proj2 (Z.ltb_lt _ _)).
  - rewrite (proj2 (Z.ltb_ge (zlen a) (zlen b))) by lia. by rewrite (proj2 (Z.ltb_lt _ _)).
Qed.

(** The order the operators decide is total and antisymmetric. *)
Lemma lex_eq a b : lex a b = Eq ↔ a = b.
Proof.
  revert b. induction a as [|x a IH]; intros [|y b]; cbn; try done.
  destruct (Z.compare_spec (byte_val x) (byte_val y)) as [E|E|E].
  - rewrite IH. rewrite <- (byte_of_val x), <- (byte_of_val y), E. naive_solver.
  - split; [done|]. intros [= -> ->]. lia.
  - split; [done|]. intros [= -> ->]. lia.
Qed.

Lemma memcmp_zero a b : zlen a = zlen b → (memcmp a b =? 0) = bool_decide (a = b).
Proof.
  intros Hl. pose proof (memcmp_prefix_lex a b) as E. cbn zeta in E.
  rewrite Hl, Z.min_id, Z.compare_refl, !ztake_all in E by lia.
  destruct (memcmp a b =? 0) eqn:E0; symmetry.
  - apply bool_decide_eq_true. apply lex_eq. by destruct (lex a b).
  - apply bool_decide_eq_false. intros Hab. apply lex_eq in Hab. rewrite Hab in E.
    cbn in E. to_prop. lia.
Qed.

Lemma eqb_spec p x a b :
  denotes p a → denotes x b → eqb p x = Ok (bool_decide (a = b)).
Proof.
  intros Ha Hb. unfold eqb. pose proof Ha as [Hla _]. pose proof Hb as [Hlb _].
  pose proof (zlen_nonneg a). destruct (Z.eqb_spec (length_ p) (length_ x)) as [E|E].
  - rewrite (memcmp_n_denotes p x a b) by (auto; lia). cbn.
    rewrite !ztake_all by lia. f_equal. apply memcmp_zero. lia.
  - f_equal. symmetry. apply bool_decide_eq_false. intros ->. lia.
Qed.

Lemma prefix_ztake (a b : bytes) : b `prefix_of` a ↔ ztake (zlen b) a = b.
Proof.
  split.
  - intros [k ->]. by apply ztake_app_exact.
  - intros E. exists (zdrop (zlen b) a). rewrite <- E at 1. by rewrite ztake_zdrop.
Qed.

(** the relational operators and [compare] of a StringPiece decide the
    lexicographic order (bytes as unsigned char, shorter prefix first) of the
    strings the two pieces denote, [==] decides their equality, and
    [starts_with] the prefix relation. *)
Theorem operators_lexicographic p x a b :
  denotes p a → denotes x b →
  compare p x = Ok (sign_of (lex a b)) ∧
  eqb p x = Ok (bool_decide (a = b)) ∧
  ltb p x = Ok (bool_decide (lex a b = Lt)) ∧
  leb p x = Ok (bool_decide (lex a b ≠ Gt)) ∧
  geb p x = Ok (bool_decide (lex a b ≠ Lt)) ∧
  gtb p x = Ok (bool_decide (lex a b = Gt)) ∧
  starts_with p x = Ok (bool_decide (b `prefix_of` a)).
Proof.
  intros Ha Hb. split; [by apply compare_lex|]. split; [by apply eqb_spec|].
  do 4 (split; [unfold ltb, leb, geb, gtb;
    rewrite (binary_predicate_lex _ _ p x a b Ha Hb); [by destruct (lex a b)|..];
    try (intros []; done); try (intros i j; lia);
    intros i j; destruct (Z.compare_spec i j); cbn; lia|]).
  unfold starts_with. pose proof Ha as [Hla _]. pose proof Hb as [Hlb _].
  pose proof (zlen_nonneg b). destruct (Z.leb_spec (length_ x) (length_ p)).
  - rewrite (memcmp_n_denotes p x a b) by (auto; lia). cbn. f_equal.
    rewrite (ztake_all _ b) by lia. rewrite memcmp_zero by (autorewrite with zlen; lia).
    apply bool_decide_ext. by rewrite prefix_ztake, <- Hlb.
  - f_equal. symmetry. apply bool_decide_eq_false. intros [k ->]. rewrite zlen_app in Hla.
    pose proof (zlen_nonneg k). lia.
Qed.

Definition piece_ab : StringPiece := of_ptr_len (String.list_ascii_of_string "xabz") 1 2.
Definition piece_abc : StringPiece := of_string (String.list_ascii_of_string "abc").

Lemma operators_lexicographic_witness :
  ltb piece_ab piece_abc = Ok true ∧ starts_with piece_abc piece_ab = Ok true.
Proof.
  destruct (operators_lexicographic piece_ab piece_abc
    (String.list_ascii_of_string "ab") (String.list_ascii_of_string "abc"))
    as (_ & _ & H & _); [split; reflexivity..|].
  destruct (operators_lexicographic piece_abc piece_ab
    (String.list_ascii_of_string "abc") (String.list_ascii_of_string "ab"))
    as (_ & _ & _ & _ & _ & _ & H'); [split; reflexivity..|].
  split; [rewrite H; reflexivity|rewrite H'; reflexivity].
Defined.

End StringPiece.
