(* ===== verification/NetBuffer.v ===== *)
(** * Buffer ([net/Buffer.h], [net/Buffer.cc])

    The buffer keeps its vector and the two indices as the class does. Sizes
    are [size_t] values: sums and differences wrap modulo 2^64, as written in
    the code. Pointers into the buffer ([peek()], [beginWrite()], the results
    of [findCRLF]) are offsets from [begin()]. Every [assert] is checked. *)

From S2P Require Import Prelude Endian StringPiece.
Import Endian.

Module Buffer.

Record Buffer := mkBuffer {
  buffer_ : bytes;
  readerIndex_ : Z;
  writerIndex_ : Z
}.

Definition kCheapPrepend : Z := 8.
Definition kInitialSize : Z := 1024.
Definition CR : ascii := "013"%char.
Definition LF : ascii := "010"%char.
Definition kCRLF : bytes := [CR; LF].

(** ** <algorithm>, <string.h> over a byte range *)

Fixpoint is_prefix (p l : bytes) : bool :=
  match p, l with
  | [], _ => true
  | x :: p, y :: l => bool_decide (x = y) && is_prefix p l
  | _ :: _, [] => false
  end.

(** [std::search]: offset of the first occurrence, or the end of the range. *)
Fixpoint search (pat l : bytes) : Z :=
  if is_prefix pat l then 0
  else match l with [] => 0 | _ :: l => 1 + search pat l end.

(** [std::find] *)
Fixpoint find (c : ascii) (l : bytes) : Z :=
  match l with
  | [] => 0
  | x :: l => if bool_decide (x = c) then 0 else 1 + find c l
  end.

(** [memchr] *)
Definition memchr (c : ascii) (l : bytes) : option Z :=
  let i := find c l in if i =? zlen l then None else Some i.

(** ** Observers *)

Definition size (b : Buffer) : Z := zlen (buffer_ b).
Definition readableBytes (b : Buffer) : Z := u64 (writerIndex_ b - readerIndex_ b).
Definition writableBytes (b : Buffer) : Z := u64 (size b - writerIndex_ b).
Definition prependableBytes (b : Buffer) : Z := readerIndex_ b.
Definition peek (b : Buffer) : Z := readerIndex_ b.
Definition beginWrite (b : Buffer) : Z := writerIndex_ b.

(** The bytes of the range [start, end) of the buffer. *)
Definition range (b : Buffer) (first last : Z) : result bytes :=
  vec_read (buffer_ b) first (last - first).

Definition make (initialSize : Z) : result Buffer :=
  v ← vec_resize [] (u64 (kCheapPrepend + initialSize));
  let b := mkBuffer v kCheapPrepend kCheapPrepend in
  _ ← check (readableBytes b =? 0);
  _ ← check (writableBytes b =? initialSize);
  _ ← check (prependableBytes b =? kCheapPrepend);
  Ok b.

Definition swap (b rhs : Buffer) : Buffer * Buffer := (rhs, b).

Definition findCRLF (b : Buffer) : result (option Z) :=
  l ← range b (peek b) (beginWrite b);
  let crlf := peek b + search kCRLF l in
  Ok (if crlf =? beginWrite b then None else Some crlf).

Definition findCRLF_from (b : Buffer) (start : Z) : result (option Z) :=
  _ ← check (peek b <=? start);
  _ ← check (start <=? beginWrite b);
  l ← range b start (beginWrite b);
  let crlf := start + search kCRLF l in
  Ok (if crlf =? beginWrite b then None else Some crlf).

Definition findEOL (b : Buffer) : result (option Z) :=
  l ← vec_read (buffer_ b) (peek b) (readableBytes b);
  Ok (Z.add (peek b) <$> memchr LF l).

Definition findEOL_from (b : Buffer) (start : Z) : result (option Z) :=
  _ ← check (peek b <=? start);
  _ ← check (start <=? beginWrite b);
  l ← range b start (beginWrite b);
  Ok (Z.add start <$> memchr LF l).

(** ** Consuming *)

Definition retrieveAll (b : Buffer) : Buffer :=
  mkBuffer (buffer_ b) kCheapPrepend kCheapPrepend.

Definition retrieve (b : Buffer) (len : Z) : result Buffer :=
  _ ← check (len <=? readableBytes b);
  if len <? readableBytes b
  then Ok (mkBuffer (buffer_ b) (u64 (readerIndex_ b + len)) (writerIndex_ b))
  else Ok (retrieveAll b).

Definition retrieveUntil (b : Buffer) (last : Z) : result Buffer :=
  _ ← check (peek b <=? last);
  _ ← check (last <=? beginWrite b);
  retrieve b (u64 (last - peek b)).

Definition retrieveInt64 (b : Buffer) : result Buffer := retrieve b 8.
Definition retrieveInt32 (b : Buffer) : result Buffer := retrieve b 4.
Definition retrieveInt16 (b : Buffer) : result Buffer := retrieve b 2.
Definition retrieveInt8 (b : Buffer) : result Buffer := retrieve b 1.

Definition retrieveAsString (b : Buffer) (len : Z) : result (Buffer * bytes) :=
  _ ← check (len <=? readableBytes b);
  s ← vec_read (buffer_ b) (peek b) len;
  b' ← retrieve b len;
  Ok (b', s).

Definition retrieveAllAsString (b : Buffer) : result (Buffer * bytes) :=
  retrieveAsString b (readableBytes b).

Definition toStringPiece (b : Buffer) : StringPiece.StringPiece :=
  StringPiece.of_ptr_len (buffer_ b) (peek b) (s32 (readableBytes b)).

(** ** Producing *)

Definition makeSpace (b : Buffer) (len : Z) : result Buffer :=
  if u64 (writableBytes b + prependableBytes b) <? u64 (len + kCheapPrepend)
  then
    v ← vec_resize (buffer_ b) (u64 (writerIndex_ b + len));
    Ok (mkBuffer v (readerIndex_ b) (writerIndex_ b))
  else
    _ ← check (kCheapPrepend <? readerIndex_ b);
    let readable := readableBytes b in
    d ← range b (readerIndex_ b) (writerIndex_ b);
    v ← vec_write (buffer_ b) kCheapPrepend d;
    let b' := mkBuffer v kCheapPrepend (u64 (kCheapPrepend + readable)) in
    _ ← check (readable =? readableBytes b');
    Ok b'.

Definition ensureWritableBytes (b : Buffer) (len : Z) : result Buffer :=
  b' ← (if writableBytes b <? len then makeSpace b len else Ok b);
  _ ← check (len <=? writableBytes b');
  Ok b'.

Definition hasWritten (b : Buffer) (len : Z) : result Buffer :=
  _ ← check (len <=? writableBytes b);
  Ok (mkBuffer (buffer_ b) (readerIndex_ b) (u64 (writerIndex_ b + len))).

Definition unwrite (b : Buffer) (len : Z) : result Buffer :=
  _ ← check (len <=? readableBytes b);
  Ok (mkBuffer (buffer_ b) (readerIndex_ b) (u64 (writerIndex_ b - len))).

(** [append(const char* data, size_t len)]: [data] is the object the pointer
    points at. *)
Definition append_n (b : Buffer) (data : bytes) (len : Z) : result Buffer :=
  b1 ← ensureWritableBytes b len;
  d ← vec_read data 0 len;
  v ← vec_write (buffer_ b1) (beginWrite b1) d;
  hasWritten (mkBuffer v (readerIndex_ b1) (writerIndex_ b1)) len.

(** A call that appends a whole object, [append(s.data(), s.size())]. *)
Definition append (b : Buffer) (data : bytes) : result Buffer := append_n b data (zlen data).

Definition append_piece (b : Buffer) (str : StringPiece.StringPiece) : result Buffer :=
  append_n b (zdrop (StringPiece.data str) (StringPiece.obj str)) (u64 (StringPiece.size str)).

Definition prepend (b : Buffer) (data : bytes) : result Buffer :=
  _ ← check (zlen data <=? prependableBytes b);
  let r := u64 (readerIndex_ b - zlen data) in
  v ← vec_write (buffer_ b) r data;
  Ok (mkBuffer v r (writerIndex_ b)).

Definition shrink (b : Buffer) (reserve : Z) : result Buffer :=
  other ← make kInitialSize;
  other ← ensureWritableBytes other (u64 (readableBytes b + reserve));
  other ← append_piece other (toStringPiece b);
  Ok (fst (swap b other)).

(** ** Integers in network byte order *)

Section Ints.
Context {H : Host}.

Definition appendInt64 (b : Buffer) (x : Z) : result Buffer :=
  let be64 := s64 (hostToNetwork64 (u64 x)) in append b (obj_bytes 8 (u64 be64)).
Definition appendInt32 (b : Buffer) (x : Z) : result Buffer :=
  let be32 := s32 (hostToNetwork32 (u32 x)) in append b (obj_bytes 4 (u32 be32)).
Definition appendInt16 (b : Buffer) (x : Z) : result Buffer :=
  let be16 := wraps 16 (hostToNetwork16 (wrapu 16 x)) in append b (obj_bytes 2 (wrapu 16 be16)).
Definition appendInt8 (b : Buffer) (x : Z) : result Buffer :=
  append b (obj_bytes 1 (wrapu 8 x)).

Definition peekInt64 (b : Buffer) : result Z :=
  _ ← check (8 <=? readableBytes b);
  m ← vec_read (buffer_ b) (peek b) 8;
  let be64 := s64 (obj_val m) in Ok (s64 (networkToHost64 (u64 be64))).
Definition peekInt32 (b : Buffer) : result Z :=
  _ ← check (4 <=? readableBytes b);
  m ← vec_read (buffer_ b) (peek b) 4;
  let be32 := s32 (obj_val m) in Ok (s32 (networkToHost32 (u32 be32))).
Definition peekInt16 (b : Buffer) : result Z :=
  _ ← check (2 <=? readableBytes b);
  m ← vec_read (buffer_ b) (peek b) 2;
  let be16 := wraps 16 (obj_val m) in Ok (wraps 16 (networkToHost16 (wrapu 16 be16))).
Definition peekInt8 (b : Buffer) : result Z :=
  _ ← check (1 <=? readableBytes b);
  m ← vec_read (buffer_ b) (peek b) 1;
  Ok (wraps 8 (obj_val m)).

Definition readInt64 (b : Buffer) : result (Buffer * Z) :=
  x ← peekInt64 b; b' ← retrieveInt64 b; Ok (b', x).
Definition readInt32 (b : Buffer) : result (Buffer * Z) :=
  x ← peekInt32 b; b' ← retrieveInt32 b; Ok (b', x).
Definition readInt16 (b : Buffer) : result (Buffer * Z) :=
  x ← peekInt16 b; b' ← retrieveInt16 b; Ok (b', x).
Definition readInt8 (b : Buffer) : result (Buffer * Z) :=
  x ← peekInt8 b; b' ← retrieveInt8 b; Ok (b', x).

Definition prependInt64 (b : Buffer) (x : Z) : result Buffer :=
  let be64 := s64 (hostToNetwork64 (u64 x)) in prepend b (obj_bytes 8 (u64 be64)).
Definition prependInt32 (b : Buffer) (x : Z) : result Buffer :=
  let be32 := s32 (hostToNetwork32 (u32 x)) in prepend b (obj_bytes 4 (u32 be32)).
Definition prependInt16 (b : Buffer) (x : Z) : result Buffer :=
  let be16 := wraps 16 (hostToNetwork16 (wrapu 16 x)) in prepend b (obj_bytes 2 (wrapu 16 be16)).
Definition prependInt8 (b : Buffer) (x : Z) : result Buffer :=
  prepend b (obj_bytes 1 (wrapu 8 x)).

End Ints.

(** ** readFd

    [readv(2)] either fails with an [errno] or delivers bytes that fill
    [vec[0]] first and [vec[1]] with the rest. *)
Inductive readv_outcome :=
  | ReadvError (errno : Z)
  | ReadvData (got : bytes).

Definition extrabuf_size : Z := 65536.

(** Capacity of the I/O vector that [readFd] passes. *)
Definition iov_capacity (b : Buffer) : Z :=
  if writableBytes b <? extrabuf_size
  then writableBytes b + extrabuf_size else writableBytes b.

Definition readFd (b : Buffer) (o : readv_outcome) : result (Buffer * Z * option Z) :=
  let writable := writableBytes b in
  match o with
  | ReadvError e => Ok (b, -1, Some e)
  | ReadvData got =>
      let n := zlen got in
      let extrabuf := zdrop writable got in
      v ← vec_write (buffer_ b) (writerIndex_ b) (ztake writable got);
      if n <=? writable
      then Ok (mkBuffer v (readerIndex_ b) (u64 (writerIndex_ b + n)), n, None)
      else
        b' ← append_n (mkBuffer v (readerIndex_ b) (zlen v)) extrabuf (u64 (n - writable));
        Ok (b', n, None)
  end.

(** ** Invariant and denotation

    0 <= readerIndex <= writerIndex <= size, as in the class comment, and the
    vector never drops below the reserved prefix. *)
Definition wf (b : Buffer) : Prop :=
  0 ≤ readerIndex_ b ≤ writerIndex_ b ∧ writerIndex_ b ≤ size b ∧
  kCheapPrepend ≤ size b ≤ vec_max_size.

#[global] Instance wf_dec b : Decision (wf b).
Proof. unfold wf. apply _. Defined.

(** The readable bytes, which is what the buffer means to its clients. *)
Definition content (b : Buffer) : bytes :=
  ztake (writerIndex_ b - readerIndex_ b) (zdrop (readerIndex_ b) (buffer_ b)).

Ltac buf :=
  unfold wf, size, kCheapPrepend, kInitialSize, vec_max_size,
    prependableBytes, peek, beginWrite in *; cbn [buffer_ readerIndex_ writerIndex_ fst] in *.

Lemma readable_wf b : wf b → readableBytes b = writerIndex_ b - readerIndex_ b.
Proof. intros. unfold readableBytes. rewrite wrapu_small; [done|]. buf. zlia. Qed.

Lemma writable_wf b : wf b → writableBytes b = size b - writerIndex_ b.
Proof. intros. unfold writableBytes. rewrite wrapu_small; [done|]. buf. zlia. Qed.

Lemma zlen_content b : wf b → zlen (content b) = readableBytes b.
Proof.
  intros Hb. rewrite readable_wf by done. unfold content. buf.
  rewrite zlen_ztake; [done|]. rewrite zlen_zdrop; lia.
Qed.

Lemma read_content b n :
  wf b → 0 ≤ n ≤ readableBytes b →
  vec_read (buffer_ b) (peek b) n = Ok (ztake n (content b)).
Proof.
  intros Hb Hn. rewrite readable_wf in Hn by done. rewrite vec_read_Ok by (buf; lia).
  unfold content. rewrite ztake_ztake by lia. done.
Qed.

Lemma range_content b : wf b → range b (peek b) (beginWrite b) = Ok (content b).
Proof.
  intros Hb. unfold range. pose proof (readable_wf b Hb) as Hr.
  rewrite read_content by (auto; buf; lia). f_equal. apply ztake_all.
  rewrite zlen_content by done. buf. lia.
Qed.

(** Writing at the write position extends the content. *)
Lemma content_write v r w d :
  0 ≤ r ≤ w → w + zlen d ≤ zlen v →
  content (mkBuffer (ztake w v ++ d ++ zdrop (w + zlen d) v) r (w + zlen d)) =
    ztake (w - r) (zdrop r v) ++ d.
Proof.
  intros Hr Hw. pose proof (zlen_nonneg d). unfold content. buf.
  rewrite zdrop_app_le by (rewrite zlen_ztake; lia).
  rewrite ztake_app_ge by (rewrite zlen_zdrop; rewrite zlen_ztake; lia).
  rewrite zlen_zdrop by (rewrite zlen_ztake; lia). rewrite zlen_ztake by lia.
  rewrite ztake_app_exact by lia. by rewrite zdrop_ztake by lia.
Qed.

Lemma zlen_vec_write {A} (v : list A) i d :
  0 ≤ i → i + zlen d ≤ zlen v → zlen (ztake i v ++ d ++ zdrop (i + zlen d) v) = zlen v.
Proof. intros. pose proof (zlen_nonneg d). zlia. Qed.

(** ** Each operation on the content *)

Lemma make_ok n :
  0 ≤ n → kCheapPrepend + n ≤ vec_max_size →
  ∃ b, make n = Ok b ∧ wf b ∧ content b = [] ∧
       writableBytes b = n ∧ prependableBytes b = kCheapPrepend.
Proof.
  intros Hn Hm. unfold make. rewrite wrapu_small by (buf; zlia).
  rewrite vec_resize_grow by (rewrite zlen_nil; buf; lia). rewrite bind_Ok.
  rewrite app_nil_l, zlen_nil, Z.sub_0_r.
  set (b := mkBuffer _ _ _).
  assert (size b = kCheapPrepend + n) as Hs.
  { subst b. unfold size. cbn. rewrite zlen_zrep; buf; lia. }
  assert (wf b) as Hb by (unfold wf; rewrite Hs; subst b; buf; lia).
  assert (readerIndex_ b = kCheapPrepend ∧ writerIndex_ b = kCheapPrepend) as [Er Ew] by done.
  rewrite readable_wf, writable_wf, Hs, Er, Ew by done.
  rewrite !check_true by (apply Z.eqb_eq; unfold prependableBytes; lia). cbn.
  exists b. split; [done|]. split; [done|]. split.
  - apply zlen_zero_inv. rewrite zlen_content, readable_wf, Er, Ew by done. lia.
  - rewrite writable_wf, Hs, Ew by done. unfold prependableBytes. lia.
Qed.

Lemma retrieveAll_wf b : wf b → wf (retrieveAll b).
Proof. intros. unfold retrieveAll. buf. lia. Qed.

Lemma retrieveAll_content b : content (retrieveAll b) = [].
Proof. unfold content, retrieveAll. cbn. by rewrite ztake_0. Qed.

Lemma retrieve_ok b len :
  wf b → 0 ≤ len ≤ readableBytes b →
  ∃ b', retrieve b len = Ok b' ∧ wf b' ∧ content b' = zdrop len (content b).
Proof.
  intros Hb Hl. unfold retrieve. rewrite check_true by (apply Z.leb_le; lia). rewrite bind_Ok.
  pose proof (readable_wf b Hb) as Hr. destruct (Z.ltb_spec len (readableBytes b)).
  - eexists. split; [done|].
    assert (u64 (readerIndex_ b + len) = readerIndex_ b + len) as ->
      by (apply wrapu_small; buf; zlia).
    split; [buf; lia|]. unfold content. buf.
    rewrite zdrop_ztake by lia. rewrite zdrop_zdrop by lia. f_equal. lia.
  - exists (retrieveAll b). split; [done|]. split; [by apply retrieveAll_wf|].
    rewrite retrieveAll_content, zdrop_all; [done|]. rewrite zlen_content by done. lia.
Qed.

Lemma retrieve_fail b len : readableBytes b < len → retrieve b len = Fail AssertFailed.
Proof. intros. unfold retrieve, check. by rewrite (proj2 (Z.leb_gt _ _)). Qed.

Lemma retrieveUntil_ok b last :
  wf b → peek b ≤ last ≤ beginWrite b →
  ∃ b', retrieveUntil b last = Ok b' ∧ wf b' ∧ content b' = zdrop (last - peek b) (content b).
Proof.
  intros Hb Hl. unfold retrieveUntil. rewrite !check_true by (apply Z.leb_le; lia).
  rewrite !bind_Ok. rewrite wrapu_small by (buf; zlia). apply retrieve_ok; [done|].
  rewrite readable_wf by done. buf. lia.
Qed.

Lemma retrieveAsString_ok b len :
  wf b → 0 ≤ len ≤ readableBytes b →
  ∃ b', retrieveAsString b len = Ok (b', ztake len (content b)) ∧ wf b' ∧
        content b' = zdrop len (content b).
Proof.
  intros Hb Hl. destruct (retrieve_ok b len) as (b' & E & Hb' & Hc); [done..|].
  unfold retrieveAsString. rewrite check_true by (apply Z.leb_le; lia). rewrite bind_Ok.
  rewrite read_content by done. rewrite bind_Ok, E, bind_Ok. eauto.
Qed.

Lemma unwrite_ok b len :
  wf b → 0 ≤ len ≤ readableBytes b →
  ∃ b', unwrite b len = Ok b' ∧ wf b' ∧
        content b' = ztake (readableBytes b - len) (content b).
Proof.
  intros Hb Hl. pose proof (readable_wf b Hb) as Hr. unfold unwrite.
  rewrite check_true by (apply Z.leb_le; lia). rewrite bind_Ok.
  rewrite wrapu_small by (buf; zlia). eexists. split; [done|]. split; [buf; lia|].
  unfold content. buf. rewrite ztake_ztake by lia. f_equal. lia.
Qed.

(** There is room for [len] more bytes: behind the write position, in memory that
    can be had, or by moving the content to the front. *)
Definition room (b : Buffer) (len : Z) : Prop :=
  writerIndex_ b + len ≤ vec_max_size ∨
  (len ≤ vec_max_size ∧ len + kCheapPrepend ≤ size b - writerIndex_ b + prependableBytes b).

(** [makeSpace] keeps the content, makes room, and never shrinks the headroom
    below [kCheapPrepend]. *)
Lemma makeSpace_ok b len :
  wf b → writableBytes b < len → room b len →
  ∃ b', makeSpace b len = Ok b' ∧ wf b' ∧ content b' = content b ∧
        len ≤ writableBytes b' ∧
        Z.min kCheapPrepend (prependableBytes b) ≤ prependableBytes b'.
Proof.
  intros Hb Hl Hm. pose proof (readable_wf b Hb) as Hr. rewrite writable_wf in Hl by done.
  unfold makeSpace. rewrite (writable_wf b) by done. unfold room in Hm.
  rewrite (wrapu_small 64 (size b - _ + _)), (wrapu_small 64 (len + _)) by (buf; zlia).
  destruct (Z.ltb_spec (size b - writerIndex_ b + prependableBytes b) (len + kCheapPrepend)).
  - rewrite wrapu_small by (buf; zlia). rewrite vec_resize_grow by (buf; lia). rewrite bind_Ok. eexists. split; [done|].
    assert (wf (mkBuffer (buffer_ b ++ zrep (writerIndex_ b + len - zlen (buffer_ b)) "000"%char)
      (readerIndex_ b) (writerIndex_ b))) as Hb'.
    { buf. rewrite zlen_app, zlen_zrep; lia. }
    split; [done|]. split.
    + unfold content. buf. rewrite zdrop_app_le, ztake_app_le; [done| |lia].
      rewrite zlen_zdrop; lia.
    + rewrite writable_wf by done. buf. rewrite zlen_app, zlen_zrep; lia.
  - rewrite check_true by (apply Z.ltb_lt; buf; lia). rewrite bind_Ok.
    change (range b (readerIndex_ b) (writerIndex_ b)) with (range b (peek b) (beginWrite b)).
    rewrite (range_content b) by done. rewrite bind_Ok.
    pose proof (zlen_content b Hb) as Hc.
    rewrite vec_write_Ok by (buf; lia). rewrite bind_Ok.
    cbv zeta. rewrite <- Hc. rewrite (wrapu_small 64 (kCheapPrepend + _)) by (buf; zlia).
    set (b' := mkBuffer _ _ _).
    assert (size b' = size b) as Hs by (apply zlen_vec_write; buf; lia).
    assert (wf b') as Hb' by (unfold wf; rewrite Hs; subst b'; buf; lia).
    rewrite check_true; [|apply Z.eqb_eq; rewrite readable_wf by done; subst b'; buf; lia].
    rewrite bind_Ok. exists b'. split; [done|]. split; [done|]. split.
    + unfold b'. rewrite content_write by (buf; lia). by rewrite Z.sub_diag, ztake_0.
    + rewrite writable_wf, Hs by done. subst b'. buf. lia.
Qed.

Lemma ensureWritableBytes_ok b len :
  wf b → room b len →
  ∃ b', ensureWritableBytes b len = Ok b' ∧ wf b' ∧ content b' = content b ∧
        len ≤ writableBytes b' ∧
        Z.min kCheapPrepend (prependableBytes b) ≤ prependableBytes b'.
Proof.
  intros Hb Hm. unfold ensureWritableBytes. destruct (Z.ltb_spec (writableBytes b) len).
  - destruct (makeSpace_ok b len) as (b' & E & Hb' & Hc & Hw & Hp); [done..|].
    rewrite E, bind_Ok, check_true by (apply Z.leb_le; lia). eauto 10.
  - rewrite bind_Ok, check_true by (apply Z.leb_le; lia). exists b.
    do 3 (split; [done|]). lia.
Qed.

Lemma hasWritten_ok b d :
  wf b → zlen d ≤ writableBytes b →
  ∃ b', hasWritten (mkBuffer (ztake (writerIndex_ b) (buffer_ b) ++ d ++
          zdrop (writerIndex_ b + zlen d) (buffer_ b)) (readerIndex_ b) (writerIndex_ b))
          (zlen d) = Ok b' ∧
        wf b' ∧ content b' = content b ++ d ∧ prependableBytes b' = prependableBytes b ∧
        writableBytes b' = writableBytes b - zlen d.
Proof.
  intros Hb Hl. pose proof (zlen_nonneg d). pose proof (writable_wf b Hb) as Hwb. rewrite writable_wf in Hl by done.
  set (b0 := mkBuffer _ _ _). unfold hasWritten.
  assert (size b0 = size b) as Hs by (apply zlen_vec_write; buf; lia).
  assert (wf b0) as Hb0 by (unfold wf; rewrite Hs; subst b0; buf; lia).
  rewrite check_true by (apply Z.leb_le; rewrite writable_wf, Hs by done; exact Hl).
  rewrite bind_Ok, wrapu_small by (subst b0; buf; zlia).
  eexists. split; [done|]. assert (wf (mkBuffer (buffer_ b0) (readerIndex_ b0)
    (writerIndex_ b0 + zlen d))) as Hb' by (unfold wf; subst b0; buf; lia).
  split; [done|]. split; [|split; [done|rewrite writable_wf by done; subst b0; buf; lia]].
  unfold b0. cbn [buffer_ readerIndex_ writerIndex_]. rewrite content_write; [done|buf; lia..].
Qed.

Lemma append_n_room b data len :
  wf b → 0 ≤ len ≤ zlen data → room b len →
  ∃ b', append_n b data len = Ok b' ∧ wf b' ∧ content b' = content b ++ ztake len data ∧
        Z.min kCheapPrepend (prependableBytes b) ≤ prependableBytes b'.
Proof.
  intros Hb Hl Hm. unfold append_n.
  destruct (ensureWritableBytes_ok b len) as (b1 & E & Hb1 & Hc & Hw & Hp); [done..|].
  rewrite E, bind_Ok. rewrite vec_read_Ok by lia. rewrite bind_Ok, zdrop_0.
  assert (zlen (ztake len data) = len) as Hlen by (by apply zlen_ztake).
  rewrite vec_write_Ok by (rewrite writable_wf in Hw by done; buf; lia). rewrite bind_Ok.
  destruct (hasWritten_ok b1 (ztake len data)) as (b' & E' & Hb' & Hc' & Hp' & _); [done|lia|].
  rewrite Hlen in E' |- *. exists b'. rewrite Hc', Hc, Hp'. auto.
Qed.

Lemma append_n_ok b data len :
  wf b → 0 ≤ len ≤ zlen data → writerIndex_ b + len ≤ vec_max_size →
  ∃ b', append_n b data len = Ok b' ∧ wf b' ∧ content b' = content b ++ ztake len data ∧
        Z.min kCheapPrepend (prependableBytes b) ≤ prependableBytes b'.
Proof. intros ? ? ?. apply append_n_room; [done..|]. by left. Qed.

(** Whatever the sizes, a request is met or [length_error] is thrown. *)
Lemma ensureWritableBytes_safe b len :
  wf b → 0 ≤ len ≤ vec_max_size →
  safe (λ b', wf b' ∧ content b' = content b ∧ len ≤ writableBytes b' ∧
              Z.min kCheapPrepend (prependableBytes b) ≤ prependableBytes b') (ensureWritableBytes b len).
Proof.
  intros Hb Hm.
  destruct (Z.le_gt_cases (writerIndex_ b + len) vec_max_size) as [Hs|Hs].
  { destruct (ensureWritableBytes_ok b len) as (b' & -> & ?); [done|by left|done]. }
  destruct (Z.le_gt_cases (len + kCheapPrepend) (size b - writerIndex_ b + prependableBytes b)) as [Hr|Hr].
  { destruct (ensureWritableBytes_ok b len) as (b' & -> & ?); [done|right; split; [lia|done]|done]. }
  unfold ensureWritableBytes.
  rewrite (proj2 (Z.ltb_lt _ _)) by (rewrite writable_wf by done; buf; lia).
  unfold makeSpace. rewrite (writable_wf b) by done. rewrite !wrapu_small by (buf; zlia).
  rewrite (proj2 (Z.ltb_lt _ _)) by done. unfold vec_resize.
  rewrite bool_decide_false by (buf; lia). done.
Qed.

Lemma append_n_headroom b data len :
  wf b → 0 ≤ len ≤ zlen data → len ≤ vec_max_size →
  safe (λ b', wf b' ∧ content b' = content b ++ ztake len data ∧
              Z.min kCheapPrepend (prependableBytes b) ≤ prependableBytes b') (append_n b data len).
Proof.
  intros Hb Hl Hm. unfold append_n. eapply safe_bind; [apply ensureWritableBytes_safe; [done|lia]|].
  intros b1 (Hb1 & Hc & Hw & Hp). rewrite vec_read_Ok by lia. rewrite bind_Ok, zdrop_0.
  assert (zlen (ztake len data) = len) as Hlen by (by apply zlen_ztake).
  rewrite vec_write_Ok by (rewrite writable_wf in Hw by done; buf; lia). rewrite bind_Ok.
  destruct (hasWritten_ok b1 (ztake len data)) as (b' & E' & Hb' & Hc' & Hp' & _); [done|lia|].
  rewrite Hlen in E' |- *. unfold beginWrite. rewrite E'. cbn. rewrite Hc', Hc, Hp'. auto.
Qed.

Lemma append_n_safe b data len :
  wf b → 0 ≤ len ≤ zlen data → len ≤ vec_max_size →
  safe (λ b', wf b' ∧ content b' = content b ++ ztake len data) (append_n b data len).
Proof.
  intros Hb Hl Hm. eapply safe_mono; [by apply append_n_headroom|]. by intros b' (? & ? & _).
Qed.

Lemma append_headroom b data :
  wf b → zlen data ≤ vec_max_size →
  safe (λ b', wf b' ∧ content b' = content b ++ data ∧
              Z.min kCheapPrepend (prependableBytes b) ≤ prependableBytes b') (append b data).
Proof.
  intros Hb Hm. pose proof (zlen_nonneg data). eapply safe_mono; [apply append_n_headroom; [done|lia|done]|].
  intros b' (? & Hc & ?). rewrite ztake_all in Hc by lia. done.
Qed.

(** When the data fits, nothing is moved. *)
Lemma append_n_fits b data len :
  wf b → 0 ≤ len ≤ zlen data → len ≤ writableBytes b →
  ∃ b', append_n b data len = Ok b' ∧ wf b' ∧ content b' = content b ++ ztake len data ∧
        writableBytes b' = writableBytes b - len ∧ prependableBytes b' = prependableBytes b.
Proof.
  intros Hb Hl Hfit. unfold append_n, ensureWritableBytes.
  rewrite (proj2 (Z.ltb_ge _ _)), bind_Ok, check_true, bind_Ok, bind_Ok by (done || by apply Z.leb_le).
  rewrite vec_read_Ok by lia. rewrite bind_Ok, zdrop_0.
  assert (zlen (ztake len data) = len) as Hlen by (by apply zlen_ztake).
  pose proof (writable_wf b Hb) as Hw.
  rewrite vec_write_Ok by (buf; lia). rewrite bind_Ok.
  destruct (hasWritten_ok b (ztake len data)) as (b' & E' & Hb' & Hc' & Hp' & Hw'); [done|lia|].
  rewrite Hlen in E', Hw' |- *. exists b'. rewrite Hc', Hp', Hw'. auto.
Qed.

Lemma append_ok b data :
  wf b → writerIndex_ b + zlen data ≤ vec_max_size →
  ∃ b', append b data = Ok b' ∧ wf b' ∧ content b' = content b ++ data ∧
        Z.min kCheapPrepend (prependableBytes b) ≤ prependableBytes b'.
Proof.
  intros Hb Hm. pose proof (zlen_nonneg data).
  destruct (append_n_ok b data (zlen data)) as (b' & ? & ? & Hc & ?); [done|lia|done|].
  exists b'. rewrite ztake_all in Hc by lia. auto.
Qed.

Lemma prepend_ok b data :
  wf b → zlen data ≤ prependableBytes b →
  ∃ b', prepend b data = Ok b' ∧ wf b' ∧ content b' = data ++ content b.
Proof.
  intros Hb Hl. pose proof (zlen_nonneg data). unfold prepend.
  rewrite check_true by (apply Z.leb_le; lia). rewrite bind_Ok.
  rewrite wrapu_small by (buf; zlia). rewrite vec_write_Ok by (buf; lia). rewrite bind_Ok.
  eexists. split; [done|]. split.
  { unfold wf, size. cbn [buffer_ readerIndex_ writerIndex_].
    rewrite zlen_vec_write by (buf; lia). buf. lia. }
  unfold content. cbn [buffer_ readerIndex_ writerIndex_].
  rewrite zdrop_app_exact by (rewrite zlen_ztake; buf; lia).
  replace (readerIndex_ b - zlen data + zlen data) with (readerIndex_ b) by lia.
  rewrite ztake_app_ge by (buf; lia). do 2 f_equal. lia.
Qed.

(** ** Searching *)

Lemma is_prefix_spec p l : is_prefix p l = true ↔ p `prefix_of` l.
Proof.
  revert l. induction p as [|x p IH]; intros [|y l]; cbn.
  - split; [|done]. intros _. apply prefix_nil.
  - split; [|done]. intros _. apply prefix_nil.
  - split; [done|]. intros H. by apply prefix_nil_not in H.
  - rewrite andb_true_iff, bool_decide_eq_true, IH. split.
    + intros [-> ?]. by apply prefix_cons.
    + intros H. split; [by apply prefix_cons_inv_1 in H|by apply prefix_cons_inv_2 in H].
Qed.

Lemma search_range pat l : 0 ≤ search pat l ≤ zlen l.
Proof.
  induction l as [|x l IH]; cbn [search]; [case_match; done|].
  rewrite zlen_cons. pose proof (zlen_nonneg l). case_match; lia.
Qed.

Lemma zdrop_succ {A} j (x : A) l : 0 ≤ j → zdrop (1 + j) (x :: l) = zdrop j l.
Proof. intros. unfold zdrop. rewrite Z2Nat.inj_add by lia. done. Qed.

Lemma ztake_succ {A} j (x : A) l : 0 ≤ j → ztake (1 + j) (x :: l) = x :: ztake j l.
Proof. intros. unfold ztake. rewrite Z2Nat.inj_add by lia. done. Qed.

Lemma search_found pat l :
  search pat l < zlen l → pat `prefix_of` zdrop (search pat l) l.
Proof.
  induction l as [|x l IH]; cbn [search]; [case_match; rewrite zlen_nil; lia|].
  case_match eqn:E.
  - intros _. by apply is_prefix_spec.
  - rewrite zlen_cons. intros Hl. pose proof (search_range pat l).
    rewrite zdrop_succ by lia. apply IH. lia.
Qed.

Lemma search_first pat l j :
  0 ≤ j < search pat l → ¬ pat `prefix_of` zdrop j l.
Proof.
  revert j. induction l as [|x l IH]; intros j; cbn [search].
  { case_match; lia. }
  case_match eqn:E; [lia|]. intros Hj. destruct (decide (j = 0)) as [->|].
  - rewrite zdrop_0, <- is_prefix_spec, E. done.
  - replace j with (1 + (j - 1)) by lia. rewrite zdrop_succ by lia. apply IH. lia.
Qed.

(** The first match does not move when bytes arrive behind it. *)
Lemma search_app pat l k :
  search pat l < zlen l → search pat (l ++ k) = search pat l.
Proof.
  induction l as [|x l IH]; [cbn [search]; case_match; rewrite zlen_nil; lia|].
  cbn [search app]. rewrite zlen_cons.
  destruct (is_prefix pat (x :: l)) eqn:E.
  - intros _. apply is_prefix_spec in E.
    assert (is_prefix pat (x :: l ++ k) = true) as ->; [|done].
    apply is_prefix_spec. by apply (prefix_app_r pat (x :: l) k).
  - intros Hl. rewrite IH by lia.
    destruct (is_prefix pat (x :: l ++ k)) eqn:E'; [|done]. exfalso.
    apply is_prefix_spec in E'. assert (search pat l < zlen l) as Hs by lia.
    apply search_found in Hs. destruct Hs as [t Ht].
    assert (zlen pat ≤ zlen l) as Hp.
    { apply (f_equal zlen) in Ht. pose proof (search_range pat l).
      rewrite zlen_app, zlen_zdrop in Ht by lia. pose proof (zlen_nonneg t). lia. }
    assert (pat `prefix_of` x :: l) as Hpre; [|by apply is_prefix_spec in Hpre; congruence].
    destruct E' as [t' Ht']. exists (ztake (zlen (x :: l) - zlen pat) t').
    apply (f_equal (ztake (zlen (x :: l)))) in Ht'.
    rewrite (ztake_app_exact _ (x :: l) k) in Ht' by done.
    rewrite ztake_app_ge in Ht' by (rewrite zlen_cons; lia). done.
Qed.

(** on a well-formed buffer [findCRLF] returns the offset of the first
    CR LF of the readable bytes - the readable bytes split there into a line
    without any earlier match, the terminator and the rest - and NULL exactly
    when they contain none. *)
Theorem findCRLF_first b :
  wf b →
  ∃ r, findCRLF b = Ok r ∧
    match r with
    | Some p =>
        peek b ≤ p ∧ p + 2 ≤ beginWrite b ∧
        (∃ line rest, content b = line ++ kCRLF ++ rest ∧ zlen line = p - peek b) ∧
        ∀ j, 0 ≤ j < p - peek b → ¬ kCRLF `prefix_of` zdrop j (content b)
    | None => ∀ j, 0 ≤ j → ¬ kCRLF `prefix_of` zdrop j (content b)
    end.
Proof.
  intros Hb. unfold findCRLF. rewrite range_content by done. rewrite bind_Ok.
  pose proof (search_range kCRLF (content b)) as Hr. pose proof (zlen_content b Hb) as Hc.
  pose proof (readable_wf b Hb) as Hrd. eexists. split; [done|].
  destruct (Z.eqb_spec (peek b + search kCRLF (content b)) (beginWrite b)) as [E|E].
  - intros j Hj. destruct (Z.lt_ge_cases j (zlen (content b))) as [Hlt|Hge].
    + apply search_first. buf. lia.
    + rewrite zdrop_all by lia. intros H. by apply prefix_nil_not in H.
  - assert (search kCRLF (content b) < zlen (content b)) as Hlt by (buf; lia).
    apply search_found in Hlt as [rest Hrest]. apply (f_equal zlen) in Hrest as Hlen.
    rewrite zlen_app, zlen_zdrop in Hlen by lia. change (zlen kCRLF) with 2 in Hlen.
    pose proof (zlen_nonneg rest). split; [lia|]. split; [buf; lia|]. split.
    + exists (ztake (search kCRLF (content b)) (content b)), rest. split.
      * rewrite <- Hrest. by rewrite ztake_zdrop.
      * rewrite zlen_ztake; lia.
    + intros j Hj. apply search_first. lia.
Qed.

(** ** readFd and shrink *)

(** [readFd] stores exactly the bytes [readv] delivered, in order, behind
    the readable bytes, whether they fit the writable space or spill through
    the stack buffer; on error the buffer is unchanged and [errno] is saved. *)
Lemma readFd_content b o :
  wf b →
  match o with
  | ReadvError e => readFd b o = Ok (b, -1, Some e)
  | ReadvData got =>
      zlen got ≤ iov_capacity b → size b + extrabuf_size ≤ vec_max_size →
      ∃ b', readFd b o = Ok (b', zlen got, None) ∧ wf b' ∧ content b' = content b ++ got
  end.
Proof.
  intros Hb. destruct o as [e|got]; [done|]. intros Hcap Hmax.
  pose proof (zlen_nonneg got). pose proof (writable_wf b Hb) as Hw.
  unfold readFd. destruct (Z.le_gt_cases (zlen got) (writableBytes b)) as [Hle|Hgt].
  - rewrite ztake_all by done. rewrite vec_write_Ok by (buf; lia). rewrite bind_Ok.
    rewrite (proj2 (Z.leb_le _ _)) by done.
    destruct (hasWritten_ok b got) as (b' & E & Hb' & Hc & _ & _); [done..|].
    unfold hasWritten in E. apply bind_Ok_inv in E as (? & _ & E).
    injection E as E. cbn [writerIndex_ readerIndex_ buffer_] in E. rewrite E. eauto.
  - assert (0 ≤ writableBytes b) by (buf; lia).
    assert (zlen (ztake (writableBytes b) got) = writableBytes b) as Hl by (apply zlen_ztake; lia).
    rewrite vec_write_Ok by (buf; lia). rewrite bind_Ok.
    rewrite (proj2 (Z.leb_gt _ _)) by lia. rewrite zlen_vec_write by (buf; lia).
    destruct (hasWritten_ok b (ztake (writableBytes b) got)) as (b1 & E & Hb1 & Hc1 & _); [done|lia|].
    unfold hasWritten in E. apply bind_Ok_inv in E as (? & _ & E). injection E as E.
    cbn [writerIndex_ readerIndex_ buffer_] in E. rewrite Hl, wrapu_small in E by (buf; zlia).
    replace (writerIndex_ b + writableBytes b) with (zlen (buffer_ b)) in E by (buf; lia).
    rewrite Hl. replace (writerIndex_ b + writableBytes b) with (zlen (buffer_ b)) by (buf; lia).
    rewrite E, wrapu_small.
    2: { unfold iov_capacity, extrabuf_size in *. destruct (_ <? _) in Hcap; buf; zlia. }
    assert (zlen (zdrop (writableBytes b) got) = zlen got - writableBytes b) as Hd
      by (apply zlen_zdrop; lia).
    destruct (append_n_ok b1 (zdrop (writableBytes b) got) (zlen got - writableBytes b))
      as (b' & E' & Hb' & Hc' & _); [done|lia| |].
    { assert (writerIndex_ b1 = size b) as -> by (by rewrite <- E).
      unfold iov_capacity in Hcap. destruct (_ <? _) in Hcap; buf; lia. }
    rewrite E', bind_Ok. exists b'. split; [done|]. split; [done|].
    rewrite Hc', Hc1, (ztake_all _ (zdrop _ _)) by lia. by rewrite <- app_assoc, ztake_zdrop.
Qed.

(** The same without a bound on the size: [length_error] is the only other end. *)
Lemma readFd_safe b got :
  wf b → zlen got ≤ iov_capacity b → zlen got ≤ vec_max_size →
  safe (λ r, ∃ b', r = (b', zlen got, None) ∧ wf b' ∧ content b' = content b ++ got)
    (readFd b (ReadvData got)).
Proof.
  intros Hb Hcap Hgot.
  destruct (Z.le_gt_cases (zlen got) (writableBytes b)) as [Hle|Hgt].
  { unfold readFd. rewrite ztake_all by done. pose proof (writable_wf b Hb) as Hw.
    rewrite vec_write_Ok by (buf; lia). rewrite bind_Ok, (proj2 (Z.leb_le _ _)) by done.
    destruct (hasWritten_ok b got) as (b' & E & Hb' & Hc & _ & _); [done..|].
    unfold hasWritten in E. apply bind_Ok_inv in E as (? & _ & E).
    injection E as E. cbn [writerIndex_ readerIndex_ buffer_] in E. rewrite E. cbn. eauto. }
  destruct (Z.le_gt_cases (size b + extrabuf_size) vec_max_size) as [Hs|Hs].
  { pose proof (readFd_content b (ReadvData got) Hb Hcap Hs) as (b' & -> & ? & ?). cbn. eauto. }
  unfold readFd. pose proof (writable_wf b Hb) as Hw. pose proof (zlen_nonneg got).
  assert (0 ≤ writableBytes b) by (buf; lia).
  assert (zlen (ztake (writableBytes b) got) = writableBytes b) as Hl by (apply zlen_ztake; lia).
  rewrite vec_write_Ok by (buf; lia). rewrite bind_Ok, (proj2 (Z.leb_gt _ _)) by lia.
  rewrite zlen_vec_write by (buf; lia).
  destruct (hasWritten_ok b (ztake (writableBytes b) got)) as (b1 & E & Hb1 & Hc1 & _); [done|lia|].
  unfold hasWritten in E. apply bind_Ok_inv in E as (? & _ & E). injection E as E.
  cbn [writerIndex_ readerIndex_ buffer_] in E. rewrite Hl, wrapu_small in E by (buf; zlia).
  replace (writerIndex_ b + writableBytes b) with (zlen (buffer_ b)) in E by (buf; lia).
  rewrite Hl. replace (writerIndex_ b + writableBytes b) with (zlen (buffer_ b)) by (buf; lia).
  rewrite E, wrapu_small by (buf; zlia).
  assert (zlen (zdrop (writableBytes b) got) = zlen got - writableBytes b) as Hd
    by (apply zlen_zdrop; lia).
  eapply safe_bind; [apply append_n_safe; [done|lia|lia]|]. intros b' [Hb' Hc']. cbn.
  eexists. split; [done|]. split; [done|].
  rewrite Hc', Hc1, (ztake_all _ (zdrop _ _)) by lia. by rewrite <- app_assoc, ztake_zdrop.
Qed.

Lemma append_piece_eq b src :
  wf src → readableBytes src < 2 ^ 31 →
  append_piece b (toStringPiece src) =
    append_n b (zdrop (peek src) (buffer_ src)) (readableBytes src).
Proof.
  intros Hs Hr. pose proof (readable_wf src Hs) as Hrd. unfold append_piece, toStringPiece.
  cbn [StringPiece.data StringPiece.obj StringPiece.size
    StringPiece.ptr_ StringPiece.length_ StringPiece.of_ptr_len].
  by rewrite (wraps_small 32), wrapu_small by (buf; zlia).
Qed.

(** [shrink] keeps the readable bytes and leaves at least [reserve] bytes
    of writable space, for contents that fit the [int] length of the
    StringPiece it copies through. *)
Lemma shrink_content b reserve :
  wf b → 0 ≤ reserve → readableBytes b < 2 ^ 31 →
  kCheapPrepend + readableBytes b + reserve ≤ vec_max_size →
  ∃ b', shrink b reserve = Ok b' ∧ wf b' ∧ content b' = content b ∧
        reserve ≤ writableBytes b' ∧ kCheapPrepend ≤ prependableBytes b'.
Proof.
  intros Hb Hres Hr Hm. pose proof (readable_wf b Hb) as Hrd.
  unfold shrink. destruct (make_ok kInitialSize) as (o1 & E1 & Hb1 & Hc1 & Hw1 & Hp1); [done..|].
  rewrite E1, bind_Ok. rewrite wrapu_small by (buf; zlia).
  assert (writerIndex_ o1 = kCheapPrepend) as Hwi.
  { pose proof (zlen_content o1 Hb1) as Hz. rewrite Hc1, zlen_nil, readable_wf in Hz by done.
    buf. lia. }
  destruct (ensureWritableBytes_ok o1 (readableBytes b + reserve))
    as (o2 & E2 & Hb2 & Hc2 & Hw2 & Hp2); [done|left; buf; lia|].
  rewrite E2, bind_Ok, append_piece_eq by done.
  destruct (append_n_fits o2 (zdrop (peek b) (buffer_ b)) (readableBytes b))
    as (b' & E & Hb' & Hc & Hw & Hp); [done|rewrite zlen_zdrop; buf; lia|lia|].
  rewrite E, bind_Ok. exists b'. split; [done|]. split; [done|]. split.
  - rewrite Hc, Hc2, Hc1, Hrd. done.
  - rewrite Hw, Hp. buf. lia.
Qed.

(** ** Network integers *)

Lemma be_append_bytes `{Host} n w x :
  w = 8 * Z.of_nat n → 0 < w →
  obj_bytes n (wrapu w (wraps w (htobe n (wrapu w x)))) = be_bytes n x.
Proof.
  intros Hw Hpos. rewrite wrapu_wraps by lia.
  assert (2 ^ w = 256 ^ Z.of_nat n) as Hp.
  { rewrite Hw. change 256 with (2 ^ 8). rewrite <- Z.pow_mul_r by lia. done. }
  assert (∀ z, obj_bytes n (wrapu w z) = obj_bytes n z) as Hobj.
  { intros z. unfold wrapu. rewrite Hp. unfold obj_bytes, be_bytes. by rewrite le_bytes_mod. }
  rewrite Hobj, obj_bytes_htobe. unfold be_bytes, wrapu. by rewrite Hp, le_bytes_mod.
Qed.

Lemma be_peek_val `{Host} n w m :
  w = 8 * Z.of_nat n → 0 < w → length m = n →
  wraps w (betoh n (wrapu w (wraps w (obj_val m)))) = wraps w (be_val m).
Proof.
  intros Hw Hpos Hm. rewrite wrapu_wraps by lia.
  assert (2 ^ w = 256 ^ Z.of_nat n) as Hp.
  { rewrite Hw. change 256 with (2 ^ 8). rewrite <- Z.pow_mul_r by lia. done. }
  rewrite wrapu_small; [by rewrite betoh_obj_val|]. unfold in_u. rewrite Hp, <- Hm.
  unfold obj_val. case_match; [apply be_val_range|].
  pose proof (be_val_range (reverse m)) as R. unfold be_val, zlen in R.
  by rewrite reverse_involutive, length_reverse in R.
Qed.

Lemma be_val_of_bytes n w x :
  w = 8 * Z.of_nat n → 0 < w → in_s w x → wraps w (be_val (be_bytes n x)) = x.
Proof.
  intros Hw Hpos Hx. rewrite be_val_bytes.
  assert (256 ^ Z.of_nat n = 2 ^ w) as ->.
  { rewrite Hw. change 256 with (2 ^ 8). rewrite <- Z.pow_mul_r by lia. done. }
  fold (wrapu w x). rewrite wraps_wrapu by lia. by apply wraps_small.
Qed.

(** The wire format: the integer operations read and write big-endian bytes. *)
Section IntFacts.
Context {H : Host}.

Lemma appendInt64_bytes b x : appendInt64 b x = append b (be_bytes 8 x).
Proof. unfold appendInt64, hostToNetwork64. by rewrite be_append_bytes. Qed.
Lemma appendInt32_bytes b x : appendInt32 b x = append b (be_bytes 4 x).
Proof. unfold appendInt32, hostToNetwork32. by rewrite be_append_bytes. Qed.
Lemma appendInt16_bytes b x : appendInt16 b x = append b (be_bytes 2 x).
Proof. unfold appendInt16, hostToNetwork16. by rewrite be_append_bytes. Qed.
Lemma prependInt64_bytes b x : prependInt64 b x = prepend b (be_bytes 8 x).
Proof. unfold prependInt64, hostToNetwork64. by rewrite be_append_bytes. Qed.
Lemma prependInt32_bytes b x : prependInt32 b x = prepend b (be_bytes 4 x).
Proof. unfold prependInt32, hostToNetwork32. by rewrite be_append_bytes. Qed.
Lemma prependInt16_bytes b x : prependInt16 b x = prepend b (be_bytes 2 x).
Proof. unfold prependInt16, hostToNetwork16. by rewrite be_append_bytes. Qed.

Lemma obj_bytes_1 x : obj_bytes 1 (wrapu 8 x) = be_bytes 1 x.
Proof.
  unfold obj_bytes, be_bytes. assert (le_bytes 1 (wrapu 8 x) = le_bytes 1 x) as ->
    by apply (le_bytes_mod 1). by case_match.
Qed.
Lemma appendInt8_bytes b x : appendInt8 b x = append b (be_bytes 1 x).
Proof. unfold appendInt8. by rewrite obj_bytes_1. Qed.
Lemma prependInt8_bytes b x : prependInt8 b x = prepend b (be_bytes 1 x).
Proof. unfold prependInt8. by rewrite obj_bytes_1. Qed.

(** The four [peekIntN], by width in bytes. *)
Definition peekInt (n : nat) : Buffer → result Z :=
  match n with 8%nat => peekInt64 | 4%nat => peekInt32 | 2%nat => peekInt16 | _ => peekInt8 end.
Definition readInt (n : nat) : Buffer → result (Buffer * Z) :=
  match n with 8%nat => readInt64 | 4%nat => readInt32 | 2%nat => readInt16 | _ => readInt8 end.
Definition appendInt (n : nat) : Buffer → Z → result Buffer :=
  match n with 8%nat => appendInt64 | 4%nat => appendInt32 | 2%nat => appendInt16 | _ => appendInt8 end.
Definition prependInt (n : nat) : Buffer → Z → result Buffer :=
  match n with 8%nat => prependInt64 | 4%nat => prependInt32 | 2%nat => prependInt16 | _ => prependInt8 end.

Definition int_width (n : nat) : Prop := n = 1%nat ∨ n = 2%nat ∨ n = 4%nat ∨ n = 8%nat.

Lemma appendInt_bytes n b x : int_width n → appendInt n b x = append b (be_bytes n x).
Proof.
  intros [->|[->|[->| ->]]];
    [apply appendInt8_bytes|apply appendInt16_bytes|apply appendInt32_bytes|apply appendInt64_bytes].
Qed.
Lemma prependInt_bytes n b x : int_width n → prependInt n b x = prepend b (be_bytes n x).
Proof.
  intros [->|[->|[->| ->]]];
    [apply prependInt8_bytes|apply prependInt16_bytes|apply prependInt32_bytes|apply prependInt64_bytes].
Qed.

Lemma peekInt_content n b m rest :
  int_width n → wf b → content b = m ++ rest → length m = n →
  peekInt n b = Ok (wraps (8 * Z.of_nat n) (be_val m)).
Proof.
  intros Hn Hb Hc Hm. pose proof (zlen_content b Hb) as Hz. rewrite Hc, zlen_app in Hz.
  pose proof (zlen_nonneg rest). assert (zlen m = Z.of_nat n) as Hzm by (unfold zlen; lia).
  assert (vec_read (buffer_ b) (peek b) (Z.of_nat n) = Ok m) as Hrd.
  { rewrite read_content, Hc, ztake_app_exact by (done || lia). done. }
  assert (check (Z.of_nat n <=? readableBytes b) = Ok tt) as Hck
    by (apply check_true, Z.leb_le; lia).
  destruct Hn as [->|[->|[->| ->]]]; cbn [peekInt];
    unfold peekInt8, peekInt16, peekInt32, peekInt64, networkToHost16, networkToHost32, networkToHost64;
    change (Z.of_nat 1) with 1 in *; change (Z.of_nat 2) with 2 in *;
    change (Z.of_nat 4) with 4 in *; change (Z.of_nat 8) with 8 in *;
    rewrite Hck, bind_Ok, Hrd, bind_Ok; f_equal; try by rewrite be_peek_val.
  destruct m as [|c [|]]; try done. unfold obj_val. by case_match.
Qed.

Lemma readInt_eq n b :
  int_width n → readInt n b = (x ← peekInt n b; b' ← retrieve b (Z.of_nat n); Ok (b', x)).
Proof. by intros [->|[->|[->| ->]]]. Qed.

(** C29: for every width, an integer appended to (or prepended before) the
    content is stored in network byte order, and reading it back from the
    front of the buffer yields the same signed value and leaves the rest. *)
Theorem int_roundtrip n b x :
  int_width n → wf b → in_s (8 * Z.of_nat n) x →
  (writerIndex_ b + Z.of_nat n ≤ vec_max_size → content b = [] →
   ∃ b1 b2, appendInt n b x = Ok b1 ∧ content b1 = be_bytes n x ∧
            readInt n b1 = Ok (b2, x) ∧ wf b2 ∧ content b2 = []) ∧
  (Z.of_nat n ≤ prependableBytes b →
   ∃ b1 b2, prependInt n b x = Ok b1 ∧ content b1 = be_bytes n x ++ content b ∧
            readInt n b1 = Ok (b2, x) ∧ wf b2 ∧ content b2 = content b).
Proof.
  intros Hn Hb Hx. assert (zlen (be_bytes n x) = Z.of_nat n) as Hl
    by (unfold zlen; by rewrite length_be_bytes).
  assert (∀ b1 rest, wf b1 → content b1 = be_bytes n x ++ rest →
    ∃ b2, readInt n b1 = Ok (b2, x) ∧ wf b2 ∧ content b2 = rest) as Hread.
  { intros b1 rest Hb1 Hc1. pose proof (zlen_content b1 Hb1) as Hz.
    rewrite Hc1, zlen_app in Hz. pose proof (zlen_nonneg rest).
    destruct (retrieve_ok b1 (Z.of_nat n)) as (b2 & E2 & Hb2 & Hc2); [done|lia|].
    exists b2. rewrite readInt_eq by done.
    rewrite (peekInt_content n b1 (be_bytes n x) rest) by auto using length_be_bytes.
    rewrite bind_Ok, E2, bind_Ok, be_val_of_bytes by (destruct Hn as [->|[->|[->| ->]]]; done).
    rewrite Hc2, Hc1, zdrop_app_exact by done. done. }
  split.
  - intros Hm Hc. destruct (append_ok b (be_bytes n x)) as (b1 & E & Hb1 & Hc1 & _); [done|lia|].
    rewrite Hc, app_nil_l in Hc1.
    destruct (Hread b1 []) as (b2 & ? & ? & ?); [done|by rewrite app_nil_r|].
    exists b1, b2. rewrite appendInt_bytes by done. auto.
  - intros Hp. destruct (prepend_ok b (be_bytes n x)) as (b1 & E & Hb1 & Hc1); [done|lia|].
    destruct (Hread b1 (content b)) as (b2 & ? & ? & ?); [done..|].
    exists b1, b2. rewrite prependInt_bytes by done. auto.
Qed.

End IntFacts.

(** ** Refinement: a byte queue

    [op] names the calls a client makes; [run] executes them on the class,
    [abs_run] on a plain byte string. *)
Inductive op :=
  | OpAppend (d : bytes)
  | OpPrepend (d : bytes)
  | OpRetrieve (n : Z)
  | OpRetrieveUntil (n : Z)
  | OpRetrieveAll
  | OpRetrieveAsString (n : Z)
  | OpUnwrite (n : Z)
  | OpEnsureWritable (n : Z)
  | OpShrink (n : Z)
  | OpReadFd (got : bytes).

Definition step (o : op) (b : Buffer) : result (Buffer * bytes) :=
  match o with
  | OpAppend d => b' ← append b d; Ok (b', [])
  | OpPrepend d => b' ← prepend b d; Ok (b', [])
  | OpRetrieve n => b' ← retrieve b n; Ok (b', [])
  | OpRetrieveUntil n => b' ← retrieveUntil b (peek b + n); Ok (b', [])
  | OpRetrieveAll => Ok (retrieveAll b, [])
  | OpRetrieveAsString n => retrieveAsString b n
  | OpUnwrite n => b' ← unwrite b n; Ok (b', [])
  | OpEnsureWritable n => b' ← ensureWritableBytes b n; Ok (b', [])
  | OpShrink n => b' ← shrink b n; Ok (b', [])
  | OpReadFd got => '(b', _, _) ← readFd b (ReadvData got); Ok (b', [])
  end.

Definition abs_step (o : op) (q : bytes) : bytes * bytes :=
  match o with
  | OpAppend d | OpReadFd d => (q ++ d, [])
  | OpPrepend d => (d ++ q, [])
  | OpRetrieve n | OpRetrieveUntil n => (zdrop n q, [])
  | OpRetrieveAll => ([], [])
  | OpRetrieveAsString n => (zdrop n q, ztake n q)
  | OpUnwrite n => (ztake (zlen q - n) q, [])
  | OpEnsureWritable _ | OpShrink _ => (q, [])
  end.

(** What the caller must guarantee: the documented requirement of each call,
    and that the vector stays below [max_size()]. *)
Definition op_pre (o : op) (b : Buffer) : Prop :=
  match o with
  | OpAppend d => writerIndex_ b + zlen d ≤ vec_max_size
  | OpPrepend d => zlen d ≤ prependableBytes b
  | OpRetrieve n | OpRetrieveUntil n | OpRetrieveAsString n | OpUnwrite n => 0 ≤ n ≤ readableBytes b
  | OpRetrieveAll => True
  | OpEnsureWritable n => writerIndex_ b + n ≤ vec_max_size
  | OpShrink n => 0 ≤ n ∧ readableBytes b < 2 ^ 31 ∧ kCheapPrepend + readableBytes b + n ≤ vec_max_size
  | OpReadFd got => zlen got ≤ iov_capacity b ∧ size b + extrabuf_size ≤ vec_max_size
  end.

#[global] Instance op_pre_dec o b : Decision (op_pre o b).
Proof. destruct o; cbn; apply _. Defined.

Fixpoint run (os : list op) (b : Buffer) : result (Buffer * bytes) :=
  match os with
  | [] => Ok (b, [])
  | o :: os => '(b1, out1) ← step o b; '(b2, out2) ← run os b1; Ok (b2, out1 ++ out2)
  end.

(** Every call of the sequence meets its requirement when it is made. *)
Fixpoint legal (os : list op) (b : Buffer) : Prop :=
  match os with
  | [] => True
  | o :: os => op_pre o b ∧ match step o b with Ok (b1, _) => legal os b1 | Fail _ => True end
  end.

Fixpoint abs_run (os : list op) (q : bytes) : bytes * bytes :=
  match os with
  | [] => (q, [])
  | o :: os =>
      let (q1, out1) := abs_step o q in
      let (q2, out2) := abs_run os q1 in (q2, out1 ++ out2)
  end.

(** Progress and simulation of one call. *)
Lemma step_simulates o b :
  wf b → op_pre o b →
  ∃ b' out, step o b = Ok (b', out) ∧ wf b' ∧ abs_step o (content b) = (content b', out).
Proof.
  intros Hb Hpre. destruct o as [d|d|n|n| |n|n|n|n|got]; cbn [step abs_step op_pre] in *.
  - destruct (append_ok b d) as (b' & E & ? & Hc & _); [done..|]. rewrite E, <- Hc. eauto.
  - destruct (prepend_ok b d) as (b' & E & ? & Hc); [done..|]. rewrite E, <- Hc. eauto.
  - destruct (retrieve_ok b n) as (b' & E & ? & Hc); [done..|]. rewrite E, <- Hc. eauto.
  - destruct (retrieveUntil_ok b (peek b + n)) as (b' & E & ? & Hc); [done| |].
    { rewrite readable_wf in Hpre by done. buf. lia. }
    replace (peek b + n - peek b) with n in Hc by lia. rewrite E, <- Hc. eauto.
  - eexists _, _. split; [done|]. rewrite retrieveAll_content. auto using retrieveAll_wf.
  - destruct (retrieveAsString_ok b n) as (b' & E & ? & Hc); [done..|]. rewrite E, <- Hc. eauto.
  - destruct (unwrite_ok b n) as (b' & E & ? & Hc); [done..|].
    rewrite E, zlen_content, <- Hc by done. eauto.
  - destruct (ensureWritableBytes_ok b n) as (b' & E & ? & <- & _); [done|by left|]. rewrite E. eauto.
  - destruct Hpre as (? & ? & ?).
    destruct (shrink_content b n) as (b' & E & ? & <- & _); [done..|]. rewrite E. eauto.
  - destruct Hpre as [? ?].
    destruct (readFd_content b (ReadvData got) Hb) as (b' & E & ? & Hc); [done..|].
    rewrite E, <- Hc. cbn. eauto.
Qed.

(** C1: whatever sequence of calls a client makes, as long as each meets its
    documented requirement, no assertion fails and no byte outside the vector
    is touched; the buffer stays well-formed and behaves as a byte queue: its
    readable bytes and everything it hands out are those of a plain string. *)
Theorem run_refines os b :
  wf b → legal os b →
  ∃ b' out, run os b = Ok (b', out) ∧ wf b' ∧ abs_run os (content b) = (content b', out).
Proof.
  revert b. induction os as [|o os IH]; intros b Hb Hleg; cbn [run abs_run legal] in *.
  { eauto 10. }
  destruct Hleg as [Hpre Hleg].
  destruct (step_simulates o b Hb Hpre) as (b1 & out1 & E1 & Hb1 & Ea1).
  rewrite E1 in Hleg |- *. rewrite bind_Ok, Ea1.
  destruct (IH b1 Hb1 Hleg) as (b2 & out2 & E2 & Hb2 & Ea2).
  rewrite E2, bind_Ok, Ea2. eauto 10.
Qed.

Definition small : Buffer := mkBuffer (zrep 16 "000"%char) 8 8.
Definition client : list op :=
  [OpAppend (String.list_ascii_of_string "hello"); OpPrepend ["5"%char];
   OpRetrieveAsString 3; OpAppend (String.list_ascii_of_string "0123456789"); OpUnwrite 1].

Lemma run_refines_witness :
  wf small ∧ legal client small ∧
  ∃ b', run client small = Ok (b', String.list_ascii_of_string "5he") ∧
        content b' = String.list_ascii_of_string "llo012345678".
Proof.
  assert (wf small) as Hw by (vm_compute; intuition discriminate).
  assert (legal client small) as Hl by (vm_compute; intuition discriminate).
  split; [exact Hw|]. split; [exact Hl|].
  destruct (run_refines client small Hw Hl) as (b' & out & E & _ & Ha).
  exists b'. injection Ha as Hq Ho. rewrite E, <- Hq, <- Ho. split; reflexivity.
Defined.

(** ** Requests beyond [max_size()] *)

Lemma ensureWritableBytes_throws b len :
  wf b → vec_max_size < len → writerIndex_ b + len < 2 ^ 64 →
  ∃ f, ensureWritableBytes b len = Fail f.
Proof.
  intros Hb Hbig Hno. unfold ensureWritableBytes.
  rewrite (proj2 (Z.ltb_lt _ _)) by (rewrite writable_wf by done; buf; lia).
  unfold makeSpace. case_match.
  - rewrite wrapu_small by (buf; zlia). unfold vec_resize.
    rewrite bool_decide_false by (buf; lia). by exists LengthError.
  - destruct (check (kCheapPrepend <? readerIndex_ b)) eqn:Ec; [|by eexists].
    apply check_Ok_inv, Z.ltb_lt in Ec. exfalso.
    revert H. apply not_false_iff_true, Z.ltb_lt.
    rewrite writable_wf, !wrapu_small by (done || (buf; zlia)). buf. lia.
Qed.

Lemma ensureWritableBytes_truncates b k :
  wf b → kCheapPrepend < k ≤ writerIndex_ b →
  ∃ b', ensureWritableBytes b (2 ^ 64 - k) = Ok b' ∧ size b' = writerIndex_ b' - k.
Proof.
  intros Hb Hk. unfold ensureWritableBytes.
  rewrite (proj2 (Z.ltb_lt _ _)) by (rewrite writable_wf by done; buf; lia).
  unfold makeSpace. rewrite (writable_wf b) by done.
  rewrite (wrapu_small 64 (size b - _ + _)), (wrapu_small 64 (2 ^ 64 - k + _)) by (buf; zlia).
  rewrite (proj2 (Z.ltb_lt _ _)) by (buf; lia).
  assert (u64 (writerIndex_ b + (2 ^ 64 - k)) = writerIndex_ b - k) as ->.
  { unfold wrapu. rewrite <- (Z.mod_add _ (-1)) by done.
    rewrite Z.mod_small; buf; lia. }
  unfold vec_resize. rewrite bool_decide_true by (buf; lia). rewrite bind_Ok.
  set (b' := mkBuffer _ _ _).
  assert (size b' = writerIndex_ b' - k) as Hs.
  { subst b'. unfold size. cbn [buffer_ writerIndex_].
    rewrite zlen_app, zlen_ztake, zrep_nonpos by (buf; lia). rewrite zlen_nil. lia. }
  rewrite bind_Ok, check_true; [rewrite bind_Ok; eauto|]. apply Z.leb_le.
  unfold writableBytes. rewrite Hs. subst b'. cbn [writerIndex_].
  replace (writerIndex_ b - k - writerIndex_ b) with (- k) by lia.
  unfold wrapu. rewrite <- (Z.mod_add _ 1), Z.mod_small by (done || (buf; lia)). lia.
Qed.

(** A request larger than [max_size()] stops the program (an exception or
    an assertion) as long as [writerIndex_ + len] does not wrap; but for the
    [k] largest values of [size_t] the sum wraps, [resize] truncates the
    vector below the write position, and the final assertion still passes. *)
Theorem ensureWritableBytes_huge b :
  wf b →
  (∀ len, vec_max_size < len → writerIndex_ b + len < 2 ^ 64 →
     ∃ f, ensureWritableBytes b len = Fail f) ∧
  (∀ k, kCheapPrepend < k ≤ writerIndex_ b →
     ∃ b', ensureWritableBytes b (2 ^ 64 - k) = Ok b' ∧ size b' = writerIndex_ b' - k).
Proof.
  intros Hb. split; intros; [by apply ensureWritableBytes_throws|].
  by apply ensureWritableBytes_truncates.
Qed.

Definition holding : Buffer := mkBuffer (zrep 32 "000"%char) 8 20.

Lemma ensureWritableBytes_huge_witness :
  wf holding ∧ ∃ b', ensureWritableBytes holding (2 ^ 64 - 10) = Ok b' ∧ size b' < writerIndex_ b'.
Proof.
  assert (wf holding) as Hw by (vm_compute; intuition discriminate). split; [exact Hw|].
  destruct (proj2 (ensureWritableBytes_huge holding Hw) 10) as (b' & E & Hs); [vm_compute; intuition discriminate|].
  exists b'. split; [exact E|]. rewrite Hs. lia.
Defined.

Lemma findCRLF_first_witness :
  wf (mkBuffer (zrep 8 "000"%char ++ ["a"%char; CR; LF]) 8 11) ∧
  ∃ r, findCRLF (mkBuffer (zrep 8 "000"%char ++ ["a"%char; CR; LF]) 8 11) = Ok r ∧ r = Some 9.
Proof.
  assert (wf (mkBuffer (zrep 8 "000"%char ++ ["a"%char; CR; LF]) 8 11)) as Hw
    by (vm_compute; intuition discriminate).
  split; [exact Hw|]. destruct (findCRLF_first _ Hw) as (r & E & _). exists r.
  split; [exact E|]. vm_compute in E. by injection E.
Defined.

Lemma int_roundtrip_witness :
  ∃ b1 b2, appendInt (H := false) 4 small (-2) = Ok b1 ∧ readInt (H := false) 4 b1 = Ok (b2, -2).
Proof.
  destruct (int_roundtrip (H := false) 4 small (-2)) as [Happ _].
  - right. right. by left.
  - vm_compute; intuition discriminate.
  - vm_compute; intuition discriminate.
  - destruct Happ as (b1 & b2 & E1 & _ & E2 & _); [vm_compute; intuition discriminate|reflexivity|].
    by exists b1, b2.
Defined.

End Buffer.
