(* ===== verification/Format.v ===== *)
(** * Number formatting of <stdio.h>

    The conversions of [snprintf] the code uses ([%d], [%4d], [%02d], [%06d],
    [%u]) and the bounded copy into a character array, with a reader for
    decimal digits to state what the text denotes. *)

From S2P Require Import Prelude Endian.
Import Endian.

Module Format.

Definition digit (d : Z) : ascii := byte_of (48 + d).

(** Decimal digits of a non-negative number, most significant first. *)
Fixpoint digits_fuel (fuel : nat) (n : Z) : bytes :=
  match fuel with
  | O => []
  | S fuel => if n <? 10 then [digit n] else digits_fuel fuel (n / 10) ++ [digit (n mod 10)]
  end.
Definition digits (n : Z) : bytes := digits_fuel (S (Z.to_nat (Z.log2 n))) n.

Definition dec (z : Z) : bytes :=
  if z <? 0 then "-"%char :: digits (- z) else digits z.

(** [%<w>d]: pad with blanks; [%0<w>d]: pad with zeros after the sign. *)
Definition dec_pad (w z : Z) : bytes := zrep (w - zlen (dec z)) " "%char ++ dec z.
Definition dec_pad0 (w z : Z) : bytes :=
  if z <? 0 then "-"%char :: zrep (w - 1 - zlen (digits (- z))) "0"%char ++ digits (- z)
  else zrep (w - zlen (digits z)) "0"%char ++ digits z.

(** What [snprintf(buf, n, ...)] leaves in a buffer of [n] bytes as a C string. *)
Definition snprintf (n : Z) (s : bytes) : bytes := ztake (n - 1) s.

(** ** Reading digits back *)

Definition digit_val (c : ascii) : Z := byte_val c - 48.
Definition is_digit (c : ascii) : bool := (48 <=? byte_val c) && (byte_val c <=? 57).
Definition dec_read (l : bytes) : Z := fold_left (λ acc c, 10 * acc + digit_val c) l 0.

Lemma digit_val_digit d : 0 ≤ d < 10 → digit_val (digit d) = d.
Proof. intros. unfold digit_val, digit. rewrite byte_val_of, Z.mod_small; lia. Qed.

Lemma is_digit_digit d : 0 ≤ d < 10 → is_digit (digit d) = true.
Proof.
  intros. unfold is_digit, digit. rewrite byte_val_of, Z.mod_small by lia. lia.
Qed.

Lemma dec_read_snoc l c : dec_read (l ++ [c]) = 10 * dec_read l + digit_val c.
Proof. unfold dec_read. by rewrite fold_left_app. Qed.

(** Enough fuel: each step divides by ten. *)
Lemma digits_fuel_ok fuel n :
  0 ≤ n < 10 ^ Z.of_nat fuel → (0 < fuel)%nat →
  dec_read (digits_fuel fuel n) = n ∧ Forall (λ c, is_digit c = true) (digits_fuel fuel n) ∧
  ∀ k, (0 < k)%nat → n < 10 ^ Z.of_nat k → (0 < length (digits_fuel fuel n) ≤ k)%nat.
Proof.
  revert n. induction fuel as [|fuel IH]; intros n Hn Hf; [lia|]. cbn [digits_fuel].
  destruct (Z.ltb_spec n 10).
  - split; [|split].
    + unfold dec_read. cbn [fold_left]. rewrite digit_val_digit; lia.
    + apply Forall_singleton, is_digit_digit. lia.
    + intros k Hk _. cbn. lia.
  - assert (0 < fuel)%nat as Hf'.
    { destruct fuel; [|lia]. change (10 ^ Z.of_nat 1) with 10 in Hn. lia. }
    assert (0 ≤ n / 10 < 10 ^ Z.of_nat fuel) as Hd.
    { split; [apply Z.div_pos; lia|]. apply Z.div_lt_upper_bound; [lia|].
      rewrite <- Z.pow_succ_r, <- Nat2Z.inj_succ by lia. lia. }
    pose proof (Z.mod_pos_bound n 10 ltac:(lia)).
    destruct (IH _ Hd Hf') as (Hr & Hall & Hlen). split; [|split].
    + rewrite dec_read_snoc, Hr, digit_val_digit by lia. pose proof (Z.div_mod n 10). lia.
    + apply Forall_app. split; [done|]. apply Forall_singleton, is_digit_digit. lia.
    + intros k Hk Hnk. rewrite length_app. cbn [length].
      destruct k as [|[|k]]; [lia|change (10 ^ Z.of_nat 1) with 10 in Hnk; lia|].
      specialize (Hlen (S k)). rewrite Nat2Z.inj_succ, Z.pow_succ_r in Hnk by lia.
      assert (n / 10 < 10 ^ Z.of_nat (S k)) by (apply Z.div_lt_upper_bound; lia). lia.
Qed.

Lemma log2_fuel n : 0 ≤ n → n < 10 ^ Z.of_nat (S (Z.to_nat (Z.log2 n))).
Proof.
  intros Hn. destruct (decide (n = 0)) as [->|]; [done|].
  pose proof (Z.log2_spec n ltac:(lia)) as [_ Hlt]. pose proof (Z.log2_nonneg n).
  rewrite Nat2Z.inj_succ, Z2Nat.id by lia.
  assert (2 ^ Z.succ (Z.log2 n) ≤ 10 ^ Z.succ (Z.log2 n)) by (apply Z.pow_le_mono_l; lia). lia.
Qed.

Lemma digits_read n : 0 ≤ n → dec_read (digits n) = n.
Proof. intros. apply digits_fuel_ok; [|lia]. split; [lia|]. by apply log2_fuel. Qed.

Lemma digits_all n : 0 ≤ n → Forall (λ c, is_digit c = true) (digits n).
Proof. intros. apply digits_fuel_ok; [|lia]. split; [lia|]. by apply log2_fuel. Qed.

Lemma digits_length n k :
  0 ≤ n < 10 ^ Z.of_nat k → (0 < k)%nat → 0 < zlen (digits n) ≤ Z.of_nat k.
Proof.
  intros Hn Hk. unfold digits, zlen.
  destruct (digits_fuel_ok (S (Z.to_nat (Z.log2 n))) n) as (_ & _ & Hl); [|lia|].
  { split; [lia|]. apply log2_fuel. lia. }
  specialize (Hl k Hk). lia.
Qed.

Lemma dec_read_zeros k l : dec_read (zrep k "0"%char ++ l) = dec_read l.
Proof.
  unfold zrep. induction (Z.to_nat k) as [|n IH]; [done|].
  rewrite replicate_S. unfold dec_read in *. cbn [app fold_left]. apply IH.
Qed.

Lemma dec_read_bound l : Forall (λ c, is_digit c = true) l → 0 ≤ dec_read l < 10 ^ zlen l.
Proof.
  induction l as [|c l IH] using rev_ind; intros Hl; [done|].
  apply Forall_app in Hl as [Hl Hc]. rewrite Forall_singleton in Hc. specialize (IH Hl).
  rewrite dec_read_snoc, zlen_app. change (zlen [c]) with 1.
  rewrite Z.pow_add_r by (apply zlen_nonneg || lia).
  change (10 ^ 1) with 10. unfold is_digit in Hc. to_prop. unfold digit_val. lia.
Qed.

(** A zero-padded non-negative field reads back and has the requested width. *)
Lemma dec_pad0_read w z : 0 ≤ z → dec_read (dec_pad0 w z) = z.
Proof.
  intros. unfold dec_pad0. rewrite (proj2 (Z.ltb_ge z 0)) by lia.
  rewrite dec_read_zeros. by apply digits_read.
Qed.

Lemma dec_pad0_length k z :
  0 ≤ z < 10 ^ Z.of_nat k → (0 < k)%nat → zlen (dec_pad0 (Z.of_nat k) z) = Z.of_nat k.
Proof.
  intros Hz Hk. pose proof (digits_length z k Hz Hk). unfold dec_pad0.
  rewrite (proj2 (Z.ltb_ge z 0)) by lia. rewrite zlen_app, zlen_zrep; lia.
Qed.

Lemma dec_pad0_all k z :
  0 ≤ z → Forall (λ c, is_digit c = true) (dec_pad0 k z).
Proof.
  intros. unfold dec_pad0. rewrite (proj2 (Z.ltb_ge z 0)) by lia.
  apply Forall_app. split; [|by apply digits_all]. unfold zrep. by apply Forall_replicate.
Qed.

End Format.
