(* ===== verification/Date.v ===== *)
(** * Date ([base/Date.h], [base/Date.cc])

    The Julian day number conversions, in checked 32-bit [int] arithmetic: a
    sum, product or quotient outside the range of [int] is a fault. The
    reference is [civil_days], which counts days by years and months. *)

From S2P Require Import Prelude Endian Format.

(** ** Checked [int] expressions *)

Definition iop (f : Z → Z → Z) (a b : result Z) : result Z :=
  x ← a; y ← b; sint 32 (f x y).

Declare Scope int_scope.
Delimit Scope int_scope with int.
Notation "a + b" := (iop Z.add a b) : int_scope.
Notation "a - b" := (iop Z.sub a b) : int_scope.
Notation "a * b" := (iop Z.mul a b) : int_scope.
Notation "a / b" := (iop Z.quot a b) : int_scope.
Notation "a % b" := (iop Z.rem a b) (at level 40, left associativity) : int_scope.
Notation "# a" := (@Ok Z a%Z) (at level 1, format "# a") : int_scope.

Lemma iop_Ok f x y z : f x y = z → in_s 32 z → iop f (Ok x) (Ok y) = Ok z.
Proof. intros <- ?. unfold iop. cbn. by apply sint_Ok. Qed.

Lemma iop_quot x c :
  0 ≤ x < 2 ^ 31 → 0 < c →
  ∃ q, iop Z.quot (Ok x) (Ok c) = Ok q ∧ 0 ≤ q ∧ c * q ≤ x < c * q + c.
Proof.
  intros Hx Hc. exists (x / c). pose proof (Z.div_mod x c). pose proof (Z.mod_pos_bound x c).
  assert (0 ≤ x / c) by (apply Z.div_pos; lia).
  split; [|nia]. apply iop_Ok; [apply Z.quot_div_nonneg; lia|]. unfold in_s. cbn. nia.
Qed.

(** Evaluate a chain of checked operations: every quotient becomes a variable
    with its defining bounds, every other result is shown to fit. *)
Ltac int_eval :=
  repeat first
    [ rewrite bind_Ok
    | match goal with
      | |- context [iop Z.quot (Ok ?x) (Ok ?c)] =>
          let q := fresh "q" in let E := fresh "E" in
          destruct (iop_quot x c) as (q & E & ? & ?); [lia|lia|rewrite E; clear E]
      | |- context [iop ?f (Ok ?x) (Ok ?y)] =>
          rewrite (iop_Ok f x y (f x y) eq_refl) by (unfold in_s; change (2 ^ (32 - 1)) with (2 ^ 31); lia)
      end ].

(** Linear arithmetic with division and modulo by constants. *)
Ltac zdiv := unfold in_s, in_u in *; Z.to_euclidean_division_equations; lia.

Module Date.

Record YearMonthDay := mkYMD { year : Z; month : Z; day : Z }.

Definition kDaysPerWeek : Z := 7.

Definition getJulianDayNumber (year month day : Z) : result Z :=
  (a ← ((#14 - #month) / #12);
   y ← (#year + #4800 - #a);
   m ← (#month + #12 * #a - #3);
   #day + (#153 * #m + #2) / #5 + #y * #365 + #y / #4 - #y / #100 + #y / #400 - #32045)%int.

Definition getYearMonthDay (julianDayNumber : Z) : result YearMonthDay :=
  (a ← (#julianDayNumber + #32044);
   b ← ((#4 * #a + #3) / #146097);
   c ← (#a - ((#b * #146097) / #4));
   d ← ((#4 * #c + #3) / #1461);
   e ← (#c - ((#1461 * #d) / #4));
   m ← ((#5 * #e + #2) / #153);
   dd ← (#e - ((#153 * #m + #2) / #5) + #1);
   mm ← (#m + #3 - #12 * (#m / #10));
   yy ← (#b * #100 + #d - #4800 + (#m / #10));
   Ok (mkYMD yy mm dd))%int.

(** A [Date] is its day number; 0 is the invalid date. *)
Record Date := mkDate { julianDayNumber_ : Z }.

Definition invalid : Date := mkDate 0.
Definition of_ymd (y m d : Z) : result Date := j ← getJulianDayNumber y m d; Ok (mkDate j).
Definition of_jdn (julianDayNum : Z) : Date := mkDate julianDayNum.
Definition of_tm (tm_year tm_mon tm_mday : Z) : result Date :=
  (y ← (#tm_year + #1900); m ← (#tm_mon + #1); of_ymd y m tm_mday)%int.
Definition swap (x that : Date) : Date * Date := (that, x).
Definition valid (x : Date) : bool := 0 <? julianDayNumber_ x.
Definition yearMonthDay (x : Date) : result YearMonthDay := getYearMonthDay (julianDayNumber_ x).
Definition year_of (x : Date) : result Z := year <$> yearMonthDay x.
Definition month_of (x : Date) : result Z := month <$> yearMonthDay x.
Definition day_of (x : Date) : result Z := day <$> yearMonthDay x.
Definition weekDay (x : Date) : result Z := ((#(julianDayNumber_ x) + #1) % #kDaysPerWeek)%int.
Definition toIsoString (x : Date) : result bytes :=
  ymd ← yearMonthDay x;
  Ok (Format.snprintf 32 (Format.dec_pad 4 (year ymd) ++ ["-"%char] ++
        Format.dec_pad0 2 (month ymd) ++ ["-"%char] ++ Format.dec_pad0 2 (day ymd))).
Definition ltb (x y : Date) : bool := julianDayNumber_ x <? julianDayNumber_ y.
Definition eqb (x y : Date) : bool := julianDayNumber_ x =? julianDayNumber_ y.

(** [Date::kJulianDayOf1970_01_01], initialised by the function above. *)
Definition kJulianDayOf1970_01_01 : Z :=
  Eval vm_compute in match getJulianDayNumber 1970 1 1 with Ok j => j | Fail _ => 0 end.

(** ** The reference calendar *)

Definition leap (y : Z) : bool :=
  ((y mod 4 =? 0) && negb (y mod 100 =? 0)) || (y mod 400 =? 0).

Definition month_length (is_leap : bool) (m : Z) : Z :=
  if m =? 2 then (if is_leap then 29 else 28)
  else if (m =? 4) || (m =? 6) || (m =? 9) || (m =? 11) then 30 else 31.

(** Days of the first [n] months. *)
Fixpoint days_of_months (is_leap : bool) (n : nat) : Z :=
  match n with
  | O => 0
  | S n => days_of_months is_leap n + month_length is_leap (Z.of_nat (S n))
  end.

(** Days from 0000-01-01 (proleptic Gregorian) to [y]-01-01. *)
Definition days_before_year (y : Z) : Z :=
  365 * y + (y + 3) / 4 - (y + 99) / 100 + (y + 399) / 400.

Definition civil_days (y m d : Z) : Z :=
  days_before_year y + days_of_months (leap y) (Z.to_nat (m - 1)) + (d - 1).

Definition valid_ymd (y m d : Z) : Prop := 1 ≤ m ≤ 12 ∧ 1 ≤ d ≤ month_length (leap y) m.

Lemma days_before_year_succ y :
  days_before_year (y + 1) = days_before_year y + (if leap y then 366 else 365).
Proof.
  unfold days_before_year, leap.
  destruct (Z.eqb_spec (y mod 4) 0), (Z.eqb_spec (y mod 100) 0), (Z.eqb_spec (y mod 400) 0);
    cbn [andb orb negb]; Z.to_euclidean_division_equations; lia.
Qed.

Lemma month_cases m : 1 ≤ m ≤ 12 →
  m = 1 ∨ m = 2 ∨ m = 3 ∨ m = 4 ∨ m = 5 ∨ m = 6 ∨
  m = 7 ∨ m = 8 ∨ m = 9 ∨ m = 10 ∨ m = 11 ∨ m = 12.
Proof. lia. Qed.

Ltac case_month H := destruct (month_cases _ H) as
  [->|[->|[->|[->|[->|[->|[->|[->|[->|[->|[->| ->]]]]]]]]]]].

(** Leap years, linearly. *)
Lemma leap_spec y : ∃ q4 q100 q400,
  4 * q4 ≤ y < 4 * q4 + 4 ∧ 100 * q100 ≤ y < 100 * q100 + 100 ∧ 400 * q400 ≤ y < 400 * q400 + 400 ∧
  (leap y = true ∧ (4 * q4 = y ∧ 100 * q100 < y ∨ 400 * q400 = y) ∨
   leap y = false ∧ 400 * q400 < y ∧ (4 * q4 < y ∨ 100 * q100 = y)).
Proof.
  exists (y / 4), (y / 100), (y / 400). unfold leap.
  destruct (Z.eqb_spec (y mod 4) 0), (Z.eqb_spec (y mod 100) 0), (Z.eqb_spec (y mod 400) 0);
    cbn [andb orb negb]; Z.to_euclidean_division_equations; lia.
Qed.

Example civil_1970 : civil_days 1970 1 1 - civil_days 1969 12 31 = 1.
Proof. reflexivity. Qed.

(** The month table in closed form, and the slope 153/5 of the months counted
    from March. *)
Lemma days_of_months_table l m :
  1 ≤ m ≤ 12 →
  (m ≤ 2 → days_of_months l (Z.to_nat (m - 1)) = 31 * (m - 1)) ∧
  (3 ≤ m → days_of_months l (Z.to_nat (m - 1)) =
     (153 * (m - 3) + 2) / 5 + (if l then 60 else 59)).
Proof. intros Hm. case_month Hm; destruct l; split; intros; try lia; reflexivity. Qed.

Lemma month_length_range l m : 1 ≤ m ≤ 12 → 28 ≤ month_length l m ≤ 31.
Proof. intros Hm. case_month Hm; destruct l; vm_compute; intuition discriminate. Qed.

(** Counting from March: [a] is 1 for January and February. *)
Lemma civil_days_march y m d a Y :
  1 ≤ m ≤ 12 → (a = 0 ∧ 3 ≤ m ∨ a = 1 ∧ m ≤ 2) → Y = y + 4800 - a →
  civil_days y m d + 1721060 =
    d + (153 * (m + 12 * a - 3) + 2) / 5 + 365 * Y + Y / 4 - Y / 100 + Y / 400 - 32045.
Proof.
  intros Hm Ha ->. destruct (days_of_months_table (leap y) m Hm) as [Hlo Hhi].
  unfold civil_days, days_before_year.
  destruct (leap_spec y) as (q4 & q100 & q400 & ? & ? & ? & Hleap).
  destruct Ha as [[-> ?]|[-> ?]].
  - rewrite Hhi by lia. destruct (leap y); Z.to_euclidean_division_equations; lia.
  - rewrite Hlo by lia. Z.to_euclidean_division_equations. lia.
Qed.

(** The closed formula counts the same days as the reference calendar. *)
Lemma getJulianDayNumber_civil y m d :
  -4800 ≤ y ≤ 5000000 → (y = -4800 → 3 ≤ m) → valid_ymd y m d →
  getJulianDayNumber y m d = Ok (civil_days y m d + 1721060).
Proof.
  intros Hy Hy0 [Hm Hd]. pose proof (month_length_range (leap y) m Hm).
  unfold getJulianDayNumber. int_eval. f_equal.
  rewrite (civil_days_march y m d q (y + 4800 - q)) by (done || lia).
  Z.to_euclidean_division_equations. lia.
Qed.

(** Where a day number falls: century [b], year of the century [d], day of the
    March-based year [e], month [m]. *)
Lemma day_number_split a b q2 d q4 e :
  0 ≤ a →
  146097 * b ≤ 4 * a + 3 < 146097 * b + 146097 → 4 * q2 ≤ b * 146097 < 4 * q2 + 4 →
  1461 * d ≤ 4 * (a - q2) + 3 < 1461 * d + 1461 → 4 * q4 ≤ 1461 * d < 4 * q4 + 4 →
  e = a - q2 - q4 →
  0 ≤ b ∧ 0 ≤ d ≤ 99 ∧ 0 ≤ e ≤ 365 ∧
  (e = 365 → leap (100 * b + d + 1) = true) ∧
  a = e + 365 * (100 * b + d) + (100 * b + d) / 4 - (100 * b + d) / 100 + (100 * b + d) / 400.
Proof.
  intros Ha Hb Hq2 Hd Hq4 He.
  assert (0 ≤ b ∧ 0 ≤ d ≤ 99 ∧ 0 ≤ e ≤ 365) as (? & ? & ?) by lia.
  split; [done|]. split; [done|]. split; [done|]. split.
  - intros ->. destruct (leap_spec (100 * b + d + 1)) as (? & ? & ? & ? & ? & ? & [[-> _]|(_ & ? & ?)]);
      [done|lia].
  - Z.to_euclidean_division_equations. lia.
Qed.

Lemma march_month e m q6 :
  0 ≤ e ≤ 365 → 153 * m ≤ 5 * e + 2 < 153 * m + 153 → 5 * q6 ≤ 153 * m + 2 < 5 * q6 + 5 →
  ∃ mm q7, 0 ≤ m ≤ 11 ∧ 0 ≤ q7 ∧ 10 * q7 ≤ m < 10 * q7 + 10 ∧ mm = m + 3 - 12 * q7 ∧
    1 ≤ mm ≤ 12 ∧ 1 ≤ e - q6 + 1 ∧
    ∀ l, (e = 365 → l = true) → e - q6 + 1 ≤ month_length l mm.
Proof.
  intros He Hm Hq. assert (∃ k, 1 ≤ k ≤ 12 ∧ m = k - 1) as (k & Hk & ->) by (exists (m + 1); lia).
  exists (k + 2 - 12 * ((k - 1) / 10)), ((k - 1) / 10).
  assert (∀ l, (e = 365 → l = true) → e - q6 + 1 ≤ month_length l (k + 2 - 12 * ((k - 1) / 10))).
  { intros l Hl. case_month Hk; (destruct l; vm_compute (month_length _ _);
      [|assert (e ≠ 365) by (intros ->; by specialize (Hl eq_refl))]; lia). }
  Z.to_euclidean_division_equations. repeat split; auto; lia.
Qed.

(** The inverse conversion lands on a valid date with the same day count. *)
Lemma getYearMonthDay_civil j :
  -32044 ≤ j ≤ 536838866 →
  ∃ ymd, getYearMonthDay j = Ok ymd ∧
    valid_ymd (year ymd) (month ymd) (day ymd) ∧
    -4800 ≤ year ymd ≤ 5000000 ∧ (year ymd = -4800 → 3 ≤ month ymd) ∧
    civil_days (year ymd) (month ymd) (day ymd) + 1721060 = j.
Proof.
  intros Hj. unfold getYearMonthDay. int_eval. eexists. split; [done|].
  cbn [year month day].
  destruct (day_number_split (j + 32044) q q0 q1 q2 (j + 32044 - q0 - q2))
    as (? & ? & He & Hleap & Ha); [lia..|].
  destruct (march_month (j + 32044 - q0 - q2) q3 q5)
    as (mm & q7 & ? & ? & ? & -> & Hmm & Hd1 & Hd); [done..|].
  assert (q7 = q4) as -> by lia.
  assert (q4 = 0 ∧ q3 ≤ 9 ∨ q4 = 1 ∧ 10 ≤ q3) as Hq4 by lia.
  split.
  { split; [done|]. split; [done|]. apply Hd. intros E. specialize (Hleap E).
    assert (q3 = 11) as -> by lia. assert (q4 = 1) as -> by lia. unfold leap in *.
    rewrite <- Hleap. clear -q q1. Z.to_euclidean_division_equations. lia. }
  split; [lia|]. split; [lia|].
  rewrite (civil_days_march _ _ _ q4 (100 * q + q1)) by (done || lia).
  replace (153 * (q3 + 3 - 12 * q4 + 12 * q4 - 3) + 2) with (153 * q3 + 2) by lia.
  Z.to_euclidean_division_equations. lia.
Qed.

(** ** Order of dates *)

Definition ymd_lt (p q : YearMonthDay) : Prop :=
  year p < year q ∨ year p = year q ∧ (month p < month q ∨ month p = month q ∧ day p < day q).

Lemma month_length_nonneg l m : 0 ≤ month_length l m.
Proof. unfold month_length. repeat case_match; lia. Qed.

Lemma days_of_months_nonneg l n : 0 ≤ days_of_months l n.
Proof.
  induction n as [|n IH]; cbn [days_of_months]; [lia|].
  pose proof (month_length_nonneg l (Z.of_nat (S n))). lia.
Qed.

Lemma days_of_months_mono l n k :
  (n < k)%nat → days_of_months l n + month_length l (Z.of_nat (S n)) ≤ days_of_months l k.
Proof.
  induction k as [|k IH]; [lia|]. intros Hn. cbn [days_of_months].
  pose proof (month_length_nonneg l (Z.of_nat (S k))).
  destruct (decide (n = k)) as [->|]; [lia|]. specialize (IH ltac:(lia)). lia.
Qed.

Lemma days_of_year l : days_of_months l 12 = if l then 366 else 365.
Proof. by destruct l. Qed.

Lemma days_before_year_mono y k :
  y < k → days_before_year y + (if leap y then 366 else 365) ≤ days_before_year k.
Proof.
  intros Hk. replace k with (y + 1 + Z.of_nat (Z.to_nat (k - y - 1))) by lia.
  generalize (Z.to_nat (k - y - 1)) as n. intros n. rewrite <- days_before_year_succ.
  induction n as [|n IH]; [by rewrite Z.add_0_r|].
  replace (y + 1 + Z.of_nat (S n)) with (y + 1 + Z.of_nat n + 1) by lia.
  rewrite (days_before_year_succ (y + 1 + Z.of_nat n)). case_match; lia.
Qed.

Lemma civil_days_lt p q :
  valid_ymd (year p) (month p) (day p) → valid_ymd (year q) (month q) (day q) →
  ymd_lt p q → civil_days (year p) (month p) (day p) < civil_days (year q) (month q) (day q).
Proof.
  intros [Hm Hd] [Hm' Hd'] Hlt. unfold civil_days.
  pose proof (days_of_months_nonneg (leap (year q)) (Z.to_nat (month q - 1))) as H0.
  assert (days_of_months (leap (year p)) (Z.to_nat (month p - 1)) + day p ≤
          if leap (year p) then 366 else 365) as H1.
  { rewrite <- days_of_year.
    pose proof (days_of_months_mono (leap (year p)) (Z.to_nat (month p - 1)) 12 ltac:(lia)).
    replace (Z.of_nat (S (Z.to_nat (month p - 1)))) with (month p) in * by lia. lia. }
  destruct Hlt as [Hy|[Hy [Hmm|[Hmm Hdd]]]].
  - pose proof (days_before_year_mono _ _ Hy). lia.
  - rewrite Hy in *. pose proof (days_of_months_mono (leap (year q))
      (Z.to_nat (month p - 1)) (Z.to_nat (month q - 1)) ltac:(lia)).
    replace (Z.of_nat (S (Z.to_nat (month p - 1)))) with (month p) in * by lia. lia.
  - rewrite Hy, Hmm. lia.
Qed.

Lemma ymd_trichotomy p q : ymd_lt p q ∨ p = q ∨ ymd_lt q p.
Proof.
  unfold ymd_lt. destruct p as [y m d], q as [y' m' d']; cbn.
  destruct (Z.lt_trichotomy y y') as [?|[->|?]]; [lia| |lia].
  destruct (Z.lt_trichotomy m m') as [?|[->|?]]; [lia| |lia].
  destruct (Z.lt_trichotomy d d') as [?|[->|?]]; [lia|auto|lia].
Qed.

(** The dates both conversions handle without [int] overflow. *)
Definition supported (p : YearMonthDay) : Prop :=
  valid_ymd (year p) (month p) (day p) ∧ -4800 ≤ year p ≤ 1465000 ∧ (year p = -4800 → 3 ≤ month p).

Lemma civil_days_range p : supported p → -32044 ≤ civil_days (year p) (month p) (day p) + 1721060 ≤ 536838866.
Proof.
  intros ([Hm Hd] & Hy & Hy0). pose proof (month_length_range (leap (year p)) _ Hm).
  destruct (Z.le_gt_cases (month p) 2);
    [rewrite (civil_days_march _ _ _ 1 _ Hm) by (done || lia)
    |rewrite (civil_days_march _ _ _ 0 _ Hm) by (done || lia)];
    Z.to_euclidean_division_equations; lia.
Qed.

(** C36: on every valid date of the supported range the Julian day number is the
    day count of the reference calendar, [getYearMonthDay] inverts it, and no
    intermediate [int] overflows. *)
Theorem julian_roundtrip p :
  supported p →
  getJulianDayNumber (year p) (month p) (day p) =
    Ok (civil_days (year p) (month p) (day p) + 1721060) ∧
  getYearMonthDay (civil_days (year p) (month p) (day p) + 1721060) = Ok p.
Proof.
  intros Hp. pose proof Hp as (Hv & Hy & Hy0). split.
  { apply getJulianDayNumber_civil; auto; lia. }
  destruct (getYearMonthDay_civil _ (civil_days_range p Hp)) as (q & E & Hq & _ & _ & Ec).
  rewrite E. f_equal. destruct (ymd_trichotomy p q) as [Hlt|[->|Hlt]]; [|done|];
    apply civil_days_lt in Hlt; auto; lia.
Qed.

Lemma julian_roundtrip_witness :
  getJulianDayNumber 2000 2 29 = Ok 2451604 ∧ getYearMonthDay 2451604 = Ok (mkYMD 2000 2 29).
Proof.
  apply (julian_roundtrip (mkYMD 2000 2 29)).
  split; [|split; [|discriminate]]; vm_compute; intuition discriminate.
Defined.

(** Every day number of the range denotes a valid date, and converting that
    date back gives the same number. *)
Theorem julian_surjective j :
  -32044 ≤ j ≤ 536838866 →
  ∃ p, getYearMonthDay j = Ok p ∧ valid_ymd (year p) (month p) (day p) ∧
       getJulianDayNumber (year p) (month p) (day p) = Ok j.
Proof.
  intros Hj. destruct (getYearMonthDay_civil j Hj) as (p & E & Hv & Hy & Hy0 & Ec).
  exists p. split; [done|]. split; [done|].
  rewrite getJulianDayNumber_civil by (auto; lia). by rewrite Ec.
Qed.

Lemma julian_surjective_witness :
  ∃ p, getYearMonthDay 2440588 = Ok p ∧ getJulianDayNumber (year p) (month p) (day p) = Ok 2440588.
Proof.
  destruct (julian_surjective 2440588) as (p & E & _ & E'); [lia|]. by exists p.
Defined.

(** [operator<] on dates is the chronological (year, month, day) order, and
    [weekDay] advances by one each day with 1970-01-01 a Thursday. *)
Theorem date_order_weekday p q :
  supported p → supported q →
  ∃ x y, of_ymd (year p) (month p) (day p) = Ok x ∧ of_ymd (year q) (month q) (day q) = Ok y ∧
    (ltb x y = true ↔ ymd_lt p q) ∧ (eqb x y = true ↔ p = q) ∧
    (0 ≤ year p → weekDay x = Ok ((civil_days (year p) (month p) (day p) - civil_days 1970 1 1 + 4) mod 7)).
Proof.
  intros Hp Hq. pose proof Hp as (Hv & Hy & Hy0). pose proof Hq as (Hv' & Hy' & Hy0').
  unfold of_ymd. rewrite !getJulianDayNumber_civil by (auto; lia). rewrite !bind_Ok.
  eexists _, _. split; [done|]. split; [done|]. unfold ltb, eqb. cbn [julianDayNumber_].
  rewrite Z.ltb_lt, Z.eqb_eq.
  assert (¬ ymd_lt p p) by (unfold ymd_lt; lia).
  assert (ymd_lt p q → ¬ ymd_lt q p) by (unfold ymd_lt; lia).
  split; [|split].
  - split; intros Hlt; [|pose proof (civil_days_lt p q); intuition lia].
    destruct (ymd_trichotomy p q) as [?|[->|Hgt]]; [done|lia|].
    pose proof (civil_days_lt q p); intuition lia.
  - split; [|by intros ->]. intros He. destruct (ymd_trichotomy p q) as [?|[?|Hgt]]; [|done|].
    + pose proof (civil_days_lt p q); intuition lia.
    + pose proof (civil_days_lt q p); intuition lia.
  - intros Hpos. pose proof (civil_days_range p Hp).
    assert (0 ≤ civil_days (year p) (month p) (day p)) as Hc.
    { destruct Hv as [Hm Hd]. destruct (days_of_months_table (leap (year p)) _ Hm) as [T1 T2].
      unfold civil_days, days_before_year. destruct (Z.le_gt_cases (month p) 2);
        [rewrite T1 by lia|rewrite T2 by lia]; destruct (leap (year p));
        Z.to_euclidean_division_equations; lia. }
    unfold weekDay. cbn [julianDayNumber_]. rewrite (iop_Ok Z.add _ _ _ eq_refl) by zlia.
    change (civil_days 1970 1 1) with 719528. unfold kDaysPerWeek.
    apply iop_Ok; [rewrite Z.rem_mod_nonneg by lia|]; zdiv.
Qed.

Lemma date_order_weekday_witness :
  ∃ x y, of_ymd 1970 1 1 = Ok x ∧ of_ymd 1970 2 1 = Ok y ∧ ltb x y = true ∧ weekDay x = Ok 4.
Proof.
  destruct (date_order_weekday (mkYMD 1970 1 1) (mkYMD 1970 2 1)) as (x & y & E1 & E2 & H1 & _ & H2).
  - split; [|split; [|discriminate]]; vm_compute; intuition discriminate.
  - split; [|split; [|discriminate]]; vm_compute; intuition discriminate.
  - exists x, y. split; [exact E1|]. split; [exact E2|]. split.
    + apply H1. right. split; [reflexivity|]. left. reflexivity.
    + rewrite H2 by (vm_compute; discriminate). reflexivity.
Defined.

End Date.
