(* ===== verification/TimeZone.v ===== *)
(** * TimeZone ([base/TimeZone.h], [base/TimeZone.cc])

    UTC conversion, lookup of the local time type in the transition table, and
    the zone file reader. [gmtime_r] and [timegm] of the C library are the
    proleptic Gregorian conversions, for which [toUtcTime] and [fromUtcTime]
    are used (both are proved against the reference calendar of [Date]). *)

From S2P Require Import Prelude Endian Date.
Import Endian.

Module TimeZone.
Import Date.

(** [tm_zone] points into the abbreviations: the characters from there on. *)
Record tm := mkTm {
  tm_sec : Z; tm_min : Z; tm_hour : Z; tm_mday : Z; tm_mon : Z; tm_year : Z;
  tm_wday : Z; tm_yday : Z; tm_isdst : Z; tm_gmtoff : Z; tm_zone : bytes
}.

Record Transition := mkTransition { gmttime : Z; localtime : Z; localtimeIdx : Z }.
Record Localtime := mkLocaltime { gmtOffset : Z; isDst : bool; arrbIdx : Z }.

Record Data := mkData {
  transitions : list Transition;
  localtimes : list Localtime;
  names : list bytes;
  abbreviation : bytes
}.
Definition empty_data : Data := mkData [] [] [] [].

Definition kSecondsPerDay : Z := 86400.

(** ** Comp *)

Record Comp := mkComp { compareGmt : bool }.

Definition comp_call (c : Comp) (lhs rhs : Transition) : bool :=
  if compareGmt c then gmttime lhs <? gmttime rhs else localtime lhs <? localtime rhs.

Definition comp_equal (c : Comp) (lhs rhs : Transition) : bool :=
  if compareGmt c then gmttime lhs =? gmttime rhs else localtime lhs =? localtime rhs.

(** ** UTC *)

(** [fillHMS]: second, minute and hour of an [unsigned] second of the day. *)
Definition fillHMS (seconds : Z) : Z * Z * Z :=
  let minutes := seconds / 60 in (seconds mod 60, minutes mod 60, minutes / 60).

Definition toUtcTime (secondsSinceEpoch : Z) (yday : bool) : result tm :=
  let seconds := s32 (Z.rem secondsSinceEpoch kSecondsPerDay) in
  let days := s32 (Z.quot secondsSinceEpoch kSecondsPerDay) in
  sd ← (if seconds <? 0
        then s ← (#seconds + #kSecondsPerDay)%int; d ← (#days - #1)%int; Ok (s, d)
        else Ok (seconds, days));
  let '(seconds, days) := sd in
  let '(sec, min, hour) := fillHMS (u32 seconds) in
  j ← (#days + #kJulianDayOf1970_01_01)%int;
  let date := of_jdn j in
  ymd ← yearMonthDay date;
  ty ← (#(year ymd) - #1900)%int;
  tmo ← (#(month ymd) - #1)%int;
  wd ← weekDay date;
  yd ← (if yday
        then startOfYear ← of_ymd (year ymd) 1 1;
             (#(julianDayNumber_ date) - #(julianDayNumber_ startOfYear))%int
        else Ok 0);
  Ok (mkTm sec min hour (day ymd) tmo ty wd yd 0 0 (String.list_ascii_of_string "GMT")).

Definition fromUtcTime6 (year month day hour minute seconds : Z) : result Z :=
  date ← of_ymd year month day;
  secondsInDay ← (#hour * #3600 + #minute * #60 + #seconds)%int;
  days ← (#(julianDayNumber_ date) - #kJulianDayOf1970_01_01)%int;
  sint 64 (days * kSecondsPerDay + secondsInDay).

Definition fromUtcTime (utc : tm) : result Z :=
  (y ← (#(tm_year utc) + #1900); m ← (#(tm_mon utc) + #1);
   fromUtcTime6 y m (tm_mday utc) (tm_hour utc) (tm_min utc) (tm_sec utc))%int.

(** <time.h> *)
Definition gmtime_r (t : Z) : result tm := toUtcTime t true.
Definition timegm (t : tm) : result Z := fromUtcTime t.

(** ** Local time *)

(** [std::lower_bound]: halve the range while it is not empty. [fuel] bounds
    the number of halvings. *)
Fixpoint lower_bound_loop (fuel : nat) (c : Comp) (v : list Transition) (sentry : Transition)
    (first len : Z) : result Z :=
  match fuel with
  | O => Ok first
  | S fuel =>
      if 0 <? len then
        let half := len / 2 in
        match v !! Z.to_nat (first + half) with
        | None => Fail OutOfRange
        | Some mid =>
            if comp_call c mid sentry
            then lower_bound_loop fuel c v sentry (first + half + 1) (len - half - 1)
            else lower_bound_loop fuel c v sentry first half
        end
      else Ok first
  end.
Definition lower_bound (c : Comp) (v : list Transition) (sentry : Transition) : result Z :=
  lower_bound_loop (S (length v)) c v sentry 0 (zlen v).

(** [v[i]] of a vector; outside it the behaviour is undefined. *)
Definition at_ {A} (v : list A) (i : Z) : result A :=
  if bool_decide (0 ≤ i) then
    match v !! Z.to_nat i with Some x => Ok x | None => Fail OutOfRange end
  else Fail OutOfRange.

Definition findLocaltime (data : Data) (sentry : Transition) (c : Comp) : result Localtime :=
  match transitions data with
  | [] => at_ (localtimes data) 0
  | t0 :: _ =>
      if comp_call c sentry t0 then at_ (localtimes data) 0
      else
        i ← lower_bound c (transitions data) sentry;
        if negb (i =? zlen (transitions data)) then
          tr ← at_ (transitions data) i;
          tr ← (if negb (comp_equal c sentry tr)
                then _ ← check (negb (i =? 0)); at_ (transitions data) (i - 1)
                else Ok tr);
          at_ (localtimes data) (localtimeIdx tr)
        else
          tr ← at_ (transitions data) (zlen (transitions data) - 1);
          at_ (localtimes data) (localtimeIdx tr)
  end.

(** A zone holds a pointer to its data; NULL for an invalid zone. *)
Record TimeZone := mkZone { data_ : option Data }.

Definition valid (z : TimeZone) : bool := bool_decide (is_Some (data_ z)).

Definition of_fixed (eastOfUtc : Z) (name : bytes) : TimeZone :=
  mkZone (Some (mkData [] [mkLocaltime eastOfUtc false 0] [] name)).

Definition toLocalTime (z : TimeZone) (seconds : Z) : result tm :=
  match data_ z with
  | None => Fail AssertFailed
  | Some data =>
      local ← findLocaltime data (mkTransition seconds 0 0) (mkComp true);
      localSeconds ← sint 64 (seconds + gmtOffset local);
      t ← gmtime_r localSeconds;
      Ok (mkTm (tm_sec t) (tm_min t) (tm_hour t) (tm_mday t) (tm_mon t) (tm_year t)
               (tm_wday t) (tm_yday t) (if isDst local then 1 else 0) (gmtOffset local)
               (zdrop (arrbIdx local) (abbreviation data)))
  end.

Definition fromLocalTime (z : TimeZone) (localTm : tm) : result Z :=
  match data_ z with
  | None => Fail AssertFailed
  | Some data =>
      seconds ← timegm localTm;
      local ← findLocaltime data (mkTransition 0 seconds 0) (mkComp false);
      seconds' ←
        (if negb (tm_isdst localTm =? 0) then
           t ← sint 64 (seconds - gmtOffset local);
           tryTm ← toLocalTime z t;
           if (tm_isdst tryTm =? 0) && (tm_hour tryTm =? tm_hour localTm)
              && (tm_min tryTm =? tm_min localTm)
           then sint 64 (seconds - 3600) else Ok seconds
         else Ok seconds);
      sint 64 (seconds' - gmtOffset local)
  end.

(** ** The zone file

    The reader consumes the bytes of the file and fills the data; an exception
    leaves what was stored so far. *)
Inductive outcome (A : Type) :=
  | Return (a : A) (rest : bytes) (data : Data)
  | Throw (data : Data)
  | Undefined (f : fault).
Arguments Return {A} a rest data.
Arguments Throw {A} data.
Arguments Undefined {A} f.

Definition reader (A : Type) : Type := bytes → Data → outcome A.
#[global] Instance reader_ret : MRet reader := λ A a f d, Return a f d.
#[global] Instance reader_bind : MBind reader := λ A B k m f d,
  match m f d with
  | Return a f' d' => k a f' d'
  | Throw d' => Throw d'
  | Undefined e => Undefined e
  end.

Definition throw {A} : reader A := λ _ d, Throw d.
Definition undefined {A} (e : fault) : reader A := λ _ _, Undefined e.

(** [char buf[n]; fread(buf, 1, n, fp_)] *)
Definition readBytes (n : Z) : reader bytes := λ f d,
  if n <? 0 then Undefined OutOfRange
  else if zlen f <? n then Throw d
  else Return (ztake n f) (zdrop n f) d.

Definition readInt32 : reader Z := λ f d,
  if zlen f <? 4 then Throw d else Return (s32 (be_val (ztake 4 f))) (zdrop 4 f) d.

Definition readUInt8 : reader Z := λ f d,
  if zlen f <? 1 then Throw d else Return (be_val (ztake 1 f)) (zdrop 1 f) d.

Fixpoint readMany (n : nat) (r : reader Z) : reader (list Z) :=
  match n with
  | O => mret []
  | S n => x ← r; xs ← readMany n r; mret (x :: xs)
  end.

Definition push_localtime (l : Localtime) : reader unit := λ f d,
  Return tt f (mkData (transitions d) (localtimes d ++ [l]) (names d) (abbreviation d)).
Definition push_transition (t : Transition) : reader unit := λ f d,
  Return tt f (mkData (transitions d ++ [t]) (localtimes d) (names d) (abbreviation d)).
Definition set_abbreviation (s : bytes) : reader unit := λ f d,
  Return tt f (mkData (transitions d) (localtimes d) (names d) s).
Definition get_localtime (i : Z) : reader Localtime := λ f d,
  match at_ (localtimes d) i with Ok l => Return l f d | Fail e => Undefined e end.

Fixpoint readLocaltimes (n : nat) : reader unit :=
  match n with
  | O => mret tt
  | S n =>
      gmtoff ← readInt32; isdst ← readUInt8; abbrind ← readUInt8;
      _ ← push_localtime (mkLocaltime gmtoff (negb (isdst =? 0)) abbrind);
      readLocaltimes n
  end.

Fixpoint readTransitions (l : list (Z * Z)) : reader unit :=
  match l with
  | [] => mret tt
  | (trans, localIdx) :: l =>
      lt ← get_localtime localIdx;
      _ ← push_transition (mkTransition trans (trans + gmtOffset lt) localIdx);
      readTransitions l
  end.

Definition readBody : reader unit :=
  head ← readBytes 4;
  if negb (bool_decide (head = String.list_ascii_of_string "TZif")) then throw else
  version ← readBytes 1;
  _ ← readBytes 15;
  isgmtcnt ← readInt32; isstdcnt ← readInt32; leapcnt ← readInt32;
  timecnt ← readInt32; typecnt ← readInt32; charcnt ← readInt32;
  if timecnt <? 0 then throw (* vector::reserve throws length_error *) else
  trans ← readMany (Z.to_nat timecnt) readInt32;
  idxs ← readMany (Z.to_nat timecnt) readUInt8;
  _ ← readLocaltimes (Z.to_nat typecnt);
  _ ← readTransitions (zip trans idxs);
  abbr ← readBytes charcnt;
  set_abbreviation abbr.

(** [readTimeZoneFile]: [None] is a file that could not be opened. *)
Definition readTimeZoneFile (zonefile : option bytes) (data : Data) : result (bool * Data) :=
  match zonefile with
  | None => Ok (true, data)
  | Some f =>
      match readBody f data with
      | Return _ _ d => Ok (true, d)
      | Throw d => Ok (true, d)
      | Undefined e => Fail e
      end
  end.

Definition of_file (zonefile : option bytes) : result TimeZone :=
  r ← readTimeZoneFile zonefile empty_data;
  let '(ok, d) := r in Ok (mkZone (if (ok : bool) then Some d else None)).

(** ** UTC round trip *)

(** Days since the epoch whose Julian day number is non-negative and whose
    calendar computation fits [int]. *)
Definition utc_range (t : Z) : Prop := -2440588 ≤ t / kSecondsPerDay ≤ 534398278.

Lemma jan_first y : valid_ymd y 1 1.
Proof. split; [lia|]. vm_compute. intuition discriminate. Qed.

Lemma civil_day_of_year y m d :
  valid_ymd y m d → 0 ≤ civil_days y m d - civil_days y 1 1 ≤ 365.
Proof.
  intros [Hm Hd]. pose proof (month_length_range (leap y) m Hm).
  unfold civil_days. change (Z.to_nat (1 - 1)) with 0%nat. cbn [days_of_months].
  pose proof (days_of_months_nonneg (leap y) (Z.to_nat (m - 1))).
  pose proof (days_of_months_mono (leap y) (Z.to_nat (m - 1)) 12 ltac:(lia)) as Hmono.
  rewrite days_of_year in Hmono.
  replace (Z.of_nat (S (Z.to_nat (m - 1)))) with m in Hmono by lia. destruct (leap y); lia.
Qed.

Lemma toUtcTime_spec t yday :
  utc_range t →
  ∃ p, getYearMonthDay (t / kSecondsPerDay + kJulianDayOf1970_01_01) = Ok p ∧
    valid_ymd (year p) (month p) (day p) ∧
    -4800 ≤ year p ≤ 5000000 ∧ (year p = -4800 → 3 ≤ month p) ∧
    civil_days (year p) (month p) (day p) + 1721060 = t / kSecondsPerDay + kJulianDayOf1970_01_01 ∧
    toUtcTime t yday = Ok (mkTm ((t mod kSecondsPerDay) mod 60)
      ((t mod kSecondsPerDay) / 60 mod 60) ((t mod kSecondsPerDay) / 60 / 60)
      (day p) (month p - 1) (year p - 1900)
      ((t / kSecondsPerDay + kJulianDayOf1970_01_01 + 1) mod 7)
      (if yday then civil_days (year p) (month p) (day p) - civil_days (year p) 1 1 else 0)
      0 0 (String.list_ascii_of_string "GMT")).
Proof.
  intros Ht. unfold utc_range in Ht. set (D := t / kSecondsPerDay) in *.
  assert (0 ≤ t mod kSecondsPerDay < kSecondsPerDay) as Hm by (apply Z.mod_pos_bound; done).
  pose proof (Z.div_mod t kSecondsPerDay ltac:(done)) as Hdm. fold D in Hdm.
  assert (kJulianDayOf1970_01_01 = 2440588) as Hk by reflexivity.
  destruct (getYearMonthDay_civil (D + kJulianDayOf1970_01_01))
    as (p & Ep & Hv & Hy & Hy0 & Hc); [lia|].
  exists p. do 5 (split; [done|]).
  unfold toUtcTime.
  assert (kSecondsPerDay = 86400) as Hspd by reflexivity.
  assert (Z.rem t kSecondsPerDay = t mod kSecondsPerDay ∧ Z.quot t kSecondsPerDay = D ∨
          Z.rem t kSecondsPerDay = t mod kSecondsPerDay - kSecondsPerDay ∧
          Z.quot t kSecondsPerDay = D + 1 ∧ Z.rem t kSecondsPerDay < 0) as Hqr.
  { rewrite Hspd in *. clear -Hdm Hm D. pose proof (Z.quot_rem t 86400 ltac:(done)).
    pose proof (Z.rem_bound_abs t 86400 ltac:(done)). lia. }
  rewrite !(wraps_small 32) by (zlia || (destruct Hqr as [[-> ->]|(-> & -> & _)]; zlia)).
  match goal with |- (?sd ≫= _) = _ => assert (sd = Ok (t mod kSecondsPerDay, D)) as -> end.
  { destruct Hqr as [[-> ->]|(Er & -> & Hneg)].
    - by rewrite (proj2 (Z.ltb_ge _ _)) by lia.
    - rewrite (proj2 (Z.ltb_lt _ _)) by lia. rewrite Er. int_eval. f_equal. f_equal; lia. }
  rewrite bind_Ok. cbn [fillHMS]. rewrite wrapu_small by zlia.
  rewrite (iop_Ok Z.add _ _ _ eq_refl) by zlia. rewrite bind_Ok.
  unfold yearMonthDay, weekDay, of_jdn. cbn [julianDayNumber_]. rewrite Ep, bind_Ok.
  pose proof Hv as [Hmon Hday].
  rewrite !(iop_Ok Z.sub _ _ _ eq_refl), !bind_Ok, !(iop_Ok Z.add _ _ _ eq_refl) by zlia.
  unfold kDaysPerWeek.
  rewrite (iop_Ok Z.rem _ _ ((D + kJulianDayOf1970_01_01 + 1) mod 7))
    by (rewrite ?Z.rem_mod_nonneg by lia; zdiv). rewrite bind_Ok.
  destruct yday; [|done]. unfold of_ymd.
  assert (year p ≠ -4800) as Hny.
  { intros E. pose proof (month_length_range (leap (year p)) _ Hmon).
    rewrite (civil_days_march _ _ _ 0 0) in Hc by (done || lia). zdiv. }
  rewrite getJulianDayNumber_civil by (auto using jan_first; lia). rewrite !bind_Ok.
  pose proof (civil_day_of_year _ _ _ Hv). cbn [julianDayNumber_].
  rewrite (iop_Ok Z.sub _ _ _ eq_refl), bind_Ok by zlia. do 2 f_equal. lia.
Qed.

Lemma utc_roundtrip' t :
  utc_range t → ∃ utc, toUtcTime t true = Ok utc ∧ fromUtcTime utc = Ok t.
Proof.
  intros Ht. destruct (toUtcTime_spec t true Ht) as (p & _ & Hv & Hy & Hy0 & Hc & E).
  rewrite E. eexists. split; [done|]. unfold fromUtcTime, fromUtcTime6.
  cbn [tm_sec tm_min tm_hour tm_mday tm_mon tm_year tm_wday tm_yday].
  pose proof (civil_day_of_year _ _ _ Hv) as Hdoy. pose proof Hv as [Hmon Hday].
  pose proof (month_length_range (leap (year p)) _ Hmon).
  unfold utc_range, kSecondsPerDay in *. change kJulianDayOf1970_01_01 with 2440588 in *.
  assert (0 ≤ t mod 86400 < 86400) as Hm by (by apply Z.mod_pos_bound).
  assert (0 ≤ (t mod 86400) / 60 < 1440) as Hmin by zdiv.
  rewrite !(iop_Ok Z.add _ _ _ eq_refl), !bind_Ok by zlia.
  replace (year p - 1900 + 1900) with (year p) by lia.
  replace (month p - 1 + 1) with (month p) by lia. unfold of_ymd.
  rewrite getJulianDayNumber_civil, !bind_Ok by auto. cbn [julianDayNumber_].
  assert (0 ≤ (t mod 86400) / 60 / 60 < 24 ∧ 0 ≤ (t mod 86400) / 60 mod 60 < 60 ∧
          0 ≤ (t mod 86400) mod 60 < 60) as (? & ? & ?) by zdiv.
  assert ((t mod 86400) / 60 / 60 * 3600 + (t mod 86400) / 60 mod 60 * 60 + (t mod 86400) mod 60
          = t mod 86400) as Hsod by zdiv.
  pose proof (Z.div_mod t 86400 ltac:(done)).
  int_eval. rewrite sint_Ok by zlia. f_equal. lia.
Qed.

(** [toUtcTime] splits every time of the range (negative times included)
    into fields in their calendar ranges, with the weekday and day of the year
    of the date, and [fromUtcTime] restores the time. *)
Theorem utc_roundtrip t :
  utc_range t →
  ∃ utc, toUtcTime t true = Ok utc ∧ fromUtcTime utc = Ok t ∧
    0 ≤ tm_sec utc < 60 ∧ 0 ≤ tm_min utc < 60 ∧ 0 ≤ tm_hour utc < 24 ∧
    valid_ymd (tm_year utc + 1900) (tm_mon utc + 1) (tm_mday utc) ∧
    tm_wday utc = (t / kSecondsPerDay + 4) mod 7 ∧ 0 ≤ tm_yday utc ≤ 365.
Proof.
  intros Ht. destruct (utc_roundtrip' t Ht) as (u & E1 & E2).
  destruct (toUtcTime_spec t true Ht) as (p & _ & Hv & Hy & Hy0 & Hc & E).
  rewrite E in E1. injection E1 as <-. eexists. split; [done|]. split; [done|].
  cbn [tm_sec tm_min tm_hour tm_mday tm_mon tm_year tm_wday tm_yday].
  pose proof (civil_day_of_year _ _ _ Hv) as Hdoy. unfold kSecondsPerDay in *.
  change kJulianDayOf1970_01_01 with 2440588 in *.
  assert (0 ≤ t mod 86400 < 86400) as Hm by (by apply Z.mod_pos_bound).
  do 3 (split; [zdiv|]). replace (year p - 1900 + 1900) with (year p) by lia.
  replace (month p - 1 + 1) with (month p) by lia. split; [done|]. split; [|done]. zdiv.
Qed.

Lemma utc_roundtrip_witness :
  ∃ utc, toUtcTime (-1) true = Ok utc ∧ fromUtcTime utc = Ok (-1) ∧ tm_hour utc = 23.
Proof.
  destruct (utc_roundtrip (-1)) as (utc & E1 & E2 & _); [vm_compute; intuition discriminate|].
  exists utc. split; [exact E1|]. split; [exact E2|]. vm_compute in E1. injection E1 as <-. reflexivity.
Defined.

(** ** Looking up the local time type *)

Definition key (c : Comp) (t : Transition) : Z := if compareGmt c then gmttime t else localtime t.

(** The table is in chronological order. *)
Definition ordered (c : Comp) (v : list Transition) : Prop :=
  ∀ i j x y, (i < j)%nat → v !! i = Some x → v !! j = Some y → key c x < key c y.

(** Reference: the type of the last transition that is not in the future, or
    the first type before all transitions. *)
Definition findLocaltime_ref (data : Data) (sentry : Transition) (c : Comp) : result Localtime :=
  match list.last (filter (λ t, key c t ≤ key c sentry) (transitions data)) with
  | None => at_ (localtimes data) 0
  | Some t => at_ (localtimes data) (localtimeIdx t)
  end.

Lemma comp_call_key c x y : comp_call c x y = (key c x <? key c y).
Proof. unfold comp_call, key. by case_match. Qed.

Lemma comp_equal_key c x y : comp_equal c x y = (key c x =? key c y).
Proof. unfold comp_equal, key. by case_match. Qed.

Lemma at_lookup {A} (v : list A) i x : v !! i = Some x → at_ v (Z.of_nat i) = Ok x.
Proof.
  intros E. unfold at_. rewrite bool_decide_true by lia. by rewrite Nat2Z.id, E.
Qed.

(** The partition point: everything before it is smaller, nothing after it is. *)
Definition partition_at (c : Comp) (v : list Transition) (s : Transition) (i : nat) : Prop :=
  (i ≤ length v)%nat ∧
  (∀ j x, (j < i)%nat → v !! j = Some x → key c x < key c s) ∧
  (∀ j x, (i ≤ j)%nat → v !! j = Some x → key c s ≤ key c x).

Lemma lower_bound_loop_ok c v s fuel : ∀ first len,
  ordered c v → 0 ≤ first → 0 ≤ len → first + len ≤ zlen v → len < Z.of_nat fuel →
  (∀ j x, (j < Z.to_nat first)%nat → v !! j = Some x → key c x < key c s) →
  (∀ j x, (Z.to_nat (first + len) ≤ j)%nat → v !! j = Some x → key c s ≤ key c x) →
  ∃ i, lower_bound_loop fuel c v s first len = Ok (Z.of_nat i) ∧ partition_at c v s i.
Proof.
  induction fuel as [|fuel IH]; intros first len Ho Hf Hl Hb Hfuel Hlo Hhi; [lia|].
  cbn [lower_bound_loop]. destruct (Z.ltb_spec 0 len) as [Hpos|Hz].
  - assert (0 ≤ len / 2 < len) as Hhalf by zdiv.
    destruct (lookup_lt_is_Some_2 v (Z.to_nat (first + len / 2))) as [mid Hmid];
      [unfold zlen in Hb; lia|].
    rewrite Hmid, comp_call_key. destruct (Z.ltb_spec (key c mid) (key c s)).
    + apply IH; try done; try lia.
      * intros j x Hj Hx. destruct (decide (j = Z.to_nat (first + len / 2))) as [->|]; [congruence|].
        assert (key c x < key c mid); [|lia]. eapply Ho; [|done..]. lia.
      * intros j x Hj Hx. apply (Hhi j x); [|done]. lia.
    + apply IH; try done; try lia.
      intros j x Hj Hx. destruct (decide (j = Z.to_nat (first + len / 2))) as [->|]; [congruence|].
      assert (key c mid < key c x); [|lia]. eapply Ho; [|done..]. lia.
  - exists (Z.to_nat first). split; [f_equal; lia|]. assert (len = 0) as -> by lia.
    rewrite Z.add_0_r in *. split; [unfold zlen in Hb; lia|]. auto.
Qed.

Lemma lower_bound_ok c v s :
  ordered c v → ∃ i, lower_bound c v s = Ok (Z.of_nat i) ∧ partition_at c v s i.
Proof.
  intros Ho. unfold lower_bound. pose proof (zlen_nonneg v).
  apply lower_bound_loop_ok; try done; try lia.
  - unfold zlen. lia.
  - intros j x Hj Hx. apply lookup_lt_Some in Hx. unfold zlen in Hj. lia.
Qed.

(** The transitions not in the future, at a partition point. *)
Lemma filter_partition c v s i :
  ordered c v → partition_at c v s i →
  filter (λ t, key c t ≤ key c s) v =
    take i v ++ match v !! i with
                | Some x => if key c s =? key c x then [x] else []
                | None => []
                end.
Proof.
  intros Ho (Hi & Hlo & Hhi). rewrite <- (take_drop i v) at 1. rewrite list.filter_app. f_equal.
  - apply filter_all. intros x Hx. apply list_elem_of_lookup in Hx as (j & Hj).
    apply lookup_take_Some in Hj as [Hj ?]. specialize (Hlo j x ltac:(lia) Hj). lia.
  - destruct (v !! i) as [x|] eqn:E; [|by apply lookup_ge_None in E; rewrite drop_ge].
    rewrite (drop_S _ _ _ E). assert (filter (λ t, key c t ≤ key c s) (drop (S i) v) = []) as Hnil.
    { apply filter_none. intros y Hy.
      apply list_elem_of_lookup in Hy as (j & Hj). rewrite lookup_drop in Hj.
      pose proof (Ho i (S i + j)%nat x y ltac:(lia) E Hj). pose proof (Hhi i x ltac:(lia) E). lia. }
    rewrite filter_cons, Hnil. pose proof (Hhi i x ltac:(lia) E).
    destruct (Z.eqb_spec (key c s) (key c x)); case_decide; done || lia.
Qed.

(** On a table in chronological order the binary search finds the type of
    the last transition that is not after the given time (or the first type),
    by GMT and by local time, and never trips its assertion. *)
Theorem findLocaltime_last data sentry c :
  ordered c (transitions data) →
  findLocaltime data sentry c = findLocaltime_ref data sentry c.
Proof.
  intros Ho. unfold findLocaltime, findLocaltime_ref.
  destruct (lower_bound_ok c (transitions data) sentry Ho) as (i & -> & Hp).
  rewrite (filter_partition c _ _ i) by done. destruct Hp as (Hi & Hlo & Hhi).
  destruct (transitions data) as [|t0 v] eqn:Ev; [by rewrite take_nil|].
  rewrite comp_call_key, <- Ev in *.
  assert (transitions data !! 0%nat = Some t0) as H0 by by rewrite Ev.
  destruct (Z.ltb_spec (key c sentry) (key c t0)) as [Hlt|Hge].
  { destruct i as [|i]; [|specialize (Hlo 0%nat _ ltac:(lia) H0); lia].
    rewrite H0, (proj2 (Z.eqb_neq _ _)) by lia. done. }
  rewrite bind_Ok. destruct (transitions data !! i) as [x|] eqn:Ex.
  - pose proof (lookup_lt_Some _ _ _ Ex). rewrite (proj2 (Z.eqb_neq _ _)) by (unfold zlen; lia).
    cbn [negb]. rewrite (at_lookup _ _ _ Ex), bind_Ok, comp_equal_key.
    destruct (Z.eqb_spec (key c sentry) (key c x)); cbn [negb].
    + by rewrite last_snoc.
    + destruct i as [|i]; [assert (t0 = x) by congruence; subst; specialize (Hhi 0%nat _ ltac:(lia) H0); lia|].
      rewrite check_true by (apply negb_true_iff, Z.eqb_neq; lia). rewrite bind_Ok, app_nil_r.
      destruct (lookup_lt_is_Some_2 (transitions data) i) as [y Hy]; [lia|].
      replace (Z.of_nat (S i) - 1) with (Z.of_nat i) by lia.
      by rewrite (at_lookup _ _ _ Hy), bind_Ok, (take_S_r _ _ _ Hy), last_snoc.
  - apply lookup_ge_None in Ex. assert (i = length (transitions data)) as -> by lia.
    unfold zlen. rewrite Z.eqb_refl, take_ge, app_nil_r by lia. cbn [negb].
    assert (length (transitions data) ≠ 0%nat) as Hn by (rewrite Ev; done).
    destruct (lookup_lt_is_Some_2 (transitions data) (pred (length (transitions data)))) as [y Hy];
      [lia|]. rewrite last_lookup, Hy.
    replace (Z.of_nat (length (transitions data)) - 1)
      with (Z.of_nat (pred (length (transitions data)))) by lia.
    by rewrite (at_lookup _ _ _ Hy).
Qed.

Lemma findLocaltime_last_witness :
  let data := mkData [mkTransition 100 3700 1; mkTransition 200 200 0]
                [mkLocaltime 0 false 0; mkLocaltime 3600 true 4] [] [] in
  findLocaltime data (mkTransition 150 0 0) (mkComp true) = Ok (mkLocaltime 3600 true 4).
Proof.
  cbv zeta. rewrite findLocaltime_last; [reflexivity|].
  intros [|[|i]] [|[|j]] x y Hij Hx Hy; cbn in Hx, Hy; simplify_eq; cbn; lia.
Defined.

(** ** A fixed zone *)

(** In a zone with a fixed offset, [fromLocalTime] inverts [toLocalTime],
    and the local fields are those of UTC shifted by the offset. *)
Theorem fixed_roundtrip east name t :
  in_s 32 east → utc_range (t + east) →
  ∃ l, toLocalTime (of_fixed east name) t = Ok l ∧
    fromLocalTime (of_fixed east name) l = Ok t ∧
    tm_gmtoff l = east ∧ tm_isdst l = 0 ∧ tm_zone l = name.
Proof.
  intros He Ht. destruct (utc_roundtrip' (t + east) Ht) as (u & E1 & E2).
  unfold toLocalTime, fromLocalTime, of_fixed, findLocaltime, gmtime_r, timegm.
  cbn [data_ transitions localtimes].
  change (at_ [mkLocaltime east false 0] 0) with (Ok (mkLocaltime east false 0)). rewrite !bind_Ok. cbn [gmtOffset isDst arrbIdx].
  assert (-2440588 * 86400 ≤ t + east < 534398279 * 86400).
  { unfold utc_range, kSecondsPerDay in Ht. zdiv. }
  rewrite sint_Ok, bind_Ok, E1, bind_Ok by zlia.
  eexists. split; [done|]. unfold fromUtcTime in *.
  cbn [tm_year tm_mon tm_mday tm_hour tm_min tm_sec tm_isdst tm_gmtoff tm_zone].
  rewrite E2, !bind_Ok. cbn [Z.eqb negb gmtOffset]. rewrite bind_Ok, sint_Ok by zlia.
  repeat split; try done. f_equal. lia.
Qed.

Lemma fixed_roundtrip_witness :
  ∃ l, toLocalTime (of_fixed (8 * 3600) []) (-1) = Ok l ∧
    fromLocalTime (of_fixed (8 * 3600) []) l = Ok (-1) ∧ tm_hour l = 7.
Proof.
  destruct (fixed_roundtrip (8 * 3600) [] (-1)) as (l & E1 & E2 & _);
    [vm_compute; intuition discriminate..|].
  exists l. split; [exact E1|]. split; [exact E2|]. vm_compute in E1. injection E1 as <-. reflexivity.
Defined.

(** ** The zone file *)

(** A version-1 zone file: header, six counts, transition times, transition
    types, local time types, abbreviations. *)
Definition encode_localtime (l : Localtime) : bytes :=
  be_bytes 4 (gmtOffset l) ++ [byte_of (if isDst l then 1 else 0)] ++ [byte_of (arrbIdx l)].
Definition encode_file (hdr : bytes) (data : Data) (gmtcnt stdcnt leapcnt : Z) : bytes :=
  String.list_ascii_of_string "TZif" ++ hdr ++
  be_bytes 4 gmtcnt ++ be_bytes 4 stdcnt ++ be_bytes 4 leapcnt ++
  be_bytes 4 (zlen (transitions data)) ++ be_bytes 4 (zlen (localtimes data)) ++
  be_bytes 4 (zlen (abbreviation data)) ++
  concat ((λ t, be_bytes 4 (gmttime t)) <$> transitions data) ++
  ((λ t, byte_of (localtimeIdx t)) <$> transitions data) ++
  concat (encode_localtime <$> localtimes data) ++ abbreviation data.

Definition localtime_ok (l : Localtime) : Prop := in_s 32 (gmtOffset l) ∧ in_u 8 (arrbIdx l).
Definition transition_ok (data : Data) (t : Transition) : Prop :=
  in_s 32 (gmttime t) ∧ in_u 8 (localtimeIdx t) ∧
  ∃ l, localtimes data !! Z.to_nat (localtimeIdx t) = Some l ∧
       localtime t = gmttime t + gmtOffset l.

(** Data that a zone file can hold. *)
Definition file_ok (data : Data) : Prop :=
  Forall localtime_ok (localtimes data) ∧ Forall (transition_ok data) (transitions data) ∧
  names data = [] ∧ zlen (localtimes data) < 2 ^ 31 ∧ zlen (transitions data) < 2 ^ 31 ∧
  zlen (abbreviation data) < 2 ^ 31.

Lemma readInt32_be z f d : in_s 32 z → readInt32 (be_bytes 4 z ++ f) d = Return z f d.
Proof.
  intros Hz. pose proof (length_be_bytes 4 z) as Hl. unfold readInt32.
  assert (zlen (be_bytes 4 z) = 4) as Hz4 by (unfold zlen; lia).
  pose proof (zlen_nonneg f). rewrite (proj2 (Z.ltb_ge _ _)) by zlia.
  rewrite ztake_app_exact, zdrop_app_exact by done. rewrite be_val_bytes.
  change (256 ^ Z.of_nat 4) with (2 ^ 32). fold (u32 z). by rewrite wraps_wrapu, wraps_small by done.
Qed.

Lemma readUInt8_byte z f d : in_u 8 z → readUInt8 (byte_of z :: f) d = Return z f d.
Proof.
  intros Hz. unfold readUInt8. pose proof (zlen_nonneg f).
  rewrite zlen_cons, (proj2 (Z.ltb_ge _ _)) by lia.
  change (ztake 1 (byte_of z :: f)) with [byte_of z]. change (zdrop 1 (byte_of z :: f)) with f.
  change (be_val [byte_of z]) with (byte_val (byte_of z) + 256 * 0). rewrite byte_val_of.
  rewrite Z.mod_small by (unfold in_u in Hz; lia). f_equal. lia.
Qed.

Lemma readBytes_app l f d : readBytes (zlen l) (l ++ f) d = Return l f d.
Proof.
  unfold readBytes. pose proof (zlen_nonneg l). pose proof (zlen_nonneg f).
  rewrite !(proj2 (Z.ltb_ge _ _)) by zlia. by rewrite ztake_app_exact, zdrop_app_exact.
Qed.

Lemma reader_bind_Return {A B} (r : reader A) (k : A → reader B) f d a f' d' :
  r f d = Return a f' d' → (r ≫= k) f d = k a f' d'.
Proof. intros E. unfold mbind, reader_bind. by rewrite E. Qed.

Lemma readMany_Return {X} (g : X → Z) (enc : X → bytes) r (l : list X) f d :
  (∀ x f d, x ∈ l → r (enc x ++ f) d = Return (g x) f d) →
  readMany (length l) r (concat (enc <$> l) ++ f) d = Return (g <$> l) f d.
Proof.
  induction l as [|x l IH]; intros Hr; [done|]. cbn [length readMany fmap list_fmap concat].
  rewrite <- app_assoc. erewrite reader_bind_Return by (apply Hr; left).
  erewrite reader_bind_Return by (apply IH; intros; apply Hr; by right). done.
Qed.

Lemma readLocaltimes_Return l : ∀ f d,
  Forall localtime_ok l →
  readLocaltimes (length l) (concat (encode_localtime <$> l) ++ f) d =
    Return tt f (mkData (transitions d) (localtimes d ++ l) (names d) (abbreviation d)).
Proof.
  induction l as [|[off dst ab] l IH]; intros f d Hl.
  { cbn. destruct d. by rewrite app_nil_r. }
  apply Forall_cons_iff in Hl as [[Ho Ha] Hl]. cbn [gmtOffset arrbIdx] in *.
  cbn [length readLocaltimes fmap list_fmap concat]. unfold encode_localtime at 1.
  rewrite <- !app_assoc. erewrite reader_bind_Return by by apply readInt32_be.
  erewrite reader_bind_Return by by (apply readUInt8_byte; by destruct dst).
  erewrite reader_bind_Return by by apply readUInt8_byte.
  erewrite reader_bind_Return by reflexivity. rewrite IH by done. cbn. rewrite <- app_assoc.
  by destruct dst.
Qed.

Lemma readTransitions_Return l : ∀ f d,
  Forall (transition_ok d) l →
  readTransitions (zip (gmttime <$> l) (localtimeIdx <$> l)) f d =
    Return tt f (mkData (transitions d ++ l) (localtimes d) (names d) (abbreviation d)).
Proof.
  induction l as [|[g lt ix] l IH]; intros f d Hl.
  { cbn. destruct d. by rewrite app_nil_r. }
  apply Forall_cons_iff in Hl as [(Hg & Hi & x & Hx & Hlt) Hl]. cbn in Hg, Hi, Hx, Hlt. subst lt.
  cbn [fmap list_fmap zip zip_with readTransitions gmttime localtimeIdx].
  assert (get_localtime ix f d = Return x f d) as E.
  { unfold get_localtime, at_. by rewrite bool_decide_true, Hx by (unfold in_u in Hi; lia). }
  erewrite reader_bind_Return by exact E. erewrite reader_bind_Return by reflexivity.
  rewrite IH; [cbn; by rewrite <- app_assoc|]. exact Hl.
Qed.

Lemma concat_singletons {A B} (g : A → B) l : concat ((λ x, [g x]) <$> l) = g <$> l.
Proof. induction l as [|x l IH]; [done|]. cbn. by rewrite <- IH. Qed.

(** Reading a zone file that encodes a table (with any unused version
    header and counts) yields exactly that table. *)
Theorem zonefile_roundtrip hdr data a b c rest :
  file_ok data → zlen hdr = 16 → in_s 32 a → in_s 32 b → in_s 32 c →
  readTimeZoneFile (Some (encode_file hdr data a b c ++ rest)) empty_data = Ok (true, data).
Proof.
  intros (Hl & Ht & Hn & Hll & Hlt & Hla) Hh Ha Hb Hc.
  assert (∀ A (l : list A), zlen l < 2 ^ 31 → in_s 32 (zlen l)) as Hin.
  { intros A l ?. pose proof (zlen_nonneg l). zlia. }
  unfold readTimeZoneFile. enough (readBody (encode_file hdr data a b c ++ rest) empty_data
    = Return tt rest data) as -> by done.
  rewrite <- (ztake_zdrop 1 hdr). unfold readBody, encode_file. rewrite <- !app_assoc.
  erewrite reader_bind_Return by apply (readBytes_app (String.list_ascii_of_string "TZif")).
  rewrite bool_decide_true by done. cbn [negb].
  erewrite reader_bind_Return
    by (rewrite <- (zlen_ztake 1 hdr) at 1 by lia; apply readBytes_app).
  erewrite reader_bind_Return
    by (replace 15 with (zlen (zdrop 1 hdr)) by (rewrite zlen_zdrop; lia); apply readBytes_app).
  do 6 (erewrite reader_bind_Return by (apply readInt32_be; auto)).
  rewrite (proj2 (Z.ltb_ge _ _)) by apply zlen_nonneg. unfold zlen. rewrite !Nat2Z.id.
  erewrite reader_bind_Return.
  2: { apply (readMany_Return gmttime). intros x f d Hx. apply readInt32_be.
       by apply (proj1 (Forall_forall _ _) Ht x Hx). }
  erewrite reader_bind_Return.
  2: { rewrite <- concat_singletons. apply (readMany_Return localtimeIdx).
       intros x f d Hx. apply readUInt8_byte. by apply (proj1 (Forall_forall _ _) Ht x Hx). }
  erewrite reader_bind_Return by by apply readLocaltimes_Return. cbn [empty_data transitions localtimes names app].
  erewrite reader_bind_Return by by apply readTransitions_Return. cbn [transitions localtimes names app].
  erewrite reader_bind_Return by apply readBytes_app.
  unfold set_abbreviation. destruct data. cbn in *. by subst.
Qed.

Lemma zonefile_roundtrip_witness :
  let data := mkData [mkTransition 100 3700 1; mkTransition 200 200 0]
                [mkLocaltime 0 false 0; mkLocaltime 3600 true 4] []
                (String.list_ascii_of_string "GMT") in
  readTimeZoneFile (Some (encode_file (replicate 16 "0"%char) data 0 0 0)) empty_data
    = Ok (true, data).
Proof.
  cbv zeta. rewrite <- (app_nil_r (encode_file _ _ _ _ _)).
  apply zonefile_roundtrip; try done.
  split; [repeat constructor; vm_compute; intuition discriminate|].
  split; [|done].
  repeat constructor; try (vm_compute; intuition discriminate); eexists; split; reflexivity.
Defined.

(** A zone file that is missing or is not a zone file still gives a zone
    that reports itself valid; converting a time with it reads the first element
    of an empty vector. *)
Theorem bad_zonefile_valid zonefile :
  (∀ f, zonefile = Some f → ztake 4 f ≠ String.list_ascii_of_string "TZif") →
  ∃ z, of_file zonefile = Ok z ∧ valid z = true ∧
    ∀ t, toLocalTime z t = Fail OutOfRange.
Proof.
  intros Hbad. exists (mkZone (Some empty_data)). split; [|by split].
  unfold of_file, readTimeZoneFile. destruct zonefile as [f|]; [|done].
  unfold readBody, mbind at 2, reader_bind at 1, readBytes at 1. cbn [Z.ltb Z.compare].
  destruct (zlen f <? 4); [done|]. rewrite bool_decide_false by by apply Hbad. done.
Qed.

Lemma bad_zonefile_valid_witness :
  ∃ z, of_file None = Ok z ∧ valid z = true ∧ ∀ t, toLocalTime z t = Fail OutOfRange.
Proof. apply bad_zonefile_valid. discriminate. Defined.

End TimeZone.
