(* ===== verification/Timestamp.v ===== *)
(** * Timestamp ([base/Timestamp.h], [base/Timestamp.cc])

    Microseconds since the epoch in an [int64_t]. [double] is the binary64
    format of the Standard Library's [SpecFloat] (53 bits, emax 1024), with
    round-to-nearest-even; a conversion to [int64_t] truncates and is undefined
    outside its range. *)

From Stdlib Require Import SpecFloat.
From S2P Require Import Prelude Endian Format Date TimeZone.
Import Endian Format.

Module Timestamp.

(** ** double *)

Abbreviation double := spec_float.
Definition double_of_Z (z : Z) : double := binary_normalize 53 1024 z 0 false.
Definition dmul (x y : double) : double := SFmul 53 1024 x y.
Definition ddiv (x y : double) : double := SFdiv 53 1024 x y.
Definition dgtb (x y : double) : bool := SFltb y x.

(** The integer part, towards zero; none for infinities and NaN. *)
Definition dtrunc (x : double) : option Z :=
  match x with
  | S754_zero _ => Some 0
  | S754_finite s m e =>
      let a := Z.quot (Z.pos m * 2 ^ Z.max e 0) (2 ^ Z.max (- e) 0) in
      Some (if s then - a else a)
  | _ => None
  end.
Definition int64_of_double (x : double) : result Z :=
  match dtrunc x with Some z => sint 64 z | None => Fail SignedOverflow end.

(** ** Timestamp *)

Record Timestamp := mkTimestamp { microSecondsSinceEpoch_ : Z }.
#[global] Instance Timestamp_eq_dec : EqDecision Timestamp.
Proof. solve_decision. Defined.

Definition kMicroSecondsPerSecond : Z := 1000 * 1000.

Definition invalid : Timestamp := mkTimestamp 0.
Definition swap (a b : Timestamp) : Timestamp * Timestamp := (b, a).
Definition valid (t : Timestamp) : bool := 0 <? microSecondsSinceEpoch_ t.
Definition microSecondsSinceEpoch (t : Timestamp) : Z := microSecondsSinceEpoch_ t.
Definition secondsSinceEpoch (t : Timestamp) : Z :=
  Z.quot (microSecondsSinceEpoch_ t) kMicroSecondsPerSecond.

Definition fromUnixTime2 (t microseconds : Z) : result Timestamp :=
  s ← sint 64 (t * kMicroSecondsPerSecond);
  us ← sint 64 (s + microseconds);
  Ok (mkTimestamp us).
Definition fromUnixTime (t : Z) : result Timestamp := fromUnixTime2 t 0.

(** [gettimeofday] gives the seconds and microseconds. *)
Definition now (tv_sec tv_usec : Z) : result Timestamp :=
  s ← sint 64 (tv_sec * kMicroSecondsPerSecond);
  us ← sint 64 (s + tv_usec);
  Ok (mkTimestamp us).

Definition toString (t : Timestamp) : bytes :=
  let seconds := Z.quot (microSecondsSinceEpoch_ t) kMicroSecondsPerSecond in
  let microseconds := Z.rem (microSecondsSinceEpoch_ t) kMicroSecondsPerSecond in
  snprintf 31 (dec seconds ++ ["."%char] ++ dec_pad0 6 microseconds).

Definition toFormattedString (t : Timestamp) (showMicroseconds : bool) : result bytes :=
  let seconds := Z.quot (microSecondsSinceEpoch_ t) kMicroSecondsPerSecond in
  tm_time ← TimeZone.gmtime_r seconds;
  let date := dec_pad 4 (TimeZone.tm_year tm_time + 1900) ++
    dec_pad0 2 (TimeZone.tm_mon tm_time + 1) ++ dec_pad0 2 (TimeZone.tm_mday tm_time) ++
    [" "%char] ++ dec_pad0 2 (TimeZone.tm_hour tm_time) ++ [":"%char] ++
    dec_pad0 2 (TimeZone.tm_min tm_time) ++ [":"%char] ++ dec_pad0 2 (TimeZone.tm_sec tm_time) in
  if showMicroseconds then
    let microseconds := Z.rem (microSecondsSinceEpoch_ t) kMicroSecondsPerSecond in
    Ok (snprintf 64 (date ++ ["."%char] ++ dec_pad0 6 microseconds))
  else Ok (snprintf 64 date).

Definition ltb (lhs rhs : Timestamp) : bool :=
  microSecondsSinceEpoch lhs <? microSecondsSinceEpoch rhs.
Definition eqb (lhs rhs : Timestamp) : bool :=
  microSecondsSinceEpoch lhs =? microSecondsSinceEpoch rhs.

Definition timeDifference (high low : Timestamp) : result double :=
  diff ← sint 64 (microSecondsSinceEpoch high - microSecondsSinceEpoch low);
  Ok (ddiv (double_of_Z diff) (double_of_Z kMicroSecondsPerSecond)).

Definition addTime (timestamp : Timestamp) (seconds : double) : result Timestamp :=
  delta ← int64_of_double (dmul seconds (double_of_Z kMicroSecondsPerSecond));
  us ← sint 64 (microSecondsSinceEpoch timestamp + delta);
  Ok (mkTimestamp us).

(** ** Text *)

(** Read [s.ffffff] back. *)
Definition parse_seconds (s : bytes) : Z :=
  dec_read (ztake (zlen s - 7) s) * kMicroSecondsPerSecond + dec_read (zdrop (zlen s - 6) s).

Lemma quot_rem_pos us :
  0 ≤ us → Z.quot us kMicroSecondsPerSecond = us / kMicroSecondsPerSecond ∧
           Z.rem us kMicroSecondsPerSecond = us mod kMicroSecondsPerSecond.
Proof.
  intros. split; [by apply Z.quot_div_nonneg|by apply Z.rem_mod_nonneg].
Qed.

(** [toString] of a non-negative time denotes exactly that time: whole
    seconds, a point, six digits of microseconds. *)
Theorem toString_denotes us :
  0 ≤ us < 2 ^ 63 →
  parse_seconds (toString (mkTimestamp us)) = us ∧
  ∃ s f, toString (mkTimestamp us) = s ++ ["."%char] ++ f ∧ zlen f = 6 ∧
    Forall (λ c, is_digit c = true) s ∧ Forall (λ c, is_digit c = true) f.
Proof.
  intros Hus. unfold toString. cbn [microSecondsSinceEpoch_].
  destruct (quot_rem_pos us) as [-> ->]; [lia|]. unfold kMicroSecondsPerSecond.
  change (1000 * 1000) with 1000000.
  pose proof (Z.mod_pos_bound us 1000000 ltac:(lia)) as Hm.
  assert (0 ≤ us / 1000000 < 10 ^ 13) as Hs.
  { split; [apply Z.div_pos; lia|]. apply Z.div_lt_upper_bound; lia. }
  pose proof (digits_length (us / 1000000) 13 Hs ltac:(lia)) as Hl.
  assert (zlen (dec_pad0 6 (us mod 1000000)) = 6) as H6 by (apply (dec_pad0_length 6); lia).
  unfold dec. rewrite (proj2 (Z.ltb_ge _ 0)) by lia.
  unfold snprintf. rewrite ztake_all by zlia. split.
  - unfold parse_seconds. rewrite !zlen_app, H6. change (zlen ["."%char]) with 1.
    rewrite ztake_app_exact by lia. rewrite app_assoc, zdrop_app_exact by (rewrite zlen_app; change (zlen ["."%char]) with 1; lia).
    rewrite digits_read, dec_pad0_read by lia. pose proof (Z.div_mod us 1000000 ltac:(lia)).
    unfold kMicroSecondsPerSecond. lia.
  - eexists _, _. split; [done|]. split; [done|]. split; [apply digits_all; lia|].
    apply dec_pad0_all. lia.
Qed.

Lemma toString_denotes_witness :
  parse_seconds (toString (mkTimestamp 1234567890123456)) = 1234567890123456 ∧
  toString (mkTimestamp 1234567890123456) = String.list_ascii_of_string "1234567890.123456".
Proof. split; [|reflexivity]. apply toString_denotes. lia. Defined.

(** Read [yyyymmdd HH:MM:SS.ffffff] back. *)
Definition field (s : bytes) (i n : Z) : Z := dec_read (ztake n (zdrop i s)).
Definition parse_formatted (s : bytes) : result Timestamp :=
  seconds ← TimeZone.fromUtcTime6 (field s 0 4) (field s 4 2) (field s 6 2)
              (field s 9 2) (field s 12 2) (field s 15 2);
  fromUnixTime2 seconds (field s 18 6).

Lemma field_at p f q i n :
  zlen p = i → zlen f = n → field (p ++ f ++ q) i n = dec_read f.
Proof. intros Hp Hf. unfold field. by rewrite zdrop_app_exact, ztake_app_exact. Qed.

Lemma field_here f q n : zlen f = n → field (f ++ q) 0 n = dec_read f.
Proof. intros Hf. by apply (field_at []). Qed.

Lemma field_last f n : zlen f = n → field f 0 n = dec_read f.
Proof. intros Hf. rewrite <- (app_nil_r f) at 1. by apply field_here. Qed.

Lemma field_skip p q i n :
  0 ≤ i - zlen p → field (p ++ q) i n = field q (i - zlen p) n.
Proof. intros Hp. unfold field. by rewrite zdrop_app_ge by lia. Qed.

(** Evaluate [field] on a concatenation of pieces of known lengths. *)
Ltac fields :=
  repeat match goal with
  | L : zlen ?f = ?n |- context [field (?f ++ ?q) 0 ?n] => rewrite (field_here f q n L)
  | L : zlen ?f = ?n |- context [field ?f 0 ?n] => rewrite (field_last f n L)
  | L : zlen ?f = ?k |- context [field (?f ++ ?q) ?i ?n] =>
      rewrite (field_skip f q i n) by (rewrite L; lia);
      let j := eval cbv in (i - k) in
      replace (i - zlen f) with j by (rewrite L; reflexivity)
  | |- context [field ([?c] ++ ?q) ?i ?n] =>
      rewrite (field_skip [c] q i n) by (vm_compute; discriminate);
      let j := eval cbv in (i - 1) in
      replace (i - zlen [c]) with j by reflexivity
  end.

(** The year of a time from 1970 to 9999 has four digits. *)
Lemma year_range y m d :
  Date.valid_ymd y m d → 719528 ≤ Date.civil_days y m d < 3652425 → 1000 ≤ y < 10000.
Proof.
  intros Hv Hd. pose proof (TimeZone.civil_day_of_year _ _ _ Hv) as Hdoy.
  assert (Date.civil_days y 1 1 = Date.days_before_year y) as E.
  { unfold Date.civil_days. change (Z.to_nat (1 - 1)) with 0%nat. cbn [Date.days_of_months]. lia. }
  rewrite E in Hdoy. unfold Date.days_before_year in Hdoy. clear E Hv. zdiv.
Qed.

(** A four-digit number needs no blank. *)
Lemma dec_pad_four y : 1000 ≤ y < 10000 → zlen (dec_pad 4 y) = 4 ∧ dec_read (dec_pad 4 y) = y.
Proof.
  intros Hy. unfold dec_pad, dec. rewrite (proj2 (Z.ltb_ge _ 0)) by lia.
  pose proof (digits_length y 4 ltac:(lia) ltac:(lia)) as Hl.
  assert (zlen (digits y) = 4) as H4.
  { destruct (decide (zlen (digits y) ≤ 3)) as [H3|]; [|lia].
    pose proof (dec_read_bound (digits y) (digits_all y ltac:(lia))) as Hb.
    rewrite digits_read in Hb by lia.
    assert (10 ^ zlen (digits y) ≤ 10 ^ 3) by (apply Z.pow_le_mono_r; lia). lia. }
  rewrite H4. cbn [Z.sub zrep app]. split; [done|]. apply digits_read. lia.
Qed.

Lemma dec_pad0_two z : 0 ≤ z < 100 → zlen (dec_pad0 2 z) = 2 ∧ dec_read (dec_pad0 2 z) = z.
Proof. intros. split; [by apply (dec_pad0_length 2); lia|apply dec_pad0_read; lia]. Qed.

Lemma toFormattedString_spec us :
  0 ≤ us < 253402300800 * kMicroSecondsPerSecond →
  ∃ s, toFormattedString (mkTimestamp us) true = Ok s ∧ zlen s = 24 ∧
    parse_formatted s = Ok (mkTimestamp us).
Proof.
  unfold kMicroSecondsPerSecond. intros Hus. unfold toFormattedString. cbn [microSecondsSinceEpoch_].
  destruct (quot_rem_pos us) as [-> ->]; [lia|]. unfold kMicroSecondsPerSecond.
  change (1000 * 1000) with 1000000 in *. set (t := us / 1000000).
  pose proof (Z.mod_pos_bound us 1000000 ltac:(lia)) as Hm.
  pose proof (Z.div_mod us 1000000 ltac:(lia)) as Hdm. fold t in Hdm.
  assert (0 ≤ t < 253402300800) as Ht by lia.
  assert (0 ≤ t / 86400 < 2932897) as HD by zdiv.
  assert (TimeZone.utc_range t) as Hr by (unfold TimeZone.utc_range, TimeZone.kSecondsPerDay; lia).
  destruct (TimeZone.utc_roundtrip' t Hr) as (u & E1 & E2). unfold TimeZone.gmtime_r.
  destruct (TimeZone.toUtcTime_spec t true Hr) as (p & _ & Hv & _ & _ & Hc & E).
  rewrite E in E1. injection E1 as <-. rewrite E, bind_Ok. unfold TimeZone.fromUtcTime in E2.
  unfold TimeZone.kSecondsPerDay in *. change Date.kJulianDayOf1970_01_01 with 2440588 in *.
  cbn [TimeZone.tm_year TimeZone.tm_mon TimeZone.tm_mday TimeZone.tm_hour TimeZone.tm_min
       TimeZone.tm_sec] in *.
  pose proof (year_range _ _ _ Hv ltac:(lia)) as Hy. destruct Hv as [Hmon Hday].
  pose proof (Date.month_length_range (Date.leap (Date.year p)) _ Hmon) as Hml.
  rewrite !(iop_Ok Z.add _ _ _ eq_refl), !bind_Ok in E2 by zlia.
  assert (0 ≤ t mod 86400 / 60 / 60 < 24 ∧ 0 ≤ t mod 86400 / 60 mod 60 < 60 ∧
          0 ≤ (t mod 86400) mod 60 < 60) as (Hh & Hmi & Hse) by zdiv.
  destruct (dec_pad_four (Date.year p - 1900 + 1900)) as [L1 R1]; [lia|].
  destruct (dec_pad0_two (Date.month p - 1 + 1)) as [L2 R2]; [lia|].
  destruct (dec_pad0_two (Date.day p)) as [L3 R3]; [lia|].
  destruct (dec_pad0_two (t mod 86400 / 60 / 60)) as [L4 R4]; [lia|].
  destruct (dec_pad0_two (t mod 86400 / 60 mod 60)) as [L5 R5]; [lia|].
  destruct (dec_pad0_two ((t mod 86400) mod 60)) as [L6 R6]; [lia|].
  assert (zlen (dec_pad0 6 (us mod 1000000)) = 6) as L7 by (apply (dec_pad0_length 6); lia).
  pose proof (dec_pad0_read 6 (us mod 1000000) ltac:(lia)) as R7.
  eexists. split; [done|]. unfold snprintf. rewrite <- !app_assoc.
  rewrite ztake_all by (rewrite ?zlen_app, L1, L2, L3, L4, L5, L6, L7; done).
  split; [rewrite ?zlen_app, L1, L2, L3, L4, L5, L6, L7; done|].
  unfold parse_formatted. fields.
  rewrite R1, R2, R3, R4, R5, R6, R7, E2, bind_Ok. unfold fromUnixTime2.
  rewrite !sint_Ok, bind_Ok, sint_Ok, bind_Ok by (unfold kMicroSecondsPerSecond; zlia).
  unfold kMicroSecondsPerSecond. do 2 f_equal. lia.
Qed.

(** [toFormattedString] of a time from 1970 to the end of 9999 is
    [yyyymmdd HH:MM:SS.ffffff], and reading the fields back gives the time. *)
Theorem toFormattedString_denotes us :
  0 ≤ us < 253402300800 * kMicroSecondsPerSecond →
  ∃ s, toFormattedString (mkTimestamp us) true = Ok s ∧ zlen s = 24 ∧
    parse_formatted s = Ok (mkTimestamp us).
Proof. apply toFormattedString_spec. Qed.

Lemma toFormattedString_denotes_witness :
  ∃ s, toFormattedString (mkTimestamp 1234567890123456) true = Ok s ∧
    parse_formatted s = Ok (mkTimestamp 1234567890123456) ∧
    s = String.list_ascii_of_string "20090213 23:31:30.123456".
Proof.
  destruct (toFormattedString_denotes 1234567890123456) as (s & E1 & _ & E2);
    [unfold kMicroSecondsPerSecond; lia|].
  exists s. split; [exact E1|]. split; [exact E2|]. vm_compute in E1. injection E1 as <-. reflexivity.
Defined.

(** ** Adding an interval *)

Definition nonneg (x : double) : bool :=
  match x with
  | S754_zero _ | S754_infinity false | S754_finite false _ _ => true
  | _ => false
  end.

Lemma round_sign_nonneg m e l z :
  dtrunc (binary_round_aux 53 1024 false m e l) = Some z → 0 ≤ z.
Proof.
  unfold binary_round_aux. case_match. case_match. case_match; cbn; try naive_solver lia.
  case_match; cbn; [|done]. intros [= <-].
  apply Z.quot_pos; [|lia]. apply Z.mul_nonneg_nonneg; lia.
Qed.

Lemma million_double : double_of_Z kMicroSecondsPerSecond = S754_finite false 8589934592000000 (-33).
Proof. reflexivity. Qed.

(** Adding a non-negative interval never moves a time back. *)
Lemma addTime_forward t d t' :
  nonneg d = true → addTime t d = Ok t' →
  microSecondsSinceEpoch_ t ≤ microSecondsSinceEpoch_ t'.
Proof.
  intros Hd. unfold addTime, int64_of_double. rewrite million_double. intros E. inv_result.
  destruct (dtrunc _) as [z|] eqn:Ez; [|done]. unfold sint in *. repeat case_bool_decide; try done.
  simplify_eq. unfold microSecondsSinceEpoch. cbn [microSecondsSinceEpoch_]. enough (0 ≤ r) by lia.
  destruct d as [s|[]| |[] m e]; cbn in Hd; try discriminate; cbn in Ez; simplify_eq; try done.
  by apply round_sign_nonneg in Ez.
Qed.

(** Truncation loses a microsecond: 249 microseconds, converted to seconds and
    back, are 248. *)
Lemma addTime_truncates :
  (d ← timeDifference (mkTimestamp 249) (mkTimestamp 0); addTime (mkTimestamp 0) d)
    = Ok (mkTimestamp 248).
Proof. reflexivity. Qed.

Lemma ltb_spec a b : ltb a b = true ↔ microSecondsSinceEpoch_ a < microSecondsSinceEpoch_ b.
Proof. apply Z.ltb_lt. Qed.

End Timestamp.
