(* ===== verification/StdSet.v ===== *)
(** * std::set of pairs

    The ordered set of the C++ standard library at [std::pair] of integers (a
    timestamp and an address, an address and a sequence number), as the strictly
    sorted list its iteration visits. *)

From stdpp Require Import sets sorting.
From S2P Require Import Prelude.

Module StdSet.

(** [operator<] of [std::pair]. *)
Definition pltb (x y : Z * Z) : bool :=
  (x.1 <? y.1) || (negb (y.1 <? x.1) && (x.2 <? y.2)).
Definition plt (x y : Z * Z) : Prop := x.1 < y.1 ∨ (x.1 = y.1 ∧ x.2 < y.2).

Fixpoint insert (x : Z * Z) (l : list (Z * Z)) : list (Z * Z) * bool :=
  match l with
  | [] => ([x], true)
  | y :: l' =>
      if pltb x y then (x :: l, true)
      else if pltb y x then let '(r, b) := insert x l' in (y :: r, b)
      else (l, false)
  end.

(** [erase(key)]: the number of elements removed. *)
Fixpoint erase (x : Z * Z) (l : list (Z * Z)) : list (Z * Z) * Z :=
  match l with
  | [] => ([], 0)
  | y :: l' =>
      if pltb x y then (l, 0)
      else if pltb y x then let '(r, n) := erase x l' in (y :: r, n)
      else (l', 1)
  end.

(** [find(key) != end()] *)
Fixpoint mem (x : Z * Z) (l : list (Z * Z)) : bool :=
  match l with
  | [] => false
  | y :: l' => if pltb x y then false else if pltb y x then mem x l' else true
  end.

(** [lower_bound(key)], as the elements before and from that position on. *)
Fixpoint lower_bound (x : Z * Z) (l : list (Z * Z)) : list (Z * Z) * list (Z * Z) :=
  match l with
  | [] => ([], [])
  | y :: l' => if pltb y x then let '(a, b) := lower_bound x l' in (y :: a, b) else ([], l)
  end.

Abbreviation sorted := (StronglySorted plt).

Lemma pltb_spec x y : pltb x y = true ↔ plt x y.
Proof. unfold pltb, plt. lia. Qed.

Lemma pltb_false x y : pltb x y = false ↔ ¬ plt x y.
Proof. rewrite <- pltb_spec. by destruct (pltb x y). Qed.

Lemma plt_irrefl x : ¬ plt x x.
Proof. unfold plt. lia. Qed.

#[global] Instance plt_trans : Transitive plt.
Proof. intros x y z. unfold plt. lia. Qed.

Lemma plt_total x y : ¬ plt x y → ¬ plt y x → x = y.
Proof. destruct x, y. unfold plt. cbn. intros. f_equal; lia. Qed.

Lemma sorted_cons_inv x l : sorted (x :: l) → sorted l ∧ ∀ y, y ∈ l → plt x y.
Proof. intros [? H]%StronglySorted_inv. split; [done|]. by apply Forall_forall. Qed.

Lemma sorted_NoDup l : sorted l → NoDup l.
Proof.
  induction l as [|x l IH]; intros Hs; [constructor|].
  apply sorted_cons_inv in Hs as [Hs Hx]. constructor; [|auto].
  intros Hin. by apply (plt_irrefl x), Hx.
Qed.

Ltac pcase :=
  repeat match goal with
  | |- context [pltb ?x ?y] =>
      let E := fresh "E" in destruct (pltb x y) eqn:E;
      [apply pltb_spec in E|apply pltb_false in E]
  end.

Lemma mem_spec x l : sorted l → mem x l = true ↔ x ∈ l.
Proof.
  induction l as [|y l IH]; intros Hs; [cbn; set_solver|].
  apply sorted_cons_inv in Hs as [Hs Hy]. specialize (IH Hs). cbn. pcase.
  - split; [done|]. rewrite elem_of_cons. intros [->|Hin]; [by apply plt_irrefl in E|].
    exfalso. apply (plt_irrefl x). etrans; [done|]. by apply Hy.
  - rewrite IH, elem_of_cons. split; [auto|]. intros [->|?]; [by apply plt_irrefl in E0|done].
  - rewrite (plt_total x y) by done. split; [left|done].
Qed.

Lemma mem_false x l : sorted l → mem x l = false ↔ x ∉ l.
Proof. intros Hs. rewrite <- (mem_spec x l Hs). by destruct (mem x l). Qed.

Lemma insert_spec x l :
  sorted l → x ∉ l →
  ∃ l', insert x l = (l', true) ∧ sorted l' ∧ l' ≡ₚ x :: l.
Proof.
  induction l as [|y l IH]; intros Hs Hx.
  { exists [x]. split; [done|]. split; [|done]. repeat constructor. }
  pose proof Hs as Hs0. apply sorted_cons_inv in Hs as [Hs Hy]. cbn. pcase.
  - exists (x :: y :: l). split; [done|]. split; [|done]. constructor; [done|].
    apply Forall_forall. intros z. rewrite elem_of_cons. intros [->|Hz]; [done|].
    etrans; [done|]. by apply Hy.
  - destruct IH as (l' & -> & Hs' & Hp); [done|set_solver|].
    exists (y :: l'). split; [done|]. split.
    + constructor; [done|]. apply Forall_forall. intros z. rewrite Hp, elem_of_cons.
      intros [->|Hz]; [done|]. by apply Hy.
    + rewrite Hp. constructor.
  - exfalso. apply Hx. rewrite (plt_total x y) by done. left.
Qed.

Lemma insert_present x l : sorted l → x ∈ l → insert x l = (l, false).
Proof.
  induction l as [|y l IH]; intros Hs Hx; [by apply not_elem_of_nil in Hx|].
  apply sorted_cons_inv in Hs as [Hs Hy]. apply elem_of_cons in Hx. cbn. pcase; [exfalso| |done].
  - destruct Hx as [->|Hx]; [by apply plt_irrefl in E|].
    apply (plt_irrefl x). etrans; [done|]. by apply Hy.
  - destruct Hx as [->|Hx]; [by apply plt_irrefl in E0|]. by rewrite IH.
Qed.

Lemma elem_of_insert x l : sorted l → ∀ y, y ∈ (insert x l).1 ↔ y = x ∨ y ∈ l.
Proof.
  intros Hs y. destruct (decide (x ∈ l)) as [Hx|Hx].
  - rewrite insert_present by done. cbn. naive_solver.
  - destruct (insert_spec x l Hs Hx) as (l' & -> & _ & Hp). cbn. by rewrite Hp, elem_of_cons.
Qed.

Lemma erase_spec x l :
  sorted l → x ∈ l →
  ∃ l', erase x l = (l', 1) ∧ sorted l' ∧ l ≡ₚ x :: l'.
Proof.
  induction l as [|y l IH]; intros Hs Hx; [by apply not_elem_of_nil in Hx|].
  apply sorted_cons_inv in Hs as [Hs Hy]. apply elem_of_cons in Hx. cbn. pcase.
  - exfalso. destruct Hx as [->|Hx]; [by apply plt_irrefl in E|].
    apply (plt_irrefl x). etrans; [done|]. by apply Hy.
  - destruct Hx as [->|Hx]; [by apply plt_irrefl in E0|].
    destruct (IH Hs Hx) as (l' & -> & Hs' & Hp). exists (y :: l'). split; [done|].
    split; [|by rewrite Hp, Permutation_swap]. constructor; [done|].
    apply Forall_forall. intros z Hz. apply Hy. rewrite Hp. by right.
  - exists l. split; [done|]. split; [done|]. by rewrite (plt_total x y).
Qed.

(** Everything before the position is smaller, nothing from it on is. *)
Lemma lower_bound_spec x l :
  sorted l →
  ∃ a b, lower_bound x l = (a, b) ∧ l = a ++ b ∧ sorted a ∧ sorted b ∧
    (∀ y, y ∈ a → plt y x) ∧ (∀ y, y ∈ b → ¬ plt y x).
Proof.
  induction l as [|y l IH]; intros Hs.
  { exists [], []. split_and!; try done; try constructor; set_solver. }
  pose proof Hs as Hs0. apply sorted_cons_inv in Hs as [Hs Hy]. cbn. pcase.
  - destruct (IH Hs) as (a & b & -> & -> & Ha & Hb & H1 & H2). exists (y :: a), b.
    split_and!; try done.
    + constructor; [done|]. apply Forall_forall. intros z Hz. apply Hy. set_solver.
    + intros z. rewrite elem_of_cons. intros [->|?]; auto.
  - exists [], (y :: l). split_and!; try done; try constructor.
    + set_solver.
    + intros z. rewrite elem_of_cons. intros [->|Hz]; [done|].
      intros Hzx. apply E. etrans; [by apply Hy|done].
Qed.

Lemma sorted_head x l y : sorted (x :: l) → y ∈ x :: l → x.1 ≤ y.1.
Proof.
  intros Hs Hy. apply sorted_cons_inv in Hs as [_ Hx].
  apply elem_of_cons in Hy as [->|Hy]; [done|]. specialize (Hx y Hy). unfold plt in Hx. lia.
Qed.

Lemma sorted_filter (P : Z * Z → Prop) `{!∀ x, Decision (P x)} l : sorted l → sorted (filter P l).
Proof.
  induction l as [|x l IH]; intros Hs; [constructor|]. apply sorted_cons_inv in Hs as [Hs Hx].
  rewrite filter_cons. case_decide; [|auto]. constructor; [auto|].
  apply Forall_forall. intros y [_ Hy]%list_elem_of_filter. auto.
Qed.

End StdSet.
