(* ===== verification/TimerQueue.v ===== *)
(** * Timers ([net/Timer.h], [net/TimerId.h], [net/TimerQueue.cc])

    Timers are objects of a heap, named by their addresses; [timers_] and
    [activeTimers_] are ordered sets over those addresses, so that a deleted
    address that the allocator hands out again is visible in the model. A
    dereference of an address that is not allocated is a fault.

    [clock] is what [Timestamp::now()] reads and [timerfd] the time at which the
    one-shot descriptor becomes readable. A user callback is the sequence of
    calls it makes on the queue, given with each call of [handleRead]. *)

From stdpp Require Import sets gmap sorting.
From S2P Require Import Prelude Endian Format Date TimeZone Timestamp StdSet.
Import Timestamp.

Module TimerQueue.

(** ** Timer *)

Record Timer := mkTimer {
  callback_ : Z;
  expiration_ : Timestamp;
  interval_ : double;
  repeat_ : bool;
  sequence_ : Z
}.

Definition dzero : double := SpecFloat.S754_zero false.

(** The constructor; [seq] is [s_numCreated_.incrementAndGet()]. *)
Definition new_timer (cb : Z) (when : Timestamp) (interval : double) (seq : Z) : Timer :=
  mkTimer cb when interval (dgtb interval dzero) seq.

Definition expiration (t : Timer) : Z := microSecondsSinceEpoch (expiration_ t).

Definition restart (now : Timestamp) (t : Timer) : result Timer :=
  e ← (if repeat_ t then addTime now (interval_ t) else Ok invalid);
  Ok (mkTimer (callback_ t) e (interval_ t) (repeat_ t) (sequence_ t)).

Record TimerId := mkTimerId { timer_ : Z; tid_sequence_ : Z }.

(** ** State *)

Inductive functor :=
  | AddTimerInLoop (timer : Z)
  | CancelInLoop (timerId : TimerId).

Record state := mkState {
  heap : gmap Z Timer;
  numCreated : Z;                       (* Timer::s_numCreated_ *)
  timers_ : list (Z * Z);               (* (expiration, address) *)
  activeTimers_ : list (Z * Z);         (* (address, sequence) *)
  callingExpiredTimers_ : bool;
  cancelingTimers_ : list (Z * Z);
  timerfd : option Z;
  clock : Z;
  pending : list functor;               (* functors queued in the loop *)
  ran : list (Z * Z)                    (* callbacks run, with their sequences *)
}.

Definition set_heap (h : gmap Z Timer) (s : state) : state :=
  mkState h (numCreated s) (timers_ s) (activeTimers_ s) (callingExpiredTimers_ s)
    (cancelingTimers_ s) (timerfd s) (clock s) (pending s) (ran s).
Definition set_sets (l a : list (Z * Z)) (s : state) : state :=
  mkState (heap s) (numCreated s) l a (callingExpiredTimers_ s)
    (cancelingTimers_ s) (timerfd s) (clock s) (pending s) (ran s).
Definition set_calling (b : bool) (s : state) : state :=
  mkState (heap s) (numCreated s) (timers_ s) (activeTimers_ s) b
    (cancelingTimers_ s) (timerfd s) (clock s) (pending s) (ran s).
Definition set_canceling (c : list (Z * Z)) (s : state) : state :=
  mkState (heap s) (numCreated s) (timers_ s) (activeTimers_ s) (callingExpiredTimers_ s)
    c (timerfd s) (clock s) (pending s) (ran s).
Definition set_timerfd (t : option Z) (s : state) : state :=
  mkState (heap s) (numCreated s) (timers_ s) (activeTimers_ s) (callingExpiredTimers_ s)
    (cancelingTimers_ s) t (clock s) (pending s) (ran s).
Definition set_clock (t : Z) (s : state) : state :=
  mkState (heap s) (numCreated s) (timers_ s) (activeTimers_ s) (callingExpiredTimers_ s)
    (cancelingTimers_ s) (timerfd s) t (pending s) (ran s).
Definition set_pending (p : list functor) (s : state) : state :=
  mkState (heap s) (numCreated s) (timers_ s) (activeTimers_ s) (callingExpiredTimers_ s)
    (cancelingTimers_ s) (timerfd s) (clock s) p (ran s).
Definition log_run (x : Z * Z) (s : state) : state :=
  mkState (heap s) (numCreated s) (timers_ s) (activeTimers_ s) (callingExpiredTimers_ s)
    (cancelingTimers_ s) (timerfd s) (clock s) (pending s) (ran s ++ [x]).
(** [new Timer(...)] at the address the allocator chose. *)
Definition alloc (p : Z) (t : Timer) (s : state) : state :=
  mkState (<[p := t]> (heap s)) (sequence_ t) (timers_ s) (activeTimers_ s)
    (callingExpiredTimers_ s) (cancelingTimers_ s) (timerfd s) (clock s) (pending s) (ran s).

Definition deref (p : Z) (s : state) : result Timer :=
  match heap s !! p with Some t => Ok t | None => Fail OutOfRange end.
(** [delete p] *)
Definition free (p : Z) (s : state) : result state :=
  _ ← deref p s; Ok (set_heap (delete p (heap s)) s).

Definition empty (now : Z) : state := mkState ∅ 0 [] [] false [] None now [] [].

Definition same_size (s : state) : bool := zlen (timers_ s) =? zlen (activeTimers_ s).

(** ** The timer descriptor *)

Record timespec := mkTimespec { tv_sec : Z; tv_nsec : Z }.

Definition howMuchTimeFromNow (now when : Z) : result timespec :=
  microseconds ← sint 64 (when - now);
  let microseconds := if microseconds <? 100 then 100 else microseconds in
  Ok (mkTimespec (Z.quot microseconds kMicroSecondsPerSecond)
                 (Z.rem microseconds kMicroSecondsPerSecond * 1000)).

(** [timerfd_settime] with a relative time. *)
Definition resetTimerfd (expiration : Z) (s : state) : result state :=
  newValue ← howMuchTimeFromNow (clock s) expiration;
  Ok (set_timerfd (Some (clock s + (tv_sec newValue * 1000000 + tv_nsec newValue / 1000))) s).

(** ** Operations *)

Definition insert (timer : Z) (s : state) : result (bool * state) :=
  _ ← check (same_size s);
  t ← deref timer s;
  let when := expiration t in
  let earliestChanged :=
    match timers_ s with [] => true | it :: _ => when <? it.1 end in
  let '(l, ok) := StdSet.insert (when, timer) (timers_ s) in
  _ ← check ok;
  let '(a, ok) := StdSet.insert (timer, sequence_ t) (activeTimers_ s) in
  _ ← check ok;
  let s := set_sets l a s in
  _ ← check (same_size s);
  Ok (earliestChanged, s).

Definition addTimerInLoop (timer : Z) (s : state) : result state :=
  r ← insert timer s;
  let '(earliestChanged, s) := r in
  if (earliestChanged : bool) then t ← deref timer s; resetTimerfd (expiration t) s else Ok s.

Definition cancelInLoop (timerId : TimerId) (s : state) : result state :=
  _ ← check (same_size s);
  let timer := (timer_ timerId, tid_sequence_ timerId) in
  s ← (if StdSet.mem timer (activeTimers_ s) then
         t ← deref timer.1 s;
         let '(l, n) := StdSet.erase (expiration t, timer.1) (timers_ s) in
         _ ← check (n =? 1);
         s ← free timer.1 (set_sets l (activeTimers_ s) s);
         Ok (set_sets (timers_ s) (StdSet.erase timer (activeTimers_ s)).1 s)
       else if callingExpiredTimers_ s then
         Ok (set_canceling (StdSet.insert timer (cancelingTimers_ s)).1 s)
       else Ok s);
  _ ← check (same_size s);
  Ok s.

(** [loop_->runInLoop]: at once in the loop's thread, else queued. *)
Definition run_functor (f : functor) (s : state) : result state :=
  match f with
  | AddTimerInLoop timer => addTimerInLoop timer s
  | CancelInLoop timerId => cancelInLoop timerId s
  end.
Definition runInLoop (inLoop : bool) (f : functor) (s : state) : result state :=
  if inLoop then run_functor f s else Ok (set_pending (pending s ++ [f]) s).

(** [addTimer] in two parts, since other threads run between them when the caller
    is not the loop's thread: creating the timer and handing it to the loop, then
    reading [timer->sequence()] for the identifier that is returned. *)
Definition addTimer_start (inLoop : bool) (p cb : Z) (when : Timestamp) (interval : double) (s : state)
    : result state :=
  runInLoop inLoop (AddTimerInLoop p)
    (alloc p (new_timer cb when interval (s64 (numCreated s + 1))) s).
Definition addTimer_return (p : Z) (s : state) : result TimerId :=
  timer ← deref p s; Ok (mkTimerId p (sequence_ timer)).
Definition addTimer (inLoop : bool) (p cb : Z) (when : Timestamp) (interval : double) (s : state)
    : result (TimerId * state) :=
  s ← addTimer_start inLoop p cb when interval s;
  id ← addTimer_return p s;
  Ok (id, s).

Definition cancel (inLoop : bool) (timerId : TimerId) (s : state) : result state :=
  runInLoop inLoop (CancelInLoop timerId) s.

Fixpoint erase_active (expired : list (Z * Z)) (s : state) : result state :=
  match expired with
  | [] => Ok s
  | it :: expired =>
      t ← deref it.2 s;
      let '(a, n) := StdSet.erase (it.2, sequence_ t) (activeTimers_ s) in
      _ ← check (n =? 1);
      erase_active expired (set_sets (timers_ s) a s)
  end.

Definition UINTPTR_MAX : Z := 2 ^ 64 - 1.

Definition getExpired (now : Z) (s : state) : result (list (Z * Z) * state) :=
  _ ← check (same_size s);
  let '(expired, rest) := StdSet.lower_bound (now, UINTPTR_MAX) (timers_ s) in
  _ ← check (match rest with [] => true | e :: _ => now <? e.1 end);
  s ← erase_active expired (set_sets rest (activeTimers_ s) s);
  _ ← check (same_size s);
  Ok (expired, s).

Fixpoint reset_loop (expired : list (Z * Z)) (now : Z) (s : state) : result state :=
  match expired with
  | [] => Ok s
  | it :: expired =>
      t ← deref it.2 s;
      s ← (if repeat_ t && negb (StdSet.mem (it.2, sequence_ t) (cancelingTimers_ s)) then
             t ← restart (mkTimestamp now) t;
             r ← insert it.2 (set_heap (<[it.2 := t]> (heap s)) s);
             Ok (snd r)
           else free it.2 s);
      reset_loop expired now s
  end.

Definition reset (expired : list (Z * Z)) (now : Z) (s : state) : result state :=
  s ← reset_loop expired now s;
  nextExpire ← match timers_ s with
               | [] => Ok 0
               | e :: _ => t ← deref e.2 s; Ok (expiration t)
               end;
  if 0 <? nextExpire then resetTimerfd nextExpire s else Ok s.

(** What a callback, or other code, does on the queue; time may pass. A call of
    [addTimer] in another thread is two actions: [AddTimer false] up to the
    queueing of the functor, and [AddTimerReturns] for its [return]. *)
Inductive action :=
  | AddTimer (inLoop : bool) (p cb : Z) (when : Timestamp) (interval : double)
  | AddTimerReturns (p : Z)
  | Cancel (inLoop : bool) (timerId : TimerId)
  | Tick (d : Z).

#[global] Instance double_eq_dec : EqDecision double.
Proof. solve_decision. Defined.
#[global] Instance TimerId_eq_dec : EqDecision TimerId.
Proof. solve_decision. Defined.
#[global] Instance action_eq_dec : EqDecision action.
Proof. solve_decision. Defined.

Definition act (a : action) (s : state) : result state :=
  match a with
  | AddTimer true p cb when interval => snd <$> addTimer true p cb when interval s
  | AddTimer false p cb when interval => addTimer_start false p cb when interval s
  | AddTimerReturns p => _ ← addTimer_return p s; Ok s
  | Cancel b timerId => cancel b timerId s
  | Tick d => Ok (set_clock (clock s + d) s)
  end.
Fixpoint act_all (l : list action) (s : state) : result state :=
  match l with [] => Ok s | a :: l => s ← act a s; act_all l s end.

(** [Timer::run] on each expired timer; the n-th script is what the n-th
    callback does. *)
Fixpoint run_expired (expired : list (Z * Z)) (scripts : list (list action)) (s : state)
    : result state :=
  match expired with
  | [] => Ok s
  | it :: expired =>
      t ← deref it.2 s;
      s ← act_all (match scripts with [] => [] | a :: _ => a end)
            (log_run (callback_ t, sequence_ t) s);
      run_expired expired (tail scripts) s
  end.

(** [fired]: the descriptor had expired (and is disarmed), or the event is stale. *)
Definition handleRead (fired : bool) (scripts : list (list action)) (s : state) : result state :=
  let now := clock s in
  let s := if fired then set_timerfd None s else s in
  r ← getExpired now s;
  let '(expired, s) := r in
  s ← run_expired expired scripts (set_canceling [] (set_calling true s));
  reset expired now (set_calling false s).

(** [EventLoop::doPendingFunctors], for the functors of the queue. *)
Fixpoint run_functors (l : list functor) (s : state) : result state :=
  match l with [] => Ok s | f :: l => s ← run_functor f s; run_functors l s end.
Definition doPendingFunctors (s : state) : result state :=
  run_functors (pending s) (set_pending [] s).

(** The destructor deletes what is still in [timers_]. *)
Fixpoint free_all (l : list (Z * Z)) (s : state) : result state :=
  match l with [] => Ok s | e :: l => s ← free e.2 s; free_all l s end.
Definition destroy (s : state) : result state := free_all (timers_ s) s.

(** ** The invariant *)

Definition time_ok (e : Z) : Prop := - 2 ^ 62 < e < 2 ^ 62.
Definition clock_ok (c : Z) : Prop := 0 < c < 2 ^ 61.

(** The microseconds of a repeat interval. *)
Definition interval_us (d : double) : result Z :=
  int64_of_double (dmul d (double_of_Z kMicroSecondsPerSecond)).
Definition interval_ok (t : Timer) : Prop :=
  repeat_ t = true → ∃ d, interval_us (interval_ t) = Ok d ∧ 0 ≤ d < 2 ^ 61.

Record timer_ok (created : Z) (p : Z) (t : Timer) : Prop := {
  ok_addr : 0 < p < UINTPTR_MAX;
  ok_seq : 0 < sequence_ t ≤ created;
  ok_time : time_ok (expiration t);
  ok_interval : interval_ok t
}.

Definition seq_of (h : gmap Z Timer) (p : Z) : Z :=
  match h !! p with Some t => sequence_ t | None => 0 end.
Definition active_of (h : gmap Z Timer) (x : Z * Z) : Z * Z := (x.2, seq_of h x.2).

(** [X] are the addresses of timers that are not in the sets: expired ones whose
    callbacks are being run, and new ones whose insertion is queued. *)
Record inv (X : list Z) (s : state) : Prop := {
  inv_sorted : StdSet.sorted (timers_ s);
  inv_asorted : StdSet.sorted (activeTimers_ s);
  inv_csorted : StdSet.sorted (cancelingTimers_ s);
  inv_exp : ∀ x, x ∈ timers_ s → ∃ t, heap s !! x.2 = Some t ∧ expiration t = x.1;
  inv_active : activeTimers_ s ≡ₚ active_of (heap s) <$> timers_ s;
  inv_nodup : NoDup ((timers_ s).*2 ++ X);
  inv_dom : ∀ p, is_Some (heap s !! p) ↔ p ∈ (timers_ s).*2 ++ X;
  inv_timer : ∀ p t, heap s !! p = Some t → timer_ok (numCreated s) p t;
  inv_inj : ∀ p p' t t', heap s !! p = Some t → heap s !! p' = Some t' →
    sequence_ t = sequence_ t' → p = p';
  inv_created : 0 ≤ numCreated s < 2 ^ 63;
  inv_clock : clock_ok (clock s)
}.

#[export] Hint Resolve inv_sorted inv_asorted inv_csorted inv_exp inv_active inv_created inv_clock : core.

Lemma inv_perm X Y s : X ≡ₚ Y → inv X s → inv Y s.
Proof.
  intros Hp []. constructor; try done; [by rewrite <- Hp|]. intros p. by rewrite <- Hp.
Qed.

#[global] Instance inv_proper : Proper ((≡ₚ) ==> (=) ==> iff) inv.
Proof. intros X Y Hp s _ <-. split; apply inv_perm; [done|by symmetry]. Qed.

Lemma inv_same_size X s : inv X s → same_size s = true.
Proof.
  intros Hi. unfold same_size, zlen. rewrite (inv_active _ _ Hi), length_fmap. apply Z.eqb_refl.
Qed.

Lemma inv_detached p X s : inv (p :: X) s → ∃ t, heap s !! p = Some t.
Proof. intros Hi. apply (inv_dom _ _ Hi). set_solver. Qed.

Lemma timer_deref_Ok p s t : heap s !! p = Some t → deref p s = Ok t.
Proof. intros E. unfold deref. by rewrite E. Qed.

Lemma active_of_eq h x t : h !! x.2 = Some t → active_of h x = (x.2, sequence_ t).
Proof. intros E. unfold active_of, seq_of. by rewrite E. Qed.

Lemma active_elem X s p q :
  inv X s → (p, q) ∈ activeTimers_ s ↔
  ∃ t, heap s !! p = Some t ∧ sequence_ t = q ∧ (expiration t, p) ∈ timers_ s.
Proof.
  intros Hi. rewrite (inv_active _ _ Hi), list_elem_of_fmap. unfold active_of, seq_of. split.
  - intros ([e p'] & Heq & Hin). destruct (inv_exp _ _ Hi _ Hin) as (t & E & He).
    cbn in *. rewrite E in Heq. simplify_eq. by exists t.
  - intros (t & E & <- & Hin). exists (expiration t, p). cbn. by rewrite E.
Qed.

(** Only the two sets change. *)
Lemma inv_set_sets X Y s l a :
  inv X s → StdSet.sorted l → StdSet.sorted a →
  (∀ x, x ∈ l → ∃ t, heap s !! x.2 = Some t ∧ expiration t = x.1) →
  a ≡ₚ active_of (heap s) <$> l → l.*2 ++ Y ≡ₚ (timers_ s).*2 ++ X →
  inv Y (set_sets l a s).
Proof.
  intros Hi Hl Ha He Hact Hp. destruct Hi. constructor; try done; cbn.
  - by rewrite Hp.
  - intros p. by rewrite Hp.
Qed.

Lemma insert_ok p t X s :
  inv (p :: X) s → heap s !! p = Some t →
  ∃ l a, insert p s = Ok (match timers_ s with [] => true | it :: _ => expiration t <? it.1 end,
                          set_sets l a s) ∧
    l ≡ₚ (expiration t, p) :: timers_ s ∧ inv X (set_sets l a s).
Proof.
  intros Hi Ht. unfold insert. rewrite check_true by by eapply inv_same_size.
  rewrite bind_Ok, (timer_deref_Ok _ _ _ Ht), bind_Ok.
  assert (p ∉ (timers_ s).*2) as Hp.
  { pose proof (inv_nodup _ _ Hi) as Hn. apply NoDup_app in Hn as (_ & Hn & _).
    intros Hin. apply (Hn p Hin). left. }
  destruct (StdSet.insert_spec (expiration t, p) (timers_ s)) as (l & -> & Hl & Pl);
    [eauto| |].
  { intros Hin. apply Hp, list_elem_of_fmap. eexists. by split; [|exact Hin]. }
  destruct (StdSet.insert_spec (p, sequence_ t) (activeTimers_ s)) as (a & -> & Ha & Pa);
    [eauto| |].
  { rewrite active_elem by done. intros (t' & _ & _ & Hin). apply Hp, list_elem_of_fmap.
    eexists. by split; [|exact Hin]. }
  exists l, a. assert (inv X (set_sets l a s)) as Hi'.
  { eapply inv_set_sets; try done.
    - intros x. rewrite Pl, elem_of_cons. intros [->|?]; [by exists t|]. by apply (inv_exp _ _ Hi).
    - rewrite Pa, Pl, (inv_active _ _ Hi), fmap_cons. by rewrite (active_of_eq _ (expiration t, p) _ Ht).
    - rewrite Pl. cbn. by rewrite Permutation_middle. }
  cbn [check mbind result_bind]. by rewrite (check_true (same_size _)) by by eapply inv_same_size.
Qed.

Lemma howMuchTimeFromNow_ok c e :
  clock_ok c → time_ok e →
  ∃ ts, howMuchTimeFromNow c e = Ok ts ∧ 0 ≤ tv_nsec ts < 1000000000 ∧
    tv_sec ts * 1000000 + tv_nsec ts / 1000 = Z.max 100 (e - c) ∧ tv_nsec ts mod 1000 = 0.
Proof.
  unfold clock_ok, time_ok. intros Hc He. unfold howMuchTimeFromNow.
  rewrite sint_Ok, bind_Ok by zlia. eexists. split; [done|]. cbn [tv_sec tv_nsec].
  set (us := if e - c <? 100 then 100 else e - c).
  assert (us = Z.max 100 (e - c)) as Hus by (unfold us; destruct (Z.ltb_spec (e - c) 100); lia).
  clearbody us. rewrite <- Hus. assert (0 ≤ us) by lia. destruct (quot_rem_pos us) as [-> ->]; [done|].
  unfold kMicroSecondsPerSecond. change (1000 * 1000) with 1000000.
  pose proof (Z.mod_pos_bound us 1000000 ltac:(lia)).
  rewrite Z.div_mul, Z.mod_mul by lia. pose proof (Z.div_mod us 1000000). lia.
Qed.

Lemma resetTimerfd_ok e s :
  clock_ok (clock s) → time_ok e →
  resetTimerfd e s = Ok (set_timerfd (Some (Z.max e (clock s + 100))) s).
Proof.
  intros Hc He. unfold resetTimerfd.
  destruct (howMuchTimeFromNow_ok _ _ Hc He) as (ts & -> & _ & E & _).
  rewrite bind_Ok, E. do 3 f_equal. lia.
Qed.

(** *** Cancelling *)

(** An object outside the sets is deleted. *)
Lemma inv_delete p X s : inv (p :: X) s → inv X (set_heap (delete p (heap s)) s).
Proof.
  intros Hi. pose proof (inv_nodup _ _ Hi) as Hn. rewrite <- Permutation_middle in Hn.
  apply NoDup_cons in Hn as [Hp Hn].
  assert (∀ x, x ∈ timers_ s → x.2 ≠ p) as Hne.
  { intros x Hx <-. apply Hp, elem_of_app. left. by apply list_elem_of_fmap_2. }
  constructor; cbn; try apply Hi; try done.
  - intros x Hx. rewrite lookup_delete_ne by (symmetry; auto). by apply (inv_exp _ _ Hi).
  - rewrite (inv_active _ _ Hi).
    erewrite fmap_ext_in; [done|]. intros x Hx.
    unfold active_of, seq_of. rewrite lookup_delete_ne by (symmetry; auto). done.
  - intros q. pose proof (inv_dom _ _ Hi q) as Hd. rewrite <- Permutation_middle in Hd.
    destruct (decide (q = p)) as [->|Hqp].
    + rewrite lookup_delete_eq. split; [by intros []|done].
    + rewrite lookup_delete_ne by done. set_solver.
  - intros q t Hq. apply lookup_delete_Some in Hq as [_ Hq]. by apply (inv_timer _ _ Hi).
  - intros q q' t t' [_ Hq]%lookup_delete_Some [_ Hq']%lookup_delete_Some.
    by apply (inv_inj _ _ Hi).
Qed.

(** Taking an entry out of the sets makes its timer a detached one. *)
Lemma inv_detach x l a X s :
  inv X s → timers_ s ≡ₚ x :: l → StdSet.sorted l → StdSet.sorted a →
  activeTimers_ s ≡ₚ active_of (heap s) x :: a → inv (x.2 :: X) (set_sets l a s).
Proof.
  intros Hi Hp Hl Ha Hact. eapply inv_set_sets; try done.
  - intros y Hy. apply (inv_exp _ _ Hi). rewrite Hp. by right.
  - apply (Permutation_cons_inv (a := active_of (heap s) x)). by rewrite <- Hact, (inv_active _ _ Hi), Hp.
  - rewrite Hp. cbn. by rewrite Permutation_middle.
Qed.

Definition cancelled (timerId : TimerId) (s : state) : state :=
  if callingExpiredTimers_ s
  then set_canceling (StdSet.insert (timer_ timerId, tid_sequence_ timerId) (cancelingTimers_ s)).1 s
  else s.

Lemma cancelInLoop_live p t X s :
  inv X s → heap s !! p = Some t → p ∈ (timers_ s).*2 →
  ∃ l a, cancelInLoop (mkTimerId p (sequence_ t)) s
           = Ok (set_sets l a (set_heap (delete p (heap s)) s)) ∧
    timers_ s ≡ₚ (expiration t, p) :: l ∧
    inv X (set_sets l a (set_heap (delete p (heap s)) s)).
Proof.
  intros Hi Ht Hin. unfold cancelInLoop. cbn [timer_ tid_sequence_].
  apply list_elem_of_fmap in Hin as ([e p'] & Heq & Hin). cbn in Heq. subst p'.
  destruct (inv_exp _ _ Hi _ Hin) as (t' & Ht' & He). cbn in Ht', He. assert (t' = t) as -> by congruence.
  subst e. rewrite check_true by by eapply inv_same_size. rewrite bind_Ok.
  assert ((p, sequence_ t) ∈ activeTimers_ s) as Hact by (apply (active_elem X); eauto).
  rewrite (proj2 (StdSet.mem_spec _ _ (inv_asorted _ _ Hi)) Hact). cbn [fst].
  rewrite (timer_deref_Ok _ _ _ Ht), bind_Ok.
  destruct (StdSet.erase_spec _ _ (inv_sorted _ _ Hi) Hin) as (l & -> & Hl & Pl).
  destruct (StdSet.erase_spec _ _ (inv_asorted _ _ Hi) Hact) as (a & Ea & Ha & Pa).
  exists l, a. assert (inv X (set_sets l a (set_heap (delete p (heap s)) s))) as Hi'.
  { refine (inv_delete p X (set_sets l a s) _). apply (inv_detach (expiration t, p)); try done.
    by rewrite (active_of_eq _ _ t). }
  rewrite (check_true (1 =? 1)), bind_Ok by done. unfold free. rewrite (timer_deref_Ok p _ t) by done.
  cbn [mbind result_bind]. cbn [set_heap set_sets activeTimers_ timers_ heap]. rewrite Ea. cbn [fst].
  by rewrite check_true by by eapply inv_same_size.
Qed.

Lemma cancelInLoop_absent timerId X s :
  inv X s → (∀ t, heap s !! timer_ timerId = Some t → sequence_ t = tid_sequence_ timerId →
                  timer_ timerId ∉ (timers_ s).*2) →
  cancelInLoop timerId s = Ok (cancelled timerId s) ∧ inv X (cancelled timerId s).
Proof.
  intros Hi Habs. unfold cancelInLoop. rewrite check_true, bind_Ok by by eapply inv_same_size.
  rewrite (proj2 (StdSet.mem_false _ _ (inv_asorted _ _ Hi))).
  2: { rewrite active_elem by done. intros (t & Ht & Hs & Hin). apply (Habs t Ht Hs).
       apply list_elem_of_fmap. by exists (expiration t, timer_ timerId). }
  fold (cancelled timerId s). unfold cancelled.
  assert (inv X (cancelled timerId s)) as Hi'.
  { unfold cancelled. case_match; [|done]. destruct Hi. constructor; try done. cbn.
    destruct (StdSet.mem (timer_ timerId, tid_sequence_ timerId) (cancelingTimers_ s)) eqn:E.
    - apply StdSet.mem_spec in E; [|done]. by rewrite StdSet.insert_present.
    - apply StdSet.mem_false in E; [|done].
      by destruct (StdSet.insert_spec _ _ inv_csorted0 E) as (l & -> & Hl & _). }
  unfold cancelled in Hi'. destruct (callingExpiredTimers_ s); rewrite bind_Ok;
    by rewrite check_true by by eapply inv_same_size.
Qed.

(** *** Expired timers *)

Lemma erase_active_ok expired : ∀ X s,
  inv X (set_sets (expired ++ timers_ s) (activeTimers_ s) s) →
  ∃ a, erase_active expired s = Ok (set_sets (timers_ s) a s) ∧
    inv (expired.*2 ++ X) (set_sets (timers_ s) a s).
Proof.
  induction expired as [|x expired IH]; intros X s Hi.
  { exists (activeTimers_ s). by destruct s. }
  cbn [erase_active].
  destruct (inv_exp _ _ Hi x) as (t & Ht & He); [cbn; left|]. cbn in Ht.
  rewrite (timer_deref_Ok _ _ _ Ht), bind_Ok.
  assert ((x.2, sequence_ t) ∈ activeTimers_ s) as Hact.
  { apply (active_elem X _ _ _ Hi). exists t. rewrite He. split; [done|]. split; [done|].
    destruct x. cbn. left. }
  destruct (StdSet.erase_spec _ (activeTimers_ s) (inv_asorted _ _ Hi) Hact) as (a & -> & Ha & Pa).
  cbn [check Z.eqb Pos.eqb mbind result_bind].
  pose proof (inv_sorted _ _ Hi) as Hs. cbn in Hs. apply StdSet.sorted_cons_inv in Hs as [Hs _].
  pose proof (inv_detach x (expired ++ timers_ s) a X _ Hi) as Hd. cbn in Hd.
  destruct (IH (x.2 :: X) (set_sets (timers_ s) a s)) as (a' & -> & Hi').
  { apply Hd; try done. by rewrite (active_of_eq _ _ t). }
  exists a'. split; [done|]. cbn. by rewrite Permutation_middle.
Qed.

Lemma getExpired_ok now X s :
  inv X s →
  ∃ expired rest a, timers_ s = expired ++ rest ∧
    getExpired now s = Ok (expired, set_sets rest a s) ∧
    (∀ x, x ∈ expired → x.1 ≤ now) ∧ (∀ x, x ∈ rest → now < x.1) ∧
    inv (expired.*2 ++ X) (set_sets rest a s).
Proof.
  intros Hi. unfold getExpired. rewrite check_true, bind_Ok by by eapply inv_same_size.
  destruct (StdSet.lower_bound_spec (now, UINTPTR_MAX) _ (inv_sorted _ _ Hi))
    as (expired & rest & -> & E & _ & _ & Hle & Hgt).
  assert (∀ x, x ∈ rest → now < x.1) as Hrest.
  { intros x Hx. destruct (inv_exp _ _ Hi x) as (t & Ht & _); [rewrite E; set_solver|].
    pose proof (ok_addr _ _ _ (inv_timer _ _ Hi _ _ Ht)). specialize (Hgt x Hx).
    unfold StdSet.plt in Hgt. cbn in Hgt. lia. }
  destruct (erase_active_ok expired X (set_sets rest (activeTimers_ s) s)) as (a & Ea & Hi').
  { cbn. rewrite <- E. by destruct s. }
  exists expired, rest, a. split; [done|]. rewrite check_true.
  2: { destruct rest as [|x rest]; [done|]. apply Z.ltb_lt, Hrest. left. }
  cbn in Ea. rewrite bind_Ok, Ea, bind_Ok, check_true by by eapply inv_same_size.
  split; [done|]. split; [|done]. intros x Hx. specialize (Hle x Hx). unfold StdSet.plt in Hle.
  cbn in Hle. lia.
Qed.

(** *** The descriptor is armed *)

Definition armed_for (e : Z) (s : state) : Prop :=
  ∃ a, timerfd s = Some a ∧ a ≤ Z.max e (clock s + 100).

(** Every queued timer up to [bound] has the descriptor armed: it becomes
    readable when the timer expires, or 100 microseconds after it was set. *)
Definition armed_upto (bound : option Z) (s : state) : Prop :=
  ∀ x, x ∈ timers_ s → (∀ b, bound = Some b → x.1 ≤ b) → armed_for x.1 s.

Lemma armed_for_mono e e' s : e ≤ e' → armed_for e s → armed_for e' s.
Proof. intros He (a & Ha & Hle). exists a. split; [done|lia]. Qed.

Lemma armed_front s e l bound :
  StdSet.sorted (timers_ s) → timers_ s = e :: l → armed_for e.1 s → armed_upto bound s.
Proof.
  intros Hs E Ha x Hx _. eapply armed_for_mono; [|done].
  rewrite E in *. by eapply StdSet.sorted_head.
Qed.

Lemma inv_set_timerfd X s t : inv X s → inv X (set_timerfd t s).
Proof. intros []. by constructor. Qed.

Lemma addTimerInLoop_ok p t X s :
  inv (p :: X) s → heap s !! p = Some t →
  ∃ l a fd, addTimerInLoop p s = Ok (set_timerfd fd (set_sets l a s)) ∧
    l ≡ₚ (expiration t, p) :: timers_ s ∧ inv X (set_timerfd fd (set_sets l a s)) ∧
    ∀ bound, armed_upto bound s → armed_upto bound (set_timerfd fd (set_sets l a s)).
Proof.
  intros Hi Ht. unfold addTimerInLoop.
  destruct (insert_ok p t X s Hi Ht) as (l & a & -> & Pl & Hi'). rewrite bind_Ok.
  pose proof (inv_timer _ _ Hi _ _ Ht) as [_ _ Hte _]. exists l, a.
  destruct (match timers_ s with [] => _ | _ => _ end) eqn:Hearly.
  - rewrite (timer_deref_Ok _ _ t) by done. rewrite bind_Ok, resetTimerfd_ok by eauto.
    eexists. split; [done|]. split; [done|]. split; [by apply inv_set_timerfd|].
    intros bound _ x Hx _. eexists. split; [done|]. cbn in *.
    enough (expiration t ≤ x.1) by lia. rewrite Pl in Hx. apply elem_of_cons in Hx as [->|Hx]; [done|].
    destruct (timers_ s) as [|y k] eqn:E; [by apply not_elem_of_nil in Hx|].
    pose proof (StdSet.sorted_head y k x) as Hh. rewrite <- E in Hh.
    specialize (Hh (inv_sorted _ _ Hi)). rewrite E in Hh. specialize (Hh Hx). lia.
  - exists (timerfd s). replace (set_timerfd (timerfd s) (set_sets l a s)) with (set_sets l a s) by done.
    split; [done|]. split; [done|]. split; [done|]. intros bound Ha x Hx Hb. cbn in Hx.
    rewrite Pl in Hx. apply elem_of_cons in Hx as [->|Hx]; [|by apply Ha].
    destruct (timers_ s) as [|y k] eqn:E; [done|]. apply Z.ltb_ge in Hearly.
    apply (armed_for_mono y.1); [done|]. apply (Ha y); [rewrite E; left|].
    intros b Eb. specialize (Hb b Eb). cbn in Hb. lia.
Qed.

Lemma armed_sub s s' bound :
  (∀ x, x ∈ timers_ s' → x ∈ timers_ s) → timerfd s' = timerfd s → clock s ≤ clock s' →
  armed_upto bound s → armed_upto bound s'.
Proof.
  intros Ht Hf Hc Ha x Hx Hb. destruct (Ha x (Ht x Hx) Hb) as (a & E & Hle).
  exists a. split; [congruence|lia].
Qed.

(** *** Calls on the queue *)

Definition adds (l : list functor) : list Z :=
  omap (λ f, match f with AddTimerInLoop p => Some p | CancelInLoop _ => None end) l.

Definition interval_okb (interval : double) : bool :=
  negb (dgtb interval dzero) ||
  match interval_us interval with Ok d => (0 <=? d) && (d <? 2 ^ 61) | Fail _ => false end.

(** What is asked of a call: the allocator returns an address that is not in
    use, fewer than 2^63-1 timers were created, times and intervals stay within
    2^62 microseconds (146 000 years), the clock does not run backwards, and a
    call of [addTimer] in another thread returns before the loop deletes the timer
    (nothing in the code ensures this: see [addTimer_return_race]). *)
Definition legal (a : action) (s : state) : bool :=
  match a with
  | AddTimer _ p _ when interval =>
      match heap s !! p with None => true | Some _ => false end &&
      ((0 <? p) && (p <? UINTPTR_MAX)) && (numCreated s <? 2 ^ 63 - 1) &&
      ((- 2 ^ 62 <? microSecondsSinceEpoch when) && (microSecondsSinceEpoch when <? 2 ^ 62)) &&
      interval_okb interval
  | AddTimerReturns p => match heap s !! p with Some _ => true | None => false end
  | Cancel _ _ => true
  | Tick d => (0 <=? d) && (clock s + d <? 2 ^ 61)
  end.

(** What calls leave alone: the timers in [D], the log of callbacks. *)
Record frame (D : list Z) (s s' : state) : Prop := {
  fr_ran : ran s' = ran s;
  fr_calling : callingExpiredTimers_ s' = callingExpiredTimers_ s;
  fr_heap : ∀ p, p ∈ D → heap s' !! p = heap s !! p;
  fr_clock : clock s ≤ clock s';
  fr_created : numCreated s ≤ numCreated s';
  fr_old : ∀ p t, heap s' !! p = Some t → sequence_ t ≤ numCreated s →
                  ∃ t0, heap s !! p = Some t0 ∧ sequence_ t0 = sequence_ t;
  fr_cancel : ∀ x, x ∈ cancelingTimers_ s → x ∈ cancelingTimers_ s'
}.

#[global] Instance frame_refl D : Reflexive (frame D).
Proof. intros s. constructor; eauto; done. Qed.

#[global] Instance frame_trans D : Transitive (frame D).
Proof.
  intros s1 s2 s3 [] []. constructor; try congruence; try lia; eauto.
  - intros p Hp. rewrite fr_heap1 by done. auto.
  - intros p t Hp Hs. destruct (fr_old1 p t Hp ltac:(lia)) as (t0 & H0 & E0).
    destruct (fr_old0 p t0 H0 ltac:(lia)) as (t1 & H1 & E1). exists t1. split; [done|congruence].
Qed.

Lemma interval_okb_ok cb when interval seq :
  interval_okb interval = true → interval_ok (new_timer cb when interval seq).
Proof.
  unfold interval_okb, interval_ok. cbn. intros H Hr. rewrite Hr in H. cbn in H.
  destruct (interval_us interval) as [d|]; [|done]. exists d. split; [done|]. lia.
Qed.

Lemma inv_alloc p t X s :
  inv X s → heap s !! p = None → sequence_ t = numCreated s + 1 → numCreated s < 2 ^ 63 - 1 →
  timer_ok (sequence_ t) p t → inv (p :: X) (alloc p t s).
Proof.
  intros Hi Hp Hseq Hn Hok.
  assert (p ∉ (timers_ s).*2 ++ X) as Hnin.
  { intros Hin%(inv_dom _ _ Hi). rewrite Hp in Hin. by destruct Hin. }
  assert (∀ x, x ∈ timers_ s → x.2 ≠ p) as Hne.
  { intros x Hx <-. apply Hnin, elem_of_app. left. by apply list_elem_of_fmap_2. }
  constructor; cbn; try apply Hi; try done.
  - intros x Hx. rewrite lookup_insert_ne by (symmetry; auto). by apply (inv_exp _ _ Hi).
  - rewrite (inv_active _ _ Hi). erewrite fmap_ext_in; [done|]. intros x Hx.
    unfold active_of, seq_of. rewrite lookup_insert_ne by (symmetry; auto). done.
  - rewrite <- Permutation_middle. apply NoDup_cons. split; [done|apply Hi].
  - intros q. rewrite <- Permutation_middle, elem_of_cons. destruct (decide (q = p)) as [->|].
    + rewrite lookup_insert_eq. split; eauto.
    + rewrite lookup_insert_ne, (inv_dom _ _ Hi) by done. naive_solver.
  - intros q t' [[<- <-]|[Hq Ht]]%lookup_insert_Some; [done|].
    destruct (inv_timer _ _ Hi _ _ Ht). constructor; try done. lia.
  - intros q q' t1 t2 H1 H2 E. apply lookup_insert_Some in H1, H2.
    destruct H1 as [[<- <-]|[? H1]], H2 as [[<- <-]|[? H2]]; [done|..].
    + pose proof (ok_seq _ _ _ (inv_timer _ _ Hi _ _ H2)). lia.
    + pose proof (ok_seq _ _ _ (inv_timer _ _ Hi _ _ H1)). lia.
    + by apply (inv_inj _ _ Hi _ _ t1 t2).
  - pose proof (inv_created _ _ Hi). lia.
Qed.

Definition preserves (D : list Z) (s s' : state) : Prop :=
  inv (D ++ adds (pending s')) s' ∧ frame D s s' ∧
  ∀ bound, armed_upto bound s → armed_upto bound s'.

Lemma preserves_trans D s1 s2 s3 :
  preserves D s1 s2 → preserves D s2 s3 → preserves D s1 s3.
Proof.
  intros (_ & F1 & A1) (I2 & F2 & A2). split; [done|]. split; [by etrans|]. auto.
Qed.

(** The identifiers of timers in [D] that were recorded as cancelled. *)
Definition cancels (D : list Z) (s s' : state) (C : Z → Z → Prop) : Prop :=
  callingExpiredTimers_ s = true →
  ∀ p q, p ∈ D → (p, q) ∈ cancelingTimers_ s' ↔ (p, q) ∈ cancelingTimers_ s ∨ C p q.

Lemma cancelInLoop_preserves id D s :
  inv (D ++ adds (pending s)) s →
  ∃ s', cancelInLoop id s = Ok s' ∧ preserves D s s' ∧ cancels D s s' (λ p q, id = mkTimerId p q).
Proof.
  intros Hi. destruct id as [p q].
  destruct (decide ((p, q) ∈ activeTimers_ s)) as [Hact|Hact]; rewrite active_elem in Hact by done.
  - destruct Hact as (t & Ht & <- & Hin).
    assert (p ∈ (timers_ s).*2) as Hp2 by by apply (list_elem_of_fmap_2 snd _ (expiration t, p)).
    destruct (cancelInLoop_live p t _ s Hi Ht Hp2) as (l & a & -> & Pl & Hi'). eexists. split; [done|].
    assert (p ∉ D) as HpD.
    { pose proof (inv_nodup _ _ Hi) as Hn. apply NoDup_app in Hn as (_ & Hn & _). set_solver. }
    split; [|intros _ p' q' Hp'; cbn; split; [by left|]; intros [?|E]; [done|];
            by injection E as -> _].
    split; [done|]. split.
    + constructor; cbn; try done.
      * intros p' Hp'. apply lookup_delete_ne. set_solver.
      * intros p' t' [_ H']%lookup_delete_Some _. eauto.
    + intros bound. apply armed_sub; cbn; try done. intros x Hx. rewrite Pl. by right.
  - destruct (cancelInLoop_absent (mkTimerId p q) _ s Hi) as [-> Hi'].
    { cbn. intros t Ht Hs Hin. apply Hact. exists t. split; [done|]. split; [done|].
      apply list_elem_of_fmap in Hin as (x & -> & Hx).
      destruct (inv_exp _ _ Hi _ Hx) as (t' & Ht' & He). assert (t' = t) as -> by congruence.
      rewrite He. by destruct x. }
    eexists. split; [done|]. unfold cancelled in *. cbn [timer_ tid_sequence_] in *.
    pose proof (StdSet.elem_of_insert (p, q) _ (inv_csorted _ _ Hi)) as Hel.
    destruct (callingExpiredTimers_ s) eqn:Hc;
      [|split; [|by intros ?; congruence]; split; [done|]; split; [reflexivity|auto]].
    split; [|intros _ p' q' _; cbn; rewrite Hel; naive_solver].
    split; [done|]. split; [|intros bound; by apply armed_sub].
    constructor; cbn; eauto; try done. intros x Hx. apply Hel. by right.
Qed.

Lemma addTimer_start_preserves b p cb when interval D s :
  inv (D ++ adds (pending s)) s → legal (AddTimer b p cb when interval) s = true →
  ∃ s', addTimer_start b p cb when interval s = Ok s' ∧
    preserves D s s' ∧ cancelingTimers_ s' = cancelingTimers_ s ∧
    heap s' = <[p := new_timer cb when interval (numCreated s + 1)]> (heap s) ∧
    (b = true → timers_ s' ≡ₚ (microSecondsSinceEpoch when, p) :: timers_ s).
Proof.
  intros Hi Hl. unfold legal in Hl. unfold addTimer_start. destruct (heap s !! p) eqn:Hp; [done|]. to_prop.
  pose proof (inv_created _ _ Hi). rewrite wraps_small by zlia.
  set (t := new_timer cb when interval (numCreated s + 1)).
  assert (inv (p :: D ++ adds (pending s)) (alloc p t s)) as Hi'.
  { apply inv_alloc; try done; try lia. constructor; cbn; try lia.
    - unfold time_ok, expiration. cbn. lia.
    - by apply interval_okb_ok. }
  assert (p ∉ D) as HpD.
  { intros Hin. assert (is_Some (heap s !! p)) as [? ?]; [|congruence].
    apply (inv_dom _ _ Hi). set_solver. }
  assert (frame D s (alloc p t s)) as Hf.
  { constructor; cbn; try done; try lia.
    - intros q Hq. apply lookup_insert_ne. set_solver.
    - intros q t' [[<- <-]|[_ Hq]]%lookup_insert_Some Hle; [cbn in Hle; lia|eauto]. }
  assert (heap (alloc p t s) !! p = Some t) as Ht by (cbn; apply lookup_insert_eq).
  destruct b; cbn [runInLoop run_functor].
  - destruct (addTimerInLoop_ok p t _ _ Hi' Ht) as (l & a & fd & -> & Pl & Hi2 & Harm).
    eexists. split; [done|]. split; [|done]. split; [done|].
    split; [destruct Hf; by constructor|]. intros bound Ha. apply Harm. done.
  - eexists. split; [done|]. split; [|done]. split; [|split; [destruct Hf; by constructor|]].
    + unfold adds. cbn. rewrite omap_app. cbn. fold (adds (pending s)).
      rewrite (app_assoc D), <- Permutation_cons_append. destruct Hi'. by constructor.
    + intros bound. by apply armed_sub.
Qed.

(** A call that is not interrupted returns the new timer and its number. *)
Lemma addTimer_preserves b p cb when interval D s :
  inv (D ++ adds (pending s)) s → legal (AddTimer b p cb when interval) s = true →
  ∃ s', addTimer b p cb when interval s = Ok (mkTimerId p (numCreated s + 1), s') ∧
    preserves D s s' ∧ cancelingTimers_ s' = cancelingTimers_ s.
Proof.
  intros Hi Hl. destruct (addTimer_start_preserves b p cb when interval D s Hi Hl)
    as (s' & E & Hp & Hc & Hh & _). exists s'. unfold addTimer, addTimer_return.
  rewrite E, bind_Ok. rewrite (timer_deref_Ok p s' (new_timer cb when interval (numCreated s + 1)));
    [done|]. rewrite Hh. apply lookup_insert_eq.
Qed.

Lemma act_preserves a D s :
  inv (D ++ adds (pending s)) s → legal a s = true →
  ∃ s', act a s = Ok s' ∧ preserves D s s' ∧
    cancels D s s' (λ p q, a = Cancel true (mkTimerId p q)).
Proof.
  intros Hi Hl. destruct a as [[] p cb when interval|p|[] id|d]; cbn [act].
  - destruct (addTimer_preserves true p cb when interval D s Hi Hl) as (s' & -> & Hp & Hc).
    exists s'. split; [done|]. split; [done|]. intros _ p' q' _. rewrite Hc. naive_solver.
  - destruct (addTimer_start_preserves false p cb when interval D s Hi Hl) as (s' & -> & Hp & Hc & _).
    exists s'. split; [done|]. split; [done|]. intros _ p' q' _. rewrite Hc. naive_solver.
  - cbn [legal] in Hl. unfold addTimer_return. destruct (heap s !! p) as [t|] eqn:Ht; [|done].
    rewrite (timer_deref_Ok _ _ _ Ht), !bind_Ok. exists s. split; [done|].
    split; [split; [done|]; split; [reflexivity|auto]|]. intros _ p' q' _. naive_solver.
  - cbn. destruct (cancelInLoop_preserves id D s Hi) as (s' & -> & Hp & Hc). exists s'.
    split; [done|]. split; [done|]. intros Hcl p' q' Hp'. rewrite (Hc Hcl p' q' Hp'). naive_solver.
  - cbn. eexists. split; [done|]. split; [|intros _ p q _; naive_solver]. split; [|split; [by constructor; eauto|intros bound; by apply armed_sub]].
    cbn. unfold adds. rewrite omap_app. cbn. rewrite app_nil_r. destruct Hi. by constructor.
  - eexists. split; [done|]. cbn in Hl. to_prop. pose proof (inv_clock _ _ Hi) as Hc.
    unfold clock_ok in Hc. split; [|intros _ p q _; naive_solver]. split; [|split].
    + destruct Hi. constructor; try done. unfold clock_ok. cbn. lia.
    + constructor; cbn; eauto; try done; lia.
    + intros bound. apply armed_sub; cbn; try done. lia.
Qed.

(** Every call is asked to be legal in the state it is made in; nothing is asked
    of a sequence once one of its calls has failed. *)
Fixpoint legal_all (l : list action) (s : state) : bool :=
  match l with
  | [] => true
  | a :: l => legal a s && match act a s with Ok s' => legal_all l s' | Fail _ => true end
  end.

Lemma act_all_preserves l D : ∀ s,
  inv (D ++ adds (pending s)) s → legal_all l s = true →
  ∃ s', act_all l s = Ok s' ∧ preserves D s s' ∧
    cancels D s s' (λ p q, Cancel true (mkTimerId p q) ∈ l).
Proof.
  induction l as [|a l IH]; intros s Hi Hl.
  { exists s. split; [done|]. split; [by split|]. intros _ p q _. set_solver. }
  cbn in Hl |- *. apply andb_true_iff in Hl as [Ha Hl].
  destruct (act_preserves a D s Hi Ha) as (s' & E & Hp & Hc). rewrite E in *. rewrite bind_Ok.
  destruct (IH s' (proj1 Hp) Hl) as (s2 & -> & Hp2 & Hc2). exists s2. split; [done|].
  split; [by eapply preserves_trans|]. intros Hcl p q HpD.
  rewrite (Hc2 ltac:(by rewrite (fr_calling _ _ _ (proj1 (proj2 Hp)))) p q HpD), (Hc Hcl p q HpD).
  rewrite elem_of_cons. naive_solver.
Qed.

(** *** Running the callbacks *)

Definition set_ran (r : list (Z * Z)) (s : state) : state :=
  mkState (heap s) (numCreated s) (timers_ s) (activeTimers_ s) (callingExpiredTimers_ s)
    (cancelingTimers_ s) (timerfd s) (clock s) (pending s) r.

Definition run_entry (h : gmap Z Timer) (x : Z * Z) : Z * Z :=
  match h !! x.2 with Some t => (callback_ t, sequence_ t) | None => (0, 0) end.

Fixpoint legal_runs (expired : list (Z * Z)) (scripts : list (list action)) (s : state) : bool :=
  match expired with
  | [] => true
  | it :: expired =>
      let s1 := log_run (run_entry (heap s) it) s in
      let script := match scripts with [] => [] | a :: _ => a end in
      legal_all script s1 &&
      match act_all script s1 with
      | Ok s' => legal_runs expired (tail scripts) s'
      | Fail _ => true
      end
  end.

Lemma inv_set_ran X r s : inv X s → inv X (set_ran r s).
Proof. intros []. by constructor. Qed.

Lemma preserves_set_ran D r r' s s' :
  preserves D (set_ran r s) s' → preserves D (set_ran r' s) (set_ran r' s').
Proof.
  intros (Hi & Hf & Ha). split; [|split].
  - by apply inv_set_ran.
  - destruct Hf. by constructor.
  - intros bound Hb. apply (Ha bound Hb).
Qed.

Lemma run_expired_ok D expired : ∀ scripts s,
  (∀ x, x ∈ expired → x.2 ∈ D) →
  inv (D ++ adds (pending s)) s → legal_runs expired scripts s = true →
  ∃ s', run_expired expired scripts s = Ok s' ∧
    preserves D (set_ran (ran s ++ (run_entry (heap s) <$> expired)) s) s' ∧
    cancels D s s' (λ p q, Cancel true (mkTimerId p q) ∈ concat (take (length expired) scripts)).
Proof.
  induction expired as [|x l IH]; intros scripts s HD Hi Hl.
  { exists s. cbn. rewrite app_nil_r. split; [done|]. split; [|intros _ p q _; set_solver].
    destruct s. by split. }
  cbn [run_expired legal_runs] in Hl |- *. set (script := match scripts with [] => [] | a :: _ => a end) in *.
  assert (is_Some (heap s !! x.2)) as [t Ht].
  { apply (inv_dom _ _ Hi). pose proof (HD x ltac:(left)). set_solver. }
  unfold run_entry at 1 2 in Hl. rewrite (timer_deref_Ok _ _ _ Ht), bind_Ok. rewrite Ht in Hl.
  apply andb_true_iff in Hl as [Hscript Hl].
  destruct (act_all_preserves script D (log_run (callback_ t, sequence_ t) s))
    as (s1 & E1 & Hp1 & Hc1); [by apply inv_set_ran|done|].
  rewrite E1 in *. rewrite bind_Ok. pose proof Hp1 as (Hi1 & Hf1 & _).
  destruct (IH (tail scripts) s1) as (s2 & -> & Hp2 & Hc2); try done.
  { intros y Hy. apply HD. by right. }
  exists s2. split; [done|]. split.
  - eapply preserves_trans; [|exact Hp2].
    assert (run_entry (heap s1) <$> l = run_entry (heap s) <$> l) as ->.
    { apply fmap_ext_in. intros y Hy. unfold run_entry.
      rewrite (fr_heap _ _ _ Hf1) by (apply HD; by right). done. }
    rewrite (fr_ran _ _ _ Hf1). cbn [ran log_run fmap list_fmap]. rewrite <- app_assoc.
    unfold run_entry at 1. rewrite Ht. by apply (preserves_set_ran D (ran s ++ [(callback_ t, sequence_ t)])).
  - intros Hcl p q Hp. rewrite (Hc2 ltac:(by rewrite (fr_calling _ _ _ Hf1)) p q Hp), (Hc1 Hcl p q Hp).
    cbn [log_run cancelingTimers_]. subst script. destruct scripts; cbn; [rewrite take_nil; set_solver|].
    rewrite elem_of_app. naive_solver.
Qed.

(** *** Resetting the repeated timers *)

Definition restarted (now : Z) (t : Timer) : Timer :=
  match restart (mkTimestamp now) t with Ok t' => t' | Fail _ => t end.

Lemma restart_ok now created p t :
  clock_ok now → timer_ok created p t → repeat_ t = true →
  restart (mkTimestamp now) t = Ok (restarted now t) ∧ now ≤ expiration (restarted now t) ∧
  sequence_ (restarted now t) = sequence_ t ∧ timer_ok created p (restarted now t).
Proof.
  unfold clock_ok. intros Hn [] Hr. destruct (ok_interval0 Hr) as (d & Ed & Hd).
  unfold restarted, restart. rewrite Hr. unfold addTime. fold (interval_us (interval_ t)).
  rewrite Ed, !bind_Ok. cbn [microSecondsSinceEpoch microSecondsSinceEpoch_].
  unfold microSecondsSinceEpoch. cbn [microSecondsSinceEpoch_].
  rewrite sint_Ok, !bind_Ok by zlia. split; [done|].
  unfold expiration, microSecondsSinceEpoch. cbn. split; [lia|]. split; [done|].
  constructor; try done.
  - unfold time_ok, expiration, microSecondsSinceEpoch. cbn. lia.
  - intros _. by exists d.
Qed.

Lemma restarted_sequence now t : sequence_ (restarted now t) = sequence_ t.
Proof.
  unfold restarted, restart. by destruct (if repeat_ t then _ else _).
Qed.

Lemma inv_update p t t' X s :
  inv (p :: X) s → heap s !! p = Some t → sequence_ t' = sequence_ t →
  timer_ok (numCreated s) p t' → inv (p :: X) (set_heap (<[p := t']> (heap s)) s).
Proof.
  intros Hi Ht Hs Hok.
  assert (∀ x, x ∈ timers_ s → x.2 ≠ p) as Hne.
  { intros x Hx <-. pose proof (inv_nodup _ _ Hi) as Hn. apply NoDup_app in Hn as (_ & Hn & _).
    apply (Hn x.2); [by apply list_elem_of_fmap_2|left]. }
  assert (∀ q u, <[p:=t']> (heap s) !! q = Some u →
            ∃ u0, heap s !! q = Some u0 ∧ sequence_ u0 = sequence_ u) as Hback.
  { intros q u [[<- <-]|[_ Hu]]%lookup_insert_Some; eauto. }
  constructor; cbn; try apply Hi; try done.
  - intros x Hx. rewrite lookup_insert_ne by (symmetry; auto). by apply (inv_exp _ _ Hi).
  - rewrite (inv_active _ _ Hi). erewrite fmap_ext_in; [done|]. intros x Hx.
    unfold active_of, seq_of. rewrite lookup_insert_ne by (symmetry; auto). done.
  - intros q. rewrite <- (inv_dom _ _ Hi q). destruct (decide (q = p)) as [->|].
    + rewrite lookup_insert_eq, Ht. by split.
    + by rewrite lookup_insert_ne.
  - intros q u [[<- <-]|[_ Hu]]%lookup_insert_Some; [done|]. by apply (inv_timer _ _ Hi).
  - intros q q' u u' Hu Hu' E. destruct (Hback _ _ Hu) as (v & Hv & Ev), (Hback _ _ Hu') as (v' & Hv' & Ev').
    apply (inv_inj _ _ Hi _ _ v v'); congruence.
Qed.

Definition survives (s : state) (p : Z) (t : Timer) : bool :=
  repeat_ t && negb (StdSet.mem (p, sequence_ t) (cancelingTimers_ s)).
Definition after_reset (s : state) (now p : Z) (t : Timer) : option Timer :=
  if survives s p t then Some (restarted now t) else None.

(** [s'] is [s] up to the heap and the sets. *)
Definition same_rest (s s' : state) : Prop :=
  ∃ h l a, s' = set_heap h (set_sets l a s).

Lemma reset_one p t now X s :
  inv (p :: X) s → heap s !! p = Some t → clock_ok now →
  ∃ s', (if survives s p t then
           t' ← restart (mkTimestamp now) t;
           r ← insert p (set_heap (<[p := t']> (heap s)) s); Ok (snd r)
         else free p s) = Ok s' ∧
    inv X s' ∧ same_rest s s' ∧ heap s' !! p = after_reset s now p t ∧
    (∀ q, q ≠ p → heap s' !! q = heap s !! q) ∧
    (∀ x, x ∈ timers_ s' → x ∈ timers_ s ∨ now ≤ x.1).
Proof.
  intros Hi Ht Hn. unfold after_reset. destruct (survives s p t) eqn:Hsv.
  - unfold survives in Hsv. to_prop.
    destruct (restart_ok now _ _ _ Hn (inv_timer _ _ Hi _ _ Ht)) as (-> & Hge & Hseq & Hok); [done|].
    rewrite bind_Ok. set (s1 := set_heap _ s).
    assert (inv (p :: X) s1) as Hi1 by by eapply inv_update.
    assert (heap s1 !! p = Some (restarted now t)) as Ht1 by apply lookup_insert_eq.
    destruct (insert_ok _ _ _ _ Hi1 Ht1) as (l & a & -> & Pl & Hi2). rewrite bind_Ok.
    eexists. split; [done|]. split; [done|]. split; [by eexists _, l, a|]. cbn in *.
    split; [done|]. split; [intros q Hq; by rewrite lookup_insert_ne|].
    intros x. rewrite Pl, elem_of_cons. intros [->|]; auto.
  - unfold free. rewrite (timer_deref_Ok _ _ _ Ht), bind_Ok. eexists. split; [done|].
    split; [by apply inv_delete|]. split; [by exists (delete p (heap s)), (timers_ s), (activeTimers_ s)|]. cbn.
    split; [apply lookup_delete_eq|]. split; [|by left]. intros q Hq. by rewrite lookup_delete_ne.
Qed.

Lemma same_rest_trans s1 s2 s3 : same_rest s1 s2 → same_rest s2 s3 → same_rest s1 s3.
Proof. intros (h & l & a & ->) (h' & l' & a' & ->). by exists h', l', a'. Qed.

Lemma reset_loop_ok expired now : ∀ X s,
  inv (expired.*2 ++ X) s → clock_ok now →
  ∃ s', reset_loop expired now s = Ok s' ∧ inv X s' ∧ same_rest s s' ∧
    (∀ p t, p ∈ expired.*2 → heap s !! p = Some t → heap s' !! p = after_reset s now p t) ∧
    (∀ p, p ∉ expired.*2 → heap s' !! p = heap s !! p) ∧
    (∀ x, x ∈ timers_ s' → x ∈ timers_ s ∨ now ≤ x.1).
Proof.
  induction expired as [|x l IH]; intros X s Hi Hn.
  { exists s. split; [done|]. split; [done|]. split; [by exists (heap s), (timers_ s), (activeTimers_ s); destruct s|].
    split; [intros p t Hp; by apply not_elem_of_nil in Hp|]. auto. }
  cbn [fmap list_fmap app] in Hi. destruct (inv_detached _ _ _ Hi) as [t Ht].
  destruct (reset_one x.2 t now _ s Hi Ht Hn) as (s1 & E1 & Hi1 & Hr1 & Hh1 & Ho1 & Ht1).
  cbn [reset_loop]. rewrite (timer_deref_Ok _ _ _ Ht), bind_Ok. fold (survives s x.2 t). rewrite E1, bind_Ok.
  destruct (IH X s1 Hi1 Hn) as (s' & -> & Hi' & Hr' & Hh' & Ho' & Ht').
  assert (x.2 ∉ l.*2) as Hx.
  { pose proof (inv_nodup _ _ Hi) as Hnd. rewrite <- Permutation_middle in Hnd.
    apply NoDup_cons in Hnd as [Hnin _]. set_solver. }
  exists s'. split; [done|]. split; [done|]. split; [by eapply same_rest_trans|]. cbn.
  split; [|split].
  - intros p u. rewrite elem_of_cons. intros [->|Hp] Hu.
    + rewrite Ho' by done. by assert (u = t) as -> by congruence.
    + assert (p ≠ x.2) as Hne by (intros ->; done). rewrite (Hh' p u Hp) by by rewrite Ho1.
      destruct Hr1 as (h & k & a & ->). done.
  - intros p. rewrite elem_of_cons. intros Hp. rewrite Ho', Ho1 by naive_solver. done.
  - intros y Hy. destruct (Ht' y Hy) as [Hy1|]; [|by right]. by apply Ht1.
Qed.

Lemma reset_arms s :
  ∀ X, inv X s → armed_upto (Some 0) s →
  ∃ fd, (nextExpire ← match timers_ s with
                      | [] => Ok 0
                      | e :: _ => t ← deref e.2 s; Ok (expiration t)
                      end;
         if 0 <? nextExpire then resetTimerfd nextExpire s else Ok s) = Ok (set_timerfd fd s) ∧
    armed_upto None (set_timerfd fd s).
Proof.
  intros X Hi Ha. destruct (timers_ s) as [|e l] eqn:E.
  { exists (timerfd s). split; [by destruct s|]. intros x Hx. cbn in Hx. rewrite E in Hx.
    by apply not_elem_of_nil in Hx. }
  destruct (inv_exp _ _ Hi e) as (t & Ht & He); [rewrite E; left|].
  pose proof (ok_time _ _ _ (inv_timer _ _ Hi _ _ Ht)) as Hte. rewrite He in Hte.
  rewrite (timer_deref_Ok _ _ _ Ht), !bind_Ok, He. destruct (Z.ltb_spec 0 e.1) as [Hpos|Hneg].
  - rewrite resetTimerfd_ok by eauto. eexists. split; [done|].
    eapply armed_front; [cbn; eauto|exact E|]. by eexists.
  - exists (timerfd s). split; [by destruct s|]. eapply armed_front; [cbn; eauto|exact E|].
    apply (Ha e); [rewrite E; left|]. intros b [= <-]. lia.
Qed.

(** What the callbacks of this wake-up do is legal. *)
Definition legal_handle (fired : bool) (scripts : list (list action)) (s : state) : bool :=
  match getExpired (clock s) (if fired then set_timerfd None s else s) with
  | Ok (expired, s1) => legal_runs expired scripts (set_canceling [] (set_calling true s1))
  | Fail _ => true
  end.

Lemma after_reset_cancel s now p t (P : Prop) `{!Decision P} :
  (StdSet.mem (p, sequence_ t) (cancelingTimers_ s) = true ↔ P) →
  after_reset s now p t = if bool_decide (repeat_ t = true ∧ ¬ P) then Some (restarted now t) else None.
Proof.
  intros HP. unfold after_reset, survives. destruct (repeat_ t); cbn.
  - destruct (StdSet.mem _ _); cbn; case_bool_decide; naive_solver.
  - by rewrite bool_decide_false by (intros []; done).
Qed.

Definition due (s : state) : list (Z * Z) := filter (λ x, x.1 ≤ clock s) (timers_ s).

Lemma handleRead_ok fired scripts s :
  inv (adds (pending s)) s → legal_handle fired scripts s = true →
  ∃ s', handleRead fired scripts s = Ok s' ∧
    inv (adds (pending s')) s' ∧ armed_upto None s' ∧
    ran s' = ran s ++ (run_entry (heap s) <$> due s) ∧
    callingExpiredTimers_ s' = false ∧ clock s ≤ clock s' ∧ numCreated s ≤ numCreated s' ∧
    (∀ p t, p ∈ (due s).*2 → heap s !! p = Some t →
       heap s' !! p =
         if bool_decide (repeat_ t = true ∧
              Cancel true (mkTimerId p (sequence_ t)) ∉ concat (take (length (due s)) scripts))
         then Some (restarted (clock s) t) else None) ∧
    (∀ p t, heap s' !! p = Some t → sequence_ t ≤ numCreated s →
       ∃ t0, heap s !! p = Some t0 ∧ sequence_ t0 = sequence_ t) ∧
    (∀ p, p ∈ (due s).*2 → p ∉ adds (pending s')).
Proof.
  intros Hi Hl. unfold handleRead, legal_handle in *. set (s0 := if fired then _ else s) in *.
  assert (inv (adds (pending s)) s0) as Hi0 by (unfold s0; destruct fired; [by apply inv_set_timerfd|done]).
  destruct (getExpired_ok (clock s) _ s0 Hi0) as (expired & rest & a & E & Eg & Hle & Hgt & Hi1).
  rewrite Eg in *. rewrite bind_Ok.
  assert (due s = expired) as Hdue.
  { assert (timers_ s0 = timers_ s) as Et by by unfold s0; destruct fired.
    unfold due. rewrite <- Et, E, filter_app, (filter_all _ expired), (filter_none _ rest), app_nil_r; try done.
    intros x Hx. specialize (Hgt x Hx). lia. }
  rewrite Hdue. set (s1 := set_canceling [] (set_calling true (set_sets rest a s0))) in *.
  assert (heap s1 = heap s ∧ pending s1 = pending s ∧ ran s1 = ran s ∧ clock s1 = clock s ∧
          numCreated s1 = numCreated s) as (Eh & Ep & Er & Ec & En) by by unfold s1, s0; destruct fired.
  assert (inv (expired.*2 ++ adds (pending s1)) s1) as Hi1'.
  { rewrite Ep. destruct Hi1. constructor; try done. apply SSorted_nil. }
  assert (timers_ s1 = rest ∧ callingExpiredTimers_ s1 = true ∧ cancelingTimers_ s1 = [])
    as (Et1 & Ecl & Ecn) by done. clearbody s1.
  destruct (run_expired_ok expired.*2 expired scripts s1) as (s2 & -> & Hp2 & Hc2); try done.
  { intros x Hx. by apply list_elem_of_fmap_2. }
  rewrite bind_Ok. destruct Hp2 as (Hi2 & Hf2 & Ha2). set (s3 := set_calling false s2).
  assert (inv (expired.*2 ++ adds (pending s2)) s3) as Hi3 by (destruct Hi2; by constructor).
  destruct (reset_loop_ok expired (clock s) _ s3 Hi3 (inv_clock _ _ Hi))
    as (s4 & E4 & Hi4 & Hr4 & Hh4 & Ho4 & Ht4). unfold reset. rewrite E4, bind_Ok.
  pose proof (inv_clock _ _ Hi) as Hck. unfold clock_ok in Hck. destruct Hf2.
  assert (ran s4 = ran s2 ∧ callingExpiredTimers_ s4 = false ∧ clock s4 = clock s2 ∧
          numCreated s4 = numCreated s2 ∧ pending s4 = pending s2 ∧ timerfd s4 = timerfd s2)
    as (R4 & C4 & K4 & N4 & P4 & T4) by by destruct Hr4 as (? & ? & ? & ->).
  destruct (reset_arms s4 _ Hi4) as (fd & -> & Harm).
  { intros x Hx Hb. specialize (Hb 0 eq_refl). destruct (Ht4 x Hx) as [Hx2|]; [|lia].
    destruct (Ha2 (Some (clock s))) with x as (d & Ed & Hd); [|done|intros ? [= <-]; lia|].
    { intros y Hy Hyb. cbn in Hy. rewrite Et1 in Hy. specialize (Hyb _ eq_refl).
      specialize (Hgt y Hy). lia. }
    exists d. by rewrite T4, K4. }
  eexists. split; [done|]. cbn [set_timerfd ran callingExpiredTimers_ clock numCreated heap pending].
  rewrite R4, K4, N4, P4. split; [by apply inv_set_timerfd|]. split; [done|].
  split; [by rewrite fr_ran0; cbn; rewrite Eh, Er|]. split; [done|]. cbn in fr_clock0, fr_created0.
  split; [lia|]. split; [lia|]. split; [|split].
  - intros p t Hp Ht. rewrite (Hh4 p t Hp) by (cbn; rewrite fr_heap0 by done; cbn; by rewrite Eh).
    apply after_reset_cancel. cbn. rewrite StdSet.mem_spec by apply Hi3.
    cbn. rewrite (Hc2 Ecl p _ Hp), Ecn. set_solver.
  - intros p t Hp Hs. destruct (decide (p ∈ expired.*2)) as [Hin|Hin].
    + assert (is_Some (heap s3 !! p)) as [t0 Ht0] by (apply (inv_dom _ _ Hi3); set_solver).
      rewrite (Hh4 p t0 Hin Ht0) in Hp. unfold after_reset in Hp. case_match; [|done].
      simplify_eq. exists t0. rewrite restarted_sequence. split; [|done].
      cbn in Ht0. rewrite fr_heap0 in Ht0 by done. by rewrite <- Eh.
    + rewrite Ho4 in Hp by done. destruct (fr_old0 p t Hp) as (t0 & Ht0 & Es); [cbn; lia|].
      exists t0. by rewrite <- Eh.
  - intros p Hp Hp'. pose proof (inv_nodup _ _ Hi3) as Hn. apply NoDup_app in Hn as (_ & _ & Hn).
    apply NoDup_app in Hn as (_ & Hn & _). by apply (Hn p).
Qed.

(** ** Runs of the loop thread *)

Inductive step :=
  | Act (a : action)
  | HandleRead (fired : bool) (scripts : list (list action))
  | DoPending.

Definition do_step (st : step) (s : state) : result state :=
  match st with
  | Act a => act a s
  | HandleRead fired scripts => handleRead fired scripts s
  | DoPending => doPendingFunctors s
  end.
Fixpoint run (l : list step) (s : state) : result state :=
  match l with [] => Ok s | st :: l => s ← do_step st s; run l s end.

Definition legal_step (st : step) (s : state) : bool :=
  match st with
  | Act a => legal a s
  | HandleRead fired scripts => legal_handle fired scripts s
  | DoPending => true
  end.
Fixpoint legal_steps (l : list step) (s : state) : bool :=
  match l with
  | [] => true
  | st :: l => legal_step st s && match do_step st s with Ok s' => legal_steps l s' | Fail _ => true end
  end.

Definition good (s : state) : Prop := inv (adds (pending s)) s ∧ armed_upto None s.

(** No timer created before appears anew, and callbacks run are those of timers
    that existed. *)
Record evolves (s s' : state) : Prop := {
  ev_created : numCreated s ≤ numCreated s';
  ev_old : ∀ p t, heap s' !! p = Some t → sequence_ t ≤ numCreated s →
             ∃ t0, heap s !! p = Some t0 ∧ sequence_ t0 = sequence_ t;
  ev_ran : ∃ new, ran s' = ran s ++ new ∧
             ∀ x, x ∈ new → x.2 ≤ numCreated s' ∧
               (x.2 ≤ numCreated s → ∃ p t, heap s !! p = Some t ∧ sequence_ t = x.2)
}.

#[global] Instance evolves_trans : Transitive evolves.
Proof.
  intros s1 s2 s3 [C1 O1 (n1 & R1 & N1)] [C2 O2 (n2 & R2 & N2)]. constructor; [lia|..].
  - intros p t Hp Hs. destruct (O2 p t Hp ltac:(lia)) as (t0 & H0 & E0).
    destruct (O1 p t0 H0 ltac:(lia)) as (t1 & H1 & E1). exists t1. split; [done|congruence].
  - exists (n1 ++ n2). split; [by rewrite R2, R1, app_assoc|]. intros x.
    rewrite elem_of_app. intros [Hx|Hx].
    + destruct (N1 x Hx) as [? ?]. split; [lia|done].
    + destruct (N2 x Hx) as [? Hold]. split; [done|]. intros Hx1.
      destruct (Hold ltac:(lia)) as (p & t & Ht & Es). destruct (O1 p t Ht ltac:(lia)) as (t0 & ? & ?).
      exists p, t0. split; [done|congruence].
Qed.

Lemma frame_evolves D s s' : frame D s s' → evolves s s'.
Proof.
  intros []. constructor; [done|done|]. exists []. rewrite app_nil_r. split; [done|].
  intros x Hx. by apply not_elem_of_nil in Hx.
Qed.

#[global] Instance evolves_refl : Reflexive evolves.
Proof. intros s. by apply (frame_evolves []). Qed.

Lemma run_functors_ok l : ∀ s,
  inv (adds l ++ adds (pending s)) s → armed_upto None s →
  ∃ s', run_functors l s = Ok s' ∧ good s' ∧ evolves s s' ∧ ran s' = ran s.
Proof.
  induction l as [|f l IH]; intros s Hi Ha; [by exists s|]. cbn [run_functors].
  destruct f as [p|id]; cbn [run_functor].
  - destruct (inv_detached _ _ _ Hi) as [t Ht].
    destruct (addTimerInLoop_ok p t _ s Hi Ht) as (k & a & fd & -> & _ & Hi' & Ha'). rewrite bind_Ok.
    destruct (IH (set_timerfd fd (set_sets k a s)) Hi' (Ha' None Ha)) as (s' & -> & Hg & Hev & Hr).
    exists s'. split; [done|]. split; [done|]. by destruct Hev.
  - destruct (cancelInLoop_preserves id (adds l) s Hi) as (s1 & -> & (Hi1 & Hf1 & Ha1) & _).
    rewrite bind_Ok. destruct (IH s1 Hi1 (Ha1 None Ha)) as (s' & -> & Hg & Hev & Hr).
    exists s'. split; [done|]. split; [done|]. split; [|by rewrite Hr, (fr_ran _ _ _ Hf1)].
    etrans; [by eapply frame_evolves|done].
Qed.

Lemma step_ok st s :
  good s → legal_step st s = true →
  ∃ s', do_step st s = Ok s' ∧ good s' ∧ evolves s s'.
Proof.
  intros [Hi Ha] Hl. destruct st as [a|fired scripts|]; cbn [do_step legal_step] in *.
  - destruct (act_preserves a [] s Hi Hl) as (s' & -> & (Hi' & Hf & Ha') & _). exists s'.
    split; [done|]. split; [by split; auto|]. by eapply frame_evolves.
  - destruct (handleRead_ok fired scripts s Hi Hl) as (s' & -> & Hi' & Ha' & Hr & _ & _ & Hn & _ & Hold & _).
    exists s'. split; [done|]. split; [by split|]. constructor; [done|done|].
    exists (run_entry (heap s) <$> due s). split; [done|].
    intros x (y & -> & Hy)%list_elem_of_fmap. unfold due in Hy. apply list_elem_of_filter in Hy as [_ Hy].
    destruct (inv_exp _ _ Hi y Hy) as (t & Ht & _). unfold run_entry. rewrite Ht. cbn.
    pose proof (ok_seq _ _ _ (inv_timer _ _ Hi _ _ Ht)). split; [lia|]. eauto.
  - unfold doPendingFunctors.
    destruct (run_functors_ok (pending s) (set_pending [] s)) as (s' & -> & Hg & Hev & _).
    + cbn. rewrite app_nil_r. destruct Hi. by constructor.
    + exact Ha.
    + exists s'. split; [done|]. split; [done|]. by destruct Hev.
Qed.

Lemma run_ok l : ∀ s,
  good s → legal_steps l s = true → ∃ s', run l s = Ok s' ∧ good s' ∧ evolves s s'.
Proof.
  induction l as [|st l IH]; intros s Hg Hl; [by exists s|]. cbn in *.
  apply andb_true_iff in Hl as [Hl1 Hl2].
  destruct (step_ok st s Hg Hl1) as (s1 & E1 & Hg1 & Hev1). rewrite E1 in *. rewrite bind_Ok.
  destruct (IH s1 Hg1 Hl2) as (s2 & -> & Hg2 & Hev2). exists s2. split; [done|]. split; [done|].
  by etrans.
Qed.

Lemma good_empty now : clock_ok now → good (empty now).
Proof.
  intros Hc. split; [|intros x Hx; by apply not_elem_of_nil in Hx].
  constructor; cbn; try done; try apply SSorted_nil; try lia.
  - intros x Hx. by apply not_elem_of_nil in Hx.
  - constructor.
  - intros p. rewrite lookup_empty. split; [by intros []|]. intros Hp. by apply not_elem_of_nil in Hp.
Qed.

Lemma free_all_ok l : ∀ s,
  (∀ x, x ∈ l → is_Some (heap s !! x.2)) → NoDup l.*2 →
  ∃ s', free_all l s = Ok s' ∧ ∀ p, heap s' !! p = if bool_decide (p ∈ l.*2) then None else heap s !! p.
Proof.
  induction l as [|x l IH]; intros s Hd Hn.
  { exists s. split; [done|]. intros p. by rewrite bool_decide_false by apply not_elem_of_nil. }
  cbn in Hn |- *. apply NoDup_cons in Hn as [Hx Hn]. destruct (Hd x ltac:(left)) as [t Ht].
  unfold free. rewrite (timer_deref_Ok _ _ _ Ht), !bind_Ok.
  destruct (IH (set_heap (delete x.2 (heap s)) s)) as (s' & -> & Hs'); [|done|].
  { intros y Hy. cbn. rewrite lookup_delete_ne; [apply Hd; by right|].
    intros E. apply Hx. rewrite E. by apply list_elem_of_fmap_2. }
  exists s'. split; [done|]. intros p. rewrite Hs'. cbn. destruct (decide (p = x.2)) as [->|Hne].
  - rewrite (bool_decide_true (x.2 ∈ x.2 :: l.*2)) by left. rewrite lookup_delete_eq. by case_bool_decide.
  - rewrite lookup_delete_ne by done. rewrite (bool_decide_ext (p ∈ x.2 :: l.*2) (p ∈ l.*2)); [done|set_solver].
Qed.

(** States the loop thread can reach. *)
Definition reachable (s : state) : Prop :=
  ∃ now l, clock_ok now ∧ legal_steps l (empty now) = true ∧ run l (empty now) = Ok s.

Lemma reachable_good s : reachable s → good s.
Proof.
  intros (now & l & Hc & Hl & E).
  destruct (run_ok l (empty now) (good_empty now Hc) Hl) as (s' & E' & Hg & _). congruence.
Qed.

(** C3: Take any sequence of calls (by the loop thread, by callbacks, by other
    threads), wake-ups and queued functors in which fresh addresses come from the
    allocator, times stay within 2^62 microseconds, the clock does not run backwards
    and a foreign [addTimer] returns before the loop deletes its timer. No
    assertion fails in it and no deleted timer is used; [timers_] holds exactly the
    timers whose insertion has run, under their current expirations,
    [activeTimers_] the same timers under their sequence numbers, the descriptor is
    armed for every one of them, and the destructor deletes exactly these: a timer
    whose insertion is still queued then is leaked. *)
Theorem timerqueue_safe now l :
  clock_ok now → legal_steps l (empty now) = true →
  ∃ s, run l (empty now) = Ok s ∧
    (∀ e p, (e, p) ∈ timers_ s ↔
       ∃ t, heap s !! p = Some t ∧ expiration t = e ∧ p ∉ adds (pending s)) ∧
    (∀ p q, (p, q) ∈ activeTimers_ s ↔
       ∃ t, heap s !! p = Some t ∧ sequence_ t = q ∧ p ∉ adds (pending s)) ∧
    armed_upto None s ∧
    ∃ s', destroy s = Ok s' ∧ ∀ p, is_Some (heap s' !! p) ↔ p ∈ adds (pending s).
Proof.
  intros Hc Hl. destruct (run_ok l (empty now) (good_empty now Hc) Hl) as (s & E & [Hi Ha] & _).
  exists s. split; [done|]. pose proof (inv_nodup _ _ Hi) as Hn. apply NoDup_app in Hn as (Hn1 & Hdis & _).
  assert (∀ e p, (e, p) ∈ timers_ s ↔
       ∃ t, heap s !! p = Some t ∧ expiration t = e ∧ p ∉ adds (pending s)) as Htim.
  { intros e p. split.
    - intros Hin. destruct (inv_exp _ _ Hi _ Hin) as (t & Ht & He). exists t. split; [done|].
      split; [done|]. apply Hdis. by apply (list_elem_of_fmap_2 snd _ (e, p)).
    - intros (t & Ht & <- & Hp). assert (p ∈ (timers_ s).*2 ++ adds (pending s)) as Hin.
      { apply (inv_dom _ _ Hi). eauto. }
      apply elem_of_app in Hin as [([e' p'] & -> & Hin)%list_elem_of_fmap|]; [|done].
      destruct (inv_exp _ _ Hi _ Hin) as (t' & Ht' & He). cbn in *. by simplify_eq. }
  split; [done|]. split.
  { intros p q. rewrite active_elem by done. setoid_rewrite Htim. naive_solver. }
  split; [done|]. unfold destroy. destruct (free_all_ok (timers_ s) s) as (s' & -> & Hs'); [|done|].
  { intros x Hx. destruct (inv_exp _ _ Hi _ Hx) as (t & Ht & _). eauto. }
  exists s'. split; [done|]. intros p. rewrite Hs'. case_bool_decide as Hin.
  - split; [by intros []|]. intros Hp. by apply Hdis in Hin.
  - rewrite (inv_dom _ _ Hi). set_solver.
Qed.

(** Two timers, one repeated every second, one cancelled from its callback. *)
Definition demo : list step :=
  [Act (AddTimer true 16 7 (mkTimestamp 1500000) (double_of_Z 1));
   Act (AddTimer false 32 8 (mkTimestamp 1200000) dzero); Act (AddTimerReturns 32);
   DoPending; Act (Tick 600000)].

Lemma timerqueue_safe_witness :
  ∃ s, run (demo ++ [HandleRead true [[Cancel true (mkTimerId 16 1)]]]) (empty 1000000) = Ok s ∧
    timers_ s = [] ∧ ran s = [(8, 2); (7, 1)] ∧ armed_upto None s.
Proof.
  destruct (timerqueue_safe 1000000 (demo ++ [HandleRead true [[Cancel true (mkTimerId 16 1)]]]))
    as (s & E & _ & _ & Ha & _); [unfold clock_ok; lia|reflexivity|].
  exists s. split; [exact E|]. split; [|split; [|exact Ha]];
    vm_compute in E; injection E as <-; reflexivity.
Defined.

(** C5: A wake-up runs the callbacks of exactly the timers due, once each and in
    the order of their expirations; a repeated timer is queued again for [now] plus
    its interval unless a callback of this wake-up cancelled it, every other one is
    deleted, and the descriptor is armed again for whatever is queued. *)
Theorem handleRead_runs_due fired scripts s :
  reachable s → legal_handle fired scripts s = true →
  ∃ s', handleRead fired scripts s = Ok s' ∧
    ran s' = ran s ++ (run_entry (heap s) <$> due s) ∧ StdSet.sorted (due s) ∧ armed_upto None s' ∧
    ∀ p t, p ∈ (due s).*2 → heap s !! p = Some t →
      let kept := repeat_ t = true ∧
        Cancel true (mkTimerId p (sequence_ t)) ∉ concat (take (length (due s)) scripts) in
      (kept → heap s' !! p = Some (restarted (clock s) t) ∧
              (expiration (restarted (clock s) t), p) ∈ timers_ s') ∧
      (¬ kept → heap s' !! p = None).
Proof.
  intros Hr Hl. destruct (reachable_good s Hr) as [Hi _].
  destruct (handleRead_ok fired scripts s Hi Hl) as (s' & E & Hi' & Ha & Hran & _ & _ & _ & Hdue & _ & Hpend).
  exists s'. split; [done|]. split; [done|]. split.
  { unfold due. apply StdSet.sorted_filter. eauto. }
  split; [done|]. intros p t Hp Ht. rewrite (Hdue p t Hp Ht). split; intros Hk; case_bool_decide; try done.
  split; [done|].
  assert (p ∈ (timers_ s').*2 ++ adds (pending s')) as Hin.
  { apply (inv_dom _ _ Hi'). rewrite (Hdue p t Hp Ht), bool_decide_true by done. eauto. }
  apply elem_of_app in Hin as [Hin|Hin]; [|by apply Hpend in Hin].
  apply list_elem_of_fmap in Hin as ([e p'] & -> & Hin). destruct (inv_exp _ _ Hi' _ Hin) as (u & Hu & He).
  cbn in *. rewrite (Hdue p' t Hp Ht), bool_decide_true in Hu by done. by simplify_eq.
Qed.

Lemma handleRead_runs_due_witness :
  ∃ s s', run demo (empty 1000000) = Ok s ∧ handleRead true [] s = Ok s' ∧
    ran s' = [(8, 2); (7, 1)] ∧ timers_ s' = [(2600000, 16)] ∧ timerfd s' = Some 2600000.
Proof.
  destruct (run demo (empty 1000000)) as [s|] eqn:E; [|vm_compute in E; discriminate].
  destruct (handleRead_runs_due true [] s) as (s' & E' & H).
  - exists 1000000, demo. split; [unfold clock_ok; lia|]. split; [reflexivity|exact E].
  - vm_compute in E. injection E as <-. reflexivity.
  - exists s, s'. split; [reflexivity|]. split; [exact E'|].
    vm_compute in E. injection E as <-. vm_compute in E'. injection E' as <-. by repeat split.
Defined.



(** A timer whose insertion is still queued (it was added from another thread)
    is in neither set, so cancelling it in the loop thread has no effect and its
    callback runs all the same. *)
Lemma cancel_before_insert_lost :
  ∃ s, run [Act (AddTimer false 16 7 (mkTimestamp 1500000) dzero);
            Act (Cancel true (mkTimerId 16 1));
            DoPending; Act (Tick 600000); HandleRead true []] (empty 1000000) = Ok s ∧
    ran s = [(7, 1)].
Proof. eexists. split; vm_compute; reflexivity. Qed.

(** The race of a foreign [addTimer]: the functor is queued, the loop thread runs
    it, the timer expires and [reset] deletes it; only then does the caller read
    [timer->sequence()], from an object that is gone. *)
Lemma addTimer_return_race :
  let l := [Act (AddTimer false 16 7 (mkTimestamp 1500000) dzero);
            DoPending; Act (Tick 600000); HandleRead true []] in
  ∃ s, run l (empty 1000000) = Ok s ∧ legal_steps l (empty 1000000) = true ∧
    heap s !! 16 = None ∧ addTimer_return 16 s = Fail OutOfRange.
Proof. eexists. split_and!; vm_compute; reflexivity. Qed.

(** [legal] is the rule it breaks. *)
Lemma addTimer_return_illegal p s :
  addTimer_return p s = Fail OutOfRange ↔ legal (AddTimerReturns p) s = false.
Proof. unfold addTimer_return, deref. cbn. by destruct (heap s !! p). Qed.

End TimerQueue.
