(* ===== verification/Channel.v ===== *)
(** * Channel ([net/Channel.h], [net/Channel.cc])

    Interest bits, registration with the loop, and the dispatch of received
    events to the callbacks. Channel objects live in a store; what a callback does
    is a parameter, so it may change the channel itself. *)

From stdpp Require Import gmap.
From S2P Require Import Prelude Endian Format.

Module Channel.

(** <poll.h> *)
Definition POLLIN : Z := 1.
Definition POLLPRI : Z := 2.
Definition POLLOUT : Z := 4.
Definition POLLERR : Z := 8.
Definition POLLHUP : Z := 16.
Definition POLLNVAL : Z := 32.
Definition POLLRDHUP : Z := 8192.

Definition kNoneEvent : Z := 0.
Definition kReadEvent : Z := Z.lor POLLIN POLLPRI.
Definition kWriteEvent : Z := POLLOUT.

(** [x & y] as a condition. *)
Definition bits (x y : Z) : bool := negb (Z.land x y =? 0).

Inductive callback := CloseCallback | ErrorCallback | ReadCallback | WriteCallback.
#[global] Instance callback_eq_dec : EqDecision callback.
Proof. solve_decision. Defined.

Record Channel := mkChannel {
  fd_ : Z;
  events_ : Z;
  revents_ : Z;
  index_ : Z;
  logHup_ : bool;
  tied_ : bool;
  eventHandling_ : bool;
  addedToLoop_ : bool;
  readCallback_ : bool;    (* is the callback set? *)
  writeCallback_ : bool;
  closeCallback_ : bool;
  errorCallback_ : bool
}.

Definition make (fd : Z) : Channel :=
  mkChannel fd 0 0 (-1) true false false false false false false false.

(** ** Members *)

Definition with_events (e : Z) (c : Channel) : Channel :=
  mkChannel (fd_ c) e (revents_ c) (index_ c) (logHup_ c) (tied_ c) (eventHandling_ c)
    (addedToLoop_ c) (readCallback_ c) (writeCallback_ c) (closeCallback_ c) (errorCallback_ c).
Definition set_revents (r : Z) (c : Channel) : Channel :=
  mkChannel (fd_ c) (events_ c) r (index_ c) (logHup_ c) (tied_ c) (eventHandling_ c)
    (addedToLoop_ c) (readCallback_ c) (writeCallback_ c) (closeCallback_ c) (errorCallback_ c).
Definition set_index (i : Z) (c : Channel) : Channel :=
  mkChannel (fd_ c) (events_ c) (revents_ c) i (logHup_ c) (tied_ c) (eventHandling_ c)
    (addedToLoop_ c) (readCallback_ c) (writeCallback_ c) (closeCallback_ c) (errorCallback_ c).
Definition with_handling (b : bool) (c : Channel) : Channel :=
  mkChannel (fd_ c) (events_ c) (revents_ c) (index_ c) (logHup_ c) (tied_ c) b
    (addedToLoop_ c) (readCallback_ c) (writeCallback_ c) (closeCallback_ c) (errorCallback_ c).
Definition with_added (b : bool) (c : Channel) : Channel :=
  mkChannel (fd_ c) (events_ c) (revents_ c) (index_ c) (logHup_ c) (tied_ c) (eventHandling_ c)
    b (readCallback_ c) (writeCallback_ c) (closeCallback_ c) (errorCallback_ c).
Definition doNotLogHup (c : Channel) : Channel :=
  mkChannel (fd_ c) (events_ c) (revents_ c) (index_ c) false (tied_ c) (eventHandling_ c)
    (addedToLoop_ c) (readCallback_ c) (writeCallback_ c) (closeCallback_ c) (errorCallback_ c).
Definition tie (c : Channel) : Channel :=
  mkChannel (fd_ c) (events_ c) (revents_ c) (index_ c) (logHup_ c) true (eventHandling_ c)
    (addedToLoop_ c) (readCallback_ c) (writeCallback_ c) (closeCallback_ c) (errorCallback_ c).
Definition setReadCallback (c : Channel) : Channel :=
  mkChannel (fd_ c) (events_ c) (revents_ c) (index_ c) (logHup_ c) (tied_ c) (eventHandling_ c)
    (addedToLoop_ c) true (writeCallback_ c) (closeCallback_ c) (errorCallback_ c).
Definition setWriteCallback (c : Channel) : Channel :=
  mkChannel (fd_ c) (events_ c) (revents_ c) (index_ c) (logHup_ c) (tied_ c) (eventHandling_ c)
    (addedToLoop_ c) (readCallback_ c) true (closeCallback_ c) (errorCallback_ c).
Definition setCloseCallback (c : Channel) : Channel :=
  mkChannel (fd_ c) (events_ c) (revents_ c) (index_ c) (logHup_ c) (tied_ c) (eventHandling_ c)
    (addedToLoop_ c) (readCallback_ c) (writeCallback_ c) true (errorCallback_ c).
Definition setErrorCallback (c : Channel) : Channel :=
  mkChannel (fd_ c) (events_ c) (revents_ c) (index_ c) (logHup_ c) (tied_ c) (eventHandling_ c)
    (addedToLoop_ c) (readCallback_ c) (writeCallback_ c) (closeCallback_ c) true.

Definition isNoneEvent (c : Channel) : bool := events_ c =? kNoneEvent.
Definition isWriting (c : Channel) : bool := bits (events_ c) kWriteEvent.
Definition isReading (c : Channel) : bool := bits (events_ c) kReadEvent.

(** The new interest; each is followed by [update]. *)
Definition enableReading (c : Channel) : Channel := with_events (Z.lor (events_ c) kReadEvent) c.
Definition disableReading (c : Channel) : Channel :=
  with_events (Z.land (events_ c) (Z.lnot kReadEvent)) c.
Definition enableWriting (c : Channel) : Channel := with_events (Z.lor (events_ c) kWriteEvent) c.
Definition disableWriting (c : Channel) : Channel :=
  with_events (Z.land (events_ c) (Z.lnot kWriteEvent)) c.
Definition disableAll (c : Channel) : Channel := with_events kNoneEvent c.

(** ** Text *)

Definition str (s : string) : bytes := String.list_ascii_of_string s.

Definition eventsToString_of (fd ev : Z) : bytes :=
  Format.dec fd ++ str ": " ++
  (if bits ev POLLIN then str "IN " else []) ++
  (if bits ev POLLPRI then str "PRI " else []) ++
  (if bits ev POLLOUT then str "OUT " else []) ++
  (if bits ev POLLHUP then str "HUP " else []) ++
  (if bits ev POLLRDHUP then str "RDHUP " else []) ++
  (if bits ev POLLERR then str "ERR " else []) ++
  (if bits ev POLLNVAL then str "NVAL " else []).
Definition reventsToString (c : Channel) : bytes := eventsToString_of (fd_ c) (revents_ c).
Definition eventsToString (c : Channel) : bytes := eventsToString_of (fd_ c) (events_ c).

(** ** Dispatch

    [W] is the state of the program; [run cb] what the registered callback does
    to it. Every test reads the channel as it is at that moment. *)
Section dispatch.
Context {W : Type} (get : W → result Channel) (put : Channel → W → W).
Context (run : callback → W → result W).

Definition handleEventWithGuard (w : W) : result W :=
  c ← get w;
  let w := put (with_handling true c) w in
  c ← get w;
  w ← (if bits (revents_ c) POLLHUP && negb (bits (revents_ c) POLLIN)
       then if closeCallback_ c then run CloseCallback w else Ok w else Ok w);
  c ← get w;
  w ← (if bits (revents_ c) (Z.lor POLLERR POLLNVAL)
       then if errorCallback_ c then run ErrorCallback w else Ok w else Ok w);
  c ← get w;
  w ← (if bits (revents_ c) (Z.lor (Z.lor POLLIN POLLPRI) POLLRDHUP)
       then if readCallback_ c then run ReadCallback w else Ok w else Ok w);
  c ← get w;
  w ← (if bits (revents_ c) POLLOUT
       then if writeCallback_ c then run WriteCallback w else Ok w else Ok w);
  c ← get w;
  Ok (put (with_handling false c) w).

(** [alive]: the owner the channel is tied to still exists. *)
Definition handleEvent (alive : bool) (w : W) : result W :=
  c ← get w;
  if tied_ c then if alive then handleEventWithGuard w else Ok w
  else handleEventWithGuard w.
End dispatch.

(** ** Interest *)

(** The interest sets a channel can have. *)
Definition events_ok (e : Z) : Prop := e = 0 ∨ e = 3 ∨ e = 4 ∨ e = 7.

Inductive op := EnableReading | DisableReading | EnableWriting | DisableWriting | DisableAll.
Definition apply_op (o : op) (c : Channel) : Channel :=
  match o with
  | EnableReading => enableReading c
  | DisableReading => disableReading c
  | EnableWriting => enableWriting c
  | DisableWriting => disableWriting c
  | DisableAll => disableAll c
  end.

(** From construction on, reading and writing interest are independent
    switches: each operation sets its own one, leaves the other alone, and a
    channel is [isNoneEvent] exactly when both are off. *)
Theorem interest_independent ops fd :
  let c := foldr apply_op (make fd) ops in
  events_ok (events_ c) ∧ fd_ c = fd ∧
  (isNoneEvent c = negb (isReading c) && negb (isWriting c)) ∧
  isReading (enableReading c) = true ∧ isWriting (enableReading c) = isWriting c ∧
  isReading (disableReading c) = false ∧ isWriting (disableReading c) = isWriting c ∧
  isWriting (enableWriting c) = true ∧ isReading (enableWriting c) = isReading c ∧
  isWriting (disableWriting c) = false ∧ isReading (disableWriting c) = isReading c ∧
  isNoneEvent (disableAll c) = true.
Proof.
  intros c. assert (events_ok (events_ c) ∧ fd_ c = fd) as [Hok Hfd].
  { subst c. induction ops as [|o ops IH]; [split; [by left|done]|]. destruct IH as [IH ?]. cbn.
    generalize dependent (foldr apply_op (make fd) ops). intros c Hc Hf. split; [|by destruct o].
    unfold events_ok in *. destruct o; cbn; destruct Hc as [E|[E|[E|E]]]; rewrite ?E; cbn; auto. }
  split; [done|]. split; [done|]. clear Hfd.
  unfold isNoneEvent, isReading, isWriting, enableReading, disableReading, enableWriting,
    disableWriting, disableAll. cbn [with_events events_].
  destruct Hok as [->|[->|[->| ->]]]; by repeat split.
Qed.

(** ** Which callbacks run *)

Definition dispatched (c : Channel) : list callback :=
  (if bits (revents_ c) POLLHUP && negb (bits (revents_ c) POLLIN) && closeCallback_ c
   then [CloseCallback] else []) ++
  (if bits (revents_ c) (Z.lor POLLERR POLLNVAL) && errorCallback_ c then [ErrorCallback] else []) ++
  (if bits (revents_ c) (Z.lor (Z.lor POLLIN POLLPRI) POLLRDHUP) && readCallback_ c
   then [ReadCallback] else []) ++
  (if bits (revents_ c) POLLOUT && writeCallback_ c then [WriteCallback] else []).

Fixpoint run_all {W} (run : callback → W → result W) (l : list callback) (w : W) : result W :=
  match l with [] => Ok w | cb :: l => w ← run cb w; run_all run l w end.

(** The fields the dispatch reads; callbacks of the library leave them alone. *)
Definition same_dispatch (c c' : Channel) : Prop :=
  revents_ c' = revents_ c ∧ closeCallback_ c' = closeCallback_ c ∧
  errorCallback_ c' = errorCallback_ c ∧ readCallback_ c' = readCallback_ c ∧
  writeCallback_ c' = writeCallback_ c.

Lemma run_all_app {W} (run : callback → W → result W) l k w :
  run_all run (l ++ k) w = (w' ← run_all run l w; run_all run k w').
Proof.
  revert w. induction l as [|cb l IH]; intros w; [done|]. cbn.
  destruct (run cb w) as [w'|]; [|done]. rewrite !bind_Ok. apply IH.
Qed.

Section dispatch_spec.
Context {W : Type} (get : W → result Channel) (put : Channel → W → W).
Context (run : callback → W → result W).
Hypothesis get_put : ∀ c w, get (put c w) = Ok c.
Hypothesis run_same : ∀ cb w w' c, get w = Ok c → run cb w = Ok w' →
  ∃ c', get w' = Ok c' ∧ same_dispatch c c'.

Lemma dispatch_stage (b cb_set : bool) (cb : callback) w w' :
  (if b then if cb_set then run cb w else Ok w else Ok w) = Ok w' →
  run_all run (if b && cb_set then [cb] else []) w = Ok w'.
Proof. destruct b, cb_set; cbn; try done. by intros ->. Qed.

Lemma dispatch_same l w w' c :
  get w = Ok c → run_all run l w = Ok w' → ∃ c', get w' = Ok c' ∧ same_dispatch c c'.
Proof.
  revert w c. induction l as [|cb l IH]; intros w c Hg Hr.
  { cbn in Hr. simplify_eq. exists c. by repeat split. }
  cbn in Hr. inv_result. destruct (run_same cb w r c) as (c1 & Hg1 & S1); [done..|].
  destruct (IH r c1) as (c2 & Hg2 & S2); [done..|]. exists c2. split; [done|].
  destruct S1 as (?&?&?&?&?), S2 as (?&?&?&?&?). repeat split; congruence.
Qed.

(** The callbacks that run are determined by the received events: close only
    for HUP without IN, then error for ERR or NVAL, then read for IN, PRI or
    RDHUP, then write for OUT, each only if set; none at all when the owner
    the channel is tied to is gone; [eventHandling_] is false afterwards. *)
Theorem handleEvent_dispatch alive w w' c :
  get w = Ok c →
  handleEvent get put run alive w = Ok w' →
  if tied_ c && negb alive then w' = w
  else ∃ w1 c', run_all run (dispatched c) (put (with_handling true c) w) = Ok w1 ∧
         get w1 = Ok c' ∧ w' = put (with_handling false c') w1.
Proof.
  intros Hg. unfold handleEvent. rewrite Hg, bind_Ok.
  assert (handleEventWithGuard get put run w = Ok w' →
    ∃ w1 c', run_all run (dispatched c) (put (with_handling true c) w) = Ok w1 ∧
         get w1 = Ok c' ∧ w' = put (with_handling false c') w1) as Hguard.
  { unfold handleEventWithGuard. rewrite Hg, bind_Ok. set (w0 := put _ w).
    assert (get w0 = Ok (with_handling true c)) as Hg0 by apply get_put. rewrite Hg0, bind_Ok.
    intros E. inv_result.
    apply dispatch_stage in Hr. destruct (dispatch_same _ _ _ _ Hg0 Hr) as (c1 & G1 & S1).
    rewrite Hr0 in G1. injection G1 as ->.
    apply dispatch_stage in Hr1. destruct (dispatch_same _ _ _ _ Hr0 Hr1) as (c2 & G2 & S2).
    rewrite Hr2 in G2. injection G2 as ->.
    apply dispatch_stage in Hr3. destruct (dispatch_same _ _ _ _ Hr2 Hr3) as (c3 & G3 & S3).
    rewrite Hr4 in G3. injection G3 as ->. apply dispatch_stage in Hr5.
    eexists _, _. split; [|split; [exact Hr6|done]]. unfold dispatched.
    destruct S1 as (E1&_&E2&E3&E4), S2 as (F1&_&_&F3&F4), S3 as (K1&_&_&_&K4). cbn in *.
    rewrite K1, F1, E1, K4, F4, E4 in Hr5. rewrite F1, E1, F3, E3 in Hr3. rewrite E1, E2 in Hr1.
    rewrite run_all_app, Hr, bind_Ok, run_all_app, Hr1, bind_Ok, run_all_app, Hr3, bind_Ok. done. }
  destruct (tied_ c), alive; cbn; try done. by intros [= ->].
Qed.
End dispatch_spec.

(** A world of one channel that logs its callbacks. *)
Lemma handleEvent_dispatch_witness :
  let c := setCloseCallback (setErrorCallback (setWriteCallback (setReadCallback (make 5)))) in
  let c := tie (set_revents (POLLHUP + POLLERR + POLLOUT) c) in
  let get := λ w : Channel * list callback, Ok w.1 in
  let put := λ c (w : Channel * list callback), (c, w.2) in
  let run := λ cb (w : Channel * list callback), Ok (w.1, w.2 ++ [cb]) in
  handleEvent get put run true (c, []) = Ok (c, [CloseCallback; ErrorCallback; WriteCallback]) ∧
  handleEvent get put run false (c, []) = Ok (c, []).
Proof.
  intros c0 c get put run. split; [|reflexivity].
  destruct (handleEvent get put run true (c, [])) as [w'|] eqn:E; [|discriminate E].
  pose proof (handleEvent_dispatch get put run) as H.
  destruct (H ltac:(done) ltac:(by intros cb w w1 c1 [= <-] [= <-]; exists w.1) true (c, []) w' c eq_refl E)
    as (w1 & c' & R & G & ->).
  vm_compute in R. injection R as <-. injection G as <-. reflexivity.
Defined.

End Channel.
