(* ===== verification/Poller.v ===== *)
(** * Poller ([net/Poller.h], [net/Poller.cc])

    The interface of the two I/O multiplexers, as a class: the operations, and
    what they promise to the event loop. Channel objects live in a store and are
    named by their addresses; a poller keeps addresses and may write the
    [index_] and [revents_] fields. *)

From stdpp Require Import gmap.
From S2P Require Import Prelude Endian Format Channel.
Import Channel.

Module Poller.

Abbreviation store := (gmap Z Channel).

Definition deref (c : Z) (σ : store) : result Channel :=
  match σ !! c with Some ch => Ok ch | None => Fail OutOfRange end.

Lemma deref_Ok c σ ch : σ !! c = Some ch → deref c σ = Ok ch.
Proof. intros E. unfold deref. by rewrite E. Qed.

(** [ChannelMap::operator[]]: a missing key inserts a null pointer. *)
Definition at_key (k : Z) (m : gmap Z Z) : Z := default 0 (m !! k).

(** What the system call reports: which channels are active, with which events. *)
Abbreviation active := (list (Z * Z)).

Class Poller (P : Type) := {
  new_poller : P;
  channels_ : P → gmap Z Z;
  updateChannel : Z → store → P → result (store * P);
  removeChannel : Z → store → P → result (store * P);
  outcome : Type;
  poll : outcome → store → P → result (list Z * (store * P));
  (** the events the system watches for a descriptor *)
  interest : P → Z → option Z
}.

Definition hasChannel `{Poller P} (c : Z) (σ : store) (p : P) : result bool :=
  ch ← deref c σ; Ok (bool_decide (channels_ p !! fd_ ch = Some c)).

(** [Channel::enableReading] and the like: set the interest, then [update]. *)
Definition set_events `{Poller P} (c e : Z) (σ : store) (p : P) : result (store * P) :=
  ch ← deref c σ;
  updateChannel c (<[c := with_added true (with_events e ch)]> σ) p.

(** [Channel::remove] *)
Definition remove `{Poller P} (c : Z) (σ : store) (p : P) : result (store * P) :=
  ch ← deref c σ;
  _ ← check (isNoneEvent ch);
  removeChannel c (<[c := with_added false ch]> σ) p.

(** Two stores that differ in what pollers write. *)
Definition same_but_index (σ σ' : store) : Prop :=
  ∀ c, (set_revents 0 ∘ set_index 0) <$> σ' !! c = (set_revents 0 ∘ set_index 0) <$> σ !! c.

(** ** What a poller promises

    A channel is fresh while it was never registered (index -1), and registered
    while [channels_] maps its descriptor to it. A fresh channel must come with
    some interest, and an idle channel is not disabled a second time. *)
Definition fresh `{Poller P} (ch : Channel) (p : P) : Prop :=
  index_ ch = -1 ∧ 0 ≤ fd_ ch ∧ channels_ p !! fd_ ch = None.
Definition registered `{Poller P} (c : Z) (ch : Channel) (p : P) : Prop :=
  channels_ p !! fd_ ch = Some c.

(** The watched events of a registered channel. *)
Definition watch (e : Z) : option Z := if e =? 0 then None else Some e.

Class PollerLaws (P : Type) `{Poller P} := {
  pinv : store → P → Prop;
  pinv_new σ : pinv σ new_poller;
  channels_new : channels_ (new_poller : P) = ∅;
  (** registered channels exist, and exactly their interest is watched *)
  pinv_channel σ p fd c : pinv σ p → channels_ p !! fd = Some c →
    ∃ ch, σ !! c = Some ch ∧ fd_ ch = fd ∧ 0 ≤ fd ∧ index_ ch ≠ -1 ∧
      interest p fd = watch (events_ ch);
  pinv_unwatched σ p fd : pinv σ p → channels_ p !! fd = None → 0 ≤ fd → interest p fd = None;
  (** changes elsewhere do not matter *)
  pinv_frame σ σ' p : pinv σ p →
    (∀ fd c ch, channels_ p !! fd = Some c → σ !! c = Some ch →
       ∃ ch', σ' !! c = Some ch' ∧ fd_ ch' = fd_ ch ∧ events_ ch' = events_ ch ∧
              index_ ch' = index_ ch) → pinv σ' p;
  update_law σ p c ch e : pinv σ p → σ !! c = Some ch → events_ok e →
    (fresh ch p ∧ e ≠ 0 ∨ registered c ch p ∧ (e ≠ 0 ∨ events_ ch ≠ 0)) →
    ∃ i σ' p', set_events c e σ p = Ok (σ', p') ∧ pinv σ' p' ∧ i ≠ -1 ∧
      σ' = <[c := set_index i (with_added true (with_events e ch))]> σ ∧
      channels_ p' = <[fd_ ch := c]> (channels_ p);
  remove_law σ p c ch : pinv σ p → σ !! c = Some ch → registered c ch p → events_ ch = 0 →
    ∃ σ' p', remove c σ p = Ok (σ', p') ∧ pinv σ' p' ∧
      channels_ p' = delete (fd_ ch) (channels_ p) ∧
      same_but_index (<[c := with_added false ch]> σ) σ' ∧
      (∀ d dh, d ≠ c → σ !! d = Some dh → index_ dh = -1 → σ' !! d = Some dh);
  (** a report about watched channels *)
  outcome_ok : outcome → store → P → active → Prop;
  poll_law σ p o act : pinv σ p → outcome_ok o σ p act →
    ∃ σ' p', poll o σ p = Ok (act.*1, (σ', p')) ∧ pinv σ' p' ∧ channels_ p' = channels_ p ∧
      (∀ fd, 0 ≤ fd → interest p' fd = interest p fd) ∧
      ∀ c, σ' !! c = match list_find (λ a, a.1 = c) act with
                     | Some (_, a) => set_revents a.2 <$> σ !! c
                     | None => σ !! c
                     end
}.

(** ** Storing the received events *)

Definition store_active (σ : store) (act : active) : store :=
  foldl (λ σ a, alter (set_revents a.2) a.1 σ) σ act.

Lemma store_active_lookup act : ∀ σ c,
  NoDup act.*1 →
  store_active σ act !! c = match list_find (λ a, a.1 = c) act with
                            | Some (_, a) => set_revents a.2 <$> σ !! c
                            | None => σ !! c
                            end.
Proof.
  induction act as [|a act IH]; intros σ c Hn; [done|]. cbn in Hn |- *.
  apply NoDup_cons in Hn as [Ha Hn]. unfold store_active in *. cbn. rewrite IH by done.
  case_decide as Ec.
  - subst c. rewrite (proj2 (list_find_None _ _)), lookup_alter_eq; [done|].
    apply Forall_forall. intros x Hx E. apply Ha. rewrite <- E. by apply list_elem_of_fmap_2.
  - rewrite lookup_alter_ne by done. by destruct (list_find _ act) as [[]|].
Qed.

Lemma store_active_frame σ act c ch :
  σ !! c = Some ch → ∃ ch', store_active σ act !! c = Some ch' ∧
    fd_ ch' = fd_ ch ∧ events_ ch' = events_ ch ∧ index_ ch' = index_ ch.
Proof.
  revert σ ch. induction act as [|a act IH]; intros σ ch Hσ; [by exists ch|].
  unfold store_active in *. cbn. destruct (decide (a.1 = c)) as [<-|Hne].
  - destruct (IH (alter (set_revents a.2) a.1 σ) (set_revents a.2 ch)) as (ch' & ? & ? & ? & ?).
    { by rewrite lookup_alter_eq, Hσ. }
    by exists ch'.
  - apply IH. by rewrite lookup_alter_ne.
Qed.

(** ** A poller as a table of interests

    For a client the poller is a table from descriptors to channels and their
    events. [U] are the channels that were registered at some time. *)
Record table := mkTable { tab : gmap Z (Z * Z); used : gset Z }.

Inductive call (O : Type) := SetEvents (c e : Z) | Remove (c : Z) | Poll (o : O) (act : active).
Arguments SetEvents {O} c e.
Arguments Remove {O} c.
Arguments Poll {O} o act.

Section table.
Context `{PollerLaws P}.
(** the descriptor of each channel, fixed when it is made *)
Variable fds : gmap Z Z.

Definition initial_store : store := make <$> fds.

Definition spec_call (x : call (outcome (P := P))) (t : table) : table :=
  match x with
  | SetEvents c e => match fds !! c with
                     | Some fd => mkTable (<[fd := (c, e)]> (tab t)) ({[c]} ∪ used t)
                     | None => t
                     end
  | Remove c => match fds !! c with Some fd => mkTable (delete fd (tab t)) (used t) | None => t end
  | Poll _ _ => t
  end.

(** A channel is registered once, with some interest, and not disabled twice;
    it is removed when it is disabled; the system reports on watched channels. *)
Definition legal_call (x : call (outcome (P := P))) (t : table) (σ : store) (p : P) : Prop :=
  match x with
  | SetEvents c e => ∃ fd, fds !! c = Some fd ∧ 0 ≤ fd ∧ events_ok e ∧
      (((c ∉ used t) ∧ tab t !! fd = None ∧ e ≠ 0) ∨
       ∃ e0, tab t !! fd = Some (c, e0) ∧ (e ≠ 0 ∨ e0 ≠ 0))
  | Remove c => ∃ fd, fds !! c = Some fd ∧ tab t !! fd = Some (c, 0)
  | Poll o act => outcome_ok o σ p act
  end.

Definition do_call (x : call (outcome (P := P))) (σ : store) (p : P) : result (store * P) :=
  match x with
  | SetEvents c e => set_events c e σ p
  | Remove c => remove c σ p
  | Poll o _ => r ← poll o σ p; Ok (snd r)
  end.

(** Runs of legal calls with their abstract counterpart. *)
Inductive runs : store → P → table → store → P → table → Prop :=
  | runs_nil σ p t : runs σ p t σ p t
  | runs_cons x σ p t σ1 p1 σ2 p2 t2 :
      legal_call x t σ p → do_call x σ p = Ok (σ1, p1) →
      runs σ1 p1 (spec_call x t) σ2 p2 t2 → runs σ p t σ2 p2 t2.

Record rel (σ : store) (p : P) (t : table) : Prop := {
  rel_inv : pinv σ p;
  rel_tab : ∀ fd c, channels_ p !! fd = Some c ↔ ∃ e, tab t !! fd = Some (c, e);
  rel_fd : ∀ c fd, fds !! c = Some fd → ∃ ch, σ !! c = Some ch ∧ fd_ ch = fd ∧
             (c ∉ used t → index_ ch = -1);
  rel_events : ∀ fd c e, tab t !! fd = Some (c, e) →
    fds !! c = Some fd ∧ c ∈ used t ∧ ∃ ch, σ !! c = Some ch ∧ events_ ch = e
}.

Lemma rel_initial : rel initial_store new_poller (mkTable ∅ ∅).
Proof.
  constructor; cbn.
  - apply pinv_new.
  - intros fd c. rewrite channels_new, lookup_empty. split; [done|]. intros (e & He). by rewrite lookup_empty in He.
  - intros c fd Hc. exists (make fd). unfold initial_store. by rewrite lookup_fmap, Hc.
  - intros fd c e He. by rewrite lookup_empty in He.
Qed.

Lemma rel_set c e σ p t :
  rel σ p t → legal_call (SetEvents c e) t σ p →
  ∃ σ' p', set_events c e σ p = Ok (σ', p') ∧ rel σ' p' (spec_call (SetEvents c e) t).
Proof.
  intros Hr (fd & Hfd & Hpos & Hok & Hcase). cbn [spec_call]. rewrite Hfd.
  destruct (rel_fd _ _ _ Hr c fd Hfd) as (ch & Hσ & Efd & Hidx).
  destruct (update_law σ p c ch e) as (i & σ' & p' & E & Hi' & Hi1 & -> & Ec); try done.
  { apply Hr. }
  { destruct Hcase as [(Hu & Ht & He)|(e0 & Ht & He)].
    - left. split; [|done]. split; [auto|]. rewrite Efd. split; [done|].
      destruct (channels_ p !! fd) as [d|] eqn:Ed; [|done].
      apply (rel_tab _ _ _ Hr) in Ed as (e1 & E1). congruence.
    - right. unfold registered. rewrite Efd. split; [apply (rel_tab _ _ _ Hr); eauto|].
      destruct (rel_events _ _ _ Hr _ _ _ Ht) as (_ & _ & ch' & Hσ' & <-). by simplify_eq. }
  eexists _, p'. split; [done|]. rewrite Efd in Ec. constructor; cbn; try done.
  - intros fd' d. rewrite Ec. destruct (decide (fd' = fd)) as [->|].
    + rewrite !lookup_insert_eq. naive_solver.
    + rewrite !lookup_insert_ne by done. apply Hr.
  - intros d fd' Hd. destruct (decide (d = c)) as [->|].
    + rewrite lookup_insert_eq. eexists. split; [done|]. cbn. split; [congruence|]. set_solver.
    + rewrite lookup_insert_ne by done. destruct (rel_fd _ _ _ Hr d fd' Hd) as (dh & ? & ? & ?).
      exists dh. split_and!; try done. set_solver.
  - intros fd' d e' [[<- [= <- <-]]|[Hne Ht]]%lookup_insert_Some.
    + split; [done|]. split; [set_solver|]. rewrite lookup_insert_eq. by eexists.
    + destruct (rel_events _ _ _ Hr _ _ _ Ht) as (Hd & Hu & dh & Hσd & Ed). split; [done|].
      split; [set_solver|]. rewrite lookup_insert_ne by congruence. by exists dh.
Qed.

Lemma rel_remove c σ p t :
  rel σ p t → legal_call (Remove c) t σ p →
  ∃ σ' p', remove c σ p = Ok (σ', p') ∧ rel σ' p' (spec_call (Remove c) t).
Proof.
  intros Hr (fd & Hfd & Ht). cbn [spec_call]. rewrite Hfd.
  destruct (rel_fd _ _ _ Hr c fd Hfd) as (ch & Hσ & Efd & Hidx).
  destruct (rel_events _ _ _ Hr _ _ _ Ht) as (_ & Hu & ch' & Hσ' & He).
  assert (ch' = ch) as -> by congruence. clear Hσ'. subst fd.
  destruct (remove_law σ p c ch) as (σ' & p' & E & Hi' & Ec & Hsame & Hother); try done.
  { apply Hr. } { apply (rel_tab _ _ _ Hr). eauto. }
  exists σ', p'. split; [done|].
  assert (∀ d dh, d ≠ c → σ !! d = Some dh →
            ∃ dh', σ' !! d = Some dh' ∧ fd_ dh' = fd_ dh ∧ events_ dh' = events_ dh) as Hd.
  { intros d dh Hne Hdh. specialize (Hsame d). rewrite lookup_insert_ne, Hdh in Hsame by done.
    apply fmap_Some in Hsame as (dh' & E' & Eq). exists dh'. split; [done|].
    split; [by apply (f_equal fd_) in Eq|by apply (f_equal events_) in Eq]. }
  constructor; cbn; try done.
  - intros fd' d. rewrite Ec. destruct (decide (fd' = fd_ ch)) as [->|].
    + rewrite !lookup_delete_eq. naive_solver.
    + rewrite !lookup_delete_ne by done. apply Hr.
  - intros d fd' Hdf. destruct (rel_fd _ _ _ Hr d fd' Hdf) as (dh & Hdh & Efd' & Hun).
    destruct (decide (d = c)) as [->|Hne].
    + specialize (Hsame c). rewrite lookup_insert_eq in Hsame. apply fmap_Some in Hsame as (x & Ex & Eq).
      exists x. split; [done|]. apply (f_equal fd_) in Eq. cbn in Eq. split; [|by intros []]. congruence.
    + destruct (decide (d ∈ used t)).
      * destruct (Hd d dh Hne Hdh) as (dh' & ? & ? & _). exists dh'. split_and!; try done; congruence.
      * exists dh. rewrite (Hother d dh Hne Hdh) by auto. done.
  - intros fd' d e' [Hne Ht']%lookup_delete_Some.
    destruct (rel_events _ _ _ Hr _ _ _ Ht') as (Hdf & Hud & dh & Hdh & Ee).
    assert (d ≠ c) as Hdc by (intros ->; congruence).
    destruct (Hd d dh Hdc Hdh) as (dh' & ? & ? & ?). split_and!; try done. exists dh'. split; congruence.
Qed.

Lemma rel_poll o act σ p t :
  rel σ p t → outcome_ok o σ p act →
  ∃ σ' p', poll o σ p = Ok (act.*1, (σ', p')) ∧ rel σ' p' t.
Proof.
  intros Hr Ho. destruct (poll_law σ p o act) as (σ' & p' & E & Hi' & Ec & _ & Hσ'); try done.
  { apply Hr. }
  assert (∀ d dh, σ !! d = Some dh → ∃ dh', σ' !! d = Some dh' ∧ fd_ dh' = fd_ dh ∧
            events_ dh' = events_ dh ∧ index_ dh' = index_ dh) as Hd.
  { intros d dh Hdh. rewrite Hσ'. destruct (list_find _ act) as [[j a]|]; rewrite Hdh; by eexists. }
  exists σ', p'. split; [done|]. constructor; try done.
  - intros fd c. rewrite Ec. apply Hr.
  - intros c fd Hc. destruct (rel_fd _ _ _ Hr c fd Hc) as (ch & Hσ & ? & Hun).
    destruct (Hd c ch Hσ) as (ch' & ? & ? & ? & ?). exists ch'. split_and!; try done; [congruence|].
    intros Hu. rewrite <- Hun by done. done.
  - intros fd c e Ht. destruct (rel_events _ _ _ Hr _ _ _ Ht) as (? & ? & ch & Hσ & ?).
    destruct (Hd c ch Hσ) as (ch' & ? & ? & ? & ?). split_and!; try done. exists ch'. split; congruence.
Qed.

Lemma rel_call x σ p t :
  rel σ p t → legal_call x t σ p →
  ∃ σ' p', do_call x σ p = Ok (σ', p') ∧ rel σ' p' (spec_call x t).
Proof.
  intros Hr Hl. destruct x as [c e|c|o act]; [by apply rel_set|by apply rel_remove|].
  destruct (rel_poll o act σ p t Hr Hl) as (σ' & p' & E & Hr'). exists σ', p'. cbn [do_call].
  by rewrite E.
Qed.

Lemma runs_rel σ p t : runs initial_store new_poller (mkTable ∅ ∅) σ p t → rel σ p t.
Proof.
  pose proof rel_initial as Hr. revert Hr. generalize initial_store (new_poller (P := P)) (mkTable ∅ ∅).
  intros σ0 p0 t0 Hr Hrun. induction Hrun as [|x σ0 p0 t0 σ1 p1 σ2 p2 t2 Hl E _ IH]; [done|].
  destruct (rel_call x σ0 p0 t0 Hr Hl) as (σ' & p' & E' & Hr'). apply IH. congruence.
Qed.

(** The poller refines the table: legal calls succeed, [channels_] is the table
    and the system watches exactly the interests in it. *)
Lemma runs_refine σ p t :
  runs initial_store new_poller (mkTable ∅ ∅) σ p t →
  (∀ fd c, channels_ p !! fd = Some c ↔ ∃ e, tab t !! fd = Some (c, e)) ∧
  (∀ fd, 0 ≤ fd → interest p fd = tab t !! fd ≫= λ ce, watch ce.2) ∧
  ∀ x, legal_call x t σ p → ∃ σ' p', do_call x σ p = Ok (σ', p').
Proof.
  intros Hr%runs_rel.
  split; [apply Hr|]. split.
  - intros fd Hfd. destruct (tab t !! fd) as [[c e]|] eqn:Et.
    + destruct (rel_events _ _ _ Hr _ _ _ Et) as (_ & _ & ch & Hσ & He).
      assert (channels_ p !! fd = Some c) as Hc by (apply (rel_tab _ _ _ Hr); eauto).
      destruct (pinv_channel σ p fd c) as (ch' & Hσ' & _ & _ & _ & Hint); [apply Hr|done|].
      rewrite Hint. cbn. congruence.
    + apply (pinv_unwatched σ); [apply Hr| |done]. destruct (channels_ p !! fd) as [c|] eqn:Ec; [|done].
      apply (rel_tab _ _ _ Hr) in Ec as (e & Ee). congruence.
  - intros x Hl. destruct (rel_call x σ p t Hr Hl) as (σ' & p' & E & _). eauto.
Qed.
End table.

End Poller.
