(* ===== verification/PollPoller.v ===== *)
(** * PollPoller ([net/poller/PollPoller.cc])

    The poll(2) multiplexer: a vector of descriptors, with [Channel::index_] the
    position of the channel's entry. Removal swaps the last entry into the hole. *)

From stdpp Require Import gmap.
From S2P Require Import Prelude Endian Format Channel Poller.
Import Channel Poller.

Module PollPoller.

Record pollfd := mkPollfd { pfd_fd : Z; pfd_events : Z; pfd_revents : Z }.

Record PollPoller := mkPollPoller { pp_channels : gmap Z Z; pollfds_ : list pollfd }.

Definition updateChannel (c : Z) (σ : store) (p : PollPoller) : result (store * PollPoller) :=
  channel ← deref c σ;
  if index_ channel <? 0 then
    _ ← check (bool_decide (pp_channels p !! fd_ channel = None));
    let pfd := mkPollfd (fd_ channel) (events_ channel) 0 in
    let pollfds := pollfds_ p ++ [pfd] in
    let idx := zlen pollfds - 1 in
    Ok (<[c := set_index idx channel]> σ, mkPollPoller (<[pfd_fd pfd := c]> (pp_channels p)) pollfds)
  else
    _ ← check (bool_decide (pp_channels p !! fd_ channel ≠ None));
    _ ← check (at_key (fd_ channel) (pp_channels p) =? c);
    let idx := index_ channel in
    _ ← check ((0 <=? idx) && (idx <? zlen (pollfds_ p)));
    match pollfds_ p !! Z.to_nat idx with
    | None => Fail OutOfRange
    | Some pfd =>
        _ ← check ((pfd_fd pfd =? fd_ channel) || (pfd_fd pfd =? - fd_ channel - 1));
        let pfd := mkPollfd (fd_ channel) (events_ channel) 0 in
        let pfd := if isNoneEvent channel
                   then mkPollfd (- fd_ channel - 1) (pfd_events pfd) (pfd_revents pfd) else pfd in
        Ok (σ, mkPollPoller (pp_channels p) (<[Z.to_nat idx := pfd]> (pollfds_ p)))
    end.

Definition removeChannel (c : Z) (σ : store) (p : PollPoller) : result (store * PollPoller) :=
  channel ← deref c σ;
  _ ← check (bool_decide (pp_channels p !! fd_ channel ≠ None));
  _ ← check (at_key (fd_ channel) (pp_channels p) =? c);
  _ ← check (isNoneEvent channel);
  let idx := index_ channel in
  let n := length (pollfds_ p) in
  _ ← check ((0 <=? idx) && (idx <? zlen (pollfds_ p)));
  match pollfds_ p !! Z.to_nat idx, list.last (pollfds_ p) with
  | Some pfd, Some back =>
      _ ← check ((pfd_fd pfd =? - fd_ channel - 1) && (pfd_events pfd =? events_ channel));
      let channels := delete (fd_ channel) (pp_channels p) in
      if idx =? zlen (pollfds_ p) - 1 then
        Ok (σ, mkPollPoller channels (take (n - 1) (pollfds_ p)))
      else
        let channelAtEnd := pfd_fd back in
        (* iter_swap *)
        let swapped := <[(n - 1)%nat := pfd]> (<[Z.to_nat idx := back]> (pollfds_ p)) in
        let channelAtEnd := if channelAtEnd <? 0 then - channelAtEnd - 1 else channelAtEnd in
        let e := at_key channelAtEnd channels in
        ch ← deref e σ;
        Ok (<[e := set_index idx ch]> σ, mkPollPoller channels (take (n - 1) swapped))
  | _, _ => Fail OutOfRange
  end.

(** The loop of [fillActiveChannels] over the entries. *)
Fixpoint fillActiveChannels (numEvents : Z) (pollfds : list pollfd) (channels : gmap Z Z)
    (σ : store) (activeChannels : list Z) : result (list Z * store) :=
  match pollfds with
  | [] => Ok (activeChannels, σ)
  | pfd :: pollfds =>
      if 0 <? numEvents then
        if 0 <? pfd_revents pfd then
          _ ← check (bool_decide (channels !! pfd_fd pfd ≠ None));
          let channel := at_key (pfd_fd pfd) channels in
          ch ← deref channel σ;
          _ ← check (fd_ ch =? pfd_fd pfd);
          fillActiveChannels (numEvents - 1) pollfds channels
            (<[channel := set_revents (pfd_revents pfd) ch]> σ) (activeChannels ++ [channel])
        else fillActiveChannels numEvents pollfds channels σ activeChannels
      else Ok (activeChannels, σ)
  end.

(** poll(2): the return value, and the [revents] it stores into the entries. *)
Record poll_result := mkPollResult { numEvents : Z; revents : list Z }.

Definition store_revents (p : PollPoller) (o : poll_result) : list pollfd :=
  zip_with (λ pfd r, mkPollfd (pfd_fd pfd) (pfd_events pfd) r) (pollfds_ p) (revents o).

Definition poll (o : poll_result) (σ : store) (p : PollPoller)
    : result (list Z * (store * PollPoller)) :=
  let p := mkPollPoller (pp_channels p) (store_revents p o) in
  if 0 <? numEvents o then
    r ← fillActiveChannels (numEvents o) (pollfds_ p) (pp_channels p) σ [];
    Ok (r.1, (r.2, p))
  else Ok ([], (σ, p)).

Fixpoint find_interest (fd : Z) (l : list pollfd) : option Z :=
  match l with
  | [] => None
  | pfd :: l => if pfd_fd pfd =? fd then Some (pfd_events pfd) else find_interest fd l
  end.

#[global] Instance PollPoller_poller : Poller PollPoller := {|
  new_poller := mkPollPoller ∅ [];
  Poller.channels_ := pp_channels;
  Poller.updateChannel := updateChannel;
  Poller.removeChannel := removeChannel;
  Poller.outcome := poll_result;
  Poller.poll := poll;
  Poller.interest p fd := find_interest fd (pollfds_ p)
|}.

(** ** The invariant *)

(** The entry of a channel: its descriptor while it has some interest, the
    complement (which poll(2) ignores) while it has none. *)
Definition entry_fd (ch : Channel) : Z := if events_ ch =? 0 then - fd_ ch - 1 else fd_ ch.
Definition entry_ok (ch : Channel) (pfd : pollfd) : Prop :=
  pfd_fd pfd = entry_fd ch ∧ pfd_events pfd = events_ ch.

Record inv (σ : store) (p : PollPoller) : Prop := {
  inv_channel : ∀ fd c, pp_channels p !! fd = Some c →
    ∃ ch i pfd, σ !! c = Some ch ∧ fd_ ch = fd ∧ 0 ≤ fd ∧ index_ ch = Z.of_nat i ∧
      pollfds_ p !! i = Some pfd ∧ entry_ok ch pfd;
  inv_entry : ∀ i pfd, pollfds_ p !! i = Some pfd →
    ∃ c ch, pp_channels p !! fd_ ch = Some c ∧ σ !! c = Some ch ∧ index_ ch = Z.of_nat i
}.

Lemma entry_fd_inj ch ch' :
  0 ≤ fd_ ch → 0 ≤ fd_ ch' → entry_fd ch = entry_fd ch' → fd_ ch = fd_ ch'.
Proof. unfold entry_fd. intros. repeat case_match; lia. Qed.

(** The entry at a position belongs to the channel with that index. *)
Lemma inv_entry_channel σ p i pfd :
  inv σ p → pollfds_ p !! i = Some pfd →
  ∃ c ch, pp_channels p !! fd_ ch = Some c ∧ σ !! c = Some ch ∧ index_ ch = Z.of_nat i ∧
    0 ≤ fd_ ch ∧ entry_ok ch pfd.
Proof.
  intros [Hc He] Hi. destruct (He i pfd Hi) as (c & ch & Hch & Hσ & Hidx).
  destruct (Hc _ _ Hch) as (ch' & i' & pfd' & Hσ' & _ & Hfd & Hidx' & Hp' & Hok).
  simplify_eq. assert (i' = i) as -> by lia. simplify_eq. eauto 10.
Qed.

Lemma inv_entry_unique σ p c c' ch ch' i :
  inv σ p → pp_channels p !! fd_ ch = Some c → pp_channels p !! fd_ ch' = Some c' →
  σ !! c = Some ch → σ !! c' = Some ch' →
  index_ ch = Z.of_nat i → index_ ch' = Z.of_nat i → c = c'.
Proof.
  intros Hi Hc Hc' Hσ Hσ' Hidx Hidx'.
  destruct (inv_channel _ _ Hi _ _ Hc) as (x & j & pfd & Hx & _ & Hpos & Hj & Hp & Ef & _).
  destruct (inv_channel _ _ Hi _ _ Hc') as (x' & j' & pfd' & Hx' & _ & Hpos' & Hj' & Hp' & Ef' & _).
  simplify_eq. assert (j = i) as -> by lia. assert (j' = i) as -> by lia. simplify_eq.
  assert (fd_ ch = fd_ ch') as E by (apply entry_fd_inj; congruence). rewrite E in Hc. congruence.
Qed.

Lemma find_interest_spec fd l :
  match find_interest fd l with
  | Some e => ∃ i pfd, l !! i = Some pfd ∧ pfd_fd pfd = fd ∧ pfd_events pfd = e
  | None => ∀ i pfd, l !! i = Some pfd → pfd_fd pfd ≠ fd
  end.
Proof.
  induction l as [|pfd l IH]; [done|]. cbn. destruct (Z.eqb_spec (pfd_fd pfd) fd).
  - by exists 0%nat, pfd.
  - destruct (find_interest fd l) as [e|].
    + destruct IH as (i & pfd' & ?). by exists (S i), pfd'.
    + intros [|i] pfd' Hi; cbn in Hi; [by simplify_eq|by eapply IH].
Qed.

Lemma interest_registered σ p fd c ch :
  inv σ p → pp_channels p !! fd = Some c → σ !! c = Some ch →
  find_interest fd (pollfds_ p) = watch (events_ ch).
Proof.
  intros Hi Hc Hσ. destruct (inv_channel _ _ Hi _ _ Hc) as (ch' & i & pfd & Hσ' & Hfd & Hpos & Hidx & Hp & Hok).
  simplify_eq. destruct Hok as [Ef Ee]. unfold entry_fd in Ef.
  pose proof (find_interest_spec (fd_ ch) (pollfds_ p)) as Hf. unfold watch.
  destruct (find_interest _ _) as [e|].
  - destruct Hf as (j & pfd' & Hj & Hfd' & <-).
    destruct (inv_entry_channel _ _ _ _ Hi Hj) as (c2 & ch2 & Hc2 & Hσ2 & Hidx2 & Hpos2 & Ef2 & Ee2).
    unfold entry_fd in Ef2. destruct (Z.eqb_spec (events_ ch2) 0) as [E0|E0]; [lia|].
    assert (fd_ ch2 = fd_ ch) as Efd by congruence. rewrite Efd in *. simplify_eq.
    rewrite (proj2 (Z.eqb_neq _ _)) by congruence. congruence.
  - destruct (Z.eqb_spec (events_ ch) 0); [done|]. by destruct (Hf _ _ Hp).
Qed.

Lemma interest_unregistered σ p fd :
  inv σ p → pp_channels p !! fd = None → 0 ≤ fd → find_interest fd (pollfds_ p) = None.
Proof.
  intros Hi Hc Hpos. pose proof (find_interest_spec fd (pollfds_ p)) as Hf.
  destruct (find_interest _ _) as [e|]; [|done]. destruct Hf as (j & pfd' & Hj & Hfd' & _).
  destruct (inv_entry_channel _ _ _ _ Hi Hj) as (c2 & ch2 & Hc2 & _ & _ & Hpos2 & Ef2 & _).
  unfold entry_fd in Ef2. destruct (events_ ch2 =? 0); [lia|]. congruence.
Qed.

Lemma inv_frame σ σ' p :
  inv σ p →
  (∀ fd c ch, pp_channels p !! fd = Some c → σ !! c = Some ch →
     ∃ ch', σ' !! c = Some ch' ∧ fd_ ch' = fd_ ch ∧ events_ ch' = events_ ch ∧ index_ ch' = index_ ch) →
  inv σ' p.
Proof.
  intros Hi Hf. constructor.
  - intros fd c Hc. destruct (inv_channel _ _ Hi _ _ Hc) as (ch & i & pfd & Hσ & Hfd & Hpos & Hidx & Hp & Hok).
    destruct (Hf _ _ _ Hc Hσ) as (ch' & Hσ' & E1 & E2 & E3). exists ch', i, pfd.
    unfold entry_ok, entry_fd in *. rewrite E1, E2, E3. done.
  - intros i pfd Hp. destruct (inv_entry _ _ Hi _ _ Hp) as (c & ch & Hc & Hσ & Hidx).
    destruct (Hf _ _ _ Hc Hσ) as (ch' & Hσ' & E1 & E2 & E3). exists c, ch'. by rewrite E1, E3.
Qed.

(** *** Adding a channel *)

Lemma inv_add σ p c ch :
  inv σ p → index_ ch = -1 → (∀ ch0, σ !! c = Some ch0 → index_ ch0 = -1) →
  pp_channels p !! fd_ ch = None → 0 ≤ fd_ ch → events_ ch ≠ 0 →
  inv (<[c := set_index (zlen (pollfds_ p)) ch]> σ)
      (mkPollPoller (<[fd_ ch := c]> (pp_channels p))
         (pollfds_ p ++ [mkPollfd (fd_ ch) (events_ ch) 0])).
Proof.
  intros Hi Hidx Hold Hnone Hpos He. constructor; cbn.
  - intros fd d [[<- <-]|[Hne Hd]]%lookup_insert_Some.
    + exists (set_index (zlen (pollfds_ p)) ch), (length (pollfds_ p)), (mkPollfd (fd_ ch) (events_ ch) 0).
      rewrite lookup_insert_eq, lookup_app_r, Nat.sub_diag by lia. split_and!; try done.
      unfold entry_ok, entry_fd. cbn. by rewrite (proj2 (Z.eqb_neq _ _)).
    + destruct (inv_channel _ _ Hi _ _ Hd) as (ch' & i & pfd & Hσ & Hfd & Hp0 & Hi' & Hp & Hok).
      exists ch', i, pfd. rewrite lookup_insert_ne by (intros <-; specialize (Hold _ Hσ); lia).
      rewrite lookup_app_l by by eapply lookup_lt_Some. done.
  - intros i pfd [Hp|[Hlen Hp]]%lookup_app_Some.
    + destruct (inv_entry _ _ Hi _ _ Hp) as (d & ch' & Hd & Hσ & Hi'). exists d, ch'.
      rewrite !lookup_insert_ne; [done|intros <-; specialize (Hold _ Hσ); lia|congruence].
    + apply list_lookup_singleton_Some in Hp as [Hlast <-].
      exists c, (set_index (zlen (pollfds_ p)) ch). cbn. rewrite !lookup_insert_eq.
      split_and!; try done. unfold zlen. lia.
Qed.

(** *** Changing the interest of a channel *)

Lemma inv_modify σ p c ch ch' i :
  inv σ p → σ !! c = Some ch → pp_channels p !! fd_ ch = Some c → index_ ch = Z.of_nat i →
  fd_ ch' = fd_ ch → index_ ch' = index_ ch →
  inv (<[c := ch']> σ)
      (mkPollPoller (pp_channels p) (<[i := mkPollfd (entry_fd ch') (events_ ch') 0]> (pollfds_ p))).
Proof.
  intros Hi Hσ Hc Hidx Efd Eidx. 
  destruct (inv_channel _ _ Hi _ _ Hc) as (ch0 & i0 & pfd & Hσ0 & _ & Hpos & Hidx0 & Hp & _).
  simplify_eq. assert (i0 = i) as -> by lia. pose proof (lookup_lt_Some _ _ _ Hp) as Hlen.
  constructor; cbn.
  - intros fd d Hd. destruct (decide (d = c)) as [->|Hne].
    + destruct (inv_channel _ _ Hi _ _ Hd) as (ch1 & i1 & pfd1 & Hσ1 & <- & _). simplify_eq.
      exists ch', i, (mkPollfd (entry_fd ch') (events_ ch') 0).
      rewrite lookup_insert_eq, list_lookup_insert_eq by done. split_and!; try done. congruence.
    + destruct (inv_channel _ _ Hi _ _ Hd) as (ch1 & i1 & pfd1 & Hσ1 & Hf1 & Hp1 & Hi1 & Hl1 & Hok).
      exists ch1, i1, pfd1. rewrite lookup_insert_ne by done. rewrite list_lookup_insert_ne; [done|].
      intros <-. destruct (inv_entry_channel _ _ _ _ Hi Hp) as (d' & ch2 & Hc2 & Hσ2 & Hi2 & _ & Hok2).
      simplify_eq. destruct (inv_entry_unique σ p d c ch1 ch i); try done; by rewrite ?Hf1.
  - intros j pfd' Hj. assert (is_Some (pollfds_ p !! j)) as [pfd1 Hj1].
    { apply lookup_lt_is_Some. apply lookup_lt_Some in Hj. by rewrite length_insert in Hj. }
    destruct (inv_entry _ _ Hi _ _ Hj1) as (d & ch1 & Hd & Hσ1 & Hi1).
    destruct (decide (d = c)) as [->|Hne].
    + simplify_eq. exists c, ch'. rewrite lookup_insert_eq. split_and!; congruence.
    + exists d, ch1. by rewrite lookup_insert_ne.
Qed.

(** *** Removing a channel *)

Definition decode_fd (fd : Z) : Z := if fd <? 0 then - fd - 1 else fd.

Lemma decode_entry ch : 0 ≤ fd_ ch → decode_fd (entry_fd ch) = fd_ ch.
Proof. unfold decode_fd, entry_fd. intros. repeat case_match; to_prop; lia. Qed.

(** The last entry goes. *)
Lemma inv_remove_last σ p c ch i :
  inv σ p → σ !! c = Some ch → pp_channels p !! fd_ ch = Some c →
  index_ ch = Z.of_nat i → S i = length (pollfds_ p) →
  inv σ (mkPollPoller (delete (fd_ ch) (pp_channels p)) (take i (pollfds_ p))).
Proof.
  intros Hi Hσ Hc Hidx Hlen. constructor; cbn.
  - intros fd d [Hne Hd]%lookup_delete_Some.
    destruct (inv_channel _ _ Hi _ _ Hd) as (ch1 & i1 & pfd1 & Hσ1 & Hf1 & Hp1 & Hi1 & Hl1 & Hok).
    exists ch1, i1, pfd1. split_and!; try done. apply lookup_take_Some. split; [done|].
    destruct (decide (i1 = i)) as [->|]; [|apply lookup_lt_Some in Hl1; lia].
    assert (d = c) as -> by (eapply (inv_entry_unique σ p d c ch1 ch i); eauto; congruence). congruence.
  - intros j pfd [Hj Hlt]%lookup_take_Some. destruct (inv_entry _ _ Hi _ _ Hj) as (d & ch1 & Hd & Hσ1 & Hi1).
    exists d, ch1. rewrite lookup_delete_ne; [done|]. intros E. rewrite <- E in Hd. simplify_eq. lia.
Qed.

(** The last entry moves into the hole. *)
Lemma inv_remove_swap σ p c ch i c2 ch2 back :
  inv σ p → σ !! c = Some ch → pp_channels p !! fd_ ch = Some c → index_ ch = Z.of_nat i →
  (S i < length (pollfds_ p))%nat → pollfds_ p !! (length (pollfds_ p) - 1)%nat = Some back →
  σ !! c2 = Some ch2 → pp_channels p !! fd_ ch2 = Some c2 →
  index_ ch2 = Z.of_nat (length (pollfds_ p) - 1) → entry_ok ch2 back →
  inv (<[c2 := set_index (Z.of_nat i) ch2]> σ)
      (mkPollPoller (delete (fd_ ch) (pp_channels p))
         (take (length (pollfds_ p) - 1) (<[i := back]> (pollfds_ p)))).
Proof.
  intros Hi Hσ Hc Hidx Hlen Hb Hσ2 Hc2 Hidx2 Hok2. set (n := length (pollfds_ p)) in *.
  assert (c2 ≠ c) as Hne2 by (intros ->; simplify_eq; lia).
  assert (fd_ ch ≠ fd_ ch2) as Hfd by (intros E; rewrite E in Hc; congruence).
  constructor; cbn.
  - intros fd d [Hne Hd]%lookup_delete_Some.
    destruct (inv_channel _ _ Hi _ _ Hd) as (ch1 & i1 & pfd1 & Hσ1 & Hf1 & Hp1 & Hi1 & Hl1 & Hok).
    destruct (decide (d = c2)) as [->|Hd2].
    + simplify_eq. exists (set_index (Z.of_nat i) ch2), i, back. rewrite lookup_insert_eq.
      split_and!; try done. apply lookup_take_Some. split; [|lia]. apply list_lookup_insert_eq. lia.
    + exists ch1, i1, pfd1. rewrite lookup_insert_ne by done. split_and!; try done.
      assert (i1 ≠ i) by (intros ->; apply Hne; assert (d = c) as ->
        by (eapply (inv_entry_unique σ p d c ch1 ch i); eauto; congruence); congruence).
      assert (i1 ≠ (n - 1)%nat) by (intros ->; apply Hd2;
        eapply (inv_entry_unique σ p d c2 ch1 ch2 (n - 1)); eauto; congruence).
      apply lookup_take_Some. rewrite list_lookup_insert_ne by done. split; [done|].
      apply lookup_lt_Some in Hl1. fold n in Hl1. lia.
  - intros j pfd [Hj Hlt]%lookup_take_Some. destruct (decide (j = i)) as [->|Hji].
    + exists c2, (set_index (Z.of_nat i) ch2). cbn. by rewrite lookup_insert_eq, lookup_delete_ne.
    + rewrite list_lookup_insert_ne in Hj by done.
      destruct (inv_entry _ _ Hi _ _ Hj) as (d & ch1 & Hd & Hσ1 & Hi1). exists d, ch1.
      rewrite lookup_insert_ne, lookup_delete_ne; [done|..].
      * intros E. rewrite <- E in Hd. simplify_eq. lia.
      * intros <-. simplify_eq. lia.
Qed.

Lemma same_but_index_insert (σ : store) c ch i :
  σ !! c = Some ch → same_but_index σ (<[c := set_index i ch]> σ).
Proof.
  intros Hσ d. destruct (decide (d = c)) as [->|]; [by rewrite lookup_insert_eq, Hσ|].
  by rewrite lookup_insert_ne.
Qed.

Lemma removeChannel_ok σ p c ch :
  inv σ p → σ !! c = Some ch → pp_channels p !! fd_ ch = Some c → events_ ch = 0 →
  ∃ σ' p', removeChannel c σ p = Ok (σ', p') ∧ inv σ' p' ∧
    pp_channels p' = delete (fd_ ch) (pp_channels p) ∧ same_but_index σ σ' ∧ σ' !! c = Some ch ∧
    (∀ d dh, σ !! d = Some dh → index_ dh = -1 → σ' !! d = Some dh).
Proof.
  intros Hi Hσ Hc He. unfold removeChannel. rewrite (deref_Ok _ _ _ Hσ), bind_Ok, Hc.
  unfold at_key. rewrite Hc. cbn [default]. rewrite Z.eqb_refl. unfold isNoneEvent. rewrite He.
  destruct (inv_channel _ _ Hi _ _ Hc) as (ch0 & i & pfd & Hσ0 & _ & Hpos & Hidx & Hp & Ef & Ee).
  simplify_eq. pose proof (lookup_lt_Some _ _ _ Hp) as Hlen. rewrite Hidx, Nat2Z.id, Hp.
  rewrite last_lookup. set (n := length (pollfds_ p)) in *.
  destruct (lookup_lt_is_Some_2 (pollfds_ p) (pred n)) as [back Hb]; [unfold n in *; lia|]. rewrite Hb.
  unfold entry_fd in Ef. rewrite He in Ef. cbn in Ef. rewrite Ef, Ee, He, Z.eqb_refl.
  rewrite (check_true (_ && (_ <? zlen _))) by (unfold zlen; fold n; lia).
  cbn [check bool_decide decide_rel]. rewrite bool_decide_true by done. cbn [check mbind result_bind kNoneEvent Z.eqb andb].
  destruct (Z.eqb_spec (Z.of_nat i) (zlen (pollfds_ p) - 1)) as [Elast|Elast]; unfold zlen in Elast; fold n in Elast.
  - replace (n - 1)%nat with i by lia. eexists _, _. split; [done|]. split; [|by repeat split].
    eapply inv_remove_last; eauto. lia.
  - assert (i ≠ (n - 1)%nat) as Hin by lia. destruct (inv_entry_channel _ _ _ _ Hi Hb) as (c2 & ch2 & Hc2 & Hσ2 & Hidx2 & Hpos2 & Hok2).
    pose proof Hok2 as [Ef2 _]. rewrite Ef2. fold (decode_fd (entry_fd ch2)).
    rewrite decode_entry, lookup_delete_ne by (done || (intros E; rewrite E in Hc; simplify_eq; lia)).
    rewrite Hc2. cbn [default]. unfold id. rewrite (deref_Ok _ _ _ Hσ2). cbn [mbind result_bind].
    eexists _, _. split; [done|]. replace (pred n) with (n - 1)%nat in * by lia.
    split; [|split; [done|split; [by apply same_but_index_insert|split]]].
    2: { rewrite lookup_insert_ne; [done|]. intros ->. simplify_eq. lia. }
    2: { intros d dh Hd Hdi. rewrite lookup_insert_ne; [done|]. intros ->. simplify_eq. lia. }
    rewrite take_insert_ge by lia. eapply inv_remove_swap; eauto. fold n. lia.
Qed.

(** *** poll *)

(** The channels of the entries with events, in the order of the entries. *)
Definition active_of (channels : gmap Z Z) (l : list pollfd) : active :=
  omap (λ pfd, if 0 <? pfd_revents pfd
               then Some (at_key (pfd_fd pfd) channels, pfd_revents pfd) else None) l.
Definition countEvents (l : list pollfd) : Z := zlen (filter (λ pfd, 0 < pfd_revents pfd) l).

(** What poll(2) documents: it keeps the entries, reports nothing for negative
    descriptors, and returns the number of entries with events. *)
Definition poll_result_ok (o : poll_result) (σ : store) (p : PollPoller) (act : active) : Prop :=
  length (revents o) = length (pollfds_ p) ∧
  (∀ i pfd r, pollfds_ p !! i = Some pfd → revents o !! i = Some r → pfd_fd pfd < 0 → r = 0) ∧
  numEvents o = countEvents (store_revents p o) ∧
  act = active_of (pp_channels p) (store_revents p o).

Lemma store_active_cons σ c ch r act :
  σ !! c = Some ch → store_active σ ((c, r) :: act) = store_active (<[c := set_revents r ch]> σ) act.
Proof.
  intros Hσ. unfold store_active. cbn. f_equal.
  rewrite <- (insert_id σ c ch Hσ) at 1. by rewrite alter_insert_eq.
Qed.

Lemma active_cons channels pfd l :
  active_of channels (pfd :: l) =
    (if 0 <? pfd_revents pfd then [(at_key (pfd_fd pfd) channels, pfd_revents pfd)] else []) ++
    active_of channels l.
Proof. unfold active_of. cbn [omap list_omap]. by destruct (0 <? pfd_revents pfd). Qed.

Lemma active_nil channels l : countEvents l = 0 → active_of channels l = [].
Proof.
  unfold countEvents. induction l as [|pfd l IH]; [done|]. rewrite filter_cons, active_cons.
  case_decide as Hd; [rewrite zlen_cons; pose proof (zlen_nonneg (filter (λ pfd, 0 < pfd_revents pfd) l)); lia|].
  rewrite (proj2 (Z.ltb_ge _ _)) by lia. apply IH.
Qed.

Lemma fillActiveChannels_ok channels l : ∀ σ acc,
  (∀ pfd, pfd ∈ l → 0 < pfd_revents pfd →
     ∃ c ch, channels !! pfd_fd pfd = Some c ∧ σ !! c = Some ch ∧ fd_ ch = pfd_fd pfd) →
  fillActiveChannels (countEvents l) l channels σ acc
    = Ok (acc ++ (active_of channels l).*1, store_active σ (active_of channels l)).
Proof.
  induction l as [|pfd l IH]; intros σ acc Hl; [cbn; by rewrite app_nil_r|].
  unfold countEvents in *. rewrite filter_cons, active_cons. cbn [fillActiveChannels].
  destruct (Z.ltb_spec 0 (pfd_revents pfd)) as [Hpos|Hneg].
  - rewrite decide_True by done. rewrite zlen_cons.
    pose proof (zlen_nonneg (filter (λ pfd, 0 < pfd_revents pfd) l)).
    rewrite (proj2 (Z.ltb_lt _ _)) by lia.
    destruct (Hl pfd ltac:(left) Hpos) as (c & ch & Hc & Hσ & Hfd).
    rewrite Hc, bool_decide_true by done. unfold at_key. rewrite Hc. cbn [default check].
    unfold id. rewrite bind_Ok, (deref_Ok _ _ _ Hσ), bind_Ok, Hfd, Z.eqb_refl. cbn [check].
    rewrite bind_Ok. replace (1 + _ - 1) with (zlen (filter (λ pfd, 0 < pfd_revents pfd) l)) by lia.
    rewrite IH; [|].
    + cbn [app]. rewrite (store_active_cons _ _ ch) by done. cbn. by rewrite <- app_assoc.
    + intros pfd' Hin Hpos'. destruct (Hl pfd' ltac:(by right) Hpos') as (c' & ch' & Hc' & Hσ' & Hfd').
      destruct (decide (c' = c)) as [->|Hne].
      * simplify_eq. exists c, (set_revents (pfd_revents pfd) ch). by rewrite lookup_insert_eq.
      * exists c', ch'. by rewrite lookup_insert_ne.
  - rewrite decide_False by lia. rewrite IH by (intros; apply Hl; [by right|done]).
    cbn [app]. destruct (0 <? _) eqn:E0; [done|]. apply Z.ltb_ge in E0.
    pose proof (zlen_nonneg (filter (λ pfd, 0 < pfd_revents pfd) l)) as Hnn.
    rewrite active_nil by (unfold countEvents; lia). by rewrite app_nil_r.
Qed.

Lemma store_revents_lookup p o i pfd r :
  pollfds_ p !! i = Some pfd → revents o !! i = Some r →
  store_revents p o !! i = Some (mkPollfd (pfd_fd pfd) (pfd_events pfd) r).
Proof. intros Hp Hr. unfold store_revents. by rewrite lookup_zip_with, Hp, Hr. Qed.

Lemma store_revents_inv p o i pfd :
  store_revents p o !! i = Some pfd →
  ∃ pfd0, pollfds_ p !! i = Some pfd0 ∧ revents o !! i = Some (pfd_revents pfd) ∧
    pfd_fd pfd = pfd_fd pfd0 ∧ pfd_events pfd = pfd_events pfd0.
Proof.
  unfold store_revents. intros H. apply lookup_zip_with_Some in H as (pfd0 & r & -> & Hp & Hr).
  by exists pfd0.
Qed.

Lemma inv_store_revents σ p o :
  inv σ p → length (revents o) = length (pollfds_ p) →
  inv σ (mkPollPoller (pp_channels p) (store_revents p o)).
Proof.
  intros Hi Hlen. constructor; cbn.
  - intros fd c Hc. destruct (inv_channel _ _ Hi _ _ Hc) as (ch & i & pfd & Hσ & Hfd & Hpos & Hidx & Hp & Hok).
    destruct (lookup_lt_is_Some_2 (revents o) i) as [r Hr]; [rewrite Hlen; by eapply lookup_lt_Some|].
    exists ch, i, (mkPollfd (pfd_fd pfd) (pfd_events pfd) r). split_and!; try done.
    by apply store_revents_lookup.
  - intros i pfd Hp. apply store_revents_inv in Hp as (pfd0 & Hp & _). by apply (inv_entry _ _ Hi _ _ Hp).
Qed.

(** An entry with events names a registered channel. *)
Lemma active_entry σ p o act i pfd :
  inv σ p → poll_result_ok o σ p act → store_revents p o !! i = Some pfd → 0 < pfd_revents pfd →
  ∃ c ch, pp_channels p !! pfd_fd pfd = Some c ∧ σ !! c = Some ch ∧ fd_ ch = pfd_fd pfd ∧
    index_ ch = Z.of_nat i.
Proof.
  intros Hi (Hlen & Hneg & _) Hp Hpos. apply store_revents_inv in Hp as (pfd0 & Hp & Hr & Efd & _).
  destruct (inv_entry_channel _ _ _ _ Hi Hp) as (c & ch & Hc & Hσ & Hidx & Hfd & Ef & _).
  rewrite Efd. assert (¬ pfd_fd pfd0 < 0) as Hnn by (intros Hn; specialize (Hneg _ _ _ Hp Hr Hn); lia).
  unfold entry_fd in Ef. destruct (events_ ch =? 0); [lia|]. rewrite Ef. by exists c, ch.
Qed.

Lemma active_NoDup σ p o act :
  inv σ p → poll_result_ok o σ p act → NoDup act.*1.
Proof.
  intros Hi Ho. pose proof (active_entry σ p o act) as Hent.
  assert (∀ i pfd, store_revents p o !! i = Some pfd → 0 < pfd_revents pfd →
    ∃ c ch, pp_channels p !! pfd_fd pfd = Some c ∧ σ !! c = Some ch ∧ fd_ ch = pfd_fd pfd ∧
      index_ ch = Z.of_nat (0 + i)) as H by naive_solver.
  destruct Ho as (_ & _ & _ & ->). clear Hent. generalize dependent 0%nat.
  induction (store_revents p o) as [|pfd l IH]; intros k H; [constructor|]. rewrite active_cons.
  assert (NoDup (active_of (pp_channels p) l).*1) as Hn.
  { apply (IH (S k)). intros i pfd' Hi' Hpos. destruct (H (S i) pfd' Hi' Hpos) as (c & ch & ? & ? & ? & ?).
    exists c, ch. split_and!; try done. lia. }
  destruct (Z.ltb_spec 0 (pfd_revents pfd)) as [Hpos|]; [|done]. cbn. constructor; [|done].
  destruct (H 0%nat pfd eq_refl Hpos) as (c & ch & Hc & Hσ & Hf & Hidx).
  unfold at_key at 1. rewrite Hc. cbn. unfold id. intros (a & Ea & Ha)%list_elem_of_fmap.
  unfold active_of in Ha. apply list_elem_of_omap in Ha as (pfd' & Hin & Ha). case_match; [|done].
  simplify_eq/=. to_prop. apply list_elem_of_lookup in Hin as [j Hj].
  destruct (H (S j) pfd' Hj) as (c' & ch' & Hc' & Hσ' & _ & Hidx'); [done|].
  unfold at_key in Hσ. rewrite Hc' in Hσ. cbn in Hσ. unfold id in Hσ. simplify_eq. lia.
Qed.

Lemma poll_ok σ p o act :
  inv σ p → poll_result_ok o σ p act →
  ∃ p', poll o σ p = Ok (act.*1, (store_active σ act, p')) ∧ inv (store_active σ act) p' ∧
    pp_channels p' = pp_channels p ∧ NoDup act.*1.
Proof.
  intros Hi Ho. pose proof (active_NoDup σ p o act Hi Ho) as Hn. pose proof Ho as (Hlen & _ & Hnum & Hact).
  exists (mkPollPoller (pp_channels p) (store_revents p o)). split.
  - unfold poll. rewrite Hnum. cbn [pollfds_ pp_channels]. destruct (0 <? _) eqn:E0.
    + rewrite fillActiveChannels_ok, bind_Ok, Hact; [done|]. intros pfd [i Hp]%list_elem_of_lookup Hpos.
      destruct (active_entry σ p o act i pfd Hi Ho Hp Hpos) as (c & ch & ? & ? & ? & _). by exists c, ch.
    + rewrite Hact, active_nil; [done|]. apply Z.ltb_ge in E0.
      pose proof (zlen_nonneg (filter (λ pfd, 0 < pfd_revents pfd) (store_revents p o))).
      unfold countEvents in *. lia.
  - split; [|done]. eapply inv_frame; [by apply inv_store_revents|].
    intros fd c ch _ Hσ. by apply store_active_frame.
Qed.

(** *** The interface *)

Lemma interest_same σ σ' p p' :
  inv σ p → inv σ' p' → pp_channels p' = pp_channels p →
  (∀ c ch, σ !! c = Some ch → ∃ ch', σ' !! c = Some ch' ∧ events_ ch' = events_ ch) →
  ∀ fd, 0 ≤ fd → find_interest fd (pollfds_ p') = find_interest fd (pollfds_ p).
Proof.
  intros Hi Hi' Ec Hev fd Hfd. destruct (pp_channels p !! fd) as [c|] eqn:E.
  - destruct (inv_channel _ _ Hi _ _ E) as (ch & _ & _ & Hσ & _). destruct (Hev c ch Hσ) as (ch' & Hσ' & Ee).
    rewrite (interest_registered σ p fd c ch), (interest_registered σ' p' fd c ch') by (done || by rewrite Ec).
    by rewrite Ee.
  - rewrite (interest_unregistered σ p), (interest_unregistered σ' p'); [done|done| |done..]. by rewrite Ec.
Qed.

Lemma set_events_ok σ p c ch e :
  inv σ p → σ !! c = Some ch → events_ok e →
  (fresh ch p ∧ e ≠ 0 ∨ registered c ch p ∧ (e ≠ 0 ∨ events_ ch ≠ 0)) →
  ∃ i σ' p', set_events c e σ p = Ok (σ', p') ∧ inv σ' p' ∧ i ≠ -1 ∧
    σ' = <[c := set_index i (with_added true (with_events e ch))]> σ ∧
    pp_channels p' = <[fd_ ch := c]> (pp_channels p).
Proof.
  intros Hi Hσ _ Hcase. unfold set_events. rewrite (deref_Ok _ _ _ Hσ), bind_Ok. cbn [Poller.updateChannel PollPoller_poller].
  set (ch1 := with_added true (with_events e ch)). unfold updateChannel.
  rewrite (deref_Ok c _ ch1) by apply lookup_insert_eq. rewrite bind_Ok.
  destruct Hcase as [[(Hidx & Hpos & Hnone) He]|[Hreg He]].
  - cbn in Hnone. change (index_ ch1) with (index_ ch). change (fd_ ch1) with (fd_ ch).
    rewrite Hidx, Hnone, bool_decide_true by done. cbn [Z.ltb Z.compare check mbind result_bind].
    rewrite insert_insert_eq. rewrite zlen_app. change (zlen [_]) with 1.
    replace (zlen (pollfds_ p) + 1 - 1) with (zlen (pollfds_ p)) by lia. pose proof (zlen_nonneg (pollfds_ p)).
    eexists _, _, _. split; [done|]. split; [|split; [|done]; lia].
    apply (inv_add σ p c ch1); try done. intros ch0 E. by simplify_eq.
  - unfold registered in Hreg. cbn in Hreg.
    destruct (inv_channel _ _ Hi _ _ Hreg) as (ch0 & i & pfd & Hσ0 & _ & Hpos & Hidx & Hp & Hok).
    simplify_eq. change (index_ ch1) with (index_ ch). change (fd_ ch1) with (fd_ ch).
    pose proof (lookup_lt_Some _ _ _ Hp) as Hlen. unfold at_key. rewrite Hidx, Hreg.
    rewrite (proj2 (Z.ltb_ge _ _)), bool_decide_true by (done || lia). cbn [default]. unfold id.
    rewrite Z.eqb_refl, (check_true (_ && _)) by (unfold zlen; lia). cbn [check mbind result_bind].
    rewrite Nat2Z.id, Hp. destruct Hok as [Ef _]. unfold entry_fd in Ef.
    rewrite check_true by (destruct (events_ ch =? 0); rewrite Ef; lia). rewrite bind_Ok.
    eexists (Z.of_nat i), _, _. split; [done|].
    split; [|split; [lia|]; split; [by rewrite <- Hidx|cbn; by rewrite insert_id]].
    pose proof (inv_modify σ p c ch ch1 i Hi Hσ Hreg Hidx eq_refl eq_refl) as Hm.
    unfold entry_fd in Hm. unfold isNoneEvent, kNoneEvent. cbn in Hm |- *. by destruct (e =? 0).
Qed.

Lemma inv_remove_start σ p c ch :
  inv σ p → σ !! c = Some ch → inv (<[c := with_added false ch]> σ) p.
Proof.
  intros Hi Hσ. apply (inv_frame σ); [done|]. intros fd d dh _ Hd. destruct (decide (d = c)) as [->|].
  - rewrite lookup_insert_eq. eexists. split; [done|]. by simplify_eq.
  - rewrite lookup_insert_ne by done. by exists dh.
Qed.

Lemma remove_ok σ p c ch :
  inv σ p → σ !! c = Some ch → pp_channels p !! fd_ ch = Some c → events_ ch = 0 →
  ∃ σ' p', remove c σ p = Ok (σ', p') ∧ inv σ' p' ∧
    pp_channels p' = delete (fd_ ch) (pp_channels p) ∧
    same_but_index (<[c := with_added false ch]> σ) σ' ∧ σ' !! c = Some (with_added false ch) ∧
    (∀ d dh, d ≠ c → σ !! d = Some dh → index_ dh = -1 → σ' !! d = Some dh).
Proof.
  intros Hi Hσ Hc He. unfold remove. rewrite (deref_Ok _ _ _ Hσ), bind_Ok. unfold isNoneEvent.
  rewrite He. cbn [check kNoneEvent Z.eqb mbind result_bind].
  destruct (removeChannel_ok (<[c := with_added false ch]> σ) p c (with_added false ch))
    as (σ' & p' & E & Hi' & Ec & Hs & Hc' & Ho); try done.
  - by apply inv_remove_start.
  - apply lookup_insert_eq.
  - exists σ', p'. split_and!; try done. intros d dh Hne Hd Hdi. apply Ho; [|done].
    by rewrite lookup_insert_ne.
Qed.

#[global] Program Instance PollPoller_laws : PollerLaws PollPoller := {|
  pinv := inv;
  outcome_ok := poll_result_ok
|}.
Next Obligation. intros σ. constructor; cbn; [done|]. intros i pfd Hi. by rewrite lookup_nil in Hi. Qed.
Next Obligation. done. Qed.
Next Obligation.
  intros σ p fd c Hi Hc. pose proof Hc as Hc0.
  destruct (inv_channel _ _ Hi _ _ Hc) as (ch & i & pfd & Hσ & Hfd & Hpos & Hidx & _).
  exists ch. split_and!; try done; [lia|]. by eapply interest_registered.
Qed.
Next Obligation. intros σ p fd Hi Hc Hpos. by eapply interest_unregistered. Qed.
Next Obligation. exact inv_frame. Qed.
Next Obligation. exact set_events_ok. Qed.
Next Obligation.
  intros σ p c ch Hi Hσ Hc He. destruct (remove_ok σ p c ch Hi Hσ Hc He) as (σ' & p' & ? & ? & ? & ? & _ & ?).
  by exists σ', p'.
Qed.
Next Obligation.
  intros σ p o act Hi Ho. destruct (poll_ok σ p o act Hi Ho) as (p' & E & Hi' & Ec & Hn).
  exists (store_active σ act), p'. split_and!; try done.
  - apply (interest_same σ (store_active σ act)); try done. intros c ch Hσ.
    destruct (store_active_frame σ act c ch Hσ) as (ch' & ? & ? & ? & ?). by exists ch'.
  - intros c. by apply store_active_lookup.
Qed.

(** C14: The poll(2) poller is a table of interests: after any legal sequence of
    calls (the swap with the last entry on removal included) [channels_] holds
    exactly the registered channels, the entries poll(2) looks at are exactly
    their non-empty interests, and every further legal call succeeds. *)
Theorem pollpoller_refines fds (σ : store) (p : PollPoller) t :
  runs fds (initial_store fds) (new_poller : PollPoller) (mkTable ∅ ∅) σ p t →
  (∀ fd c, pp_channels p !! fd = Some c ↔ ∃ e, tab t !! fd = Some (c, e)) ∧
  (∀ fd, 0 ≤ fd → find_interest fd (pollfds_ p) = tab t !! fd ≫= λ ce, watch ce.2) ∧
  ∀ x, legal_call fds x t σ p → ∃ σ' p', do_call x σ p = Ok (σ', p').
Proof. exact (runs_refine fds σ p t). Qed.

Lemma pollpoller_refines_witness :
  ∃ σ (p : PollPoller) t,
    runs ({[16 := 5; 32 := 7]} : gmap Z Z) (initial_store {[16 := 5; 32 := 7]}) new_poller (mkTable ∅ ∅) σ p t ∧
    find_interest 7 (pollfds_ p) = Some 4 ∧ find_interest 5 (pollfds_ p) = None ∧
    map_to_list (pp_channels p) = [(7, 32)].
Proof.
  assert (∃ σ (p : PollPoller) t,
    runs ({[16 := 5; 32 := 7]} : gmap Z Z) (initial_store {[16 := 5; 32 := 7]}) new_poller (mkTable ∅ ∅) σ p t ∧
    tab t = {[7 := (32, 4)]} ∧ map_to_list (pp_channels p) = [(7, 32)]) as (σ & p & t & Hr & Ht & Hm).
  { eexists _, _, _. split; [|split].
    - eapply (runs_cons _ (SetEvents 16 3)).
      { exists 5. split; [reflexivity|]. split; [lia|]. split; [right; by left|].
        left. split_and!; [set_solver|reflexivity|lia]. }
      { vm_compute. reflexivity. }
      eapply (runs_cons _ (SetEvents 32 4)).
      { exists 7. split; [reflexivity|]. split; [lia|]. split; [by right; right; left|].
        left. split_and!; [vm_compute; discriminate|reflexivity|lia]. }
      { vm_compute. reflexivity. }
      eapply (runs_cons _ (SetEvents 16 0)).
      { exists 5. split; [reflexivity|]. split; [lia|]. split; [by left|]. right. exists 3. split; [reflexivity|lia]. }
      { vm_compute. reflexivity. }
      eapply (runs_cons _ (Remove 16)).
      { exists 5. split; reflexivity. }
      { vm_compute. reflexivity. }
      apply runs_nil.
    - reflexivity.
    - reflexivity. }
  exists σ, p, t. split; [exact Hr|]. destruct (pollpoller_refines _ σ p t Hr) as (_ & Hint & _).
  rewrite !Hint, Ht by lia. by split.
Defined.

(** [removeChannel] leaves [index_] as it was, so enabling a removed channel
    again, which the epoll poller supports, fails an assertion here. *)
Theorem pollpoller_reenable_fails σ (p : PollPoller) c ch e :
  pinv σ p → σ !! c = Some ch → registered c ch p → events_ ch = 0 →
  ∃ σ' p', remove c σ p = Ok (σ', p') ∧ set_events c e σ' p' = Fail AssertFailed.
Proof.
  intros Hi Hσ Hc He. destruct (remove_ok σ p c ch Hi Hσ Hc He) as (σ' & p' & E & _ & Ec & _ & Hc' & _).
  exists σ', p'. split; [done|]. unfold set_events. rewrite (deref_Ok _ _ _ Hc'), bind_Ok.
  cbn [Poller.updateChannel PollPoller_poller]. unfold updateChannel.
  rewrite (deref_Ok c _ _ (lookup_insert_eq _ _ _)), bind_Ok. cbn [index_ with_added with_events fd_].
  destruct (inv_channel _ _ Hi _ _ Hc) as (ch0 & i & pfd & Hσ0 & _ & _ & Hidx & _). simplify_eq.
  rewrite (proj2 (Z.ltb_ge _ _)) by lia. by rewrite Ec, lookup_delete_eq.
Qed.

Lemma pollpoller_reenable_fails_witness :
  let ch := set_index 0 (make 5) in
  let p := mkPollPoller {[5 := 16]} [mkPollfd (-6) 0 0] in
  ∃ σ' p', remove 16 {[16 := ch]} p = Ok (σ', p') ∧ set_events 16 3 σ' p' = Fail AssertFailed.
Proof.
  intros ch p. apply (pollpoller_reenable_fails _ p 16 ch); try reflexivity. constructor; cbn.
  - intros fd c [<- <-]%lookup_singleton_Some. by exists ch, 0%nat, (mkPollfd (-6) 0 0).
  - intros [|i] pfd Hi; [|done]. exists 16, ch. by split_and!.
Defined.

(** A channel that was never enabled: disabling it registers it with its plain
    descriptor, and removing it then fails an assertion. *)
Lemma remove_never_enabled_fails :
  (r ← set_events 16 0 {[16 := make 5]} (new_poller : PollPoller); remove 16 r.1 r.2)
    = Fail AssertFailed.
Proof. reflexivity. Qed.

End PollPoller.
