(* ===== verification/EPollPoller.v ===== *)
(** * EPollPoller ([net/poller/EPollPoller.cc])

    The epoll(7) multiplexer: [Channel::index_] is a state (new, added, deleted),
    and the kernel keeps a table from descriptors to events and the channel's
    address, which epoll_wait(2) hands back. *)

From stdpp Require Import gmap.
From S2P Require Import Prelude Endian Format Channel Poller.
Import Channel Poller.

Module EPollPoller.

Definition kNew : Z := -1.
Definition kAdded : Z := 1.
Definition kDeleted : Z := 2.

Definition kInitEventListSize : Z := 16.

Inductive operation := EPOLL_CTL_ADD | EPOLL_CTL_DEL | EPOLL_CTL_MOD.

(** [kernel] is the interest table behind [epollfd_], [errors] the failed calls
    of epoll_ctl(2) that were logged as errors. *)
Record EPollPoller := mkEPollPoller {
  ep_channels : gmap Z Z;
  kernel : gmap Z (Z * Z);
  events_size : Z;                 (* events_.size() *)
  errors : list (operation * Z)
}.

Definition operationToString (op : operation) : bytes :=
  match op with
  | EPOLL_CTL_ADD => str "ADD"
  | EPOLL_CTL_DEL => str "DEL"
  | EPOLL_CTL_MOD => str "MOD"
  end.

(** epoll_ctl(2): EEXIST when adding a present descriptor, ENOENT when changing
    or deleting an absent one. *)
Definition epoll_ctl (op : operation) (fd : Z) (ev : Z * Z) (k : gmap Z (Z * Z))
    : option (gmap Z (Z * Z)) :=
  match op, k !! fd with
  | EPOLL_CTL_ADD, None => Some (<[fd := ev]> k)
  | EPOLL_CTL_MOD, Some _ => Some (<[fd := ev]> k)
  | EPOLL_CTL_DEL, Some _ => Some (delete fd k)
  | _, _ => None
  end.

Definition update (op : operation) (c : Z) (channel : Channel) (p : EPollPoller)
    : result EPollPoller :=
  match epoll_ctl op (fd_ channel) (events_ channel, c) (kernel p) with
  | Some k => Ok (mkEPollPoller (ep_channels p) k (events_size p) (errors p))
  | None =>
      match op with
      | EPOLL_CTL_DEL =>               (* LOG_SYSERR *)
          Ok (mkEPollPoller (ep_channels p) (kernel p) (events_size p) (errors p ++ [(op, fd_ channel)]))
      | _ => Fail FatalLog             (* LOG_SYSFATAL *)
      end
  end.

Definition updateChannel (c : Z) (σ : store) (p : EPollPoller) : result (store * EPollPoller) :=
  channel ← deref c σ;
  let index := index_ channel in
  let fd := fd_ channel in
  if (index =? kNew) || (index =? kDeleted) then
    p ← (if index =? kNew then
           _ ← check (bool_decide (ep_channels p !! fd = None));
           Ok (mkEPollPoller (<[fd := c]> (ep_channels p)) (kernel p) (events_size p) (errors p))
         else
           _ ← check (bool_decide (ep_channels p !! fd ≠ None));
           _ ← check (at_key fd (ep_channels p) =? c);
           Ok p);
    let channel := set_index kAdded channel in
    p ← update EPOLL_CTL_ADD c channel p;
    Ok (<[c := channel]> σ, p)
  else
    _ ← check (bool_decide (ep_channels p !! fd ≠ None));
    _ ← check (at_key fd (ep_channels p) =? c);
    _ ← check (index =? kAdded);
    if isNoneEvent channel then
      p ← update EPOLL_CTL_DEL c channel p;
      Ok (<[c := set_index kDeleted channel]> σ, p)
    else
      p ← update EPOLL_CTL_MOD c channel p;
      Ok (σ, p).

Definition removeChannel (c : Z) (σ : store) (p : EPollPoller) : result (store * EPollPoller) :=
  channel ← deref c σ;
  let fd := fd_ channel in
  _ ← check (bool_decide (ep_channels p !! fd ≠ None));
  _ ← check (at_key fd (ep_channels p) =? c);
  _ ← check (isNoneEvent channel);
  let index := index_ channel in
  _ ← check ((index =? kAdded) || (index =? kDeleted));
  let p := mkEPollPoller (delete fd (ep_channels p)) (kernel p) (events_size p) (errors p) in
  p ← (if index =? kAdded then update EPOLL_CTL_DEL c channel p else Ok p);
  Ok (<[c := set_index kNew channel]> σ, p).

Fixpoint fillActiveChannels (events : list (Z * Z)) (channels : gmap Z Z)
    (σ : store) (activeChannels : list Z) : result (list Z * store) :=
  match events with
  | [] => Ok (activeChannels, σ)
  | (channel, ev) :: events =>
      ch ← deref channel σ;
      _ ← check (bool_decide (channels !! fd_ ch ≠ None));
      _ ← check (at_key (fd_ ch) channels =? channel);
      fillActiveChannels events channels (<[channel := set_revents ev ch]> σ)
        (activeChannels ++ [channel])
  end.

(** epoll_wait(2) fills the front of [events_]; the list is what it stored (none
    on time-out or error). *)
Definition poll (o : list (Z * Z)) (σ : store) (p : EPollPoller)
    : result (list Z * (store * EPollPoller)) :=
  if 0 <? zlen o then
    _ ← check (zlen o <=? events_size p);
    r ← fillActiveChannels o (ep_channels p) σ [];
    let size := if zlen o =? events_size p then events_size p * 2 else events_size p in
    Ok (r.1, (r.2, mkEPollPoller (ep_channels p) (kernel p) size (errors p)))
  else Ok ([], (σ, p)).

#[global] Instance EPollPoller_poller : Poller EPollPoller := {|
  new_poller := mkEPollPoller ∅ ∅ kInitEventListSize [];
  Poller.channels_ := ep_channels;
  Poller.updateChannel := updateChannel;
  Poller.removeChannel := removeChannel;
  Poller.outcome := list (Z * Z);
  Poller.poll := poll;
  Poller.interest p fd := fst <$> kernel p !! fd
|}.

(** ** The invariant *)

Definition entry_ok (k : gmap Z (Z * Z)) (c : Z) (ch : Channel) : Prop :=
  (index_ ch = kAdded ∧ events_ ch ≠ 0 ∧ k !! fd_ ch = Some (events_ ch, c)) ∨
  (index_ ch = kDeleted ∧ events_ ch = 0 ∧ k !! fd_ ch = None).

Record inv (σ : store) (p : EPollPoller) : Prop := {
  inv_channel : ∀ fd c, ep_channels p !! fd = Some c →
    ∃ ch, σ !! c = Some ch ∧ fd_ ch = fd ∧ 0 ≤ fd ∧ entry_ok (kernel p) c ch;
  inv_kernel : ∀ fd, is_Some (kernel p !! fd) → is_Some (ep_channels p !! fd);
  inv_errors : errors p = []
}.

Lemma epoll_inv_frame σ σ' p :
  inv σ p →
  (∀ fd c ch, ep_channels p !! fd = Some c → σ !! c = Some ch →
     ∃ ch', σ' !! c = Some ch' ∧ fd_ ch' = fd_ ch ∧ events_ ch' = events_ ch ∧ index_ ch' = index_ ch) →
  inv σ' p.
Proof.
  intros Hi Hf. constructor; [|apply Hi|apply Hi]. intros fd c Hc.
  destruct (inv_channel _ _ Hi _ _ Hc) as (ch & Hσ & Hfd & Hpos & Hok).
  destruct (Hf _ _ _ Hc Hσ) as (ch' & Hσ' & E1 & E2 & E3). exists ch'.
  unfold entry_ok in *. by rewrite E1, E2, E3.
Qed.

(** One channel and its table entries change. *)
Lemma inv_change σ p c ch ch' chans k n :
  inv σ p → σ !! c = Some ch → fd_ ch' = fd_ ch → 0 ≤ fd_ ch →
  (∀ fd, fd ≠ fd_ ch → chans !! fd = ep_channels p !! fd ∧ k !! fd = kernel p !! fd) →
  (∀ fd, fd ≠ fd_ ch → ep_channels p !! fd ≠ Some c) →
  (chans !! fd_ ch = Some c ∧ entry_ok k c ch' ∨ chans !! fd_ ch = None ∧ k !! fd_ ch = None) →
  inv (<[c := ch']> σ) (mkEPollPoller chans k n (errors p)).
Proof.
  intros Hi Hσ Efd Hpos Hother Hnot Hcase. constructor; cbn; [..|apply Hi].
  - intros fd d Hd. destruct (decide (fd = fd_ ch)) as [->|Hne].
    + destruct Hcase as [[Hc Hok]|[Hc _]]; [|congruence]. rewrite Hc in Hd. injection Hd as <-.
      exists ch'. rewrite lookup_insert_eq. by split_and!.
    + destruct (Hother fd Hne) as [Ec Ek]. rewrite Ec in Hd.
      destruct (inv_channel _ _ Hi _ _ Hd) as (dh & Hdh & Hfd & Hp & Hok). exists dh.
      rewrite lookup_insert_ne by (intros <-; by destruct (Hnot fd Hne)).
      split_and!; try done. unfold entry_ok in *. rewrite Hfd in *. by rewrite Ek.
  - intros fd Hk. destruct (decide (fd = fd_ ch)) as [->|Hne].
    + destruct Hcase as [[Hc _]|[_ Hn]]; [by rewrite Hc|]. rewrite Hn in Hk. by destruct Hk.
    + destruct (Hother fd Hne) as [Ec Ek]. rewrite Ec. rewrite Ek in Hk. by apply (inv_kernel _ _ Hi).
Qed.

Lemma inv_other σ p c ch fd :
  inv σ p → σ !! c = Some ch → fd ≠ fd_ ch → ep_channels p !! fd ≠ Some c.
Proof.
  intros Hi Hσ Hne Hc. destruct (inv_channel _ _ Hi _ _ Hc) as (ch' & Hσ' & Hfd & _). congruence.
Qed.

Lemma epoll_set_events_ok σ p c ch e :
  inv σ p → σ !! c = Some ch → events_ok e →
  (fresh ch p ∧ e ≠ 0 ∨ registered c ch p ∧ (e ≠ 0 ∨ events_ ch ≠ 0)) →
  ∃ i σ' p', set_events c e σ p = Ok (σ', p') ∧ inv σ' p' ∧ i ≠ -1 ∧
    σ' = <[c := set_index i (with_added true (with_events e ch))]> σ ∧
    ep_channels p' = <[fd_ ch := c]> (ep_channels p).
Proof.
  intros Hi Hσ _ Hcase. unfold set_events. rewrite (deref_Ok _ _ _ Hσ), bind_Ok.
  cbn [Poller.updateChannel EPollPoller_poller].
  set (ch1 := with_added true (with_events e ch)). unfold updateChannel.
  rewrite (deref_Ok c _ ch1) by apply lookup_insert_eq. rewrite bind_Ok.
  change (index_ ch1) with (index_ ch). change (fd_ ch1) with (fd_ ch).
  pose proof (inv_other σ p c ch) as Hoth.
  destruct Hcase as [[(Hidx & Hpos & Hnone) He]|[Hreg He]].
  - cbn in Hnone. rewrite Hidx, Hnone, bool_decide_true by done.
    assert (kernel p !! fd_ ch = None) as Hk.
    { destruct (kernel p !! fd_ ch) eqn:E; [|done].
      destruct (inv_kernel _ _ Hi (fd_ ch)) as [? ?]; [by rewrite E|]. congruence. }
    cbn [Z.eqb kNew Pos.eqb orb check mbind result_bind]. unfold update, epoll_ctl.
    cbn [kernel fd_ set_index events_ ep_channels events_size errors]. change (fd_ ch1) with (fd_ ch). rewrite Hk.
    cbn [mbind result_bind]. rewrite insert_insert_eq.
    exists kAdded. eexists _, _. split; [done|]. split; [|done].
    apply (inv_change σ p c ch); try done; auto.
    + intros fd Hne. by rewrite !lookup_insert_ne.
    + left. rewrite lookup_insert_eq. split; [done|]. left. split; [done|]. split; [done|]. apply lookup_insert_eq.
  - unfold registered in Hreg. cbn in Hreg.
    destruct (inv_channel _ _ Hi _ _ Hreg) as (ch0 & Hσ0 & _ & Hpos & Hok).
    assert (ch0 = ch) as -> by congruence. unfold at_key. rewrite Hreg. cbn [default]. unfold id.
    rewrite Z.eqb_refl. destruct Hok as [(Hidx & Hev & Hk)|(Hidx & Hev & Hk)];
      rewrite Hidx; cbn [Z.eqb kNew kDeleted kAdded Pos.eqb orb check mbind result_bind];
      rewrite bool_decide_true by done; cbn [check mbind result_bind]; unfold isNoneEvent, update, epoll_ctl;
      cbn [kernel fd_ set_index events_ ep_channels events_size errors]; change (fd_ ch1) with (fd_ ch); rewrite Hk;
      cbn [mbind result_bind]; rewrite ?insert_insert_eq.
    + change (events_ ch1) with e. unfold kNoneEvent. destruct (Z.eqb_spec e 0) as [->|He0].
      * exists kDeleted. eexists _, _. split; [done|]. split; [|split; [done|]; split; [done|by cbn; rewrite insert_id]].
        apply (inv_change σ p c ch); try done; auto.
        -- intros fd Hne. by rewrite lookup_delete_ne.
        -- left. split; [done|]. right. split_and!; try done. apply lookup_delete_eq.
      * exists kAdded. eexists _, _. split; [done|]. split; [|split; [done|]; split; [by rewrite <- Hidx|by cbn; rewrite insert_id]].
        apply (inv_change σ p c ch); try done; auto.
        -- intros fd Hne. by rewrite lookup_insert_ne.
        -- left. split; [done|]. left. split_and!; try done. apply lookup_insert_eq.
    + exists kAdded. eexists _, _. split; [done|]. split; [|split; [done|]; split; [done|by cbn; rewrite insert_id]].
      apply (inv_change σ p c ch); try done; auto.
      * intros fd Hne. by rewrite lookup_insert_ne.
      * left. split; [done|]. left. split_and!; try done; [cbn; naive_solver|]. apply lookup_insert_eq.
Qed.

Lemma epoll_remove_ok σ p c ch :
  inv σ p → σ !! c = Some ch → ep_channels p !! fd_ ch = Some c → events_ ch = 0 →
  ∃ p', remove c σ p = Ok (<[c := set_index kNew (with_added false ch)]> σ, p') ∧
    inv (<[c := set_index kNew (with_added false ch)]> σ) p' ∧
    ep_channels p' = delete (fd_ ch) (ep_channels p).
Proof.
  intros Hi Hσ Hc He. unfold remove. rewrite (deref_Ok _ _ _ Hσ), bind_Ok. unfold isNoneEvent at 1.
  rewrite He. cbn [check kNoneEvent Z.eqb mbind result_bind Poller.removeChannel EPollPoller_poller].
  unfold removeChannel. rewrite (deref_Ok c _ _ (lookup_insert_eq _ _ _)), bind_Ok.
  destruct (inv_channel _ _ Hi _ _ Hc) as (ch0 & Hσ0 & _ & Hpos & Hok). assert (ch0 = ch) as -> by congruence.
  destruct Hok as [(_ & Hev & _)|(Hidx & _ & Hk)]; [done|].
  cbn [fd_ index_ with_added events_]. unfold isNoneEvent. cbn [with_added events_]. rewrite He, Hidx.
  unfold at_key. rewrite Hc, bool_decide_true by done. cbn [default]. unfold id. rewrite (Z.eqb_refl c).
  cbn [check mbind result_bind kNoneEvent Z.eqb kDeleted kAdded Pos.eqb orb]. rewrite insert_insert_eq.
  eexists. split; [done|]. split; [|done]. apply (inv_change σ p c ch); try done.
  - intros fd Hne. by rewrite lookup_delete_ne.
  - intros fd Hne. by eapply inv_other.
  - right. by rewrite lookup_delete_eq.
Qed.

(** epoll_wait(2) reports each watched channel at most once, and no more than
    the buffer holds. *)
Definition wait_ok (o : list (Z * Z)) (σ : store) (p : EPollPoller) (act : active) : Prop :=
  act = o ∧ NoDup o.*1 ∧ zlen o ≤ events_size p ∧
  ∀ c r, (c, r) ∈ o → ∃ fd e, kernel p !! fd = Some (e, c).

Lemma epoll_fillActiveChannels_ok channels o : ∀ σ acc,
  (∀ c r, (c, r) ∈ o → ∃ ch, σ !! c = Some ch ∧ channels !! fd_ ch = Some c) →
  fillActiveChannels o channels σ acc = Ok (acc ++ o.*1, store_active σ o).
Proof.
  induction o as [|[c r] o IH]; intros σ acc Ho; [cbn; by rewrite app_nil_r|].
  destruct (Ho c r ltac:(left)) as (ch & Hσ & Hc). cbn [fillActiveChannels].
  rewrite (deref_Ok _ _ _ Hσ), bind_Ok. unfold at_key. rewrite Hc, bool_decide_true by done.
  cbn [default]. unfold id. rewrite Z.eqb_refl. cbn [check mbind result_bind]. rewrite IH.
  - rewrite <- app_assoc. cbn. do 2 f_equal. unfold store_active. cbn. f_equal.
    rewrite <- (insert_id σ c ch Hσ) at 2. by rewrite alter_insert_eq.
  - intros c' r' Hin. destruct (Ho c' r' ltac:(by right)) as (ch' & Hσ' & Hc').
    destruct (decide (c' = c)) as [->|].
    + rewrite lookup_insert_eq. eexists. split; [done|]. by simplify_eq.
    + exists ch'. by rewrite lookup_insert_ne.
Qed.

Lemma kernel_channel σ p fd e c :
  inv σ p → kernel p !! fd = Some (e, c) → ∃ ch, σ !! c = Some ch ∧ ep_channels p !! fd_ ch = Some c.
Proof.
  intros Hi Hk. destruct (inv_kernel _ _ Hi fd) as [d Hd]; [by rewrite Hk|].
  destruct (inv_channel _ _ Hi _ _ Hd) as (dh & Hσ & <- & _ & Hok).
  destruct Hok as [(_ & _ & Hk')|(_ & _ & Hk')]; [|congruence].
  rewrite Hk in Hk'. simplify_eq. eauto.
Qed.

Lemma epoll_poll_ok σ p o act :
  inv σ p → wait_ok o σ p act →
  ∃ n, poll o σ p = Ok (act.*1, (store_active σ act, mkEPollPoller (ep_channels p) (kernel p) n (errors p))) ∧
    inv (store_active σ act) (mkEPollPoller (ep_channels p) (kernel p) n (errors p)) ∧
    n = if (0 <? zlen o) && (zlen o =? events_size p) then events_size p * 2 else events_size p.
Proof.
  intros Hi (-> & Hn & Hsz & Hk). eexists. split; [|split; [|done]].
  - unfold poll. destruct (Z.ltb_spec 0 (zlen o)) as [Hpos|Hz].
    + rewrite check_true, bind_Ok by lia. rewrite epoll_fillActiveChannels_ok, bind_Ok; [done|].
      intros c r Hin. destruct (Hk c r Hin) as (fd & e & Hfd). by eapply kernel_channel.
    + assert (zlen o = 0) as Hz0 by (pose proof (zlen_nonneg o); lia).
      apply zlen_zero_inv in Hz0. subst o. by destruct p.
  - apply (epoll_inv_frame σ); [destruct Hi; by constructor|]. intros fd c ch _ Hσ. by apply store_active_frame.
Qed.

#[global] Program Instance EPollPoller_laws : PollerLaws EPollPoller := {|
  pinv := inv;
  outcome_ok := wait_ok
|}.
Next Obligation. intros σ. constructor; cbn; [done| |done]. intros fd [x Hx]. by rewrite lookup_empty in Hx. Qed.
Next Obligation. done. Qed.
Next Obligation.
  intros σ p fd c Hi Hc. destruct (inv_channel _ _ Hi _ _ Hc) as (ch & Hσ & Hfd & Hpos & Hok).
  exists ch. unfold watch. cbn. rewrite <- Hfd. destruct Hok as [(Hidx & Hev & ->)|(Hidx & Hev & ->)]; rewrite Hidx.
  - rewrite (proj2 (Z.eqb_neq _ _)) by done. by split_and!; rewrite ?Hfd.
  - rewrite Hev. by split_and!; rewrite ?Hfd.
Qed.
Next Obligation.
  intros σ p fd Hi Hc _. cbn. destruct (kernel p !! fd) eqn:E; [|done].
  destruct (inv_kernel _ _ Hi fd) as [? ?]; [by rewrite E|]. cbn in Hc. congruence.
Qed.
Next Obligation. exact epoll_inv_frame. Qed.
Next Obligation. exact epoll_set_events_ok. Qed.
Next Obligation.
  intros σ p c ch Hi Hσ Hc He. destruct (epoll_remove_ok σ p c ch Hi Hσ Hc He) as (p' & E & Hi' & Ec).
  eexists _, p'. split; [exact E|]. split_and!; try done.
  - intros d. destruct (decide (d = c)) as [->|]; [by rewrite !lookup_insert_eq|].
    by rewrite !lookup_insert_ne.
  - intros d dh Hne Hd _. by rewrite lookup_insert_ne.
Qed.
Next Obligation.
  intros σ p o act Hi Ho. destruct (epoll_poll_ok σ p o act Hi Ho) as (n & E & Hi' & _).
  destruct Ho as (-> & Hn & _). eexists _, _. split; [exact E|]. split_and!; try done.
  intros c. by apply store_active_lookup.
Qed.

(** C12: The epoll(7) poller is a table of interests: after any legal sequence of
    calls [channels_] holds exactly the registered channels, the kernel's table
    exactly their non-empty interests, and no epoll_ctl(2) call has failed (no
    failed deletion was logged, and a failed addition or change would have ended
    the program); and every further legal call succeeds, again without a failed
    epoll_ctl call. *)
Theorem epollpoller_refines fds (σ : store) (p : EPollPoller) t :
  runs fds (initial_store fds) (new_poller : EPollPoller) (mkTable ∅ ∅) σ p t →
  (∀ fd c, ep_channels p !! fd = Some c ↔ ∃ e, tab t !! fd = Some (c, e)) ∧
  (∀ fd, 0 ≤ fd → fst <$> kernel p !! fd = tab t !! fd ≫= λ ce, watch ce.2) ∧
  errors p = [] ∧
  ∀ x, legal_call fds x t σ p → ∃ σ' p', do_call x σ p = Ok (σ', p') ∧ errors p' = [].
Proof.
  intros Hrun. pose proof (runs_refine fds σ p t Hrun) as (Hc & Hk & _). apply runs_rel in Hrun.
  split_and!; [exact Hc|exact Hk|exact (inv_errors _ _ (rel_inv _ _ _ _ Hrun))|].
  intros x Hl. destruct (rel_call fds x σ p t Hrun Hl) as (σ' & p' & E & Hr').
  exists σ', p'. split; [done|]. exact (inv_errors _ _ (rel_inv _ _ _ _ Hr')).
Qed.

Lemma epollpoller_refines_witness :
  ∃ σ (p : EPollPoller) t,
    runs ({[16 := 5; 32 := 7]} : gmap Z Z) (initial_store {[16 := 5; 32 := 7]}) new_poller (mkTable ∅ ∅) σ p t ∧
    fst <$> kernel p !! 7 = Some 4 ∧ fst <$> kernel p !! 5 = None ∧ errors p = [].
Proof.
  assert (∃ σ (p : EPollPoller) t,
    runs ({[16 := 5; 32 := 7]} : gmap Z Z) (initial_store {[16 := 5; 32 := 7]}) new_poller (mkTable ∅ ∅) σ p t ∧
    tab t = {[7 := (32, 4)]}) as (σ & p & t & Hr & Ht).
  { eexists _, _, _. split.
    - eapply (runs_cons _ (SetEvents 16 3)).
      { exists 5. split; [reflexivity|]. split; [lia|]. split; [right; by left|].
        left. split_and!; [set_solver|reflexivity|lia]. }
      { vm_compute. reflexivity. }
      eapply (runs_cons _ (SetEvents 32 4)).
      { exists 7. split; [reflexivity|]. split; [lia|]. split; [by right; right; left|].
        left. split_and!; [vm_compute; discriminate|reflexivity|lia]. }
      { vm_compute. reflexivity. }
      eapply (runs_cons _ (SetEvents 16 0)).
      { exists 5. split; [reflexivity|]. split; [lia|]. split; [by left|]. right. exists 3. split; [reflexivity|lia]. }
      { vm_compute. reflexivity. }
      eapply (runs_cons _ (Remove 16)).
      { exists 5. split; reflexivity. }
      { vm_compute. reflexivity. }
      apply runs_nil.
    - reflexivity. }
  exists σ, p, t. split; [exact Hr|]. destruct (epollpoller_refines _ σ p t Hr) as (_ & Hint & Herr & _).
  rewrite !Hint, Ht by lia. by split_and!.
Defined.

(** Disabling a registered channel that has no interest left registers its
    descriptor with the kernel again, with an empty event set, for which the
    kernel still reports errors and hang-ups. *)
Theorem epollpoller_redisable_watches σ (p : EPollPoller) c ch :
  pinv σ p → σ !! c = Some ch → registered c ch p → events_ ch = 0 →
  interest p (fd_ ch) = None ∧
  ∃ σ' p', set_events c 0 σ p = Ok (σ', p') ∧ interest p' (fd_ ch) = Some 0.
Proof.
  intros Hi Hσ Hc He. destruct (inv_channel _ _ Hi _ _ Hc) as (ch0 & Hσ0 & _ & Hpos & Hok).
  assert (ch0 = ch) as -> by congruence.
  destruct Hok as [(_ & Hev & _)|(Hidx & _ & Hk)]; [done|]. split; [by cbn; rewrite Hk|].
  unfold set_events. rewrite (deref_Ok _ _ _ Hσ), bind_Ok. cbn [Poller.updateChannel EPollPoller_poller].
  unfold updateChannel. rewrite (deref_Ok c _ _ (lookup_insert_eq _ _ _)), bind_Ok.
  cbn [index_ fd_ with_added with_events]. rewrite Hidx. cbn [Z.eqb kNew kDeleted kAdded Pos.eqb orb].
  unfold registered in Hc. cbn in Hc. unfold at_key. rewrite Hc, bool_decide_true by done.
  cbn [default]. unfold id. rewrite Z.eqb_refl. cbn [check mbind result_bind]. unfold update, epoll_ctl.
  cbn [fd_ set_index with_added with_events events_]. rewrite Hk. cbn [mbind result_bind].
  eexists _, _. split; [done|]. cbn. by rewrite lookup_insert_eq.
Qed.

Lemma epollpoller_redisable_watches_witness :
  let ch := set_index kDeleted (make 5) in
  let p := mkEPollPoller {[5 := 16]} ∅ 16 [] in
  ∃ σ' p', set_events 16 0 {[16 := ch]} p = Ok (σ', p') ∧ interest p' 5 = Some 0.
Proof.
  intros ch p. apply (epollpoller_redisable_watches {[16 := ch]} p 16 ch); try reflexivity. constructor; cbn.
  - intros fd c [<- <-]%lookup_singleton_Some. exists ch. split_and!; try done. by right.
  - intros fd [x Hx]. by rewrite lookup_empty in Hx.
  - reflexivity.
Defined.

End EPollPoller.
