(* ===== verification/EventLoop.v ===== *)
(** * EventLoop ([net/EventLoop.h], [net/EventLoop.cc])

    [Module Loop] is the loop thread and the threads that queue functors for it,
    as a step relation in which the threads interleave: pushing under the mutex and
    writing the wake-up descriptor are separate steps of the other threads. [Module
    Channels] is the dispatch of the active channels and the calls handlers make on
    the poller. [Module Timers] are the timer calls. *)

From stdpp Require Import sets gmap.
From S2P Require Import Prelude Endian Format Date TimeZone Timestamp StdSet TimerQueue Channel Poller EPollPoller.

Module Loop.

(** The largest value of an eventfd counter. *)
Definition eventfd_max : Z := 2 ^ 64 - 2.

Section loop.
Context {F : Type}.

(** What code that runs in the loop thread calls on the loop. *)
Inductive action :=
  | QueueInLoop (f : F)
  | Quit.

(** An active channel: the wake-up descriptor, or one with its callbacks. *)
Inductive handler :=
  | HandleRead
  | UserHandler (l : list action).

(** Where the loop thread is. *)
Inductive place :=
  | BeforeWhile
  | Polling
  | Handling (rest : list handler)
  | InHandler (l : list action) (rest : list handler)
  | Swapping
  | Running (functors : list F)
  | InFunctor (l : list action) (functors : list F)
  | Stopped.

Record state := mkState {
  looping_ : bool;
  quit_ : bool;
  eventHandling_ : bool;
  callingPendingFunctors_ : bool;
  iteration_ : Z;
  pendingFunctors_ : list F;
  counter : Z;                 (* the eventfd *)
  at_ : place;
  owed : nat;                  (* other threads between their change and wakeup() *)
  queued : list F;             (* every functor ever queued, in order *)
  ran : list F                 (* every functor started, in order *)
}.

(** [body f]: what the functor does. *)
Variable body : F → list action.

Definition wakeup (n : Z) : Z := if n <? eventfd_max then n + 1 else n.

(** [loop()] up to the while. *)
Definition start (s : state) : result state :=
  _ ← check (negb (looping_ s));
  Ok (mkState true false (eventHandling_ s) (callingPendingFunctors_ s) (iteration_ s)
        (pendingFunctors_ s) (counter s) BeforeWhile (owed s) (queued s) (ran s)).

(** [queueInLoop] and [quit] in the loop thread. *)
Definition queueInLoop (f : F) (s : state) : state :=
  mkState (looping_ s) (quit_ s) (eventHandling_ s) (callingPendingFunctors_ s) (iteration_ s)
    (pendingFunctors_ s ++ [f])
    (if callingPendingFunctors_ s then wakeup (counter s) else counter s)
    (at_ s) (owed s) (queued s ++ [f]) (ran s).
Definition quit (s : state) : state :=
  mkState (looping_ s) true (eventHandling_ s) (callingPendingFunctors_ s) (iteration_ s)
    (pendingFunctors_ s) (counter s) (at_ s) (owed s) (queued s) (ran s).
Definition act (a : action) (s : state) : state :=
  match a with QueueInLoop f => queueInLoop f s | Quit => quit s end.

Definition goto (p : place) (s : state) : state :=
  mkState (looping_ s) (quit_ s) (eventHandling_ s) (callingPendingFunctors_ s) (iteration_ s)
    (pendingFunctors_ s) (counter s) p (owed s) (queued s) (ran s).

(** [while (!quit_)] and, after the loop, [looping_ = false]. *)
Definition test_quit (s : state) : state :=
  if quit_ s
  then mkState false (quit_ s) (eventHandling_ s) (callingPendingFunctors_ s) (iteration_ s)
         (pendingFunctors_ s) (counter s) Stopped (owed s) (queued s) (ran s)
  else goto Polling s.

(** [poll] returned these channels. *)
Definition poll_returned (hs : list handler) (s : state) : state :=
  mkState (looping_ s) (quit_ s) true (callingPendingFunctors_ s) (iteration_ s + 1)
    (pendingFunctors_ s) (counter s) (Handling hs) (owed s) (queued s) (ran s).

Definition handle (h : handler) (rest : list handler) (s : state) : state :=
  match h with
  | HandleRead =>
      mkState (looping_ s) (quit_ s) (eventHandling_ s) (callingPendingFunctors_ s) (iteration_ s)
        (pendingFunctors_ s) 0 (Handling rest) (owed s) (queued s) (ran s)
  | UserHandler l => goto (InHandler l rest) s
  end.

(** [doPendingFunctors] up to the swap, the swap, the call of a functor, the end. *)
Definition begin_pending (s : state) : state :=
  mkState (looping_ s) (quit_ s) false true (iteration_ s)
    (pendingFunctors_ s) (counter s) Swapping (owed s) (queued s) (ran s).
Definition swap_pending (s : state) : state :=
  mkState (looping_ s) (quit_ s) (eventHandling_ s) (callingPendingFunctors_ s) (iteration_ s)
    [] (counter s) (Running (pendingFunctors_ s)) (owed s) (queued s) (ran s).
Definition call_functor (f : F) (rest : list F) (s : state) : state :=
  mkState (looping_ s) (quit_ s) (eventHandling_ s) (callingPendingFunctors_ s) (iteration_ s)
    (pendingFunctors_ s) (counter s) (InFunctor (body f) rest) (owed s) (queued s) (ran s ++ [f]).
Definition end_pending (s : state) : state :=
  mkState (looping_ s) (quit_ s) (eventHandling_ s) false (iteration_ s)
    (pendingFunctors_ s) (counter s) BeforeWhile (owed s) (queued s) (ran s).

(** One step of the loop thread. [poll] returns the wake-up channel only when its
    descriptor is readable. *)
Inductive loop_step : state → state → Prop :=
  | LWhile s : at_ s = BeforeWhile → loop_step s (test_quit s)
  | LPoll s hs : at_ s = Polling → (HandleRead ∈ hs → 0 < counter s) →
      loop_step s (poll_returned hs s)
  | LHandle s h rest : at_ s = Handling (h :: rest) → loop_step s (handle h rest s)
  | LHandler s a l rest : at_ s = InHandler (a :: l) rest →
      loop_step s (goto (InHandler l rest) (act a s))
  | LHandlerEnd s rest : at_ s = InHandler [] rest → loop_step s (goto (Handling rest) s)
  | LBegin s : at_ s = Handling [] → loop_step s (begin_pending s)
  | LSwap s : at_ s = Swapping → loop_step s (swap_pending s)
  | LCall s f rest : at_ s = Running (f :: rest) → loop_step s (call_functor f rest s)
  | LFunctor s a l rest : at_ s = InFunctor (a :: l) rest →
      loop_step s (goto (InFunctor l rest) (act a s))
  | LFunctorEnd s rest : at_ s = InFunctor [] rest → loop_step s (goto (Running rest) s)
  | LEnd s : at_ s = Running [] → loop_step s (end_pending s).

(** Another thread: [queueInLoop] and [quit] each change the state and then, in a
    later step, write the descriptor. *)
Definition other_queue (f : F) (s : state) : state :=
  mkState (looping_ s) (quit_ s) (eventHandling_ s) (callingPendingFunctors_ s) (iteration_ s)
    (pendingFunctors_ s ++ [f]) (counter s) (at_ s) (S (owed s)) (queued s ++ [f]) (ran s).
Definition other_quit (s : state) : state :=
  mkState (looping_ s) true (eventHandling_ s) (callingPendingFunctors_ s) (iteration_ s)
    (pendingFunctors_ s) (counter s) (at_ s) (S (owed s)) (queued s) (ran s).
Definition other_wakeup (s : state) : state :=
  mkState (looping_ s) (quit_ s) (eventHandling_ s) (callingPendingFunctors_ s) (iteration_ s)
    (pendingFunctors_ s) (wakeup (counter s)) (at_ s) (pred (owed s)) (queued s) (ran s).

Inductive other_step : state → state → Prop :=
  | OQueue s f : other_step s (other_queue f s)
  | OQuit s : other_step s (other_quit s)
  | OWakeup s : owed s ≠ 0%nat → other_step s (other_wakeup s).

Definition step (s s' : state) : Prop := loop_step s s' ∨ other_step s s'.

(** A loop that has just been constructed; while its thread is on the way to
    [loop()], other threads may already call [queueInLoop] and [quit]. The loop's
    own thread queues nothing before [loop()]: see [early_functor_sleeps]. *)
Definition constructed : state :=
  mkState false false false false 0 [] 0 Stopped 0 [] [].
Definition entered (s : state) : Prop :=
  ∃ s0, rtc other_step constructed s0 ∧ start s0 = Ok s.

Definition reachable (s : state) : Prop := ∃ s0, entered s0 ∧ rtc step s0 s.

(** Invariants of the runs. *)
Lemma reachable_ind (Q : state → Prop) :
  (∀ s, entered s → Q s) → (∀ s s', step s s' → Q s → Q s') → ∀ s, reachable s → Q s.
Proof.
  intros H0 Hstep s (s0 & He & Hr). apply H0 in He. clear H0.
  induction Hr as [|s1 s2 s3 Hs _ IH]; [done|]. apply IH. by eapply Hstep.
Qed.

Lemma entered_ind (Q : state → Prop) :
  Q constructed → (∀ s s', other_step s s' → Q s → Q s') →
  ∀ s, entered s → ∃ s0, Q s0 ∧ start s0 = Ok s.
Proof.
  intros H0 Hstep s (s0 & Hr & Es). exists s0. split; [|done]. clear Es. revert H0.
  induction Hr as [|s1 s2 s3 Hs _ IH]; [done|]. intros H0. apply IH. by eapply Hstep.
Qed.

(** ** First in, first out, exactly once *)

(** The functors taken from the queue that are still to be called. *)
Definition taken (p : place) : list F :=
  match p with Running l | InFunctor _ l => l | _ => [] end.

Definition fifo (s : state) : Prop :=
  queued s = ran s ++ taken (at_ s) ++ pendingFunctors_ s.

Lemma fifo_act a s : fifo s → fifo (act a s).
Proof.
  unfold fifo. destruct a; cbn; [|done]. intros ->. by rewrite <- !app_assoc.
Qed.

Lemma fifo_step s s' : step s s' → fifo s → fifo s'.
Proof.
  unfold fifo. intros [Hs|Hs] Hf.
  - destruct Hs as [s E|s hs E|s h rest E|s a l rest E|s rest E|s E|s E|s f rest E|s a l rest E|s rest E|s E];
      rewrite E in Hf; cbn in *; try done.
    + unfold test_quit. by destruct (quit_ s).
    + by destruct h.
    + destruct a; cbn; [|done]. rewrite Hf. by rewrite <- !app_assoc.
    + by rewrite app_nil_r.
    + by rewrite <- app_assoc.
    + destruct a; cbn; [|done]. rewrite Hf. by rewrite <- !app_assoc.
  - destruct Hs as [s f|s|s E]; cbn; [|done..]. rewrite Hf. by rewrite <- !app_assoc.
Qed.

Lemma functors_fifo s : reachable s → fifo s.
Proof.
  revert s. apply reachable_ind; [|apply fifo_step]. intros s Hs.
  apply (entered_ind (λ s, fifo s ∧ taken (at_ s) = [])) in Hs as (s0 & [Hf Ht] & E).
  - unfold start in E. destruct (looping_ s0); [done|]. injection E as <-. unfold fifo in *. cbn.
    by rewrite Ht in Hf.
  - done.
  - intros s1 s2 Ho [Hf Ht]. split; [eapply fifo_step; [by right|done]|]. by destruct Ho.
Qed.

(** C8: Whatever threads queue functors and whatever functors and handlers do, the
    functors started are, in order, a prefix of the functors queued, each as often
    as it was queued, and the rest of them is still waiting. *)
Theorem functors_fifo_once s :
  reachable s → queued s = ran s ++ taken (at_ s) ++ pendingFunctors_ s.
Proof.
  exact (functors_fifo s).
Qed.

(** ** No wake-up is lost *)

(** The counter, or a thread about to write it, makes the next [poll] return. *)
Definition will_wake (s : state) : Prop := 0 < counter s ∨ owed s ≠ 0%nat.

(** While the loop thread tests [quit_] or polls, queued work and a request to stop
    from another thread have left a wake-up; while it runs functors, so has work
    queued since the swap. *)
Definition awake (s : state) : Prop :=
  0 ≤ counter s ≤ eventfd_max ∧
  match at_ s with
  | BeforeWhile => pendingFunctors_ s ≠ [] → will_wake s
  | Polling => pendingFunctors_ s ≠ [] ∨ quit_ s = true → will_wake s
  | Running _ | InFunctor _ _ =>
      callingPendingFunctors_ s = true ∧ (pendingFunctors_ s ≠ [] → will_wake s)
  | Swapping => callingPendingFunctors_ s = true
  | _ => True
  end.

Lemma wakeup_range n : 0 ≤ n ≤ eventfd_max → 0 < wakeup n ≤ eventfd_max.
Proof. unfold wakeup, eventfd_max. intros. destruct (Z.ltb_spec n (2 ^ 64 - 2)); lia. Qed.

Lemma awake_counter s : awake s → 0 ≤ counter s ≤ eventfd_max.
Proof. by intros []. Qed.

Lemma awake_functor_act a l rest s :
  at_ s = InFunctor (a :: l) rest → awake s → awake (goto (InFunctor l rest) (act a s)).
Proof.
  intros E [Hc Hw]. rewrite E in Hw. destruct Hw as [Hcall Hp]. destruct a; unfold awake; cbn.
  - pose proof (wakeup_range _ Hc). unfold will_wake. cbn. rewrite Hcall. split; [lia|].
    split; [done|]. intros _. left. lia.
  - by split.
Qed.

Lemma awake_step s s' : step s s' → awake s → awake s'.
Proof.
  intros [Hs|Hs] Ha; pose proof Ha as [Hc Hw].
  - destruct Hs as [s E|s hs E|s h rest E|s a l rest E|s rest E|s E|s E|s f rest E|s a l rest E|s rest E|s E];
      try (rewrite E in Hw); try (by apply awake_functor_act); unfold awake; cbn; try done.
    + unfold test_quit. destruct (quit_ s) eqn:Eq; cbn; [done|]. split; [done|]. rewrite Eq. intros [?|?]; [|done]. auto.
    + destruct h; cbn; [|done]. split; [unfold eventfd_max; lia|done].
    + split; [|done]. destruct a; cbn; [|done]. case_match; [|done].
      pose proof (wakeup_range _ Hc). lia.
    + split; [done|]. destruct Hw as [_ Hp]. done.
  - pose proof (wakeup_range _ Hc) as Hwk. destruct Hs as [s f|s|s E]; unfold awake, will_wake; cbn.
    + split; [done|]. destruct (at_ s); try done; try (intros _; by right).
      all: split; [apply Hw|]; intros _; by right.
    + split; [done|]. destruct (at_ s); try done; try (intros _; by right).
      all: split; [apply Hw|]; intros _; by right.
    + split; [lia|]. destruct (at_ s); try done; try (intros _; left; lia).
      all: split; [apply Hw|]; intros _; left; lia.
Qed.

Lemma reachable_awake s : reachable s → awake s.
Proof.
  revert s. apply reachable_ind; [|apply awake_step]. intros s Hs.
  apply (entered_ind (λ s, 0 ≤ counter s ≤ eventfd_max ∧ (pendingFunctors_ s ≠ [] → will_wake s)))
    in Hs as (s0 & [Hc Hw] & E).
  - unfold start in E. destruct (looping_ s0); [done|]. injection E as <-. by split.
  - by split; [unfold eventfd_max; cbn; lia|].
  - intros s1 s2 Ho [Hc Hw]. pose proof (wakeup_range _ Hc).
    destruct Ho as [s1 f|s1|s1 Hne]; unfold will_wake; cbn; (split; [lia|]); intros _; try by right.
    left. lia.
Qed.

(** C10: In every run in which the loop's own thread queues nothing before it enters
    [loop()] (other threads may), the loop never sleeps on pending work: whenever
    the loop thread is in [poll] with functors queued, or with [quit_] set, the
    wake-up descriptor is readable or a thread is about to write it. *)
Theorem no_lost_wakeup s :
  reachable s → at_ s = Polling → pendingFunctors_ s ≠ [] ∨ quit_ s = true →
  0 < counter s ∨ owed s ≠ 0%nat.
Proof. intros Hr E Hp. destruct (reachable_awake s Hr) as [_ Hw]. rewrite E in Hw. exact (Hw Hp). Qed.

(** ** Queued functors run *)

(** [soon P s]: however the loop thread goes on from [s], and however many steps
    other threads make between two of its steps, it reaches a state with [P]
    after finitely many of its own steps, none of which is a [poll] that waits
    for its time-out. *)
Inductive soon (P : state → Prop) (s : state) : Prop :=
  | soon_here : P s → soon P s
  | soon_next :
      (at_ s = Polling → will_wake s) → (∃ s', loop_step s s') →
      (∀ s' s'', loop_step s s' → rtc other_step s' s'' → soon P s'') → soon P s.

(** What other threads leave alone. *)
Lemma others_keep s s' :
  rtc other_step s s' → at_ s' = at_ s ∧ ran s' = ran s ∧ queued s `prefix_of` queued s'.
Proof.
  induction 1 as [|s s1 s2 Hs _ (IH1 & IH2 & IH3)]; [done|]. rewrite IH1, IH2.
  destruct Hs; cbn in *; split_and!; try done. by etrans; [apply prefix_app_r|].
Qed.

Lemma loop_step_queued s s' : loop_step s s' → queued s `prefix_of` queued s'.
Proof.
  destruct 1 as [s E|s hs E|s h rest E|s a l rest E|s rest E|s E|s E|s f rest E|s a l rest E|s rest E|s E];
    cbn; try done.
  - unfold test_quit. by destruct (quit_ s).
  - by destruct h.
  - destruct a; cbn; [by apply prefix_app_r|done].
  - destruct a; cbn; [by apply prefix_app_r|done].
Qed.

(** Except for what [poll] returns, the loop thread has one step at each place. *)
Definition only_step (s s' : state) : Prop :=
  match at_ s with
  | BeforeWhile => s' = test_quit s
  | Polling => ∃ hs, s' = poll_returned hs s
  | Handling (h :: rest) => s' = handle h rest s
  | Handling [] => s' = begin_pending s
  | InHandler (a :: l) rest => s' = goto (InHandler l rest) (act a s)
  | InHandler [] rest => s' = goto (Handling rest) s
  | Swapping => s' = swap_pending s
  | Running (f :: rest) => s' = call_functor f rest s
  | Running [] => s' = end_pending s
  | InFunctor (a :: l) rest => s' = goto (InFunctor l rest) (act a s)
  | InFunctor [] rest => s' = goto (Running rest) s
  | Stopped => False
  end.

Lemma loop_step_only s s' : loop_step s s' → only_step s s'.
Proof. unfold only_step. destruct 1; case_match; by simplify_eq; eauto. Qed.

Section soon.
Context (q0 : list F).

Definition has_queued (s : state) : Prop := reachable s ∧ q0 `prefix_of` queued s.
Definition started (s : state) : Prop := q0 `prefix_of` ran s ∨ at_ s = Stopped.

(** One step of the loop thread, with whatever other threads do after it: [s1] is
    the state after the former, [s2] after the latter. *)
Lemma soon_step P s :
  has_queued s → (at_ s = Polling → will_wake s) → (∃ s', loop_step s s') →
  (∀ s1 s2, only_step s s1 → has_queued s2 → at_ s2 = at_ s1 → ran s2 = ran s1 → soon P s2) →
  soon P s.
Proof.
  intros [(s0 & He & Hr) Hq] Hw Hex Hall. apply soon_next; [done..|]. intros s1 s2 Hs Ho.
  destruct (others_keep _ _ Ho) as (Ha & Hran & Hp).
  apply (Hall s1 s2); [by apply loop_step_only|split|done|done].
  - exists s0. split; [done|]. etrans; [done|]. eapply rtc_l; [by left|].
    eapply (rtc_congruence id); [|done]. intros x y Hxy. by right.
  - etrans; [done|]. etrans; [by apply loop_step_queued|done].
Qed.

(** The step at the place [E] names; the state after it is called [s2]. *)
Ltac next E :=
  apply soon_step; [done|by rewrite E|eexists; by econstructor|];
  intros s1 s2 Ho Hg Ha Hr; unfold only_step in Ho; rewrite E in Ho; subst s1; cbn in Ha, Hr.

(** A functor comes to its end, and what is known of [ran] stays true. *)
Lemma functor_start (rest : list F) (R : list F → Prop)
    (Hrest : ∀ s, has_queued s → at_ s = Running rest → R (ran s) → soon started s) l : ∀ s,
  has_queued s → at_ s = InFunctor l rest → R (ran s) → soon started s.
Proof.
  induction l as [|a l IH]; intros s Hs E HR; next E.
  - apply Hrest; [done..|]. by rewrite Hr.
  - apply IH; [done..|]. rewrite Hr. by destruct a.
Qed.

(** Functors that were taken from the queue are started. *)
Lemma taken_start l : ∀ s,
  has_queued s → at_ s = Running l → q0 `prefix_of` ran s ++ l → soon started s.
Proof.
  induction l as [|f l IH]; intros s Hs E Hp.
  { apply soon_here. left. by rewrite app_nil_r in Hp. }
  next E. apply (functor_start l (λ r, q0 `prefix_of` r ++ l) IH (body f)); [done..|].
  by rewrite Hr, <- app_assoc.
Qed.

Lemma swapping_start s : has_queued s → at_ s = Swapping → soon started s.
Proof.
  intros Hs E. pose proof (functors_fifo s (proj1 Hs)) as Hf. unfold fifo in Hf. rewrite E in Hf.
  next E. apply (taken_start (pendingFunctors_ s)); [done..|]. rewrite Hr. cbn in Hf. rewrite <- Hf. apply Hs.
Qed.

Lemma handler_start hs
    (Hrest : ∀ s, has_queued s → at_ s = Handling hs → soon started s) l : ∀ s,
  has_queued s → at_ s = InHandler l hs → soon started s.
Proof. induction l as [|a l IH]; intros s Hs E; next E; [by apply Hrest|by apply IH]. Qed.

Lemma handling_start hs : ∀ s, has_queued s → at_ s = Handling hs → soon started s.
Proof.
  induction hs as [|h hs IH]; intros s Hs E; next E; [by apply swapping_start|].
  destruct h as [|l]; [by apply IH|]. by apply (handler_start hs IH l).
Qed.

Lemma polling_start s : has_queued s → at_ s = Polling → soon started s.
Proof.
  intros Hs E. pose proof (functors_fifo s (proj1 Hs)) as Hf. unfold fifo in Hf. rewrite E in Hf.
  destruct (pendingFunctors_ s) as [|f l] eqn:Ep.
  { apply soon_here. left. cbn in Hf. rewrite app_nil_r in Hf. rewrite <- Hf. apply Hs. }
  apply soon_step; [done|..].
  - intros _. destruct (reachable_awake s (proj1 Hs)) as [_ Hw]. rewrite E in Hw. apply Hw. left. by rewrite Ep.
  - exists (poll_returned [] s). constructor; [done|]. by intros ?%not_elem_of_nil.
  - intros s1 s2 Ho Hg Ha _. unfold only_step in Ho. rewrite E in Ho. destruct Ho as [hs ->].
    by apply (handling_start hs).
Qed.

Lemma while_start s : has_queued s → at_ s = BeforeWhile → soon started s.
Proof.
  intros Hs E. next E. unfold test_quit in Ha. destruct (quit_ s); cbn in Ha.
  - apply soon_here. by right.
  - by apply polling_start.
Qed.

Lemma running_start fs : ∀ s, has_queued s → at_ s = Running fs → soon started s.
Proof.
  induction fs as [|f fs IH]; intros s Hs E; next E; [by apply while_start|].
  apply (functor_start fs (λ _, True)) with (body f); auto.
Qed.

Lemma loop_soon_starts s : has_queued s → at_ s ≠ Stopped → soon started s.
Proof.
  intros Hs Hns. destruct (at_ s) as [| |hs|l hs| |fs|l fs|] eqn:E; try done.
  - by apply while_start.
  - by apply polling_start.
  - by apply (handling_start hs).
  - apply (handler_start hs (handling_start hs) l); done.
  - by apply swapping_start.
  - by apply (running_start fs).
  - apply (functor_start fs (λ _, True)) with l; auto. intros s' Hs' E' _. by apply (running_start fs).
Qed.
End soon.

(** C16: From every reachable state in which the loop has not stopped, whatever the
    loop thread does next, whatever [poll] returns, and whatever other threads do in
    between, after finitely many steps of the loop thread every functor queued so
    far has been started or the loop has stopped; none of these steps is a
    [poll] that has to wait for its time-out. *)
Theorem queued_functors_run s :
  reachable s → at_ s ≠ Stopped →
  soon (λ s', queued s `prefix_of` ran s' ∨ at_ s' = Stopped) s.
Proof.
  intros Hr. exact (loop_soon_starts (queued s) s (conj Hr (reflexivity _))).
Qed.

End loop.

(** Functor 1 queues functor 2. *)
Definition example_body (f : nat) : list action :=
  match f with 1%nat => [QueueInLoop 2%nat] | _ => [] end.

Lemma loop_example_reachable :
  reachable example_body
    (mkState true false false false 1 [2%nat] 1 Polling 0 [1%nat; 2%nat] [1%nat]).
Proof.
  eexists. split; [by exists constructed|].
  eapply rtc_l; [left; by apply LWhile|]. cbn.
  eapply rtc_l; [right; apply (OQueue _ 1%nat)|]. cbn.
  eapply rtc_l; [right; by apply OWakeup|]. cbn.
  eapply rtc_l; [left; by apply (LPoll example_body _ [HandleRead])|]. cbn.
  eapply rtc_l; [left; by apply LHandle|]. cbn.
  eapply rtc_l; [left; by apply LBegin|]. cbn.
  eapply rtc_l; [left; by apply LSwap|]. cbn.
  eapply rtc_l; [left; by apply LCall|]. cbn.
  eapply rtc_l; [left; by apply LFunctor|]. cbn.
  eapply rtc_l; [left; by apply LFunctorEnd|]. cbn.
  eapply rtc_l; [left; by apply LEnd|]. cbn.
  eapply rtc_l; [left; by apply LWhile|]. apply rtc_refl.
Qed.

Lemma functors_fifo_once_witness :
  [1%nat; 2%nat] = [1%nat] ++ taken (F := nat) Polling ++ [2%nat].
Proof. exact (functors_fifo_once _ _ loop_example_reachable). Defined.

Lemma no_lost_wakeup_witness :
  ∃ s : state, reachable example_body s ∧ at_ s = Polling ∧ pendingFunctors_ s = [2%nat] ∧
    ran s = [1%nat] ∧ (0 < counter s ∨ owed s ≠ 0%nat).
Proof.
  eexists. split; [exact loop_example_reachable|]. split; [reflexivity|]. split; [reflexivity|].
  split; [reflexivity|]. apply (no_lost_wakeup _ _ loop_example_reachable eq_refl). left. discriminate.
Defined.

Lemma queued_functors_run_witness :
  ∃ s : state, reachable example_body s ∧ at_ s = Polling ∧ ran s = [1%nat] ∧
    soon example_body (λ s', [1%nat; 2%nat] `prefix_of` ran s' ∨ at_ s' = Stopped) s.
Proof.
  eexists. split; [exact loop_example_reachable|]. split; [reflexivity|]. split; [reflexivity|].
  apply (queued_functors_run _ _ loop_example_reachable). discriminate.
Defined.

(** A functor queued by the loop's own thread before [loop()] is entered leaves no
    wake-up: the first [poll] has only its time-out to return. *)
Lemma early_functor_sleeps (f : nat) :
  let s0 := mkState (F := nat) false false false false 0 [] 0 Stopped 0 [] [] in
  ∃ s, start (queueInLoop f s0) = Ok s ∧ at_ (test_quit s) = Polling ∧
    pendingFunctors_ (test_quit s) = [f] ∧ counter (test_quit s) = 0 ∧ owed (test_quit s) = 0%nat.
Proof. eexists. by repeat split. Qed.

(** A request to stop made before [loop()] is entered is forgotten. *)
Lemma early_quit_lost :
  let s0 := mkState (F := nat) false false false false 0 [] 0 Stopped 0 [] [] in
  ∃ s, start (quit s0) = Ok s ∧ at_ (test_quit s) = Polling.
Proof. eexists. by repeat split. Qed.

End Loop.

Module Channels.
Import Channel.Channel Poller.Poller.

Section channels.
Context `{PollerLaws P}.

Record state := mkState {
  threadId_ : Z;
  poller_ : P;
  objects : store;                          (* the channels *)
  activeChannels_ : list Z;
  currentActiveChannel_ : option Z;
  eventHandling_ : bool;
  delivered : list (Z * bool)               (* channels handled: were they registered? *)
}.

Definition isInLoopThread (tid : Z) (s : state) : bool := threadId_ s =? tid.
Definition assertInLoopThread (tid : Z) (s : state) : result unit :=
  if isInLoopThread tid s then Ok tt else Fail FatalLog.

Definition set_poller (r : store * P) (s : state) : state :=
  mkState (threadId_ s) r.2 r.1 (activeChannels_ s) (currentActiveChannel_ s) (eventHandling_ s)
    (delivered s).

(** [Channel::enableReading] and the like, with [EventLoop::updateChannel]. *)
Definition updateChannel (tid c e : Z) (s : state) : result state :=
  _ ← assertInLoopThread tid s;
  r ← set_events c e (objects s) (poller_ s);
  Ok (set_poller r s).

(** [Channel::remove] with [EventLoop::removeChannel]. *)
Definition removeChannel (tid c : Z) (s : state) : result state :=
  _ ← assertInLoopThread tid s;
  _ ← (if eventHandling_ s
       then check (bool_decide (currentActiveChannel_ s = Some c) ||
                   bool_decide (c ∉ activeChannels_ s))
       else Ok tt);
  r ← remove c (objects s) (poller_ s);
  Ok (set_poller r s).

Definition hasChannel (tid c : Z) (s : state) : result bool :=
  _ ← assertInLoopThread tid s; Poller.hasChannel c (objects s) (poller_ s).

(** What the callbacks of a channel do to channels. *)
Inductive call := Update (c e : Z) | RemoveCh (c : Z).
Definition do_call (tid : Z) (x : call) (s : state) : result state :=
  match x with Update c e => updateChannel tid c e s | RemoveCh c => removeChannel tid c s end.
Fixpoint do_calls (tid : Z) (l : list call) (s : state) : result state :=
  match l with [] => Ok s | x :: l => s ← do_call tid x s; do_calls tid l s end.

(** The for loop of [loop()]: [handleEvent] of each active channel; [calls] are
    what the callbacks of each do. *)
Fixpoint handle_active (tid : Z) (act : list Z) (calls : Z → list call) (s : state) : result state :=
  match act with
  | [] => Ok s
  | c :: act =>
      has ← hasChannel tid c s;
      s ← do_calls tid (calls c)
            (mkState (threadId_ s) (poller_ s) (objects s) (activeChannels_ s) (Some c)
               (eventHandling_ s) (delivered s ++ [(c, has)]));
      handle_active tid act calls s
  end.

(** One iteration: [poll], then the handlers. *)
Definition iterate (tid : Z) (o : outcome (P := P)) (calls : Z → list call) (s : state) : result state :=
  r ← poll o (objects s) (poller_ s);
  let s := mkState (threadId_ s) r.2.2 r.2.1 r.1 (currentActiveChannel_ s) true (delivered s) in
  s ← handle_active tid (activeChannels_ s) calls s;
  Ok (mkState (threadId_ s) (poller_ s) (objects s) (activeChannels_ s) None false (delivered s)).

(** The calls follow the rules of the poller. *)
Definition legal (x : call) (s : state) : Prop :=
  match x with
  | Update c e => ∃ ch, objects s !! c = Some ch ∧ events_ok e ∧
      (fresh ch (poller_ s) ∧ e ≠ 0 ∨ registered c ch (poller_ s) ∧ (e ≠ 0 ∨ events_ ch ≠ 0))
  | RemoveCh c => ∃ ch, objects s !! c = Some ch ∧ registered c ch (poller_ s) ∧ events_ ch = 0
  end.

Fixpoint legal_calls (tid : Z) (l : list call) (s : state) : Prop :=
  match l with
  | [] => True
  | x :: l => legal x s ∧ ∀ s', do_call tid x s = Ok s' → legal_calls tid l s'
  end.
Fixpoint legal_handlers (tid : Z) (act : list Z) (calls : Z → list call) (s : state) : Prop :=
  match act with
  | [] => True
  | c :: act =>
      let s1 := mkState (threadId_ s) (poller_ s) (objects s) (activeChannels_ s) (Some c)
                  (eventHandling_ s) (delivered s ++ [(c, true)]) in
      legal_calls tid (calls c) s1 ∧
      ∀ s', do_calls tid (calls c) s1 = Ok s' → legal_handlers tid act calls s'
  end.

Definition is_registered (c : Z) (s : state) : Prop :=
  ∃ ch, objects s !! c = Some ch ∧ registered c ch (poller_ s).

(** Channels other than the current one that are active stay registered. *)
Record keeps (act : list Z) (s s' : state) : Prop := {
  k_inv : pinv (objects s') (poller_ s');
  k_active : activeChannels_ s' = activeChannels_ s;
  k_current : currentActiveChannel_ s' = currentActiveChannel_ s;
  k_handling : eventHandling_ s' = eventHandling_ s;
  k_delivered : delivered s' = delivered s;
  k_registered : ∀ c, c ∈ act → is_registered c s → is_registered c s'
}.

Lemma keeps_trans act s1 s2 s3 : keeps act s1 s2 → keeps act s2 s3 → keeps act s1 s3.
Proof. intros [] []. constructor; try congruence; auto. Qed.

Lemma call_keeps tid x act s s' :
  pinv (objects s) (poller_ s) → eventHandling_ s = true →
  (∀ c, c ∈ act → c ∈ activeChannels_ s ∧ currentActiveChannel_ s ≠ Some c) →
  legal x s → do_call tid x s = Ok s' → keeps act s s'.
Proof.
  intros Hi Hh Hact Hl E. destruct x as [c e|c]; cbn in E; unfold updateChannel, removeChannel in E; inv_result.
  - destruct Hl as (ch & Hσ & Hok & Hcase).
    destruct (update_law _ _ c ch e Hi Hσ Hok Hcase) as (i & σ' & p' & Eq & Hi' & _ & -> & Ec).
    rewrite Eq in Hr0. injection Hr0 as <-. constructor; try done; cbn.
    intros d Hd (dh & Hdh & Hdr). unfold is_registered. cbn. destruct (decide (d = c)) as [->|Hne].
    + rewrite lookup_insert_eq. eexists. split; [done|]. unfold registered. cbn. rewrite Ec. apply lookup_insert_eq.
    + rewrite lookup_insert_ne by done. exists dh. split; [done|]. unfold registered in *. rewrite Ec.
      rewrite lookup_insert_ne; [done|]. intros Efd.
      destruct Hcase as [[(_ & _ & Hn) _]|[Hreg _]]; [congruence|]. unfold registered in Hreg. congruence.
  - destruct Hl as (ch & Hσ & Hreg & He). rewrite Hh in Hr0. apply check_Ok_inv in Hr0.
    destruct (remove_law _ _ c ch Hi Hσ Hreg He) as (σ' & p' & Eq & Hi' & Ec & Hsame & _).
    rewrite Eq in Hr1. injection Hr1 as <-. constructor; try done; cbn.
    intros d Hd (dh & Hdh & Hdr). destruct (Hact d Hd) as [Hin Hcur].
    assert (d ≠ c) as Hne.
    { intros ->. apply orb_true_iff in Hr0 as [Hb|Hb]; apply bool_decide_eq_true in Hb; [done|by apply Hb]. }
    specialize (Hsame d). rewrite lookup_insert_ne, Hdh in Hsame by done.
    apply fmap_Some in Hsame as (dh' & E' & Eq'). exists dh'. split; [done|]. apply (f_equal fd_) in Eq'.
    unfold registered in *. cbn in *. rewrite <- Eq', Ec. rewrite lookup_delete_ne; [done|]. congruence.
Qed.

Lemma calls_keep tid l act : ∀ s s',
  pinv (objects s) (poller_ s) → eventHandling_ s = true →
  (∀ c, c ∈ act → c ∈ activeChannels_ s ∧ currentActiveChannel_ s ≠ Some c) →
  legal_calls tid l s → do_calls tid l s = Ok s' → keeps act s s'.
Proof.
  induction l as [|x l IH]; intros s s' Hi Hh Hact Hl E; cbn in E; inv_result; [by constructor|].
  destruct Hl as [Hx Hl]. pose proof (call_keeps tid x act s r Hi Hh Hact Hx Hr) as Hk.
  destruct Hk as [K1 K2 K3 K4 K5 K6]. eapply keeps_trans; [by constructor|].
  apply (IH r s'); try done; [by rewrite K4| |by apply Hl].
  intros c Hc. rewrite K2, K3. by apply Hact.
Qed.

Lemma handle_active_registered tid calls act : ∀ s s',
  NoDup act → pinv (objects s) (poller_ s) → eventHandling_ s = true →
  (∀ c, c ∈ act → c ∈ activeChannels_ s ∧ is_registered c s) →
  legal_handlers tid act calls s → handle_active tid act calls s = Ok s' →
  delivered s' = delivered s ++ ((λ c, (c, true)) <$> act).
Proof.
  induction act as [|c act IH]; intros s s' Hn Hi Hh Hact Hl E; cbn in E; inv_result.
  { by rewrite app_nil_r. }
  apply NoDup_cons in Hn as [Hc Hn]. destruct (Hact c ltac:(left)) as [Hin (ch & Hσ & Hreg)].
  unfold hasChannel in Hr. inv_result. unfold Poller.hasChannel in Hr. rewrite (deref_Ok _ _ _ Hσ), bind_Ok in Hr.
  unfold registered in Hreg. rewrite Hreg, bool_decide_true in Hr by done. injection Hr as <-.
  cbn in Hl. destruct Hl as [Hl1 Hl2].
  match type of Hr0 with do_calls _ _ ?s1 = _ => set (s1' := s1) in * end.
  assert (keeps act s1' r0) as [K1 K2 K3 K4 K5 K6].
  { apply (calls_keep tid (calls c)); try done. intros d Hd. destruct (Hact d ltac:(by right)) as [Hd1 _].
    split; [done|]. cbn. intros [= ->]. done. }
  rewrite (IH r0 s'); try done.
  - rewrite K5. cbn. by rewrite <- app_assoc.
  - by rewrite K4.
  - intros d Hd. destruct (Hact d ltac:(by right)) as [Hd1 Hd2]. rewrite K2. split; [done|]. by apply K6.
  - by apply Hl2.
Qed.

(** In an iteration of the loop, events are delivered to exactly the channels
    [poll] reported, in its order, and each is still registered when its turn
    comes, although handlers add and remove channels in between. *)
Theorem iterate_delivers_registered tid o act calls s s' :
  pinv (objects s) (poller_ s) → outcome_ok o (objects s) (poller_ s) act →
  NoDup act.*1 → (∀ c, c ∈ act.*1 → is_registered c s) →
  (∀ r, poll o (objects s) (poller_ s) = Ok r →
     legal_handlers tid r.1 calls
       (mkState (threadId_ s) r.2.2 r.2.1 r.1 (currentActiveChannel_ s) true (delivered s))) →
  iterate tid o calls s = Ok s' →
  delivered s' = delivered s ++ ((λ c, (c, true)) <$> act.*1).
Proof.
  intros Hi Ho Hn Hreg Hl E. unfold iterate in E.
  destruct (poll_law _ _ o act Hi Ho) as (σ' & p' & Ep & Hi' & Ec & _ & Hσ').
  specialize (Hl _ Ep). rewrite Ep, bind_Ok in E. inv_result. cbn in *.
  eapply handle_active_registered in Hr; try done. cbn. intros c Hc. split; [done|].
  destruct (Hreg c Hc) as (ch & Hσ & Hr0). unfold is_registered. cbn. rewrite Hσ', Hσ.
  destruct (list_find _ act) as [[j a]|]; eexists; (split; [done|]); unfold registered in *; by rewrite Ec.
Qed.

End channels.

Definition epoll_outcome (l : list (Z * Z)) : outcome (P := EPollPoller.EPollPoller) := l.

(** A channel whose read callback disables and removes the channel itself. *)
Lemma iterate_delivers_registered_witness :
  let ch := set_index 1 (with_events 3 (make 5)) in
  let p := EPollPoller.mkEPollPoller {[5 := 16]} {[5 := (3, 16)]} 16 [] in
  let s := mkState 1 p {[16 := ch]} [] None false [] in
  ∃ s', iterate 1 (epoll_outcome [(16, 1)]) (λ _, [Update 16 0; RemoveCh 16]) s = Ok s' ∧ delivered s' = [(16, true)].
Proof.
  intros ch p s.
  destruct (iterate 1 (epoll_outcome [(16, 1)]) (λ _, [Update 16 0; RemoveCh 16]) s) as [s'|] eqn:E; [|vm_compute in E; discriminate].
  exists s'. split; [done|].
  assert (pinv (objects s) (poller_ s)) as Hi.
  { constructor; cbn.
    - intros fd c [<- <-]%lookup_singleton_Some. exists ch. split_and!; try done. by left.
    - intros fd [x [<- <-]%lookup_singleton_Some]. by eexists.
    - reflexivity. }
  apply (iterate_delivers_registered 1 (epoll_outcome [(16, 1)]) [(16, 1)] (λ _, [Update 16 0; RemoveCh 16]) s s'); try done.
  - split_and!; try done; [apply NoDup_singleton|]. intros c r [= -> ->]%list_elem_of_singleton. by exists 5, 3.
  - apply NoDup_singleton.
  - intros c ->%list_elem_of_singleton. by exists ch.
  - intros r Hr. vm_compute in Hr. injection Hr as <-. split; [|done]. split.
    + eexists. split; [reflexivity|]. split; [by left|]. right. split; [reflexivity|]. right. discriminate.
    + intros s1 E1. vm_compute in E1. injection E1 as <-. split; [|done].
      eexists. split; [reflexivity|]. split; reflexivity.
Defined.

End Channels.

Module Timers.
Import Timestamp.Timestamp TimerQueue.TimerQueue.

(** [inLoop]: the caller is in the loop's thread; [p] the address of the new timer. These
    are calls that are not interrupted; for one made in another thread see
    [addTimer_start] and [addTimer_return]. *)
Definition runAt (inLoop : bool) (p : Z) (time : Timestamp) (cb : Z) (s : state) : result (TimerId * state) :=
  addTimer inLoop p cb time dzero s.
Definition runAfter (inLoop : bool) (p : Z) (delay : double) (cb : Z) (s : state) : result (TimerId * state) :=
  time ← addTime (mkTimestamp (clock s)) delay;
  runAt inLoop p time cb s.
Definition runEvery (inLoop : bool) (p : Z) (interval : double) (cb : Z) (s : state) : result (TimerId * state) :=
  time ← addTime (mkTimestamp (clock s)) interval;
  addTimer inLoop p cb time interval s.
Definition cancel (inLoop : bool) (timerId : TimerId) (s : state) : result state :=
  TimerQueue.cancel inLoop timerId s.

End Timers.
