(* ===== verification/BlockingQueue.v ===== *)
(** * Blocking queues ([base/BlockingQueue.h], [base/BoundedBlockingQueue.h])

    Every operation holds the mutex except while it waits on a condition, so the
    code between two waits is one step. A thread that calls [put] or [take] is
    ready (about to take the mutex, on entry or after a wake-up) or waiting;
    notify() makes one waiting thread ready, and a waiting thread may also wake up
    for no reason. *)

From stdpp Require Import sets relations.
From S2P Require Import Prelude.

Module BlockingQueue.

Section queue.
Context {T : Type}.

(** [BlockingQueue] is never full; [BoundedBlockingQueue(maxSize)] keeps a
    circular buffer of that capacity. *)
Variable capacity : option Z.
Definition full (q : list T) : bool :=
  match capacity with None => false | Some n => zlen q =? n end.
Definition empty (q : list T) : bool := match q with [] => true | _ => false end.

Inductive thread :=
  | Idle
  | PutReady (x : T)
  | PutWaiting (x : T)                     (* in notFull_.wait() *)
  | TakeReady
  | TakeWaiting.                           (* in notEmpty_.wait() *)

Definition put_ready (t : thread) : bool := match t with PutReady _ => true | _ => false end.
Definition put_waiting (t : thread) : bool := match t with PutWaiting _ => true | _ => false end.
Definition take_ready (t : thread) : bool := match t with TakeReady => true | _ => false end.
Definition take_waiting (t : thread) : bool := match t with TakeWaiting => true | _ => false end.

Record state := mkState {
  queue_ : list T;
  threads : list thread;
  puts : list T;                           (* elements of completed puts, in order *)
  takes : list T                           (* elements returned by take, in order *)
}.

Definition initial (n : nat) : state := mkState [] (replicate n Idle) [] [].

(** [notify()] on a condition: wake one waiter, if there is one. *)
Inductive notify_one (waiting : thread → bool) (wake : thread → thread) :
    list thread → list thread → Prop :=
  | NotifyOne l i t : l !! i = Some t → waiting t = true →
      notify_one waiting wake l (<[i := wake t]> l)
  | NotifyNone l : (∀ i t, l !! i = Some t → waiting t = false) → notify_one waiting wake l l.

Definition wake (t : thread) : thread :=
  match t with PutWaiting x => PutReady x | TakeWaiting => TakeReady | _ => t end.

Inductive step : state → state → Prop :=
  | CallPut s i x : threads s !! i = Some Idle →
      step s (mkState (queue_ s) (<[i := PutReady x]> (threads s)) (puts s) (takes s))
  | CallTake s i : threads s !! i = Some Idle →
      step s (mkState (queue_ s) (<[i := TakeReady]> (threads s)) (puts s) (takes s))
  | PutWait s i x : threads s !! i = Some (PutReady x) → full (queue_ s) = true →
      step s (mkState (queue_ s) (<[i := PutWaiting x]> (threads s)) (puts s) (takes s))
  | PutDone s i x l : threads s !! i = Some (PutReady x) → full (queue_ s) = false →
      notify_one take_waiting wake (<[i := Idle]> (threads s)) l →
      step s (mkState (queue_ s ++ [x]) l (puts s ++ [x]) (takes s))
  | TakeWait s i : threads s !! i = Some TakeReady → empty (queue_ s) = true →
      step s (mkState (queue_ s) (<[i := TakeWaiting]> (threads s)) (puts s) (takes s))
  | TakeDone s i x q l : threads s !! i = Some TakeReady → queue_ s = x :: q →
      notify_one put_waiting wake (<[i := Idle]> (threads s)) l →
      step s (mkState q l (puts s) (takes s ++ [x]))
  | Spurious s i t : threads s !! i = Some t → put_waiting t || take_waiting t = true →
      step s (mkState (queue_ s) (<[i := wake t]> (threads s)) (puts s) (takes s)).

Definition reachable (n : nat) (s : state) : Prop := rtc step (initial n) s.

Record inv (s : state) : Prop := {
  inv_fifo : puts s = takes s ++ queue_ s;
  (** a waiting consumer leaves no element without a ready consumer *)
  inv_take : 0 < count take_waiting (threads s) → zlen (queue_ s) ≤ count take_ready (threads s);
  (** a waiting producer leaves no room without a ready producer *)
  inv_put :
    match capacity with
    | Some n => zlen (queue_ s) ≤ n ∧
        (0 < count put_waiting (threads s) → n - zlen (queue_ s) ≤ count put_ready (threads s))
    | None => count put_waiting (threads s) = 0
    end
}.

(** The counts after a change of one thread. *)
Ltac counts H :=
  rewrite ?(count_insert take_waiting _ _ _ _ H), ?(count_insert take_ready _ _ _ _ H),
    ?(count_insert put_waiting _ _ _ _ H), ?(count_insert put_ready _ _ _ _ H) in *; cbn [b2z
    take_waiting take_ready put_waiting put_ready] in *.

Lemma notify_take l l' :
  notify_one take_waiting wake l l' →
  count put_waiting l' = count put_waiting l ∧ count put_ready l' = count put_ready l ∧
  (0 < count take_waiting l → count take_waiting l' = count take_waiting l - 1 ∧
                              count take_ready l' = count take_ready l + 1) ∧
  (count take_waiting l = 0 → l' = l).
Proof.
  intros [k i t Hi Ht|k Hn].
  - assert (0 < count take_waiting k) by (apply count_pos; eauto).
    destruct t; try discriminate Ht. cbn [wake]. counts Hi. lia.
  - split_and!; try done. intros Hp. apply count_pos in Hp as (i & t & Hi & Ht). by rewrite (Hn i t Hi) in Ht.
Qed.

Lemma notify_put l l' :
  notify_one put_waiting wake l l' →
  count take_waiting l' = count take_waiting l ∧ count take_ready l' = count take_ready l ∧
  (0 < count put_waiting l → count put_waiting l' = count put_waiting l - 1 ∧
                             count put_ready l' = count put_ready l + 1) ∧
  (count put_waiting l = 0 → l' = l).
Proof.
  intros [k i t Hi Ht|k Hn].
  - assert (0 < count put_waiting k) by (apply count_pos; eauto).
    destruct t; try discriminate Ht. cbn [wake]. counts Hi. lia.
  - split_and!; try done. intros Hp. apply count_pos in Hp as (i & t & Hi & Ht). by rewrite (Hn i t Hi) in Ht.
Qed.

Lemma inv_call s i t :
  inv s → threads s !! i = Some Idle → (t = TakeReady ∨ ∃ x, t = PutReady x) →
  inv (mkState (queue_ s) (<[i := t]> (threads s)) (puts s) (takes s)).
Proof.
  intros [Hf Ht Hp] Hi Hcase. destruct Hcase as [->|[x ->]]; constructor; cbn; try done; counts Hi.
  all: try (intros; lia).
  all: destruct capacity; [|lia]; (split; [apply Hp|]); intros; destruct Hp; lia.
Qed.

Lemma inv_wait s i t :
  inv s → threads s !! i = Some t →
  (t = TakeReady ∧ empty (queue_ s) = true ∨ ∃ x, t = PutReady x ∧ full (queue_ s) = true) →
  inv (mkState (queue_ s)
         (<[i := match t with PutReady x => PutWaiting x | _ => TakeWaiting end]> (threads s))
         (puts s) (takes s)).
Proof.
  intros [Hf Ht Hp] Hi Hcase. pose proof (count_nonneg take_ready (<[i := TakeWaiting]> (threads s))) as Hr.
  destruct Hcase as [[-> He]|(x & -> & Hfull)]; constructor; cbn; try done; counts Hi.
  - intros _. destruct (queue_ s); [|done]. rewrite zlen_nil. lia.
  - destruct capacity; [|lia]. split; [apply Hp|]. intros. destruct Hp. lia.
  - intros. lia.
  - pose proof (count_nonneg put_ready (<[i := PutWaiting x]> (threads s))) as Hr'. counts Hi.
    unfold full in Hfull. destruct capacity as [n|]; [|done]. to_prop. split; [lia|]. intros _. lia.
Qed.

Lemma inv_wake s i t :
  inv s → threads s !! i = Some t → put_waiting t || take_waiting t = true →
  inv (mkState (queue_ s) (<[i := wake t]> (threads s)) (puts s) (takes s)).
Proof.
  intros [Hf Ht Hp] Hi Hw. destruct t; try discriminate Hw; constructor; cbn; try done; counts Hi;
    try (intros; lia); destruct capacity; try lia; try (split; [apply Hp|]; intros; destruct Hp; lia).
  assert (0 < count put_waiting (threads s)) by (apply count_pos; eauto). lia.
Qed.

Lemma inv_put_done s i x l :
  inv s → threads s !! i = Some (PutReady x) → full (queue_ s) = false →
  notify_one take_waiting wake (<[i := Idle]> (threads s)) l →
  inv (mkState (queue_ s ++ [x]) l (puts s ++ [x]) (takes s)).
Proof.
  intros [Hf Ht Hp] Hi Hfull Hn. apply notify_take in Hn as (N1 & N2 & N3 & N4).
  pose proof (count_nonneg take_waiting (<[i := Idle]> (threads s))) as Hnn. counts Hi.
  constructor; cbn.
  - by rewrite Hf, <- app_assoc.
  - intros Hw. rewrite zlen_app. change (zlen [x]) with 1.
    destruct (decide (count take_waiting (threads s) = 0)) as [E|E].
    + rewrite N4 in Hw by lia. counts Hi. lia.
    + destruct N3 as [N3 N3']; [lia|]. lia.
  - rewrite N1, N2, zlen_app. change (zlen [x]) with 1. unfold full in Hfull.
    destruct capacity as [n|]; [|lia]. to_prop. destruct Hp as [Hp1 Hp2]. split; [lia|]. intros. lia.
Qed.

Lemma inv_take_done s i x q l :
  inv s → threads s !! i = Some TakeReady → queue_ s = x :: q →
  notify_one put_waiting wake (<[i := Idle]> (threads s)) l →
  inv (mkState q l (puts s) (takes s ++ [x])).
Proof.
  intros [Hf Ht Hp] Hi Hq Hn. apply notify_put in Hn as (N1 & N2 & N3 & N4).
  pose proof (count_nonneg put_waiting (<[i := Idle]> (threads s))) as Hnn. counts Hi.
  rewrite Hq in *. rewrite zlen_cons in *. constructor; cbn.
  - by rewrite Hf, <- app_assoc.
  - rewrite N1, N2. intros. lia.
  - destruct capacity as [n|].
    + destruct Hp as [Hp1 Hp2]. split; [lia|]. intros Hw.
      destruct (decide (count put_waiting (threads s) = 0)) as [E|E].
      * rewrite N4 in Hw by lia. counts Hi. lia.
      * destruct N3 as [N3 N3']; [lia|]. lia.
    + rewrite N4 by lia. counts Hi. lia.
Qed.

Lemma bq_inv_step s s' : step s s' → inv s → inv s'.
Proof.
  intros Hs Hi. destruct Hs.
  - apply inv_call; eauto.
  - apply inv_call; eauto.
  - eapply (inv_wait s i (PutReady x)); eauto.
  - eapply inv_put_done; eauto.
  - eapply (inv_wait s i TakeReady); eauto.
  - eapply inv_take_done; eauto.
  - by apply inv_wake.
Qed.

Lemma count_replicate (f : thread → bool) n : f Idle = false → count f (replicate n Idle) = 0.
Proof. intros Hf. induction n as [|n IH]; [done|]. cbn. rewrite Hf, IH. done. Qed.

Lemma bq_reachable_inv n s : (∀ k, capacity = Some k → 0 ≤ k) → reachable n s → inv s.
Proof.
  intros Hc Hr. assert (inv (initial n)) as H0.
  { constructor; cbn; rewrite ?count_replicate by done; try done. destruct capacity as [k|]; [|done].
    split; [by apply Hc|lia]. }
  revert H0. unfold reachable in Hr. induction Hr as [|s s' s'' Hs _ IH]; [done|]. intros H0. apply IH.
  by eapply bq_inv_step.
Qed.

(** The queue is first in, first out across all threads (what the [take]s
    returned, followed by what is in the queue, is what the [put]s stored, in
    order) and never exceeds its capacity. *)
Theorem queue_fifo n s :
  (∀ k, capacity = Some k → 0 ≤ k) → reachable n s →
  puts s = takes s ++ queue_ s ∧ ∀ k, capacity = Some k → zlen (queue_ s) ≤ k.
Proof.
  intros Hc Hr. destruct (bq_reachable_inv n s Hc Hr) as [Hf _ Hp]. split; [done|]. intros k Ek.
  rewrite Ek in Hp. apply Hp.
Qed.

(** C25: No notification is lost: as long as there is an element in the queue some
    consumer is ready if any waits, as long as there is room some producer is
    ready if any waits; so with positive capacity producers and consumers are
    never all asleep. *)
Theorem queue_no_deadlock n s :
  (∀ k, capacity = Some k → 0 < k) → reachable n s →
  (0 < count take_waiting (threads s) → queue_ s ≠ [] → 0 < count take_ready (threads s)) ∧
  (0 < count put_waiting (threads s) → full (queue_ s) = false → 0 < count put_ready (threads s)) ∧
  (0 < count take_waiting (threads s) → 0 < count put_waiting (threads s) →
   0 < count take_ready (threads s) ∨ 0 < count put_ready (threads s)).
Proof.
  intros Hc Hr. destruct (bq_reachable_inv n s) as [_ Ht Hp]; [|done|].
  { intros k Ek. specialize (Hc k Ek). lia. }
  pose proof (zlen_nonneg (queue_ s)). split; [|split].
  - intros Hw Hq. specialize (Ht Hw). destruct (queue_ s); [done|]. rewrite zlen_cons in Ht.
    pose proof (zlen_nonneg l). lia.
  - intros Hw Hfull. unfold full in Hfull. destruct capacity as [k|]; [|lia]. to_prop.
    destruct Hp as [Hp1 Hp2]. specialize (Hp2 Hw). lia.
  - intros Hw Hw'. specialize (Ht Hw). destruct capacity as [k|]; [|lia].
    destruct Hp as [Hp1 Hp2]. specialize (Hp2 Hw'). specialize (Hc k eq_refl). lia.
Qed.

End queue.

(** A bounded queue of capacity 1: a consumer waits, a producer puts and wakes it. *)
Lemma bq_example_reachable :
  reachable (Some 1) 2 (mkState [7] [TakeReady; Idle] [7] []).
Proof.
  unfold reachable. eapply rtc_l; [by apply (CallTake _ _ 0)|]. cbn.
  eapply rtc_l; [by apply (TakeWait _ _ 0)|]. cbn.
  eapply rtc_l; [by apply (CallPut _ _ 1 7)|]. cbn.
  eapply rtc_l; [eapply (PutDone _ _ 1 7); [done..|]; by apply (NotifyOne _ _ _ 0 TakeWaiting)|].
  apply rtc_refl.
Qed.

Lemma queue_fifo_witness : [7] = [] ++ [7] ∧ ∀ k, Some 1 = Some k → zlen [7] ≤ k.
Proof.
  apply (queue_fifo (Some 1) 2 (mkState [7] [TakeReady; Idle] [7] [])).
  - intros k [= <-]. lia.
  - exact bq_example_reachable.
Defined.

(** Two consumers wait on an empty queue; a put wakes one of them. *)
Lemma bq_waiting_reachable :
  reachable (Some 1) 3 (mkState [7] [TakeReady; TakeWaiting; Idle] [7] []).
Proof.
  unfold reachable. eapply rtc_l; [by apply (CallTake _ _ 0)|]. cbn.
  eapply rtc_l; [by apply (TakeWait _ _ 0)|]. cbn.
  eapply rtc_l; [by apply (CallTake _ _ 1)|]. cbn.
  eapply rtc_l; [by apply (TakeWait _ _ 1)|]. cbn.
  eapply rtc_l; [by apply (CallPut _ _ 2 7)|]. cbn.
  eapply rtc_l; [eapply (PutDone _ _ 2 7); [done..|]; by apply (NotifyOne _ _ _ 0 TakeWaiting)|].
  apply rtc_refl.
Qed.

Lemma queue_no_deadlock_witness :
  ∃ s : state (T := Z), reachable (Some 1) 3 s ∧ queue_ s = [7] ∧
    0 < count take_waiting (threads s) ∧ 0 < count take_ready (threads s).
Proof.
  eexists. split; [exact bq_waiting_reachable|]. split; [reflexivity|]. split; [reflexivity|].
  apply (queue_no_deadlock (Some 1) 3 _ ltac:(intros k [= <-]; lia) bq_waiting_reachable);
    [reflexivity|discriminate].
Defined.

End BlockingQueue.
