(* ===== verification/ThreadPool.v ===== *)
(** * ThreadPool ([base/ThreadPool.h], [base/ThreadPool.cc])

    Worker threads and the threads that call [run], as a step relation: the code
    between two waits holds the mutex and is one step (see [BlockingQueue]).
    Tasks are named by numbers. *)

From stdpp Require Import sets relations.
From S2P Require Import Prelude.

Module ThreadPool.

Inductive worker :=
  | AtWhile                       (* while (running_) of runInThread *)
  | Taking                        (* in take(), about to hold the mutex *)
  | Waiting                       (* in notEmpty_.wait() *)
  | Executing (task : Z)
  | Exited.

Inductive client :=
  | Outside
  | Submitting (task : Z)         (* in run(), about to hold the mutex *)
  | Blocked (task : Z).           (* in notFull_.wait() *)

Definition waiting (w : worker) : bool := match w with Waiting => true | _ => false end.
Definition taking (w : worker) : bool := match w with Taking => true | _ => false end.
Definition executing (w : worker) : list Z := match w with Executing t => [t] | _ => [] end.
Definition blocked (c : client) : bool := match c with Blocked _ => true | _ => false end.
Definition wake_worker (w : worker) : worker := match w with Waiting => Taking | _ => w end.
Definition wake_client (c : client) : client := match c with Blocked t => Submitting t | _ => c end.

Record state := mkState {
  queue_ : list Z;
  running_ : bool;
  workers : list worker;
  clients : list client;
  submitted : list Z;             (* pushed by run(), in order *)
  taken : list Z;                 (* popped by take(), in order *)
  executed : list Z               (* completed, in the order of completion *)
}.

Section pool.
Variable maxQueueSize_ : Z.

Definition isFull (q : list Z) : bool := (0 <? maxQueueSize_) && (maxQueueSize_ <=? zlen q).

(** After [start(numThreads)]. *)
Definition start (numThreads : nat) (numClients : nat) : state :=
  mkState [] true (replicate numThreads AtWhile) (replicate numClients Outside) [] [] [].

Definition set_worker (i : nat) (w : worker) (s : state) : state :=
  mkState (queue_ s) (running_ s) (<[i := w]> (workers s)) (clients s) (submitted s) (taken s)
    (executed s).
Definition set_client (i : nat) (c : client) (s : state) : state :=
  mkState (queue_ s) (running_ s) (workers s) (<[i := c]> (clients s)) (submitted s) (taken s)
    (executed s).

(** [notify()]: one waiter, if any. *)
Inductive notify {A} (p : A → bool) (wake : A → A) : list A → list A → Prop :=
  | NotifyOne l i x : l !! i = Some x → p x = true → notify p wake l (<[i := wake x]> l)
  | NotifyNone l : (∀ i x, l !! i = Some x → p x = false) → notify p wake l l.

Inductive step : state → state → Prop :=
  (* while (running_) *)
  | Enter s i : workers s !! i = Some AtWhile → running_ s = true → step s (set_worker i Taking s)
  | Leave s i : workers s !! i = Some AtWhile → running_ s = false → step s (set_worker i Exited s)
  (* take() *)
  | TakeWait s i : workers s !! i = Some Taking → queue_ s = [] → running_ s = true →
      step s (set_worker i Waiting s)
  | TakeNone s i : workers s !! i = Some Taking → queue_ s = [] → running_ s = false →
      step s (set_worker i AtWhile s)
  | TakeTask s i t q cs : workers s !! i = Some Taking → queue_ s = t :: q →
      (if 0 <? maxQueueSize_ then notify blocked wake_client (clients s) cs else cs = clients s) →
      step s (mkState q (running_ s) (<[i := Executing t]> (workers s)) cs (submitted s)
                (taken s ++ [t]) (executed s))
  (* task() *)
  | Execute s i t : workers s !! i = Some (Executing t) →
      step s (mkState (queue_ s) (running_ s) (<[i := AtWhile]> (workers s)) (clients s) (submitted s)
                (taken s) (executed s ++ [t]))
  (* run(): without threads the task runs in the caller *)
  | RunHere s i t : clients s !! i = Some Outside → workers s = [] →
      step s (mkState (queue_ s) (running_ s) (workers s) (clients s) (submitted s ++ [t])
                (taken s ++ [t]) (executed s ++ [t]))
  | Run s i t : clients s !! i = Some Outside → workers s ≠ [] → step s (set_client i (Submitting t) s)
  | RunWait s i t : clients s !! i = Some (Submitting t) → isFull (queue_ s) = true →
      step s (set_client i (Blocked t) s)
  | RunPush s i t ws : clients s !! i = Some (Submitting t) → workers s ≠ [] → isFull (queue_ s) = false →
      notify waiting wake_worker (workers s) ws →
      step s (mkState (queue_ s ++ [t]) (running_ s) ws (<[i := Outside]> (clients s))
                (submitted s ++ [t]) (taken s) (executed s))
  (* stop(), up to the joins: notifyAll() *)
  | Stop s :
      step s (mkState (queue_ s) false (wake_worker <$> workers s) (clients s) (submitted s) (taken s)
                (executed s))
  (* spurious wake-ups *)
  | SpuriousWorker s i : workers s !! i = Some Waiting → step s (set_worker i Taking s)
  | SpuriousClient s i t : clients s !! i = Some (Blocked t) → step s (set_client i (Submitting t) s).

Definition reachable (n k : nat) (s : state) : Prop := rtc step (start n k) s.

(** ** Safety *)

Definition in_execution (s : state) : list Z := workers s ≫= executing.

Record inv (s : state) : Prop := {
  inv_threads : workers s = [] → queue_ s = [];
  inv_fifo : submitted s = taken s ++ queue_ s;
  inv_once : taken s ≡ₚ executed s ++ in_execution s;
  inv_bound : 0 < maxQueueSize_ → zlen (queue_ s) ≤ maxQueueSize_;
  inv_wake : 0 < count waiting (workers s) → zlen (queue_ s) ≤ count taking (workers s);
  inv_stopped : running_ s = false → count waiting (workers s) = 0
}.

Lemma insert_nil_inv {A} (l : list A) i x y : l !! i = Some x → <[i := y]> l = [] → False.
Proof. intros Hi E. apply lookup_lt_Some in Hi. apply (f_equal length) in E. rewrite length_insert in E. cbn in E. lia. Qed.

Lemma in_execution_insert l i w w' :
  l !! i = Some w → executing w = [] → executing w' ++ (l ≫= executing) ≡ₚ (<[i := w']> l ≫= executing).
Proof.
  revert i. induction l as [|x l IH]; intros [|i] Hi Hw; cbn in Hi; simplify_eq.
  - cbn. by rewrite Hw.
  - change (<[S i := w']> (x :: l)) with (x :: <[i := w']> l). cbn. rewrite <- (IH i Hi Hw).
    rewrite !(assoc_L (++)). by rewrite (Permutation_app_comm (executing w') (executing x)).
Qed.

Lemma in_execution_done l i t :
  l !! i = Some (Executing t) → t :: (<[i := AtWhile]> l ≫= executing) ≡ₚ (l ≫= executing).
Proof.
  revert i. induction l as [|x l IH]; intros [|i] Hi; cbn in Hi; simplify_eq; [done|].
  change (<[S i := AtWhile]> (x :: l)) with (x :: <[i := AtWhile]> l). cbn. rewrite <- (IH i Hi).
  by rewrite Permutation_middle.
Qed.

Lemma in_execution_wake l ws :
  notify waiting wake_worker l ws → (ws ≫= executing) ≡ₚ (l ≫= executing).
Proof.
  intros [k i x Hi Hx|k Hn]; [|done]. destruct x; try discriminate Hx.
  symmetry. by apply (in_execution_insert k i Waiting Taking).
Qed.

Lemma in_execution_wake_all l : ((wake_worker <$> l) ≫= executing) = (l ≫= executing).
Proof. induction l as [|[] l IH]; cbn; by rewrite ?IH. Qed.

Lemma count_wake_all l : count waiting (wake_worker <$> l) = 0.
Proof. induction l as [|[] l IH]; cbn; by rewrite ?IH. Qed.

Ltac counts H :=
  rewrite ?(count_insert waiting _ _ _ _ H), ?(count_insert taking _ _ _ _ H) in *;
  cbn [b2z waiting taking] in *.

Lemma notify_counts l ws :
  notify waiting wake_worker l ws →
  (0 < count waiting l → count waiting ws = count waiting l - 1 ∧ count taking ws = count taking l + 1) ∧
  (count waiting l = 0 → ws = l).
Proof.
  intros [k i x Hi Hx|k Hn].
  - assert (0 < count waiting k) by (apply count_pos; eauto).
    destruct x; try discriminate Hx. cbn [wake_worker]. counts Hi. lia.
  - split; [|done]. intros Hp. apply count_pos in Hp as (i & x & Hi & Hx). by rewrite (Hn i x Hi) in Hx.
Qed.

(** A worker moves between places where it executes nothing. *)
Lemma inv_worker s i w w' :
  inv s → workers s !! i = Some w → executing w = [] → executing w' = [] →
  (waiting w' = true → queue_ s = [] ∧ running_ s = true) → (taking w = true → waiting w' = true ∨ queue_ s = []) →
  inv (set_worker i w' s).
Proof.
  intros [Hz Hf Ho Hb Hw Hs] Hi He He' Hwait Htake. constructor; cbn; try done.
  - intros E. by apply (insert_nil_inv _ _ _ _ Hi) in E.
  - rewrite Ho. unfold in_execution. cbn. rewrite <- (in_execution_insert _ _ _ w' Hi He). by rewrite He'.
  - pose proof (count_nonneg taking (<[i := w']> (workers s))) as Hn. intros Hpos.
    destruct (queue_ s) as [|t q] eqn:Eq; [rewrite zlen_nil; lia|].
    rewrite (count_insert waiting _ _ _ _ Hi), (count_insert taking _ _ _ _ Hi) in *.
    destruct (waiting w') eqn:E1; [by destruct Hwait|].
    destruct (taking w) eqn:E2; [by destruct (Htake eq_refl)|]. unfold b2z in *.
    destruct (waiting w), (taking w'); lia.
  - intros Hr. specialize (Hs Hr). pose proof (count_nonneg waiting (<[i := w']> (workers s))) as Hn.
    rewrite (count_insert waiting _ _ _ _ Hi) in *. destruct (waiting w') eqn:E1; [destruct Hwait; congruence|].
    unfold b2z in *. destruct (waiting w); lia.
Qed.

Lemma inv_take s i t q cs :
  inv s → workers s !! i = Some Taking → queue_ s = t :: q →
  inv (mkState q (running_ s) (<[i := Executing t]> (workers s)) cs (submitted s)
         (taken s ++ [t]) (executed s)).
Proof.
  intros [Hz Hf Ho Hb Hw Hs] Hi Hq. rewrite Hq in *. rewrite zlen_cons in *. constructor; cbn.
  - intros E. by apply (insert_nil_inv _ _ _ _ Hi) in E.
  - by rewrite Hf, <- app_assoc.
  - unfold in_execution in *. cbn. rewrite <- (in_execution_insert _ _ _ (Executing t) Hi eq_refl), Ho. cbn.
    rewrite <- Permutation_cons_append. by rewrite Permutation_middle.
  - intros. specialize (Hb ltac:(done)). lia.
  - counts Hi. intros. lia.
  - intros. counts Hi. specialize (Hs ltac:(done)). lia.
Qed.

Lemma notify_nil {A} (p : A → bool) wake l : notify p wake l [] → l = [].
Proof.
  intros Hn. remember [] as k eqn:E. destruct Hn as [l i x Hi _|l _]; [|done].
  exfalso. by eapply insert_nil_inv.
Qed.

Lemma inv_push s i t ws cs :
  inv s → workers s ≠ [] → isFull (queue_ s) = false → notify waiting wake_worker (workers s) ws →
  inv (mkState (queue_ s ++ [t]) (running_ s) ws (<[i := Outside]> cs)
         (submitted s ++ [t]) (taken s) (executed s)).
Proof.
  intros [Hz Hf Ho Hb Hw Hs] Hne Hfull Hn. pose proof (notify_counts _ _ Hn) as [N1 N2].
  pose proof (count_nonneg waiting (workers s)). constructor; cbn.
  - intros ->. by apply notify_nil in Hn.
  - by rewrite Hf, <- app_assoc.
  - unfold in_execution in *. cbn. by rewrite (in_execution_wake _ _ Hn).
  - intros Hm. rewrite zlen_app. change (zlen [t]) with 1. unfold isFull in Hfull. lia.
  - intros Hp. rewrite zlen_app. change (zlen [t]) with 1.
    destruct (decide (count waiting (workers s) = 0)); [rewrite N2 in Hp by done; lia|].
    destruct N1 as [N1 N1']; lia.
  - intros Hr. specialize (Hs Hr). by rewrite N2.
Qed.

Lemma tp_inv_step s s' : step s s' → inv s → inv s'.
Proof.
  intros Hs Hi. destruct Hs.
  - eapply inv_worker; eauto; done.
  - eapply inv_worker; eauto; done.
  - eapply inv_worker; eauto.
  - eapply inv_worker; eauto; done.
  - by apply inv_take.
  - destruct Hi as [Hz Hf Ho Hb Hw Hst]. constructor; cbn; try done.
    + intros E. by apply (insert_nil_inv _ _ _ _ H) in E.
    + unfold in_execution in *. cbn. rewrite Ho, <- (in_execution_done _ _ _ H).
      by rewrite <- app_assoc.
    + counts H. intros. lia.
    + intros. counts H. specialize (Hst ltac:(done)). lia.
  - destruct Hi as [Hz Hf Ho Hb Hw Hst]. constructor; cbn; try done.
    + rewrite Hf, (Hz H0). by rewrite !app_nil_r.
    + unfold in_execution in *. cbn. rewrite Ho, H0. cbn. by rewrite !app_nil_r.
  - destruct Hi. by constructor.
  - destruct Hi. by constructor.
  - by apply inv_push.
  - destruct Hi as [Hz Hf Ho Hb Hw Hst]. constructor; cbn; try done.
    + intros E. apply fmap_nil_inv in E. auto.
    + unfold in_execution in *. cbn. by rewrite in_execution_wake_all.
    + rewrite count_wake_all. lia.
    + intros _. apply count_wake_all.
  - eapply inv_worker; eauto; done.
  - destruct Hi. by constructor.
Qed.

Lemma tp_reachable_inv n k s : reachable n k s → inv s.
Proof.
  intros Hr. assert (inv (start n k)) as H0.
  { assert (∀ m, count waiting (replicate m AtWhile) = 0) as Hc
      by (induction m as [|m IH]; [done|]; cbn; by rewrite IH).
    assert (∀ m, (replicate m AtWhile ≫= executing) = []) as He by (by induction m).
    constructor; cbn; unfold in_execution; cbn; rewrite ?Hc, ?He; try done.
    intros. unfold zlen. cbn. lia. }
  revert H0. unfold reachable in Hr. induction Hr as [|s s' s'' Hs _ IH]; [done|]. intros H0. apply IH.
  by eapply tp_inv_step.
Qed.

(** C32: Tasks leave the queue in the order they were submitted; every task taken
    from it is executed exactly once (one that is still queued when the workers
    have left after [stop()] is not); the queue respects its bound; no worker
    sleeps while more tasks are queued than workers are awake; and after [stop()] no
    worker sleeps at all, so that the joins can finish. *)
Theorem threadpool_once n k s :
  reachable n k s →
  submitted s = taken s ++ queue_ s ∧ taken s ≡ₚ executed s ++ in_execution s ∧
  (0 < maxQueueSize_ → zlen (queue_ s) ≤ maxQueueSize_) ∧
  (0 < count waiting (workers s) → zlen (queue_ s) ≤ count taking (workers s)) ∧
  (running_ s = false → ∀ i, workers s !! i ≠ Some Waiting).
Proof.
  intros Hr. destruct (tp_reachable_inv n k s Hr) as [Hz Hf Ho Hb Hw Hs]. split_and!; try done.
  intros Hrun i Hi. by pose proof (count_zero waiting _ _ _ (Hs Hrun) Hi).
Qed.

(** ** Stopping with blocked clients *)

(** The pool has stopped with a full queue and this client is in [run]. *)
Definition stuck (i : nat) (s : state) : Prop :=
  running_ s = false ∧ workers s ≠ [] ∧ (∀ j w, workers s !! j = Some w → w = Exited) ∧
  isFull (queue_ s) = true ∧
  ∃ t, clients s !! i = Some (Blocked t) ∨ clients s !! i = Some (Submitting t).

(** [stop()] wakes the workers only. A client blocked in [run] on a full queue
    when the workers have left stays in [run] whatever happens afterwards. *)
Theorem stop_strands_clients i s s' :
  stuck i s → rtc step s s' → stuck i s'.
Proof.
  intros Hs Hr. induction Hr as [|s1 s2 s3 H12 _ IH]; [done|]. apply IH. clear IH.
  destruct Hs as (Hrun & Hne & Hex & Hfull & t & Hc).
  assert (∀ j w, workers s1 !! j = Some w → w ≠ Exited → False) as Hno by (intros j w Hj ?; by apply Hex in Hj).
  destruct H12; try (by destruct (Hno _ _ H ltac:(done))); try done.
  - split_and!; try done. cbn. exists t.
    destruct (decide (i0 = i)) as [->|]; [destruct Hc; congruence|]. by rewrite list_lookup_insert_ne.
  - split_and!; try done. cbn. destruct (decide (i0 = i)) as [->|].
    + exists t0. left. apply list_lookup_insert_eq. by eapply lookup_lt_Some.
    + exists t. by rewrite list_lookup_insert_ne.
  - congruence.
  - split_and!; try done; cbn.
    + by destruct (workers s).
    + intros j w Hj. rewrite list_lookup_fmap in Hj. destruct (workers s !! j) as [w0|] eqn:E; [|done].
      cbn in Hj. rewrite (Hex _ _ E) in Hj. by simplify_eq.
    + by exists t.
  - split_and!; try done. cbn. destruct (decide (i0 = i)) as [->|].
    + exists t0. right. apply list_lookup_insert_eq. by eapply lookup_lt_Some.
    + exists t. by rewrite list_lookup_insert_ne.
Qed.

End pool.

(** One worker, a queue of one task: the second client blocks, [stop()] is called and
    the worker leaves. *)
Lemma stuck_reachable :
  reachable 1 1 2 (mkState [7] false [Exited] [Outside; Blocked 8] [7] [] []).
Proof.
  unfold reachable. eapply rtc_l; [by apply (Run _ _ 0 7)|]. cbn.
  eapply rtc_l; [eapply (RunPush _ _ 0 7); [done..|]; apply NotifyNone; by intros [|i] x [= <-]|]. cbn.
  eapply rtc_l; [by apply (Run _ _ 1 8)|]. cbn.
  eapply rtc_l; [by apply (RunWait _ _ 1 8)|]. cbn.
  eapply rtc_l; [apply Stop|]. cbn.
  eapply rtc_l; [by apply (Leave _ _ 0)|]. apply rtc_refl.
Qed.

Lemma stop_strands_clients_witness :
  ∃ s, reachable 1 1 2 s ∧ stuck 1 1 s ∧
    ∀ s', rtc (step 1) s s' → clients s' !! 1%nat ≠ Some Outside.
Proof.
  exists (mkState [7] false [Exited] [Outside; Blocked 8] [7] [] []). split; [exact stuck_reachable|].
  assert (stuck 1 1 (mkState [7] false [Exited] [Outside; Blocked 8] [7] [] [])) as Hs.
  { split_and!; try done; [|by exists 8; left]. intros [|j] w Hj; [by injection Hj|done]. }
  split; [exact Hs|]. intros s' Hr. destruct (stop_strands_clients 1 1 _ s' Hs Hr) as (_ & _ & _ & _ & t & [E|E]); congruence.
Defined.

(** One worker has executed a task and is at the next one. *)
Lemma executing_reachable :
  reachable 1 1 1 (mkState [] true [Executing 8] [Outside] [7; 8] [7; 8] [7]).
Proof.
  unfold reachable. eapply rtc_l; [by apply (Enter _ _ 0)|]. cbn.
  eapply rtc_l; [by apply (TakeWait _ _ 0)|]. cbn.
  eapply rtc_l; [by apply (Run _ _ 0 7)|]. cbn.
  eapply rtc_l; [eapply (RunPush _ _ 0 7); [done..|]; by apply (NotifyOne _ _ _ 0 Waiting)|]. cbn.
  eapply rtc_l; [eapply (TakeTask _ _ 0 7); [done..|]; apply NotifyNone; by intros [|i] x [= <-]|]. cbn.
  eapply rtc_l; [by apply (Execute _ _ 0 7)|]. cbn.
  eapply rtc_l; [by apply (Run _ _ 0 8)|]. cbn.
  eapply rtc_l; [eapply (RunPush _ _ 0 8); [done..|]; apply NotifyNone; by intros [|i] x [= <-]|]. cbn.
  eapply rtc_l; [by apply (Enter _ _ 0)|]. cbn.
  eapply rtc_l; [eapply (TakeTask _ _ 0 8); [done..|]; apply NotifyNone; by intros [|i] x [= <-]|]. cbn.
  apply rtc_refl.
Qed.

Lemma threadpool_once_witness :
  ∃ s, reachable 1 1 1 s ∧ submitted s = [7; 8] ∧ executed s = [7] ∧ in_execution s = [8] ∧
    taken s ≡ₚ executed s ++ in_execution s.
Proof.
  eexists. split; [exact executing_reachable|]. split; [reflexivity|]. split; [reflexivity|]. split; [reflexivity|].
  apply (threadpool_once 1 1 1 _ executing_reachable).
Defined.

End ThreadPool.
