(* ===== verification/Latch.v ===== *)
(** * Latch and pool of loops ([base/CountDownLatch.cc],
    [net/EventLoopThreadPool.cc])

    The latch is a step relation like the blocking queues; the pool of loops is a
    state machine of the base loop's thread. *)

From stdpp Require Import sets relations.
From S2P Require Import Prelude Endian Format.

Module CountDownLatch.

Inductive thread :=
  | Outside
  | Entering              (* in wait(), about to hold the mutex *)
  | Waiting               (* in condition_.wait() *)
  | Returned.

Definition waiting (t : thread) : bool := match t with Waiting => true | _ => false end.
Definition wake (t : thread) : thread := match t with Waiting => Entering | _ => t end.

Record state := mkState { count_ : Z; threads : list thread; downs : Z }.

Definition initial (count : Z) (n : nat) : state := mkState count (replicate n Outside) 0.

Definition countDown (s : state) : state :=
  let count := count_ s - 1 in
  mkState count (if count =? 0 then wake <$> threads s else threads s) (downs s + 1).

Inductive latch_step : state → state → Prop :=
  | Wait s i : threads s !! i = Some Outside →
      latch_step s (mkState (count_ s) (<[i := Entering]> (threads s)) (downs s))
  | Sleep s i : threads s !! i = Some Entering → 0 < count_ s →
      latch_step s (mkState (count_ s) (<[i := Waiting]> (threads s)) (downs s))
  | Return s i : threads s !! i = Some Entering → ¬ 0 < count_ s →
      latch_step s (mkState (count_ s) (<[i := Returned]> (threads s)) (downs s))
  | CountDown s : - 2 ^ 31 < count_ s → latch_step s (countDown s)
  | Spurious s i : threads s !! i = Some Waiting →
      latch_step s (mkState (count_ s) (<[i := Entering]> (threads s)) (downs s)).

Record inv (count : Z) (s : state) : Prop := {
  inv_count : count_ s = count - downs s;
  inv_open : ¬ 0 < count_ s → ∀ i, threads s !! i ≠ Some Waiting;
  inv_closed : 0 < count_ s → ∀ i, threads s !! i ≠ Some Returned
}.

Lemma lookup_insert_not {A} (l : list A) i j x y :
  x ≠ y → l !! j ≠ Some y → <[i := x]> l !! j ≠ Some y.
Proof.
  intros Hxy Hl E. apply list_lookup_insert_Some in E as [(-> & -> & _)|[_ E]]; done.
Qed.

Lemma latch_inv_step count s s' : latch_step s s' → inv count s → inv count s'.
Proof.
  intros Hs [Hc Ho Hcl]. destruct Hs as [s i Hi|s i Hi Hp|s i Hi Hp|s Hr|s i Hi].
  - constructor; cbn; [done|..]; intros H j; apply lookup_insert_not; auto.
  - constructor; cbn; [done|done|]; intros H j; apply lookup_insert_not; auto.
  - constructor; cbn; [done| |done]; intros H j; apply lookup_insert_not; auto.
  - constructor; cbn; [lia|..].
    + intros H j. destruct (Z.eqb_spec (count_ s - 1) 0) as [E|E].
      * rewrite list_lookup_fmap. destruct (threads s !! j) as [[]|]; done.
      * apply Ho. lia.
    + intros H j. rewrite (proj2 (Z.eqb_neq _ _)) by lia. apply Hcl. lia.
  - constructor; cbn; [done|..]; intros H j; apply lookup_insert_not; auto.
Qed.

Lemma latch_reachable_inv count n s : rtc latch_step (initial count n) s → inv count s.
Proof.
  intros Hr. assert (inv count (initial count n)) as H0.
  { constructor; cbn; [lia|..]; intros _ i E; by apply lookup_replicate in E as [? _]. }
  revert H0. induction Hr as [|s s' s'' Hs _ IH]; [done|]. intros H0. apply IH. by eapply latch_inv_step.
Qed.

(** [wait()] returns only after [count] calls of [countDown()], and once they
    have been made no thread is left sleeping in [wait()]. *)
Theorem latch_opens count n s :
  rtc latch_step (initial count n) s →
  (∀ i, threads s !! i = Some Returned → count ≤ downs s) ∧
  (count ≤ downs s → ∀ i, threads s !! i ≠ Some Waiting).
Proof.
  intros Hr. destruct (latch_reachable_inv count n s Hr) as [Hc Ho Hcl]. split.
  - intros i Hi. destruct (decide (0 < count_ s)) as [Hp|]; [by destruct (Hcl Hp i)|lia].
  - intros Hd. apply Ho. lia.
Qed.

Lemma latch_opens_witness :
  1 ≤ 0 + 1 ∧ ∀ i, [Returned] !! i ≠ Some Waiting.
Proof.
  assert (rtc latch_step (initial 1 1) (mkState 0 [Returned] (0 + 1))) as Hr.
  { eapply rtc_l; [by apply (Wait _ 0)|]. cbn. eapply rtc_l; [by apply (Sleep _ 0)|]. cbn.
    eapply rtc_l; [by apply CountDown|]. cbn. eapply rtc_l; [by apply (Return _ 0)|]. apply rtc_refl. }
  destruct (latch_opens 1 1 _ Hr) as [H1 H2]. split; [exact (H1 0%nat eq_refl)|]. apply H2. cbn. lia.
Defined.

End CountDownLatch.

Module EventLoopThreadPool.

(** Loops are named by their addresses. *)
Record pool := mkPool {
  baseLoop_ : Z;
  name_ : bytes;
  started_ : bool;
  numThreads_ : Z;
  next_ : Z;
  loops_ : list Z
}.

Definition make (baseLoop : Z) (nameArg : bytes) : pool := mkPool baseLoop nameArg false 0 0 [].
Definition setThreadNum (n : Z) (p : pool) : pool :=
  mkPool (baseLoop_ p) (name_ p) (started_ p) n (next_ p) (loops_ p).

(** The name of the i-th thread. *)
Definition thread_name (p : pool) (i : Z) : bytes :=
  Format.snprintf (zlen (name_ p) + 32) (name_ p ++ Format.dec i).

(** [startLoop i] is the loop the i-th new thread hands over; [inLoop]: the caller is
    in the base loop's thread. *)
Definition start (inLoop : bool) (startLoop : Z → Z) (p : pool) : result pool :=
  _ ← check (negb (started_ p));
  if inLoop then
    Ok (mkPool (baseLoop_ p) (name_ p) true (numThreads_ p) (next_ p)
          (loops_ p ++ ((λ i, startLoop (Z.of_nat i)) <$> seq 0 (Z.to_nat (numThreads_ p)))))
  else Fail FatalLog.

Definition getNextLoop (inLoop : bool) (p : pool) : result (Z * pool) :=
  if inLoop then
    _ ← check (started_ p);
    match loops_ p with
    | [] => Ok (baseLoop_ p, p)
    | _ =>
        match loops_ p !! Z.to_nat (next_ p) with
        | None => Fail OutOfRange
        | Some loop =>
            let next := next_ p + 1 in
            let next := if zlen (loops_ p) <=? next then 0 else next in
            Ok (loop, mkPool (baseLoop_ p) (name_ p) (started_ p) (numThreads_ p) next (loops_ p))
        end
    end
  else Fail FatalLog.

Definition getLoopForHash (inLoop : bool) (hashCode : Z) (p : pool) : result Z :=
  if inLoop then
    match loops_ p with
    | [] => Ok (baseLoop_ p)
    | _ => match loops_ p !! Z.to_nat (hashCode mod zlen (loops_ p)) with
           | None => Fail OutOfRange
           | Some loop => Ok loop
           end
    end
  else Fail FatalLog.

Definition getAllLoops (inLoop : bool) (p : pool) : result (list Z) :=
  if inLoop then
    _ ← check (started_ p);
    Ok (match loops_ p with [] => [baseLoop_ p] | l => l end)
  else Fail FatalLog.

(** The loops of the next [n] connections. *)
Fixpoint next_loops (n : nat) (p : pool) : result (list Z) :=
  match n with
  | O => Ok []
  | S n => r ← getNextLoop true p; ls ← next_loops n r.2; Ok (r.1 :: ls)
  end.

Lemma next_loops_from n : ∀ p,
  started_ p = true → loops_ p ≠ [] → 0 ≤ next_ p < zlen (loops_ p) →
  ∃ l, next_loops n p = Ok l ∧ length l = n ∧
    ∀ i, (i < n)%nat → l !! i = loops_ p !! Z.to_nat ((next_ p + Z.of_nat i) mod zlen (loops_ p)).
Proof.
  induction n as [|n IH]; intros p Hs Hne Hn; [exists []; split_and!; [done..|]; intros i Hi; lia|].
  cbn [next_loops]. unfold getNextLoop at 1. rewrite Hs. cbn [check mbind result_bind].
  destruct (lookup_lt_is_Some_2 (loops_ p) (Z.to_nat (next_ p))) as [loop Hl]; [unfold zlen in Hn; lia|].
  rewrite Hl. destruct (loops_ p) as [|x q] eqn:El; [done|]. rewrite <- El in *. cbn [mbind result_bind].
  set (next := if _ <=? _ then _ else _).
  assert (0 ≤ next < zlen (loops_ p) ∧ next = (next_ p + 1) mod zlen (loops_ p)) as [Hnx Emod].
  { unfold next. destruct (Z.leb_spec (zlen (loops_ p)) (next_ p + 1)).
    - split; [lia|]. replace (next_ p + 1) with (zlen (loops_ p)) by lia. by rewrite Z.mod_same by lia.
    - split; [lia|]. by rewrite Z.mod_small by lia. }
  destruct (IH (mkPool (baseLoop_ p) (name_ p) true (numThreads_ p) next (loops_ p)))
    as (l & E & Hlen & Hall); try done.
  cbn [snd fst]. rewrite E. cbn. eexists. split; [done|]. split; [cbn; by rewrite Hlen|].
  intros [|i] Hi.
  - cbn. rewrite Z.add_0_r, Z.mod_small by lia. done.
  - cbn [lookup list_lookup]. rewrite Hall by lia. cbn [loops_ next_].
    rewrite Emod, Zplus_mod_idemp_l. by replace (next_ p + Z.of_nat (S i)) with (next_ p + 1 + Z.of_nat i) by lia.
Qed.

Lemma next_loops_base k base name :
  next_loops k (mkPool base name true 0 0 []) = Ok (replicate k base).
Proof. induction k as [|k IH]; [done|]. cbn. by rewrite IH. Qed.

(** After [start] with [n > 0] threads the loops are handed out in turn: the
    i-th call returns the loop of thread [i mod n], with no out-of-range access;
    without threads every call returns the base loop. *)
Theorem round_robin base name n startLoop k :
  0 ≤ n < 2 ^ 31 →
  ∃ p l, start true startLoop (setThreadNum n (make base name)) = Ok p ∧
    next_loops k p = Ok l ∧ length l = k ∧
    ∀ i, (i < k)%nat →
      l !! i = Some (if n =? 0 then base else startLoop (Z.of_nat i mod n)).
Proof.
  intros Hn. unfold start. cbn. destruct (Z.eqb_spec n 0) as [->|Hnz].
  - eexists. exists (replicate k base). split; [done|]. split_and!.
    + exact (next_loops_base k base name).
    + apply length_replicate.
    + intros i Hi. by apply lookup_replicate_2.
  - set (loops := (λ i, startLoop (Z.of_nat i)) <$> seq 0 (Z.to_nat n)).
    assert (zlen loops = n) as Hlen by (unfold zlen, loops; rewrite length_fmap, length_seq; lia).
    destruct (next_loops_from k (mkPool base name true n 0 loops)) as (l & E & Hl & Hall); try done; cbn.
    { intros E. rewrite E, zlen_nil in Hlen. congruence. } { lia. }
    eexists. exists l. split; [done|]. split_and!; try done. intros i Hi. rewrite Hall by done.
    cbn [loops_ next_]. rewrite Z.add_0_l, Hlen. pose proof (Z.mod_pos_bound (Z.of_nat i) n ltac:(lia)) as Hm.
    unfold loops. rewrite list_lookup_fmap, lookup_seq_lt by lia. cbn [fmap option_fmap option_map].
    rewrite Nat.add_0_l. do 2 f_equal. lia.
Qed.

Lemma round_robin_witness :
  ∃ p l, start true (λ i, 100 + i) (setThreadNum 2 (make 7 [])) = Ok p ∧ next_loops 3 p = Ok l ∧
    l = [100; 101; 100].
Proof.
  destruct (round_robin 7 [] 2 (λ i, 100 + i) 3) as (p & l & E1 & E2 & _); [lia|].
  exists p, l. split; [exact E1|]. split; [exact E2|]. vm_compute in E1. injection E1 as <-.
  vm_compute in E2. by injection E2 as <-.
Defined.

End EventLoopThreadPool.
