(* ===== verification/LoopThread.v ===== *)
(** * A thread with its own loop ([net/EventLoopThread.cc], [.h])

    The whole life of an [EventLoopThread]: [startLoop()] with its wait for the new
    loop, [threadFunc()] in the new thread, and the destructor, which reads
    [loop_] without the mutex. The two threads are interleaved step by step. *)

From stdpp Require Import sets relations.
From S2P Require Import Prelude.

Module EventLoopThread.

(** The thread that owns the object: before [startLoop()], in it, after it, and
    in the destructor: about to test [loop_], about to read it again, about to
    call [quit()] through what it has read, in [EventLoop::quit()] between setting
    [quit_] and [wakeup()], in [join()], done. *)
Inductive owner :=
  | Idle | Checking | Waiting | Got (loop : bool)
  | Testing | Reading | Calling | Waking | Joining | Gone.

(** The new thread: it creates its loop and calls [callback_], publishes the loop,
    enters [loop()], which resets [quit_], runs it, sets [loop_] to NULL, and
    destroys the loop when [threadFunc()] returns. *)
Inductive child :=
  | NotStarted | InitCallback | Publishing | Entering | Looping | Clearing | Returning | Finished.

(** [quit()] through a null pointer, on a destroyed loop, or [wakeup()] on a loop
    that was destroyed after [quit_] was set. *)
Inductive fault := NullLoop | DestroyedLoop | DestroyedWakeup.

Record state := mkState {
  loop_ : bool;             (* not NULL *)
  exiting_ : bool;
  quit_ : bool;             (* of the loop *)
  called : bool;            (* the initialisation callback has run *)
  parent : owner;
  thread : child;
  failed : option fault
}.

Definition make : state := mkState false false false false Idle NotStarted None.

(** The [EventLoop] on the stack of [threadFunc()] exists. *)
Definition alive (s : state) : bool := match thread s with NotStarted | Finished => false | _ => true end.
(** [threadFunc()] will still use members of the [EventLoopThread]. *)
Definition uses_members (s : state) : bool :=
  match thread s with InitCallback | Publishing | Entering | Looping | Clearing => true | _ => false end.

Definition set_parent (p : owner) (s : state) : state :=
  mkState (loop_ s) (exiting_ s) (quit_ s) (called s) p (thread s) (failed s).
Definition set_thread (t : child) (s : state) : state :=
  mkState (loop_ s) (exiting_ s) (quit_ s) (called s) (parent s) t (failed s).
Definition set_loop (b : bool) (s : state) : state :=
  mkState b (exiting_ s) (quit_ s) (called s) (parent s) (thread s) (failed s).
Definition set_quit (b : bool) (s : state) : state :=
  mkState (loop_ s) (exiting_ s) b (called s) (parent s) (thread s) (failed s).
Definition fail (f : fault) (s : state) : state :=
  mkState (loop_ s) (exiting_ s) (quit_ s) (called s) (parent s) (thread s) (Some f).
Definition notify (s : state) : state :=
  match parent s with Waiting => set_parent Checking s | _ => s end.

(** [startLoop()], and the destructor once nothing else uses the object. *)
Inductive owner_step : state → state → Prop :=
  | Start s : parent s = Idle → thread s = NotStarted →
      owner_step s (set_parent Checking (set_thread InitCallback s))
  | Sleep s : parent s = Checking → loop_ s = false → owner_step s (set_parent Waiting s)
  | Obtain s : parent s = Checking → loop_ s = true → owner_step s (set_parent (Got (loop_ s)) s)
  | Spurious s : parent s = Waiting → owner_step s (set_parent Checking s)
  | Destroy s : (parent s = Idle ∨ ∃ b, parent s = Got b) →
      owner_step s (mkState (loop_ s) true (quit_ s) (called s) Testing (thread s) (failed s))
  | TestNull s : parent s = Testing → loop_ s = false → owner_step s (set_parent Gone s)
  | TestSet s : parent s = Testing → loop_ s = true → owner_step s (set_parent Reading s)
  | ReadAgain s : parent s = Reading → loop_ s = true → owner_step s (set_parent Calling s)
  | ReadNull s : parent s = Reading → loop_ s = false → owner_step s (fail NullLoop s)
  | Quit s : parent s = Calling → alive s = true → owner_step s (set_parent Waking (set_quit true s))
  | QuitDead s : parent s = Calling → alive s = false → owner_step s (fail DestroyedLoop s)
  | Wakeup s : parent s = Waking → alive s = true → owner_step s (set_parent Joining s)
  | WakeupDead s : parent s = Waking → alive s = false → owner_step s (fail DestroyedWakeup s)
  | Join s : parent s = Joining → thread s = Finished → owner_step s (set_parent Gone s).

(** [threadFunc()]; the last two steps of the function are one each. *)
Inductive child_step : state → state → Prop :=
  | Callback s : thread s = InitCallback →
      child_step s (set_thread Publishing (mkState (loop_ s) (exiting_ s) (quit_ s) true (parent s) (thread s) (failed s)))
  | Publish s : thread s = Publishing → child_step s (set_thread Entering (notify (set_loop true s)))
  | Enter s : thread s = Entering → child_step s (set_thread Looping (set_quit false s))
  | LoopEnds s : thread s = Looping → quit_ s = true → child_step s (set_thread Clearing s)
  | Clear s : thread s = Clearing → child_step s (set_thread Returning (set_loop false s))
  | Return s : thread s = Returning → child_step s (set_thread Finished s).

(** [others]: code other than the destructor may call [quit()] on the loop, that
    is a callback of the loop or a user of the pointer [startLoop()] returned. *)
Inductive step (others : bool) : state → state → Prop :=
  | ByOwner s s' : failed s = None → owner_step s s' → step others s s'
  | ByChild s s' : failed s = None → child_step s s' → step others s s'
  | OtherQuit s : failed s = None → others = true → alive s = true → step others s (set_quit true s).

#[local] Hint Constructors owner_step child_step step : core.

(** ** The destructor when nobody else quits the loop *)

Definition inv (s : state) : Prop :=
  match failed s with None => True | Some f => f = DestroyedWakeup ∧ parent s = Waking ∧ thread s = Finished end ∧
  (∀ b, parent s = Got b → b = true ∧ called s = true) ∧
  (quit_ s = true → parent s = Waking ∨ parent s = Joining ∨ parent s = Gone) ∧
  match thread s with
  | NotStarted => loop_ s = false ∧ (parent s = Idle ∨ parent s = Testing ∨ parent s = Gone)
  | InitCallback => loop_ s = false ∧ (parent s = Checking ∨ parent s = Waiting)
  | Publishing => loop_ s = false ∧ called s = true ∧ (parent s = Checking ∨ parent s = Waiting)
  | Entering | Looping => loop_ s = true ∧ called s = true ∧ parent s ≠ Waiting ∧ parent s ≠ Gone ∧ parent s ≠ Idle
  | Clearing => loop_ s = true ∧ (parent s = Waking ∨ parent s = Joining)
  | Returning => parent s = Waking ∨ parent s = Joining
  | Finished => parent s = Waking ∨ parent s = Joining ∨ parent s = Gone
  end.

Lemma loopthread_inv_step s s' : step false s s' → inv s → inv s'.
Proof.
  intros Hs. unfold inv. destruct Hs as [s s' Hn Ho|s s' Hn Ho|]; [| |done];
    destruct s as [l e q c p t f]; inversion Ho; subst; cbn in *; intros (Hf & Hg & Hq & Hi); unfold notify; cbn.
  all: destruct t; try discriminate; destruct p; try discriminate;
    try (destruct_and?; destruct_or?; discriminate); try done; destruct q; naive_solver.
Qed.

Lemma loopthread_inv s : rtc (step false) make s → inv s.
Proof.
  assert (inv make) as H0 by (unfold inv; cbn; naive_solver).
  revert H0. intros H0 Hr. revert H0. induction Hr as [|s1 s2 s3 Hs _ IH]; [done|].
  intros H1. by eapply IH, loopthread_inv_step.
Qed.

(** C38: As long as only the destructor stops the loop: [startLoop()] returns the loop
    of a thread that has run its initialisation callback, and is not left
    sleeping once the loop runs; the destructor, although it reads [loop_] without
    the mutex, never calls [quit()] through a null pointer or on a loop that is
    gone, and when it has returned the thread has ended, or was never started. The
    only access to a destroyed object is the [wakeup()] in [EventLoop::quit()], when
    the loop has seen [quit_] and the thread has finished in between
    ([wakeup_race]), as the comment in the code says. *)
Theorem loopthread_safe s :
  rtc (step false) make s →
  (∀ f, failed s = Some f → f = DestroyedWakeup ∧ parent s = Waking ∧ thread s = Finished) ∧
  (∀ b, parent s = Got b → b = true ∧ called s = true) ∧
  (thread s = Looping → parent s ≠ Waiting) ∧
  (parent s = Calling → alive s = true) ∧
  (parent s = Gone → alive s = false ∧ uses_members s = false).
Proof.
  intros (Hf & Hg & _ & Hi)%loopthread_inv. split_and!; [|done|..].
  - intros f E. by rewrite E in Hf.
  - intros E. rewrite E in Hi. apply Hi.
  - unfold alive. intros E. rewrite E in Hi. destruct (thread s); naive_solver.
  - unfold alive, uses_members. intros E. rewrite E in Hi. destruct (thread s); naive_solver.
Qed.

(** The race that remains: [loop()] sees [quit_] before the destructor calls
    [wakeup()], and the loop is destroyed. *)
Theorem wakeup_race : ∃ s, rtc (step false) make s ∧ failed s = Some DestroyedWakeup.
Proof.
  eexists. split.
  - eapply rtc_l; [by apply ByOwner, Start|]. cbn. eapply rtc_l; [by apply ByChild, Callback|]. cbn.
    eapply rtc_l; [by apply ByChild, Publish|]. cbn. eapply rtc_l; [by apply ByOwner, Obtain|]. cbn.
    eapply rtc_l; [by apply ByChild, Enter|]. cbn.
    eapply rtc_l; [apply ByOwner, Destroy; [done|right; by eexists]|]. cbn.
    eapply rtc_l; [by apply ByOwner, TestSet|]. cbn. eapply rtc_l; [by apply ByOwner, ReadAgain|]. cbn.
    eapply rtc_l; [by apply ByOwner, Quit|]. cbn. eapply rtc_l; [by apply ByChild, LoopEnds|]. cbn.
    eapply rtc_l; [by apply ByChild, Clear|]. cbn. eapply rtc_l; [by apply ByChild, Return|]. cbn.
    eapply rtc_l; [by apply ByOwner, WakeupDead|]. apply rtc_refl.
  - done.
Qed.

(** The destructor returns if its [quit()] came after [loop()] was entered. *)
Theorem destructor_returns s :
  rtc (step false) make s → parent s = Joining → thread s ≠ Entering → (thread s = Looping → quit_ s = true) →
  ∃ s', rtc (step false) s s' ∧ parent s' = Gone.
Proof.
  intros (Hf & _ & _ & Hi)%loopthread_inv Hp Hn Hq. rewrite Hp in Hi.
  assert (∀ l e q c, ∃ s', rtc (step false) (mkState l e q c Joining Finished None) s' ∧ parent s' = Gone) as H1.
  { intros. eexists. split; [eapply rtc_l; [by apply ByOwner, Join|apply rtc_refl]|done]. }
  assert (∀ l e q c, ∃ s', rtc (step false) (mkState l e q c Joining Returning None) s' ∧ parent s' = Gone) as H2.
  { intros. destruct (H1 l e q c) as (s' & ? & ?). exists s'. split; [|done].
    eapply rtc_l; [by apply ByChild, Return|done]. }
  assert (∀ l e q c, ∃ s', rtc (step false) (mkState l e q c Joining Clearing None) s' ∧ parent s' = Gone) as H3.
  { intros. destruct (H2 false e q c) as (s' & ? & ?). exists s'. split; [|done].
    eapply rtc_l; [by apply ByChild, Clear|done]. }
  destruct s as [l e q c p t f]; cbn in *. subst p. destruct f; [by destruct Hf as (_ & ? & _)|].
  destruct t; try (destruct_and?; destruct_or?; discriminate); try done.
  destruct (H3 l e q c) as (s' & ? & ?). exists s'. split; [|done].
  eapply rtc_l; [apply ByChild, LoopEnds; [done|done|by apply Hq]|done].
Qed.

(** Where [loop()] is entered after the destructor's [quit()], it forgets it, and the
    destructor waits for ever. *)
Theorem destructor_may_hang :
  let s := mkState true true false true Joining Looping None in
  rtc (step false) make s ∧ ∀ s', rtc (step false) s s' → s' = s.
Proof.
  intros s. split.
  - eapply rtc_l; [by apply ByOwner, Start|]. cbn. eapply rtc_l; [by apply ByChild, Callback|]. cbn.
    eapply rtc_l; [by apply ByChild, Publish|]. cbn. eapply rtc_l; [by apply ByOwner, Obtain|]. cbn.
    eapply rtc_l; [apply ByOwner, Destroy; [done|right; by eexists]|]. cbn.
    eapply rtc_l; [by apply ByOwner, TestSet|]. cbn. eapply rtc_l; [by apply ByOwner, ReadAgain|]. cbn.
    eapply rtc_l; [by apply ByOwner, Quit|]. cbn. eapply rtc_l; [by apply ByOwner, Wakeup|]. cbn.
    eapply rtc_l; [by apply ByChild, Enter|]. apply rtc_refl.
  - assert (∀ s', ¬ step false s s') as Hn.
    { intros s' Hs. inversion Hs as [? ? _ Ho|? ? _ Ho|]; subst; try done; inversion Ho; subst; cbn in *; try done.
      destruct H as [?|[? ?]]; done. }
    intros s' Hr. by inversion Hr as [|? ? ? Hs]; [|destruct (Hn _ Hs)].
Qed.

(** ** When something else quits the loop *)

(** The steps up to the point where the destructor is about to test [loop_] while the
    loop of the thread ends by itself. *)
Definition ending : state := mkState true true true true Testing Clearing None.
Lemma ending_reachable : rtc (step true) make ending.
Proof.
  eapply rtc_l; [by apply ByOwner, Start|]. cbn. eapply rtc_l; [by apply ByChild, Callback|]. cbn.
  eapply rtc_l; [by apply ByChild, Publish|]. cbn. eapply rtc_l; [by apply ByOwner, Obtain|]. cbn.
  eapply rtc_l; [by apply ByChild, Enter|]. cbn. eapply rtc_l; [by apply OtherQuit|]. cbn.
  eapply rtc_l; [by apply ByChild, LoopEnds|]. cbn.
  eapply rtc_l; [apply ByOwner, Destroy; [done|right; by eexists]|]. apply rtc_refl.
Qed.

(** Both remarks in the code are right: with a loop that quits by itself the
    destructor can call [quit()] on a loop that is destroyed; and, since it reads
    [loop_] twice, through a null pointer. *)
Theorem destructor_races :
  (∃ s, rtc (step true) make s ∧ failed s = Some DestroyedLoop) ∧
  (∃ s, rtc (step true) make s ∧ failed s = Some NullLoop).
Proof.
  split; eexists; (split; [etrans; [apply ending_reachable|]|]).
  - eapply rtc_l; [by apply ByOwner, TestSet|]. cbn. eapply rtc_l; [by apply ByOwner, ReadAgain|]. cbn.
    eapply rtc_l; [by apply ByChild, Clear|]. cbn. eapply rtc_l; [by apply ByChild, Return|]. cbn.
    eapply rtc_l; [by apply ByOwner, QuitDead|]. apply rtc_refl.
  - done.
  - eapply rtc_l; [by apply ByOwner, TestSet|]. cbn. eapply rtc_l; [by apply ByChild, Clear|]. cbn.
    eapply rtc_l; [by apply ByOwner, ReadNull|]. apply rtc_refl.
  - done.
Qed.

(** When the loop has ended before the starter has looked at [loop_] again, the
    starter goes back to sleep and nothing will wake it. *)
Theorem startLoop_may_sleep_forever :
  let s := mkState false false true true Waiting Finished None in
  rtc (step true) make s ∧ ∀ s', rtc (step true) s s' → parent s' = Waiting ∨ parent s' = Checking.
Proof.
  intros s. split.
  - eapply rtc_l; [by apply ByOwner, Start|]. cbn. eapply rtc_l; [by apply ByOwner, Sleep|]. cbn.
    eapply rtc_l; [by apply ByChild, Callback|]. cbn. eapply rtc_l; [by apply ByChild, Publish|]. cbn.
    eapply rtc_l; [by apply ByChild, Enter|]. cbn. eapply rtc_l; [by apply OtherQuit|]. cbn.
    eapply rtc_l; [by apply ByChild, LoopEnds|]. cbn. eapply rtc_l; [by apply ByChild, Clear|]. cbn.
    eapply rtc_l; [by apply ByChild, Return|]. cbn. eapply rtc_l; [by apply ByOwner, Sleep|]. apply rtc_refl.
  - assert (∀ s1 s2, rtc (step true) s1 s2 → loop_ s1 = false → thread s1 = Finished →
      parent s1 = Waiting ∨ parent s1 = Checking → parent s2 = Waiting ∨ parent s2 = Checking) as H.
    { intros s1 s2 Hr. induction Hr as [|s1 s2 s3 Hs _ IH]; [done|]. intros Hl Ht Hp.
      destruct Hs as [s1 s2 _ Ho|s1 s2 _ Ho|]; [| |unfold alive in *; by rewrite Ht in *]; destruct Ho;
        unfold alive in *; cbn in *; try congruence; try (destruct Hp; congruence);
        try (by apply IH; cbn; auto). destruct Hp, H as [|[]]; congruence. }
    intros s' Hr. apply (H s s' Hr); auto.
Qed.

Lemma loopthread_safe_witness :
  ∃ s, rtc (step false) make s ∧ parent s = Gone ∧ called s = true ∧ failed s = None ∧
    alive s = false ∧ uses_members s = false.
Proof.
  assert (rtc (step false) make (mkState false true true true Gone Finished None)) as Hr.
  { eapply rtc_l; [apply ByOwner, Start; reflexivity|]. cbn. eapply rtc_l; [apply ByOwner, Sleep; reflexivity|]. cbn.
    eapply rtc_l; [apply ByChild, Callback; reflexivity|]. cbn. eapply rtc_l; [apply ByChild, Publish; reflexivity|]. cbn.
    eapply rtc_l; [apply ByOwner, Obtain; reflexivity|]. cbn. eapply rtc_l; [apply ByChild, Enter; reflexivity|]. cbn.
    eapply rtc_l; [apply ByOwner, Destroy; [reflexivity|right; eexists; reflexivity]|]. cbn.
    eapply rtc_l; [apply ByOwner, TestSet; reflexivity|]. cbn. eapply rtc_l; [apply ByOwner, ReadAgain; reflexivity|]. cbn.
    eapply rtc_l; [apply ByOwner, Quit; reflexivity|]. cbn. eapply rtc_l; [apply ByOwner, Wakeup; reflexivity|]. cbn.
    eapply rtc_l; [apply ByChild, LoopEnds; reflexivity|]. cbn.
    eapply rtc_l; [apply ByChild, Clear; reflexivity|]. cbn. eapply rtc_l; [apply ByChild, Return; reflexivity|]. cbn.
    eapply rtc_l; [apply ByOwner, Join; reflexivity|]. apply rtc_refl. }
  eexists. split; [exact Hr|]. split; [reflexivity|]. split; [reflexivity|]. split; [reflexivity|].
  destruct (loopthread_safe _ Hr) as (_ & _ & _ & _ & H). exact (H eq_refl).
Defined.
End EventLoopThread.
