(* ===== verification/TcpConnection.v ===== *)
(** * TcpConnection ([net/TcpConnection.h], [net/TcpConnection.cc])

    The connection state machine with its two buffers, its channel, the functors
    it leaves in the loop and the calls it makes to user code. User callbacks
    are a parameter: any function from what they see to the calls they make on the
    connection. The kernel's answers to [write(2)] are a list consumed call by
    call; [readv(2)] answers come with the readiness event. *)

From stdpp Require Import sets.
From S2P Require Import Prelude Endian Format StringPiece NetBuffer Channel.

Module TcpConnection.
Import Buffer(Buffer, content, wf).

Inductive StateE := kDisconnected | kConnecting | kConnected | kDisconnecting.
#[global] Instance StateE_eq_dec : EqDecision StateE.
Proof. solve_decision. Defined.

Record TcpConnection := mkTcpConnection {
  state_ : StateE;
  reading_ : bool;
  channel_ : Channel.Channel;
  inputBuffer_ : Buffer;
  outputBuffer_ : Buffer;
  highWaterMark_ : Z;
  writeCompleteCallback_ : bool;     (* is the callback set? *)
  highWaterMarkCallback_ : bool
}.

Definition with_state (s : StateE) (c : TcpConnection) : TcpConnection :=
  mkTcpConnection s (reading_ c) (channel_ c) (inputBuffer_ c) (outputBuffer_ c)
    (highWaterMark_ c) (writeCompleteCallback_ c) (highWaterMarkCallback_ c).
Definition with_reading (b : bool) (c : TcpConnection) : TcpConnection :=
  mkTcpConnection (state_ c) b (channel_ c) (inputBuffer_ c) (outputBuffer_ c)
    (highWaterMark_ c) (writeCompleteCallback_ c) (highWaterMarkCallback_ c).
Definition with_channel (ch : Channel.Channel) (c : TcpConnection) : TcpConnection :=
  mkTcpConnection (state_ c) (reading_ c) ch (inputBuffer_ c) (outputBuffer_ c)
    (highWaterMark_ c) (writeCompleteCallback_ c) (highWaterMarkCallback_ c).
Definition with_input (b : Buffer) (c : TcpConnection) : TcpConnection :=
  mkTcpConnection (state_ c) (reading_ c) (channel_ c) b (outputBuffer_ c)
    (highWaterMark_ c) (writeCompleteCallback_ c) (highWaterMarkCallback_ c).
Definition with_output (b : Buffer) (c : TcpConnection) : TcpConnection :=
  mkTcpConnection (state_ c) (reading_ c) (channel_ c) (inputBuffer_ c) b
    (highWaterMark_ c) (writeCompleteCallback_ c) (highWaterMarkCallback_ c).
Definition setWriteCompleteCallback (c : TcpConnection) : TcpConnection :=
  mkTcpConnection (state_ c) (reading_ c) (channel_ c) (inputBuffer_ c) (outputBuffer_ c)
    (highWaterMark_ c) true (highWaterMarkCallback_ c).
Definition setHighWaterMarkCallback (mark : Z) (c : TcpConnection) : TcpConnection :=
  mkTcpConnection (state_ c) (reading_ c) (channel_ c) (inputBuffer_ c) (outputBuffer_ c)
    mark (writeCompleteCallback_ c) true.

Definition connected (c : TcpConnection) : bool := bool_decide (state_ c = kConnected).
Definition disconnected (c : TcpConnection) : bool := bool_decide (state_ c = kDisconnected).

Definition stateToString (c : TcpConnection) : bytes :=
  Channel.str match state_ c with
  | kDisconnected => "kDisconnected"
  | kConnecting => "kConnecting"
  | kConnected => "kConnected"
  | kDisconnecting => "kDisconnecting"
  end.

(** Construction: the channel with its four callbacks, 64 MiB high-water mark. *)
Definition make (sockfd : Z) : result TcpConnection :=
  input ← Buffer.make Buffer.kInitialSize;
  output ← Buffer.make Buffer.kInitialSize;
  let ch := Channel.setReadCallback (Channel.make sockfd) in
  let ch := Channel.setWriteCallback ch in
  let ch := Channel.setCloseCallback ch in
  let ch := Channel.setErrorCallback ch in
  Ok (mkTcpConnection kConnecting true ch input output (64 * 1024 * 1024) false false).

(** ** What the connection interacts with *)

(** Functors the connection puts into its loop. *)
Inductive functor :=
  | SendInLoop (message : bytes)
  | ShutdownInLoop
  | ForceCloseInLoop
  | StartReadInLoop
  | StopReadInLoop
  | WriteComplete
  | HighWaterMark (size : Z)
  | ConnectDestroyed.
#[global] Instance functor_eq_dec : EqDecision functor.
Proof. solve_decision. Defined.

(** Calls to user code, with what it is shown. *)
Inductive call :=
  | ConnectionUp
  | ConnectionDown
  | MessageArrived (buf : bytes)
  | WriteCompleted
  | HighWaterMarkHit (size : Z)
  | CloseCalled.

Inductive poller_call := UpdateChannel (events : Z) | RemoveChannel.

(** [write(2)]: room for [n] bytes in the send buffer, or an error. *)
Inductive write_outcome := WriteRoom (n : Z) | WriteError (errno : Z).

(** How far the owner is with dropping the connection: [closeCallback_] has
    run, [connectDestroyed] is in the loop's queue, it has run. *)
Inductive owner := Owned | CloseSeen | DestroyQueued | Destroyed.
#[global] Instance owner_eq_dec : EqDecision owner.
Proof. solve_decision. Defined.

Record World := mkWorld {
  conn : TcpConnection;
  queue : list functor;            (* loop_'s functors of this connection *)
  timers : nat;                    (* pending forceCloseWithDelay timers *)
  kernel : list write_outcome;     (* answers to the coming writes *)
  wire : bytes;                    (* bytes the kernel has taken *)
  wshut : bool;                    (* shutdown(SHUT_WR) was called *)
  poller : list poller_call;       (* calls to the loop's poller *)
  log : list call;                 (* calls to user code *)
  held : owner;
  accepted : list bytes;           (* ghost: messages taken by sendInLoop *)
  received : list bytes;           (* ghost: what readv delivered *)
  consumed : bytes                 (* ghost: what the user retrieved *)
}.

Definition set_conn (c : TcpConnection) (w : World) : World :=
  mkWorld c (queue w) (timers w) (kernel w) (wire w) (wshut w) (poller w) (log w) (held w)
    (accepted w) (received w) (consumed w).
Definition set_queue (q : list functor) (w : World) : World :=
  mkWorld (conn w) q (timers w) (kernel w) (wire w) (wshut w) (poller w) (log w) (held w)
    (accepted w) (received w) (consumed w).
Definition set_timers (n : nat) (w : World) : World :=
  mkWorld (conn w) (queue w) n (kernel w) (wire w) (wshut w) (poller w) (log w) (held w)
    (accepted w) (received w) (consumed w).
Definition set_wire (k : list write_outcome) (d : bytes) (w : World) : World :=
  mkWorld (conn w) (queue w) (timers w) k d (wshut w) (poller w) (log w) (held w)
    (accepted w) (received w) (consumed w).
Definition set_wshut (w : World) : World :=
  mkWorld (conn w) (queue w) (timers w) (kernel w) (wire w) true (poller w) (log w) (held w)
    (accepted w) (received w) (consumed w).
Definition set_poller (p : list poller_call) (w : World) : World :=
  mkWorld (conn w) (queue w) (timers w) (kernel w) (wire w) (wshut w) p (log w) (held w)
    (accepted w) (received w) (consumed w).
Definition set_log (l : list call) (w : World) : World :=
  mkWorld (conn w) (queue w) (timers w) (kernel w) (wire w) (wshut w) (poller w) l (held w)
    (accepted w) (received w) (consumed w).
Definition set_held (o : owner) (w : World) : World :=
  mkWorld (conn w) (queue w) (timers w) (kernel w) (wire w) (wshut w) (poller w) (log w) o
    (accepted w) (received w) (consumed w).
Definition accept (d : bytes) (w : World) : World :=
  mkWorld (conn w) (queue w) (timers w) (kernel w) (wire w) (wshut w) (poller w) (log w) (held w)
    (accepted w ++ [d]) (received w) (consumed w).
Definition receive (d : bytes) (w : World) : World :=
  mkWorld (conn w) (queue w) (timers w) (kernel w) (wire w) (wshut w) (poller w) (log w) (held w)
    (accepted w) (received w ++ [d]) (consumed w).
Definition consume (d : bytes) (w : World) : World :=
  mkWorld (conn w) (queue w) (timers w) (kernel w) (wire w) (wshut w) (poller w) (log w) (held w)
    (accepted w) (received w) (consumed w ++ d).

Definition initial (c : TcpConnection) (k : list write_outcome) : World :=
  mkWorld c [] 0 k [] false [] [] Owned [] [] [].

Definition state (w : World) : StateE := state_ (conn w).
Definition setState (s : StateE) (w : World) : World := set_conn (with_state s (conn w)) w.
Definition chan (w : World) : Channel.Channel := channel_ (conn w).
Definition queueInLoop (f : functor) (w : World) : World := set_queue (queue w ++ [f]) w.

(** [Channel::update] after a change of interest. *)
Definition change (f : Channel.Channel → Channel.Channel) (w : World) : World :=
  let ch := Channel.with_added true (f (chan w)) in
  set_poller (poller w ++ [UpdateChannel (Channel.events_ ch)]) (set_conn (with_channel ch (conn w)) w).

(** [Channel::remove]. *)
Definition remove_channel (w : World) : result World :=
  _ ← check (Channel.isNoneEvent (chan w));
  Ok (set_poller (poller w ++ [RemoveChannel])
        (set_conn (with_channel (Channel.with_added false (chan w)) (conn w)) w)).

Definition EWOULDBLOCK : Z := 11.
Definition EPIPE : Z := 32.
Definition ECONNRESET : Z := 104.

(** [sockets::write]; after shutdown(SHUT_WR) it fails with EPIPE. *)
Definition write (data : bytes) (w : World) : World * Z * Z :=
  if wshut w then (w, -1, EPIPE)
  else match kernel w with
       | [] => (w, -1, EWOULDBLOCK)
       | WriteError e :: k => (set_wire k (wire w) w, -1, e)
       | WriteRoom n :: k =>
           let n := Z.max 0 (Z.min n (zlen data)) in
           (set_wire k (wire w ++ ztake n data) w, n, 0)
       end.

(** ** Sending *)

(** The end of [sendInLoop]: buffer what the kernel did not take. *)
Definition buffer_rest (data : bytes) (nwrote remaining : Z) (w : World) : result World :=
  let oldLen := Buffer.readableBytes (outputBuffer_ (conn w)) in
  let w := if (highWaterMark_ (conn w) <=? u64 (oldLen + remaining)) &&
              (oldLen <? highWaterMark_ (conn w)) && highWaterMarkCallback_ (conn w)
           then queueInLoop (HighWaterMark (u64 (oldLen + remaining))) w else w in
  out ← Buffer.append_n (outputBuffer_ (conn w)) (zdrop nwrote data) remaining;
  let w := set_conn (with_output out (conn w)) w in
  Ok (if Channel.isWriting (chan w) then w else change Channel.enableWriting w).

Definition sendInLoop (data : bytes) (w : World) : result World :=
  let len := zlen data in
  if bool_decide (state w = kDisconnected) then Ok w
  else
    let '(w, nwrote, remaining, faultError) :=
      (if negb (Channel.isWriting (chan w)) && (Buffer.readableBytes (outputBuffer_ (conn w)) =? 0)
       then
         let '(w, nwrote, errno) := write data w in
         if 0 <=? nwrote
         then
           let remaining := u64 (len - nwrote) in
           (if (remaining =? 0) && writeCompleteCallback_ (conn w)
            then queueInLoop WriteComplete w else w, nwrote, remaining, false)
         else
           (w, 0, len,
            negb (errno =? EWOULDBLOCK) && ((errno =? EPIPE) || (errno =? ECONNRESET)))
       else (w, 0, len, false)) in
    _ ← check (remaining <=? len);
    let w := if faultError then w else accept data w in
    if negb faultError && (0 <? remaining) then buffer_rest data nwrote remaining w else Ok w.

(** [send(const StringPiece&)] and [send(const void*, int)]. *)
Definition send (inLoopThread : bool) (message : bytes) (w : World) : result World :=
  if bool_decide (state w = kConnected)
  then if inLoopThread then sendInLoop message w else Ok (queueInLoop (SendInLoop message) w)
  else Ok w.

(** [send(Buffer *buf)]: the caller's buffer is emptied when the data is taken.
    (From another thread the string comes back through a [StringPiece], whose
    length is an [int]; here it keeps its length, so contents of 2 GiB and more
    are idealised.) *)
Definition send_buffer (inLoopThread : bool) (buf : Buffer) (w : World) : result (World * Buffer) :=
  if bool_decide (state w = kConnected)
  then if inLoopThread
       then data ← Buffer.range buf (Buffer.peek buf) (Buffer.beginWrite buf);
            w ← sendInLoop data w;
            Ok (w, Buffer.retrieveAll buf)
       else '(buf, data) ← Buffer.retrieveAllAsString buf;
            Ok (queueInLoop (SendInLoop data) w, buf)
  else Ok (w, buf).

(** ** Closing *)

Definition shutdownInLoop (w : World) : World :=
  if Channel.isWriting (chan w) then w else set_wshut w.

(** The part of [shutdown] behind its test of [state_]. *)
Definition shutdown_commit (inLoopThread : bool) (w : World) : World :=
  let w := setState kDisconnecting w in
  if inLoopThread then shutdownInLoop w else queueInLoop ShutdownInLoop w.
Definition shutdown (inLoopThread : bool) (w : World) : World :=
  if bool_decide (state w = kConnected) then shutdown_commit inLoopThread w else w.

Definition open_or_closing (w : World) : bool :=
  bool_decide (state w = kConnected) || bool_decide (state w = kDisconnecting).

Definition forceClose (w : World) : World :=
  if open_or_closing w
  then queueInLoop ForceCloseInLoop (setState kDisconnecting w)
  else w.

(** [runAfter] with a weak callback to [forceClose]. *)
Definition forceCloseWithDelay (w : World) : World :=
  if open_or_closing w
  then let w := setState kDisconnecting w in set_timers (S (timers w)) w
  else w.

(** ** Reading on and off *)

Definition startReadInLoop (w : World) : World :=
  if negb (reading_ (conn w)) || negb (Channel.isReading (chan w))
  then let w := change Channel.enableReading w in set_conn (with_reading true (conn w)) w
  else w.
Definition startRead (inLoopThread : bool) (w : World) : World :=
  if inLoopThread then startReadInLoop w else queueInLoop StartReadInLoop w.
Definition stopReadInLoop (w : World) : World :=
  if reading_ (conn w) || Channel.isReading (chan w)
  then let w := change Channel.disableReading w in set_conn (with_reading false (conn w)) w
  else w.
Definition stopRead (inLoopThread : bool) (w : World) : World :=
  if inLoopThread then stopReadInLoop w else queueInLoop StopReadInLoop w.

(** ** User code *)

(** What a callback, or any code of the loop thread, can do with the connection. *)
Inductive action :=
  | Send (message : bytes)
  | SendBuffer (buf : Buffer)
  | Shutdown
  | ForceClose
  | ForceCloseWithDelay
  | StartRead
  | StopRead
  | Retrieve (len : Z)             (* inputBuffer()->retrieve(len) *)
  | RetrieveAll.

Definition act (inLoopThread : bool) (a : action) (w : World) : result World :=
  match a with
  | Send m => send inLoopThread m w
  | SendBuffer b => fst <$> send_buffer inLoopThread b w
  | Shutdown => Ok (shutdown inLoopThread w)
  | ForceClose => Ok (forceClose w)
  | ForceCloseWithDelay => Ok (forceCloseWithDelay w)
  | StartRead => Ok (startRead inLoopThread w)
  | StopRead => Ok (stopRead inLoopThread w)
  | Retrieve n =>
      let b := inputBuffer_ (conn w) in
      b' ← Buffer.retrieve b n;
      Ok (consume (ztake n (content b)) (set_conn (with_input b' (conn w)) w))
  | RetrieveAll =>
      let b := inputBuffer_ (conn w) in
      Ok (consume (content b) (set_conn (with_input (Buffer.retrieveAll b) (conn w)) w))
  end.

Fixpoint acts (l : list action) (w : World) : result World :=
  match l with [] => Ok w | a :: l => w ← act true a w; acts l w end.

(** The default callbacks. *)
Definition defaultConnectionCallback : list action := [].
Definition defaultMessageCallback : list action := [RetrieveAll].

Section handlers.
(** The user's callbacks: the calls each makes when it is called. *)
Context (user : call → World → list action).

Definition call_user (c : call) (w : World) : result World :=
  acts (user c w) (set_log (log w ++ [c]) w).

Definition handleError (w : World) : World := w.

(** [closeCallback_] is the owner's. *)
Definition handleClose (w : World) : result World :=
  _ ← check (open_or_closing w);
  let w := setState kDisconnected w in
  let w := change Channel.disableAll w in
  w ← call_user ConnectionDown w;
  Ok (set_held CloseSeen (set_log (log w ++ [CloseCalled]) w)).

Definition forceCloseInLoop (w : World) : result World :=
  if open_or_closing w then handleClose w else Ok w.

Definition handleRead (o : Buffer.readv_outcome) (w : World) : result World :=
  '(b, n, savedErrno) ← Buffer.readFd (inputBuffer_ (conn w)) o;
  let w := set_conn (with_input b (conn w)) w in
  let w := match o with Buffer.ReadvData got => receive got w | _ => w end in
  if 0 <? n then call_user (MessageArrived (content (inputBuffer_ (conn w)))) w
  else if n =? 0 then handleClose w
  else Ok (handleError w).

Definition handleWrite (w : World) : result World :=
  if Channel.isWriting (chan w)
  then
    let b := outputBuffer_ (conn w) in
    data ← Buffer.range b (Buffer.peek b) (Buffer.beginWrite b);
    let '(w, n, errno) := write data w in
    if 0 <? n
    then
      out ← Buffer.retrieve (outputBuffer_ (conn w)) n;
      let w := set_conn (with_output out (conn w)) w in
      if Buffer.readableBytes out =? 0
      then
        let w := change Channel.disableWriting w in
        let w := if writeCompleteCallback_ (conn w) then queueInLoop WriteComplete w else w in
        Ok (if bool_decide (state w = kDisconnecting) then shutdownInLoop w else w)
      else Ok w
    else Ok w
  else Ok w.

Definition connectEstablished (w : World) : result World :=
  _ ← check (bool_decide (state w = kConnecting));
  let w := setState kConnected w in
  let w := set_conn (with_channel (Channel.tie (chan w)) (conn w)) w in
  let w := change Channel.enableReading w in
  call_user ConnectionUp w.

Definition connectDestroyed (w : World) : result World :=
  w ← (if bool_decide (state w = kConnected)
       then
         let w := setState kDisconnected w in
         let w := change Channel.disableAll w in
         call_user ConnectionDown w
       else Ok w);
  remove_channel (set_held Destroyed w).

(** [~TcpConnection], and [~Channel] of its channel. *)
Definition destructor (w : World) : result unit :=
  _ ← check (bool_decide (state w = kDisconnected));
  check (negb (Channel.addedToLoop_ (chan w))).

Definition run_functor (f : functor) (w : World) : result World :=
  match f with
  | SendInLoop m => sendInLoop m w
  | ShutdownInLoop => Ok (shutdownInLoop w)
  | ForceCloseInLoop => forceCloseInLoop w
  | StartReadInLoop => Ok (startReadInLoop w)
  | StopReadInLoop => Ok (stopReadInLoop w)
  | WriteComplete => call_user WriteCompleted w
  | HighWaterMark n => call_user (HighWaterMarkHit n) w
  | ConnectDestroyed => connectDestroyed w
  end.

(** The channel's callbacks, as the constructor binds them. *)
Definition run_callback (o : Buffer.readv_outcome) (cb : Channel.callback) (w : World) : result World :=
  match cb with
  | Channel.ReadCallback => handleRead o w
  | Channel.WriteCallback => handleWrite w
  | Channel.CloseCallback => handleClose w
  | Channel.ErrorCallback => Ok (handleError w)
  end.

Definition get_chan (w : World) : result Channel.Channel := Ok (chan w).
Definition put_chan (ch : Channel.Channel) (w : World) : World := set_conn (with_channel ch (conn w)) w.

(** The loop finds the descriptor ready. *)
Definition readiness (revents : Z) (o : Buffer.readv_outcome) (w : World) : result World :=
  Channel.handleEvent get_chan put_chan (run_callback o) true
    (put_chan (Channel.set_revents revents (chan w)) w).

(** ** Runs *)

Inductive event :=
  | Establish
  | Readiness (revents : Z) (o : Buffer.readv_outcome)
  | RunFunctor
  | InLoop (a : action)            (* other code of the loop thread *)
  | Foreign (a : action)           (* another thread *)
  | TimerFires                     (* a forceCloseWithDelay timer *)
  | OwnerQueues                    (* the owner queues connectDestroyed *)
  | OwnerGone.                     (* the owner is destroyed: ~TcpServer *)

Definition do_event (e : event) (w : World) : result World :=
  match e with
  | Establish => connectEstablished w
  | Readiness r o => readiness r o w
  | RunFunctor =>
      match queue w with [] => Ok w | f :: q => run_functor f (set_queue q w) end
  | InLoop a => act true a w
  | Foreign a => act false a w
  | TimerFires => Ok (forceClose (set_timers (pred (timers w)) w))
  | OwnerQueues => Ok (set_held DestroyQueued (queueInLoop ConnectDestroyed w))
  | OwnerGone => connectDestroyed w
  end.

Fixpoint do_events (es : list event) (w : World) : result World :=
  match es with [] => Ok w | e :: es => w ← do_event e w; do_events es w end.
End handlers.

(** ** What callers have to respect *)

Definition message_ok (m : bytes) : Prop := zlen m ≤ vec_max_size.

Definition action_ok (a : action) (w : World) : Prop :=
  match a with
  | Send m => message_ok m
  | SendBuffer b => wf b
  | StartRead | StopRead => open_or_closing w = true
  | Retrieve n => 0 ≤ n ≤ Buffer.readableBytes (inputBuffer_ (conn w))
  | _ => True
  end.

Fixpoint acts_ok (l : list action) (w : World) : Prop :=
  match l with
  | [] => True
  | a :: l => action_ok a w ∧ ∀ w', act true a w = Ok w' → acts_ok l w'
  end.

Definition user_ok (user : call → World → list action) : Prop :=
  ∀ c w, wf (inputBuffer_ (conn w)) → acts_ok (user c w) (set_log (log w ++ [c]) w).

(** Calls from another thread are taken to be atomic; see [shutdown_race] for
    what the test of [state_] followed by its assignment allows otherwise. *)
Definition foreign_ok (a : action) : Prop :=
  match a with
  | Send m => message_ok m
  | SendBuffer b => wf b
  | Retrieve _ | RetrieveAll => False
  | _ => True
  end.

Definition hung_up (r : Z) : bool :=
  Channel.bits r Channel.POLLHUP && negb (Channel.bits r Channel.POLLIN).
Definition read_events (r : Z) : bool :=
  Channel.bits r (Z.lor (Z.lor Channel.POLLIN Channel.POLLPRI) Channel.POLLRDHUP).

(** The kernel reports ready descriptors that are watched, and no readable
    event besides a hang-up without [POLLIN]; [readv] fills at most the space it is
    given. Other threads know the connection once it is established. Reading is
    not switched on or off once the connection is closed. The owner goes away
    only while the connection is established. *)
Definition legal (e : event) (w : World) : Prop :=
  match e with
  | Establish => state w = kConnecting
  | Readiness r o =>
      Channel.events_ (chan w) ≠ 0 ∧ (hung_up r = true → read_events r = false) ∧
      match o with
      | Buffer.ReadvData got =>
          zlen got ≤ Buffer.iov_capacity (inputBuffer_ (conn w)) ∧ zlen got ≤ vec_max_size
      | Buffer.ReadvError _ => True
      end
  | RunFunctor =>
      match queue w with
      | StartReadInLoop :: _ | StopReadInLoop :: _ => open_or_closing w = true
      | _ => True
      end
  | InLoop a => action_ok a w
  | Foreign a => foreign_ok a ∧ state w ≠ kConnecting
  | TimerFires => (0 < timers w)%nat
  | OwnerQueues => held w = CloseSeen
  | OwnerGone => state w = kConnected
  end.

Fixpoint legal_run user (es : list event) (w : World) : Prop :=
  match es with
  | [] => True
  | e :: es => legal e w ∧ ∀ w', do_event user e w = Ok w' → legal_run user es w'
  end.

(** ** Invariant *)

Definition writing (w : World) : bool := Channel.isWriting (chan w).
Definition out (w : World) : bytes := content (outputBuffer_ (conn w)).
Definition inp (w : World) : bytes := content (inputBuffer_ (conn w)).

Definition lifecycle_call (c : call) : bool :=
  match c with WriteCompleted | HighWaterMarkHit _ => false | _ => true end.
Definition is_message (c : call) : bool := match c with MessageArrived _ => true | _ => false end.
Definition lifecycle (w : World) : list call := List.filter lifecycle_call (log w).

(** The calls to user code so far: nothing, or up and then messages, or that
    followed by down and, from [handleClose], the close callback. *)
Definition lifecycle_ok (w : World) : Prop :=
  match state w with
  | kConnecting => log w = []
  | kConnected | kDisconnecting =>
      ∃ ms, forallb is_message ms = true ∧ lifecycle w = ConnectionUp :: ms
  | kDisconnected =>
      ∃ ms t, forallb is_message ms = true ∧
        lifecycle w = ConnectionUp :: ms ++ ConnectionDown :: t ∧
        match held w with
        | Owned => t = []
        | CloseSeen | DestroyQueued => t = [CloseCalled]
        | Destroyed => t = [] ∨ t = [CloseCalled]
        end
  end.

(** What the poller is told: updates, the last of which is the current
    interest, and a removal at the very end. *)
Definition poller_ok (w : World) : Prop :=
  ∃ es, poller w = (UpdateChannel <$> es) ++ (if decide (held w = Destroyed) then [RemoveChannel] else []) ∧
    default 0 (last es) = Channel.events_ (chan w) ∧
    (held w = Destroyed → Channel.addedToLoop_ (chan w) = false).

Definition is_destroy (f : functor) : bool := bool_decide (f = ConnectDestroyed).

(** A connection being shut down has something left that completes it. *)
Definition shutdown_on_its_way (w : World) : Prop :=
  wshut w = true ∨ writing w = true ∨ ShutdownInLoop ∈ queue w ∨ ForceCloseInLoop ∈ queue w ∨
  (0 < timers w)%nat.

Record inv (w : World) : Prop := {
  inv_wf : wf (inputBuffer_ (conn w)) ∧ wf (outputBuffer_ (conn w));
  inv_out : wire w ++ out w = concat (accepted w);
  inv_in : consumed w ++ inp w = concat (received w);
  inv_events : Channel.events_ok (Channel.events_ (chan w));
  inv_chan : Channel.readCallback_ (chan w) = true ∧ Channel.writeCallback_ (chan w) = true ∧
    Channel.closeCallback_ (chan w) = true ∧ Channel.errorCallback_ (chan w) = true;
  inv_writing : match state w with
    | kConnecting => Channel.events_ (chan w) = 0 ∧ out w = [] ∧ queue w = []
    | kDisconnected => Channel.events_ (chan w) = 0
    | _ => writing w = bool_decide (out w ≠ [])
    end;
  inv_shut : wshut w = true →
    (state w = kDisconnecting ∧ out w = []) ∨ state w = kDisconnected;
  inv_pending : state w = kDisconnecting → shutdown_on_its_way w;
  inv_log : lifecycle_ok w;
  inv_held : held w ≠ Owned → state w = kDisconnected;
  inv_queue : count is_destroy (queue w) = b2z (bool_decide (held w = DestroyQueued));
  inv_messages : ∀ m, SendInLoop m ∈ queue w → message_ok m;
  inv_shutdowns : ShutdownInLoop ∈ queue w → state w = kDisconnecting ∨ state w = kDisconnected;
  inv_poller : poller_ok w
}.

(** Between events, a closed connection has been reported to its owner. *)
Definition settled (w : World) : Prop := inv w ∧ (state w = kDisconnected → held w ≠ Owned).

(** ** User actions keep the invariant *)

(** What an action leaves alone. *)
Definition keeps (w w' : World) : Prop :=
  Channel.revents_ (chan w') = Channel.revents_ (chan w) ∧ held w' = held w ∧
  open_or_closing w' = open_or_closing w ∧ disconnected (conn w') = disconnected (conn w) ∧
  log w' = log w.

Lemma keeps_refl w : keeps w w.
Proof. done. Qed.
Lemma tcp_keeps_trans w1 w2 w3 : keeps w1 w2 → keeps w2 w3 → keeps w1 w3.
Proof. unfold keeps. intros (?&?&?&?&?) (?&?&?&?&?). repeat split; congruence. Qed.
#[local] Hint Resolve keeps_refl : core.

Lemma state_cases w :
  open_or_closing w = true ↔ state w = kConnected ∨ state w = kDisconnecting.
Proof. unfold open_or_closing. rewrite orb_true_iff, !bool_decide_eq_true. done. Qed.

Lemma not_open w : open_or_closing w = false ↔ state w = kConnecting ∨ state w = kDisconnected.
Proof.
  unfold open_or_closing. rewrite orb_false_iff, !bool_decide_eq_false. destruct (state w); naive_solver.
Qed.

Lemma writing_events e : Channel.events_ok e →
  Channel.bits (Z.lor e Channel.kWriteEvent) Channel.kWriteEvent = true ∧
  Channel.bits (Z.land e (Z.lnot Channel.kWriteEvent)) Channel.kWriteEvent = false ∧
  Channel.bits (Z.lor e Channel.kReadEvent) Channel.kWriteEvent = Channel.bits e Channel.kWriteEvent ∧
  Channel.bits (Z.land e (Z.lnot Channel.kReadEvent)) Channel.kWriteEvent = Channel.bits e Channel.kWriteEvent ∧
  Channel.events_ok (Z.lor e Channel.kWriteEvent) ∧ Channel.events_ok (Z.lor e Channel.kReadEvent) ∧
  Channel.events_ok (Z.land e (Z.lnot Channel.kWriteEvent)) ∧
  Channel.events_ok (Z.land e (Z.lnot Channel.kReadEvent)).
Proof. intros [->|[->|[->| ->]]]; unfold Channel.events_ok; cbn; repeat split; auto. Qed.

Lemma default_last_snoc (es : list Z) e : default 0 (last (es ++ [e])) = e.
Proof. by rewrite last_snoc. Qed.

Lemma count_other f : f ≠ ConnectDestroyed → count is_destroy [f] = 0.
Proof. intros Hf. cbn. unfold is_destroy. by rewrite bool_decide_false. Qed.

(** Growing the queue by anything but a second [ConnectDestroyed]. *)
Lemma inv_queueInLoop f w :
  inv w → state w ≠ kConnecting → f ≠ ConnectDestroyed → f ≠ ShutdownInLoop →
  (∀ m, f = SendInLoop m → message_ok m) → inv (queueInLoop f w).
Proof.
  intros [] Hs Hf Hf2 Hm. constructor; cbn; try done.
  - revert inv_writing0. change (state (queueInLoop f w)) with (state w). by destruct (state w).
  - intros E. unfold shutdown_on_its_way in *. cbn. set_solver.
  - rewrite count_app, count_other, inv_queue0 by done. lia.
  - intros m [?|?]%elem_of_app; [auto|]. set_solver.
  - intros [?|?]%elem_of_app; [auto|]. set_solver.
Qed.

(** A new interest that keeps the writing switch in step with the buffer. *)
Lemma tcp_inv_change f w :
  inv w → held w = Owned → open_or_closing w = true →
  (∀ ch, Channel.with_events (Channel.events_ (f ch)) ch = f ch) →
  Channel.events_ok (Channel.events_ (f (chan w))) →
  Channel.isWriting (f (chan w)) = writing w →
  inv (change f w) ∧ keeps w (change f w).
Proof.
  intros [] Hh Ho Hf He Hw. set (w' := change f w).
  assert (writing w' = writing w) as Ew by done.
  assert (∀ {A} (g : Channel.Channel → A), (∀ e ch, g (Channel.with_events e ch) = g ch) →
    (∀ b ch, g (Channel.with_added b ch) = g ch) → g (chan w') = g (chan w)) as Hg.
  { intros A g G1 G2. unfold w', change. cbn. by rewrite G2, <- Hf, G1. }
  split; [constructor|]; try done.
  - unfold w', change. cbn. destruct (inv_chan0) as (?&?&?&?). cbn. rewrite <- Hf. done.
  - change (state w') with (state w). rewrite Ew. apply state_cases in Ho. unfold out in *.
    destruct Ho as [E|E]; rewrite E in *; done.
  - intros E. unfold shutdown_on_its_way in *. rewrite Ew. auto.
  - destruct inv_poller0 as (es & Hp & Hl & Ha). exists (es ++ [Channel.events_ (f (chan w))]).
    rewrite decide_False in Hp |- * by (cbn; congruence). rewrite app_nil_r in Hp |- *.
    rewrite default_last_snoc, fmap_app. cbn. rewrite Hp. split_and!; try done. congruence.
  - split; [|done]. apply (Hg _ Channel.revents_); done.
Qed.

Lemma write_spec data w w' n e :
  write data w = (w', n, e) →
  (n = -1 ∧ (wshut w = true → e = EPIPE) ∧ ∃ k, w' = set_wire k (wire w) w) ∨
  (0 ≤ n ≤ zlen data ∧ wshut w = false ∧ ∃ k, w' = set_wire k (wire w ++ ztake n data) w).
Proof.
  unfold write. pose proof (zlen_nonneg data). destruct w as [? ? ? ker ? sh]; cbn.
  destruct sh; [intros [= <- <- <-]; left; split_and!; [done..|eexists; reflexivity]|].
  destruct ker as [|[m|e'] k]; intros [= <- <- <-]; [left|right|left].
  all: split_and!; try done; try lia; eexists; reflexivity.
Qed.

Lemma inv_set_wire k w : inv w → inv (set_wire k (wire w) w).
Proof. by intros []. Qed.

(** Taking over a message of which [taken] went straight to the kernel and
    [rest], if any, behind the output buffer. *)
Lemma inv_accept w k taken :
  inv w → open_or_closing w = true → (taken = [] ∨ out w = []) →
  inv (accept taken (set_wire k (wire w ++ taken) w)).
Proof.
  intros [] Ho Ht. constructor; try done. cbn.
  change (out (accept taken _)) with (out w). rewrite concat_app, <- inv_out0. cbn.
  rewrite app_nil_r. destruct Ht as [->| ->]; by rewrite ?app_nil_r.
Qed.

Lemma inv_buffer w k taken rest b :
  inv w → open_or_closing w = true → wshut w = false → rest ≠ [] →
  (taken = [] ∨ out w = []) → wf b → content b = out w ++ rest →
  let w1 := accept (taken ++ rest) (set_wire k (wire w ++ taken) w) in
  let w2 := set_conn (with_output b (conn w1)) w1 in
  inv (if Channel.isWriting (chan w2) then w2 else change Channel.enableWriting w2).
Proof.
  intros Hi Ho Hsh Hr Ht Hb Hc w1 w2. pose proof (inv_events w Hi) as He.
  destruct Hi. destruct inv_wf0. assert (out w2 = out w ++ rest) as Hout by done.
  assert (bool_decide (out w2 ≠ []) = true) as Hne.
  { apply bool_decide_eq_true. rewrite Hout. destruct (out w); [done|by cbn]. }
  apply state_cases in Ho as Hs.
  assert (held w = Owned) as Hh.
  { destruct (decide (held w = Owned)); [done|]. rewrite inv_held0 in Hs by done. naive_solver. }
  assert (wire w2 ++ out w2 = concat (accepted w2)) as Hstream.
  { rewrite Hout. cbn. rewrite concat_app, <- inv_out0. cbn. rewrite app_nil_r.
    destruct Ht as [->| ->]; by rewrite ?app_nil_r, <- ?app_assoc. }
  change (chan w2) with (chan w). fold (writing w). destruct (writing w) eqn:Ew.
  - constructor; try done.
    + change (state w2) with (state w). change (writing w2) with (writing w). rewrite Hne, Ew.
      by destruct Hs as [-> | ->].
    + intros E. change (wshut w2) with (wshut w) in E. congruence.
  - destruct (writing_events _ He) as (W1 & _ & _ & _ & W2 & _).
    constructor; try done.
    + assert (writing (change Channel.enableWriting w2) = true) as -> by exact W1.
      change (true = bool_decide (out (change Channel.enableWriting w2) ≠ [])) with
        (true = bool_decide (out w2 ≠ [])).
      change (state (change _ w2)) with (state w). rewrite Hne. by destruct Hs as [-> | ->].
    + intros E. change (wshut w = true) in E. congruence.
    + intros E. right. left. exact W1.
    + destruct inv_poller0 as (es & Hp & Hl & Ha).
      exists (es ++ [Channel.events_ (Channel.enableWriting (chan w))]).
      change (held (change _ w2)) with (held w). rewrite decide_False in Hp |- * by congruence.
      rewrite app_nil_r in Hp |- *. rewrite default_last_snoc, fmap_app. cbn.
      rewrite Hp. split_and!; try done. congruence.
Qed.

Lemma readable_out w : inv w → Buffer.readableBytes (outputBuffer_ (conn w)) = zlen (out w).
Proof. intros []. destruct inv_wf0. symmetry. by apply Buffer.zlen_content. Qed.

Lemma open_writing w : inv w → open_or_closing w = true → writing w = bool_decide (out w ≠ []).
Proof.
  intros Hi Ho. pose proof (inv_writing w Hi) as Hw. apply state_cases in Ho as [E|E]; by rewrite E in Hw.
Qed.

Lemma buffer_rest_inv w k taken rest :
  inv w → open_or_closing w = true → wshut w = false → rest ≠ [] →
  (taken = [] ∨ out w = []) → message_ok (taken ++ rest) →
  safe (λ w', inv w' ∧ keeps w w')
    (buffer_rest (taken ++ rest) (zlen taken) (zlen rest)
       (accept (taken ++ rest) (set_wire k (wire w ++ taken) w))).
Proof.
  intros Hi Ho Hsh Hr Ht Hm. unfold buffer_rest. set (w1 := accept _ _). cbv zeta.
  set (cond := _ && _ && _). set (hw := HighWaterMark _).
  change (if cond then queueInLoop hw w1 else w1) with
    (if cond then accept (taken ++ rest) (set_wire k (wire w ++ taken) (queueInLoop hw w)) else w1).
  assert (∃ w0, inv w0 ∧ keeps w w0 ∧ wshut w0 = false ∧ out w0 = out w ∧ wire w0 = wire w ∧
    open_or_closing w0 = true ∧
    (if cond then accept (taken ++ rest) (set_wire k (wire w ++ taken) (queueInLoop hw w)) else w1) =
    accept (taken ++ rest) (set_wire k (wire w0 ++ taken) w0)) as (w0 & Hi0 & Hk & Hs0 & Eo & Ew & Ho0 & ->).
  { destruct cond; [|by exists w]. exists (queueInLoop hw w). split_and!; try done.
    apply inv_queueInLoop; try done. intros E. apply state_cases in Ho. rewrite E in Ho. naive_solver. }
  destruct (inv_wf _ Hi0) as [_ Hwf]. rewrite zdrop_app_exact by done.
  unfold message_ok in Hm. rewrite zlen_app in Hm. pose proof (zlen_nonneg taken). pose proof (zlen_nonneg rest).
  eapply safe_bind; [apply Buffer.append_n_safe; [exact Hwf|lia|lia]|].
  intros b [Hb Hc]. rewrite ztake_all in Hc by lia. cbn [safe]. split.
  - apply inv_buffer; try done. by rewrite Eo.
  - eapply tcp_keeps_trans; [exact Hk|]. by case_match.
Qed.

Lemma sendInLoop_inv data w :
  inv w → state w ≠ kConnecting → message_ok data →
  safe (λ w', inv w' ∧ keeps w w') (sendInLoop data w).
Proof.
  intros Hi Hc Hm. unfold sendInLoop. case_bool_decide as Hd; [done|].
  assert (open_or_closing w = true) as Ho by (apply state_cases; destruct (state w); naive_solver).
  pose proof (zlen_nonneg data). unfold message_ok in Hm. assert (zlen data < 2 ^ 64) by zlia.
  rewrite readable_out by done.
  assert (writing w = bool_decide (out w ≠ [])) as Hw by (by apply open_writing).
  fold (writing w). rewrite Hw. case_bool_decide as Hout; cbn [negb andb].
  { (* something is buffered already *)
    assert (wshut w = false) as Hsh.
    { destruct (wshut w) eqn:E; [|done]. destruct (inv_shut w Hi E) as [[_ ?]|?]; done. }
    rewrite check_true, bind_Ok by (apply Z.leb_le; lia). cbn [negb andb].
    assert (accept data w = accept ([] ++ data) (set_wire (kernel w) (wire w ++ []) w)) as ->
      by (rewrite app_nil_r; by destruct w).
    destruct (Z.ltb_spec 0 (zlen data)).
    - apply (buffer_rest_inv w (kernel w) [] data); auto. by intros ->.
    - assert (data = []) as -> by (apply zlen_zero_inv; lia). cbn [safe app].
      split; [apply inv_accept; auto|done]. }
  rename Hout into Hnil.
  rewrite Hnil, zlen_nil, Z.eqb_refl.
  destruct (write data w) as [[w1 n] e] eqn:E.
  destruct (write_spec _ _ _ _ _ E) as [(-> & Hp & k & ->)|(Hn & Hsh & k & ->)].
  - (* the write failed *)
    change (0 <=? -1) with false. cbv beta iota. rewrite check_true, bind_Ok by (apply Z.leb_le; lia).
    destruct (negb (e =? EWOULDBLOCK) && ((e =? EPIPE) || (e =? ECONNRESET))) eqn:Ef; cbn [negb andb].
    { cbn [safe]. split; [by apply inv_set_wire|done]. }
    assert (wshut w = false) as Hsh.
    { destruct (wshut w) eqn:Esh; [|done]. rewrite Hp in Ef by done. done. }
    assert (accept data (set_wire k (wire w) w) = accept ([] ++ data) (set_wire k (wire w ++ []) w)) as ->
      by (by rewrite app_nil_r).
    destruct (Z.ltb_spec 0 (zlen data)).
    + apply (buffer_rest_inv w k [] data); auto. by intros ->.
    + assert (data = []) as -> by (apply zlen_zero_inv; lia). cbn [safe app].
      split; [apply inv_accept; auto|done].
  - (* [n] bytes were written *)
    rewrite (proj2 (Z.leb_le 0 n)) by lia.
    rewrite (wrapu_small 64 (zlen data - n)) by (unfold in_u; lia).
    rewrite check_true, bind_Ok by (apply Z.leb_le; lia). cbn [negb andb].
    destruct (Z.ltb_spec 0 (zlen data - n)) as [Hlt|Hge].
    + rewrite (proj2 (Z.eqb_neq _ _)) by lia. cbn [andb].
      assert (zlen (ztake n data) = n) as Hl by (by apply zlen_ztake).
      assert (zlen (zdrop n data) = zlen data - n) as Hl2 by (by apply zlen_zdrop).
      pose proof (buffer_rest_inv w k (ztake n data) (zdrop n data)) as B.
      rewrite ztake_zdrop, Hl, Hl2 in B. apply B; auto.
      intros Ez. rewrite Ez, zlen_nil in Hl2. lia.
    + rewrite ztake_all by lia. replace (zlen data - n) with 0 by lia. cbn [Z.eqb andb].
      set (cond := writeCompleteCallback_ _). cbn [safe]. split; [|by destruct cond].
      destruct cond; [|by apply inv_accept; auto].
      change (inv (accept data (set_wire k (wire (queueInLoop WriteComplete w) ++ data) (queueInLoop WriteComplete w)))).
      apply inv_accept; auto. by apply inv_queueInLoop.
Qed.

(** Entering (or staying in) [kDisconnecting], with what completes it. *)
Lemma inv_closing w q t sh :
  inv w → open_or_closing w = true →
  q = queue w ∨ q = queue w ++ [ShutdownInLoop] ∨ q = queue w ++ [ForceCloseInLoop] →
  sh = wshut w ∨ (sh = true ∧ writing w = false) →
  let w' := mkWorld (with_state kDisconnecting (conn w)) q t (kernel w) (wire w) sh (poller w)
              (log w) (held w) (accepted w) (received w) (consumed w) in
  shutdown_on_its_way w' → inv w' ∧ keeps w w'.
Proof.
  intros Hi Ho Hq Hsh w' Hway. pose proof (open_writing w Hi Ho) as Hw. destruct Hi.
  apply state_cases in Ho as Hs. split; [constructor; try done|].
  - intros E. left. split; [done|]. change (sh = true) in E. change (out w' = []) with (out w = []).
    destruct Hsh as [->|[_ Hwf]].
    + destruct (inv_shut0 E) as [[_ ?]|?]; [done|]. destruct Hs; congruence.
    + rewrite Hw in Hwf. apply bool_decide_eq_false in Hwf. by apply dec_stable in Hwf.
  - unfold lifecycle_ok in *. change (state w') with kDisconnecting. by destruct Hs as [E|E]; rewrite E in inv_log0.
  - intros Hh. specialize (inv_held0 Hh). destruct Hs; congruence.
  - change (queue w') with q. change (held w') with (held w). rewrite <- inv_queue0.
    destruct Hq as [->|[->| ->]]; [done|rewrite count_app, count_other by done; lia..].
  - intros m. change (queue w') with q. destruct Hq as [->|[->| ->]]; [auto|set_solver..].
  - intros _. by left.
  - unfold keeps. split_and!; try done. unfold disconnected. cbn.
    change (state_ (conn w)) with (state w). by destruct Hs as [-> | ->].
Qed.

Lemma shutdown_inv b w :
  inv w → inv (shutdown b w) ∧ keeps w (shutdown b w).
Proof.
  intros Hi. unfold shutdown. case_bool_decide as Hs; [|done].
  assert (open_or_closing w = true) as Ho by (apply state_cases; auto).
  unfold shutdown_commit. destruct b.
  - unfold shutdownInLoop. change (Channel.isWriting _) with (writing w). destruct (writing w) eqn:Ew.
    + apply (inv_closing w (queue w) (timers w) (wshut w)); auto. right. left. done.
    + apply (inv_closing w (queue w) (timers w) true); auto. by left.
  - apply (inv_closing w (queue w ++ [ShutdownInLoop]) (timers w) (wshut w)); auto.
    right; right; left. cbn. set_solver.
Qed.

Lemma forceClose_inv w : inv w → inv (forceClose w) ∧ keeps w (forceClose w).
Proof.
  intros Hi. unfold forceClose. destruct (open_or_closing w) eqn:Ho; [|done].
  apply (inv_closing w (queue w ++ [ForceCloseInLoop]) (timers w) (wshut w)); auto.
  right; right; right; left. cbn. set_solver.
Qed.

Lemma forceCloseWithDelay_inv w : inv w → inv (forceCloseWithDelay w) ∧ keeps w (forceCloseWithDelay w).
Proof.
  intros Hi. unfold forceCloseWithDelay. destruct (open_or_closing w) eqn:Ho; [|done].
  apply (inv_closing w (queue w) (S (timers w)) (wshut w)); auto.
  do 4 right. cbn. lia.
Qed.

Lemma open_owned w : inv w → open_or_closing w = true → held w = Owned.
Proof.
  intros Hi Ho%state_cases. destruct (decide (held w = Owned)); [done|].
  rewrite (inv_held w Hi) in Ho by done. by destruct Ho.
Qed.

Lemma inv_reading w b : inv w → inv (set_conn (with_reading b (conn w)) w).
Proof. by intros []. Qed.

Lemma startReadInLoop_inv w :
  inv w → open_or_closing w = true → inv (startReadInLoop w) ∧ keeps w (startReadInLoop w).
Proof.
  intros Hi Ho. unfold startReadInLoop. case_match; [|done].
  destruct (writing_events _ (inv_events w Hi)) as (_ & _ & W1 & _ & _ & W2 & _).
  destruct (tcp_inv_change Channel.enableReading w) as [Hi' Hk]; try done; [by apply open_owned|].
  split; [by apply inv_reading|done].
Qed.

Lemma stopReadInLoop_inv w :
  inv w → open_or_closing w = true → inv (stopReadInLoop w) ∧ keeps w (stopReadInLoop w).
Proof.
  intros Hi Ho. unfold stopReadInLoop. case_match; [|done].
  destruct (writing_events _ (inv_events w Hi)) as (_ & _ & _ & W1 & _ & _ & _ & W2).
  destruct (tcp_inv_change Channel.disableReading w) as [Hi' Hk]; try done; [by apply open_owned|].
  split; [by apply inv_reading|done].
Qed.

Lemma send_inv b m w :
  inv w → message_ok m → safe (λ w', inv w' ∧ keeps w w') (send b m w).
Proof.
  intros Hi Hm. unfold send. case_bool_decide as Hs; [|done]. destruct b.
  - apply sendInLoop_inv; [done| |done]. by rewrite Hs.
  - cbn. split; [|done]. apply inv_queueInLoop; try done; [by rewrite Hs|]. by intros ? [= <-].
Qed.

Lemma content_message b : wf b → message_ok (content b).
Proof.
  intros Hb. unfold message_ok. rewrite Buffer.zlen_content, Buffer.readable_wf by done. Buffer.buf. lia.
Qed.

Lemma send_buffer_inv b buf w :
  inv w → wf buf →
  safe (λ r, inv r.1 ∧ keeps w r.1) (send_buffer b buf w).
Proof.
  intros Hi Hb. unfold send_buffer. pose proof (content_message buf Hb) as Hm.
  case_bool_decide as Hs; [|done]. destruct b.
  - rewrite Buffer.range_content, bind_Ok by done. eapply safe_bind; [apply sendInLoop_inv|]; try done.
    by rewrite Hs.
  - unfold Buffer.retrieveAllAsString.
    assert (0 ≤ Buffer.readableBytes buf) by (rewrite Buffer.readable_wf by done; Buffer.buf; lia).
    destruct (Buffer.retrieveAsString_ok buf (Buffer.readableBytes buf)) as (b' & -> & _ & _); [done|lia|].
    rewrite bind_Ok. rewrite (ztake_all _ (content buf)) by (rewrite Buffer.zlen_content by done; lia).
    cbn. split; [|done]. apply inv_queueInLoop; try done; [by rewrite Hs|]. by intros ? [= <-].
Qed.

Lemma inv_input b got taken w :
  inv w → wf b → taken ++ content b = inp w ++ got →
  inv (set_conn (with_input b (conn w))
         (mkWorld (conn w) (queue w) (timers w) (kernel w) (wire w) (wshut w) (poller w) (log w) (held w)
            (accepted w) (received w ++ [got]) (consumed w ++ taken))).
Proof.
  intros [] Hb Hc. destruct inv_wf0. constructor; try done. cbn.
  change (inp _) with (content b). rewrite concat_app, <- inv_in0. cbn.
  by rewrite app_nil_r, <- !app_assoc, Hc.
Qed.

Lemma inv_retrieve b taken w :
  inv w → wf b → taken ++ content b = inp w →
  inv (consume taken (set_conn (with_input b (conn w)) w)).
Proof.
  intros [] Hb Hc. destruct inv_wf0. constructor; try done. cbn.
  change (inp _) with (content b). by rewrite <- inv_in0, <- app_assoc, Hc.
Qed.

Lemma act_inv a w :
  inv w → action_ok a w → safe (λ w', inv w' ∧ keeps w w') (act true a w).
Proof.
  intros Hi. destruct a as [m|b| | | | | |n| ]; cbn [action_ok act]; intros Ha.
  - by apply send_inv.
  - pose proof (send_buffer_inv true b w Hi Ha) as Hs. by destruct (send_buffer true b w).
  - by apply shutdown_inv.
  - by apply forceClose_inv.
  - by apply forceCloseWithDelay_inv.
  - by apply startReadInLoop_inv.
  - by apply stopReadInLoop_inv.
  - destruct (inv_wf w Hi) as [Hb _].
    destruct (Buffer.retrieve_ok (inputBuffer_ (conn w)) n Hb Ha) as (b' & -> & Hb' & Hc).
    rewrite bind_Ok. cbn [safe]. split; [|done]. apply inv_retrieve; [done..|]. by rewrite Hc, ztake_zdrop.
  - destruct (inv_wf w Hi) as [Hb _]. cbn [safe]. split; [|done].
    apply inv_retrieve; [done|by apply Buffer.retrieveAll_wf|]. by rewrite Buffer.retrieveAll_content, app_nil_r.
Qed.

Lemma acts_inv l : ∀ w, inv w → acts_ok l w → safe (λ w', inv w' ∧ keeps w w') (acts l w).
Proof.
  induction l as [|a l IH]; intros w Hi Ha; [done|]. destruct Ha as [Ha Hl]. cbn [acts].
  pose proof (act_inv a w Hi Ha) as Hs. destruct (act true a w) as [w1|]; [|done].
  destruct Hs as [Hi1 Hk1]. rewrite bind_Ok. eapply safe_mono; [by apply IH; auto|].
  intros w2 [? ?]. split; [done|]. by eapply tcp_keeps_trans.
Qed.

Lemma foreign_inv a w :
  inv w → foreign_ok a → state w ≠ kConnecting → safe (λ w', inv w' ∧ keeps w w') (act false a w).
Proof.
  intros Hi Ha Hs. destruct a as [m|b| | | | | |n| ]; cbn [foreign_ok act] in *; try done.
  - by apply send_inv.
  - pose proof (send_buffer_inv false b w Hi Ha) as Hb. by destruct (send_buffer false b w).
  - by apply shutdown_inv.
  - by apply forceClose_inv.
  - by apply forceCloseWithDelay_inv.
  - split; [|done]. by apply inv_queueInLoop.
  - split; [|done]. by apply inv_queueInLoop.
Qed.

(** ** Draining the output buffer *)

Lemma writing_open w : inv w → writing w = true → open_or_closing w = true.
Proof.
  intros Hi Hw. apply state_cases. pose proof (inv_writing w Hi) as Hs. unfold writing, Channel.isWriting in Hw.
  destruct (state w); [|destruct Hs as [Hs _]|auto|auto]; rewrite Hs in Hw; done.
Qed.

Definition drained (b : Buffer) (k : list write_outcome) (n : Z) (w : World) : World :=
  set_conn (with_output b (conn w)) (set_wire k (wire w ++ ztake n (out w)) w).

Lemma inv_drained w b k n :
  inv w → writing w = true → wf b → content b = zdrop n (out w) → content b ≠ [] →
  inv (drained b k n w).
Proof.
  intros Hi Hw Hb Hc Hn. pose proof (writing_open w Hi Hw) as Ho. pose proof (open_writing w Hi Ho) as Ew.
  destruct Hi. destruct inv_wf0. constructor; try done.
  - change (out (drained _ _ _ w)) with (content b). cbn.
    by rewrite Hc, <- app_assoc, ztake_zdrop.
  - change (writing (drained _ _ _ w)) with (writing w). change (out (drained _ _ _ w)) with (content b).
    change (state (drained _ _ _ w)) with (state w).
    rewrite Hw, bool_decide_true by done. by apply state_cases in Ho as [-> | ->].
  - intros E. destruct (inv_shut0 E) as [[_ E']|E']; [|by right].
    rewrite Hw in Ew. apply eq_sym, bool_decide_eq_true in Ew. done.
Qed.

(** The buffer is empty: writing is switched off and a shutdown that waited for
    this is carried out. *)
Lemma inv_flushed w b k n :
  inv w → writing w = true → wf b → content b = zdrop n (out w) → content b = [] →
  let w1 := change Channel.disableWriting (drained b k n w) in
  inv (if bool_decide (state w1 = kDisconnecting) then shutdownInLoop w1 else w1).
Proof.
  intros Hi Hw Hb Hc Hn w1. pose proof (writing_open w Hi Hw) as Ho. pose proof (open_writing w Hi Ho) as Ew.
  destruct (writing_events _ (inv_events w Hi)) as (_ & W1 & _ & _ & _ & _ & W2 & _).
  pose proof (open_owned w Hi Ho) as Hh. destruct Hi. destruct inv_wf0.
  assert (writing w1 = false) as Hw1 by exact W1.
  assert (out w1 = []) as Ho1 by exact Hn.
  assert (wire w1 ++ out w1 = concat (accepted w1)) as Hstream.
  { rewrite Ho1, app_nil_r. change (wire w ++ ztake n (out w) = concat (accepted w)).
    rewrite <- inv_out0. f_equal. rewrite <- (ztake_zdrop n (out w)) at 2. by rewrite <- Hc, Hn, app_nil_r. }
  assert (poller_ok w1) as Hpo.
  { destruct inv_poller0 as (es & Hp & Hl & Ha).
    exists (es ++ [Channel.events_ (Channel.disableWriting (chan w))]). cbn. rewrite Hh in *.
    rewrite decide_False in Hp by done. rewrite decide_False by done. rewrite app_nil_r in Hp |- *.
    rewrite default_last_snoc, fmap_app, Hp. done. }
  unfold shutdownInLoop. fold (writing w1). rewrite Hw1.
  change (state w1) with (state w). destruct (decide (state w = kDisconnecting)) as [Hs|Hs];
    [rewrite bool_decide_true by done|rewrite bool_decide_false by done].
  - constructor; try done.
    + change (state (set_wshut w1)) with (state w). rewrite Hs.
      change (writing w1 = bool_decide (out w1 ≠ [])). by rewrite Hw1, Ho1.
    + intros _. left. done.
    + intros _. by left.
  - apply state_cases in Ho as [E|E]; [|done]. constructor; try done.
    + change (state w1) with (state w). rewrite E. by rewrite Hw1, Ho1.
    + intros E'. change (wshut w = true) in E'. destruct (inv_shut0 E') as [[? _]|?]; congruence.
Qed.

Lemma handleWrite_inv w : inv w → safe (λ w', inv w' ∧ keeps w w') (handleWrite w).
Proof.
  intros Hi. unfold handleWrite. fold (writing w). destruct (writing w) eqn:Hw; [|done].
  destruct (inv_wf w Hi) as [_ Hb]. rewrite Buffer.range_content, bind_Ok by done. fold (out w).
  destruct (write (out w) w) as [[w1 n] e] eqn:E.
  destruct (write_spec _ _ _ _ _ E) as [(-> & _ & k & ->)|(Hn & Hsh & k & ->)].
  { cbn. split; [by apply inv_set_wire|done]. }
  destruct (Z.ltb_spec 0 n) as [Hpos|Hz].
  2: { assert (n = 0) as -> by lia. rewrite ztake_0, app_nil_r. cbn. split; [by apply inv_set_wire|done]. }
  destruct (Buffer.retrieve_ok (outputBuffer_ (conn w)) n) as (b & Eb & Hb' & Hc); [done| |].
  { by rewrite readable_out. }
  change (outputBuffer_ (conn (set_wire k (wire w ++ ztake n (out w)) w))) with (outputBuffer_ (conn w)).
  rewrite Eb, bind_Ok. cbv zeta. rewrite <- Buffer.zlen_content by done.
  fold (drained b k n w). fold (out w) in Hc.
  change (set_conn _ (set_wire k (wire w ++ ztake n (out w)) w)) with (drained b k n w).
  destruct (Z.eqb_spec (zlen (content b)) 0) as [Ez|Ez].
  - apply zlen_zero_inv in Ez. set (cond := writeCompleteCallback_ _). cbn [safe].
    split; [|unfold shutdownInLoop; destruct cond; repeat case_match; done].
    destruct cond; [|by apply inv_flushed].
    apply (inv_flushed (queueInLoop WriteComplete w) b k n); try done.
    apply inv_queueInLoop; try done. pose proof (writing_open w Hi Hw) as Ho%state_cases.
    intros Hs. rewrite Hs in Ho. by destruct Ho.
  - cbn [safe]. split; [|done]. apply inv_drained; try done. intros Hnil. by rewrite Hnil, zlen_nil in Ez.
Qed.

Section preservation.
Context (user : call → World → list action) (Hu : user_ok user).

Lemma inv_log_extra c w :
  inv w → state w ≠ kConnecting → lifecycle_call c = false → inv (set_log (log w ++ [c]) w).
Proof.
  intros [] Hs Hc. constructor; try done. unfold lifecycle_ok, lifecycle in *. cbn [log set_log].
  rewrite List.filter_app. cbn. rewrite Hc, app_nil_r. change (state (set_log _ w)) with (state w).
  by destruct (state w).
Qed.

Lemma inv_log_message m w :
  inv w → open_or_closing w = true → inv (set_log (log w ++ [MessageArrived m]) w).
Proof.
  intros [] Ho%state_cases. constructor; try done. unfold lifecycle_ok, lifecycle in *. cbn [log set_log].
  rewrite List.filter_app. cbn [List.filter lifecycle_call]. change (state (set_log _ w)) with (state w).
  assert (∃ ms, forallb is_message ms = true ∧ List.filter lifecycle_call (log w) = ConnectionUp :: ms)
    as (ms & Hms & El) by (by destruct Ho as [E|E]; rewrite E in inv_log0).
  assert (forallb is_message (ms ++ [MessageArrived m]) = true)
    by (rewrite forallb_app, Hms; done).
  destruct Ho as [-> | ->]; exists (ms ++ [MessageArrived m]); by rewrite El.
Qed.

Lemma call_user_inv c w :
  inv (set_log (log w ++ [c]) w) →
  safe (λ w', inv w' ∧ keeps (set_log (log w ++ [c]) w) w') (call_user user c w).
Proof. intros Hi. apply acts_inv; [done|]. apply Hu, (inv_wf _ Hi). Qed.

(** The queue of [w], or what is left of it after a functor other than
    [ConnectDestroyed] was taken. *)
Definition rest_of (q : list functor) (w : World) : Prop :=
  q ⊆ queue w ∧ count is_destroy q = count is_destroy (queue w).

Lemma rest_of_self w : rest_of (queue w) w.
Proof. done. Qed.
Lemma rest_of_tail f q w : queue w = f :: q → f ≠ ConnectDestroyed → rest_of q w.
Proof.
  intros E Hf. unfold rest_of. rewrite E. change (f :: q) with ([f] ++ q). rewrite count_app, count_other by done.
  split; [set_solver|lia].
Qed.
Lemma set_queue_self w : set_queue (queue w) w = w.
Proof. by destruct w. Qed.

(** The state a closing connection shows its user. *)
Lemma inv_down q w :
  inv w → open_or_closing w = true → rest_of q w →
  let w1 := change Channel.disableAll (setState kDisconnected (set_queue q w)) in
  inv (set_log (log w1 ++ [ConnectionDown]) w1).
Proof.
  intros Hi Ho [Hq1 Hq2] w1. pose proof (open_owned w Hi Ho) as Hh. destruct Hi. apply state_cases in Ho.
  constructor; try done.
  - by left.
  - intros _. by right.
  - unfold lifecycle_ok, lifecycle in *. cbn -[List.filter]. rewrite List.filter_app. cbn [List.filter lifecycle_call].
    assert (∃ ms, forallb is_message ms = true ∧ List.filter lifecycle_call (log w) = ConnectionUp :: ms)
      as (ms & Hms & ->) by (by destruct Ho as [E|E]; rewrite E in inv_log0).
    exists ms, []. by rewrite Hh.
  - cbn. by rewrite Hq2.
  - intros m Hm. apply inv_messages0. by apply Hq1.
  - intros _. by right.
  - destruct inv_poller0 as (es & Hp & Hl & Ha). exists (es ++ [0]). cbn.
    rewrite Hh in *. rewrite decide_False in Hp |- * by done. rewrite app_nil_r in Hp |- *.
    rewrite default_last_snoc, fmap_app, Hp. done.
Qed.

Lemma disconnected_keeps w w' : keeps w w' → state w = kDisconnected → state w' = kDisconnected.
Proof.
  intros (_&_&_&E&_) Hs. unfold disconnected in E. fold (state w) in E. fold (state w') in E.
  rewrite (bool_decide_true (state w = kDisconnected)) in E by done. by apply bool_decide_eq_true in E.
Qed.

Lemma handleClose_inv q w :
  inv w → open_or_closing w = true → rest_of q w →
  safe (λ w', inv w' ∧ state w' = kDisconnected ∧ held w' = CloseSeen ∧
              Channel.revents_ (chan w') = Channel.revents_ (chan w)) (handleClose user (set_queue q w)).
Proof.
  intros Hi Ho Hq. unfold handleClose. change (open_or_closing (set_queue q w)) with (open_or_closing w).
  rewrite Ho. cbn [check]. rewrite bind_Ok.
  pose proof (inv_down q w Hi Ho Hq) as Hd. set (w1 := change _ _) in *.
  pose proof (open_owned w Hi Ho) as Hh.
  eapply safe_bind; [by apply call_user_inv|]. intros w2 [Hi2 Hk]. cbn [safe].
  pose proof (disconnected_keeps _ _ Hk eq_refl) as Hs. destruct Hk as (Hr & Hh2 & _ & _ & Hl).
  change (held w2 = held w) in Hh2. rewrite Hh in Hh2.
  split_and!; try done. destruct Hi2. constructor; try done.
  - unfold lifecycle_ok, lifecycle in *. change (state (set_held _ _)) with (state w2). rewrite Hs in *.
    cbn -[List.filter]. rewrite List.filter_app. cbn [List.filter lifecycle_call].
    destruct inv_log0 as (ms & t & Hms & -> & Ht). rewrite Hh2 in Ht. subst t.
    exists ms, [CloseCalled]. cbn [app]. rewrite <- app_assoc. done.
  - cbn. by rewrite inv_queue0, Hh2.
  - destruct inv_poller0 as (es & Hp & Hl2 & Ha). exists es. cbn. rewrite Hh2 in *.
    rewrite decide_False in Hp by done. rewrite decide_False by done. done.
Qed.

(** After a handler: the connection is as open as before, or it was closed. *)
Definition handled (w w' : World) : Prop :=
  settled w' ∧ Channel.revents_ (chan w') = Channel.revents_ (chan w).

Lemma open_not_disconnected w : open_or_closing w = true → state w ≠ kDisconnected.
Proof. intros Ho%state_cases E. rewrite E in Ho. by destruct Ho. Qed.

Lemma handled_keeps w w' : settled w → inv w' → keeps w w' → handled w w'.
Proof.
  intros [_ Hh] Hi (Hr & Eh & _ & Ed & _). split; [|done]. split; [done|]. rewrite Eh.
  intros Hs. apply Hh. unfold disconnected in Ed. fold (state w) in Ed. fold (state w') in Ed.
  rewrite (bool_decide_true (state w' = kDisconnected)) in Ed by done. symmetry in Ed.
  by apply bool_decide_eq_true in Ed.
Qed.

Lemma handleClose_handled q w :
  inv w → open_or_closing w = true → rest_of q w → safe (handled w) (handleClose user (set_queue q w)).
Proof.
  intros Hi Ho Hq. eapply safe_mono; [by apply handleClose_inv|]. intros w' (Hi' & Hs & Hh & Hr).
  split; [|done]. split; [done|]. by rewrite Hh.
Qed.

Definition readv_ok (o : Buffer.readv_outcome) (w : World) : Prop :=
  match o with
  | Buffer.ReadvData got =>
      zlen got ≤ Buffer.iov_capacity (inputBuffer_ (conn w)) ∧ zlen got ≤ vec_max_size
  | Buffer.ReadvError _ => True
  end.

Lemma handleRead_handled o w :
  inv w → open_or_closing w = true → readv_ok o w → safe (handled w) (handleRead user o w).
Proof.
  intros Hi Ho Hr. pose proof (open_not_disconnected w Ho) as Hnd.
  destruct (inv_wf w Hi) as [Hb Hb2]. unfold handleRead. destruct o as [e|got].
  { rewrite (Buffer.readFd_content _ (Buffer.ReadvError e) Hb), bind_Ok. cbn. by destruct w as [[]]. }
  destruct Hr as [Hcap Hmax]. eapply safe_bind; [by apply Buffer.readFd_safe|].
  intros r (b & -> & Hb' & Hc). set (w1 := receive got _).
  assert (inv w1) as Hi1.
  { pose proof (inv_input b got [] w Hi Hb' Hc) as Hx. by rewrite app_nil_r in Hx. }
  assert (settled w1) as Hs1 by done.
  destruct (Z.ltb_spec 0 (zlen got)) as [Hpos|Hz].
  - eapply safe_mono; [apply call_user_inv; by apply inv_log_message|].
    intros w' [Hi' Hk]. apply (handled_keeps _ _) in Hk; [done| |done]. split; [|done]. by apply inv_log_message.
  - pose proof (zlen_nonneg got). rewrite (proj2 (Z.eqb_eq _ _)) by lia.
    rewrite <- (set_queue_self w1). by apply (handleClose_handled (queue w1) w1).
Qed.

Lemma connectEstablished_inv w :
  inv w → state w = kConnecting → safe settled (connectEstablished user w).
Proof.
  intros Hi Hs. unfold connectEstablished. rewrite bool_decide_true by done. cbn [check]. rewrite bind_Ok.
  set (w1 := change _ _). pose proof (inv_writing w Hi) as Hw. rewrite Hs in Hw. destruct Hw as (He & Hout & Hq).
  assert (held w = Owned) as Hh.
  { destruct (decide (held w = Owned)); [done|]. by rewrite (inv_held w Hi) in Hs. }
  assert (inv (set_log (log w1 ++ [ConnectionUp]) w1)) as Hi1.
  { destruct Hi. constructor; try done.
    - change (Channel.events_ok (Z.lor (Channel.events_ (chan w)) Channel.kReadEvent)).
      rewrite He. right; left; done.
    - change (Channel.bits (Z.lor (Channel.events_ (chan w)) Channel.kReadEvent) Channel.kWriteEvent =
        bool_decide (out w ≠ [])). by rewrite Hout, He.
    - intros E. change (wshut w = true) in E. destruct (inv_shut0 E) as [[? _]|?]; congruence.
    - exists []. unfold lifecycle_ok in inv_log0. rewrite Hs in inv_log0. unfold lifecycle. cbn. by rewrite inv_log0.
    - intros Hx. change (ShutdownInLoop ∈ queue w) in Hx. rewrite Hq in Hx. by apply elem_of_nil in Hx.
    - destruct inv_poller0 as (es & Hp & Hl & Ha). exists (es ++ [3]). cbn.
      change (channel_ (conn w)) with (chan w). rewrite He, Hh in *.
      rewrite decide_False in Hp by done. rewrite decide_False by done. rewrite app_nil_r in Hp |- *.
      rewrite default_last_snoc, fmap_app, Hp. done. }
  eapply safe_mono; [by apply call_user_inv|]. intros w' [Hi' Hk].
  apply handled_keeps in Hk; [apply Hk|done|done].
Qed.

Lemma inv_removed w q :
  inv w → state w = kDisconnected → held w ≠ Destroyed → count is_destroy q = 0 → q ⊆ queue w →
  let w1 := set_held Destroyed (set_queue q w) in
  safe settled (remove_channel w1).
Proof.
  intros [] Hs Hh Hq Hsub w1. rewrite Hs in inv_writing0. unfold remove_channel, Channel.isNoneEvent.
  change (chan w1) with (chan w). rewrite inv_writing0.
  change (check (0 =? Channel.kNoneEvent)) with (Ok tt). rewrite bind_Ok. cbn [safe].
  split; [|done]. constructor; try done.
  - change (state _) with (state w). by rewrite Hs.
  - intros E. change (state w = kDisconnecting) in E. congruence.
  - unfold lifecycle_ok in *. change (state _) with (state w). rewrite Hs in *.
    destruct inv_log0 as (ms & t & Hms & El & Ht). exists ms, t. split_and!; try done.
    cbn. by destruct (held w); auto.
  - intros m Hm. apply inv_messages0. by apply Hsub.
  - intros Hm. apply inv_shutdowns0. by apply Hsub.
  - destruct inv_poller0 as (es & Hp & Hl & Ha). exists es. cbn.
    rewrite decide_False in Hp by done. rewrite decide_True by done. rewrite app_nil_r in Hp.
    by rewrite Hp.
Qed.

Lemma connectDestroyed_open w :
  inv w → state w = kConnected → safe settled (connectDestroyed user w).
Proof.
  intros Hi Hs. unfold connectDestroyed. rewrite bool_decide_true by done.
  assert (open_or_closing w = true) as Ho by (apply state_cases; auto).
  pose proof (inv_down _ w Hi Ho (rest_of_self w)) as Hd. rewrite set_queue_self in Hd.
  pose proof (open_owned w Hi Ho) as Hh.
  eapply safe_bind; [by apply call_user_inv|]. intros w2 [Hi2 Hk].
  pose proof (disconnected_keeps _ _ Hk eq_refl) as Hs2. destruct Hk as (_ & Hh2 & _).
  change (held w2 = held w) in Hh2. rewrite Hh in Hh2.
  rewrite <- (set_queue_self w2). apply inv_removed; [done|done|by rewrite Hh2| |done].
  by rewrite (inv_queue w2 Hi2), Hh2.
Qed.

Lemma inv_pop f q w :
  inv w → queue w = f :: q → f ≠ ConnectDestroyed →
  (state w = kDisconnecting → shutdown_on_its_way (set_queue q w)) → inv (set_queue q w).
Proof.
  intros Hi Hq Hf Hp. destruct (rest_of_tail f q w Hq Hf) as [Hsub Hc]. destruct Hi.
  constructor; try done.
  - change (state (set_queue q w)) with (state w). destruct (state w); try done.
    destruct inv_writing0 as (_ & _ & E). congruence.
  - cbn. by rewrite Hc.
  - intros m Hm. apply inv_messages0. by apply Hsub.
  - intros Hm. apply inv_shutdowns0. by apply Hsub.
Qed.

(** Functors that do not complete a shutdown. *)
Lemma inv_pop_other f q w :
  inv w → queue w = f :: q → f ≠ ConnectDestroyed → f ≠ ShutdownInLoop → f ≠ ForceCloseInLoop →
  inv (set_queue q w).
Proof.
  intros Hi Hq H1 H2 H3. eapply inv_pop; try done. intros Hs. pose proof (inv_pending w Hi Hs) as Hp.
  unfold shutdown_on_its_way in *. rewrite Hq in Hp. cbn. rewrite !elem_of_cons in Hp.
  destruct Hp as [?|[?|[[?|?]|[[?|?]|?]]]]; auto; done.
Qed.

Lemma inv_wshut w :
  inv w → writing w = false → state w = kDisconnecting ∨ state w = kDisconnected → inv (set_wshut w).
Proof.
  intros Hi Hw Hs.
  assert (state w = kDisconnecting → out w = []) as Hout.
  { intros E. pose proof (open_writing w Hi ltac:(apply state_cases; auto)) as Ew. rewrite Hw in Ew.
    symmetry in Ew. apply bool_decide_eq_false in Ew. by apply dec_stable in Ew. }
  destruct Hi. constructor; try done.
  - intros _. destruct Hs; [left|right]; auto.
  - intros _. by left.
Qed.

Lemma keeps_settled w w' : settled w → inv w' ∧ keeps w w' → settled w'.
Proof. intros Hs [Hi Hk]. by apply (handled_keeps w w'). Qed.

Lemma pop_settled f q w :
  settled w → queue w = f :: q → f ≠ ConnectDestroyed → f ≠ ShutdownInLoop → f ≠ ForceCloseInLoop →
  settled (set_queue q w).
Proof. intros [Hi Hh] Hq ? ? ?. split; [by eapply inv_pop_other|done]. Qed.

Lemma call_extra_settled c w :
  settled w → state w ≠ kConnecting → lifecycle_call c = false → safe settled (call_user user c w).
Proof.
  intros [Hi Hh] Hs Hc. assert (inv (set_log (log w ++ [c]) w)) as Hi' by by apply inv_log_extra.
  eapply safe_mono; [by apply call_user_inv|]. intros w'. by apply keeps_settled.
Qed.

Lemma run_functor_settled f q w :
  settled w → queue w = f :: q →
  (f = StartReadInLoop ∨ f = StopReadInLoop → open_or_closing w = true) →
  safe settled (run_functor user f (set_queue q w)).
Proof.
  intros Hst Hq Hl. pose proof (pop_settled f q w Hst Hq) as Hpop. destruct Hst as [Hi Hh].
  assert (state w ≠ kConnecting) as Hnc.
  { intros E. pose proof (inv_writing w Hi) as Hw. rewrite E in Hw. destruct Hw as (_&_&Hw). congruence. }
  assert (∀ f', f' = f → f' ∈ queue w) as Hin by (intros ? ->; rewrite Hq; set_solver).
  destruct f as [m| | | | | |n| ]; cbn [run_functor].
  - specialize (Hpop ltac:(done) ltac:(done) ltac:(done)).
    eapply safe_mono; [apply sendInLoop_inv|intros w'; by apply keeps_settled]; [apply Hpop|done|].
    apply (inv_messages w Hi). auto.
  - unfold shutdownInLoop. change (Channel.isWriting _) with (writing w). destruct (writing w) eqn:Hw.
    + cbn. split; [|done]. eapply inv_pop; try done. intros _. right. by left.
    + cbn [safe]. split; [|done]. apply (inv_pop ShutdownInLoop q (set_wshut w)); try done.
      * apply inv_wshut; [done..|]. apply (inv_shutdowns w Hi). auto.
      * intros _. by left.
  - unfold forceCloseInLoop. change (open_or_closing (set_queue q w)) with (open_or_closing w).
    destruct (open_or_closing w) eqn:Ho.
    + eapply safe_mono; [apply handleClose_handled; [done..|by eapply rest_of_tail]|]. by intros w' [? _].
    + cbn. split; [|done]. eapply inv_pop; try done. intros E.
      assert (open_or_closing w = true) by (apply state_cases; auto). congruence.
  - specialize (Hpop ltac:(done) ltac:(done) ltac:(done)).
    apply (keeps_settled (set_queue q w)), startReadInLoop_inv; [done|apply Hpop|]. apply Hl. auto.
  - specialize (Hpop ltac:(done) ltac:(done) ltac:(done)).
    apply (keeps_settled (set_queue q w)), stopReadInLoop_inv; [done|apply Hpop|]. apply Hl. auto.
  - apply call_extra_settled; auto.
  - apply call_extra_settled; auto.
  - pose proof (inv_queue w Hi) as Hc. rewrite Hq in Hc. cbn in Hc. unfold is_destroy in Hc at 1.
    rewrite (bool_decide_true (ConnectDestroyed = ConnectDestroyed)) in Hc by done.
    pose proof (count_nonneg is_destroy q). cbn [b2z] in Hc.
    case_bool_decide as Hd; cbn [b2z] in Hc; [|lia].
    assert (state w = kDisconnected) as Hs by (apply (inv_held w Hi); by rewrite Hd).
    unfold connectDestroyed. change (state (set_queue q w)) with (state w).
    rewrite bool_decide_false by (by rewrite Hs). rewrite bind_Ok.
    apply inv_removed; [done|done|by rewrite Hd|lia|]. rewrite Hq. set_solver.
Qed.

Lemma inv_put_chan w ch :
  inv w → Channel.events_ ch = Channel.events_ (chan w) →
  Channel.addedToLoop_ ch = Channel.addedToLoop_ (chan w) →
  Channel.readCallback_ ch = Channel.readCallback_ (chan w) →
  Channel.writeCallback_ ch = Channel.writeCallback_ (chan w) →
  Channel.closeCallback_ ch = Channel.closeCallback_ (chan w) →
  Channel.errorCallback_ ch = Channel.errorCallback_ (chan w) → inv (put_chan ch w).
Proof.
  intros [] E1 E2 E3 E4 E5 E6. constructor; try done.
  - cbn. by rewrite E1.
  - cbn. by rewrite E3, E4, E5, E6.
  - change (state (put_chan ch w)) with (state w). unfold writing, Channel.isWriting in *. cbn.
    change (out (put_chan ch w)) with (out w). by rewrite E1.
  - intros Hs. specialize (inv_pending0 Hs). unfold shutdown_on_its_way, writing, Channel.isWriting in *. cbn.
    by rewrite E1.
  - destruct inv_poller0 as (es & Hp & Hl & Ha). exists es. cbn. by rewrite E1, E2.
Qed.

Lemma settled_put_chan w ch :
  settled w → Channel.events_ ch = Channel.events_ (chan w) →
  Channel.addedToLoop_ ch = Channel.addedToLoop_ (chan w) →
  Channel.readCallback_ ch = Channel.readCallback_ (chan w) →
  Channel.writeCallback_ ch = Channel.writeCallback_ (chan w) →
  Channel.closeCallback_ ch = Channel.closeCallback_ (chan w) →
  Channel.errorCallback_ ch = Channel.errorCallback_ (chan w) → settled (put_chan ch w).
Proof. intros [Hi Hh] ? ? ? ? ? ?. split; [by apply inv_put_chan|done]. Qed.

Lemma dispatch_settled r o w :
  settled w → open_or_closing w = true → Channel.revents_ (chan w) = r →
  (hung_up r = true → read_events r = false) → readv_ok o w →
  safe settled (Channel.handleEventWithGuard get_chan put_chan (run_callback user o) w).
Proof.
  intros Hst Ho Er Hkr Hrv. unfold Channel.handleEventWithGuard, get_chan. rewrite !bind_Ok.
  set (w0 := put_chan (Channel.with_handling true (chan w)) w).
  assert (settled w0) as Hs0 by (by apply settled_put_chan).
  assert (∀ w', settled w' → Channel.closeCallback_ (chan w') = true ∧ Channel.readCallback_ (chan w') = true ∧
    Channel.writeCallback_ (chan w') = true ∧ Channel.errorCallback_ (chan w') = true) as Hcb.
  { intros w' [[] _]. tauto. }
  destruct (Hcb w0 Hs0) as (Ec & _ & _ & _). rewrite Ec.
  change (Channel.revents_ (chan w0)) with (Channel.revents_ (chan w)). rewrite Er. fold (hung_up r).
  eapply (safe_bind (λ w1, settled w1 ∧ Channel.revents_ (chan w1) = r ∧
    (hung_up r = false → w1 = w0))).
  { destruct (hung_up r); [|cbn; auto]. cbn [run_callback].
    eapply safe_mono; [rewrite <- (set_queue_self w0); apply handleClose_handled; [apply Hs0|done|apply rest_of_self]|].
    intros w1 [Hs1 Hr1]. rewrite Hr1. done. }
  intros w1 (Hs1 & Er1 & Hopen). rewrite bind_Ok, Er1.
  (* the error callback only logs *)
  assert (∀ (b1 b2 : bool), (if b1 then if b2 then run_callback user o Channel.ErrorCallback w1 else Ok w1 else Ok w1)
    = Ok w1) as -> by (by intros [] []).
  rewrite !bind_Ok, Er1. destruct (Hcb w1 Hs1) as (_ & -> & _ & _). fold (read_events r).
  eapply (safe_bind (λ w2, settled w2 ∧ Channel.revents_ (chan w2) = r)).
  { destruct (read_events r); [|done].
    destruct (hung_up r); [specialize (Hkr eq_refl); done|]. rewrite (Hopen eq_refl).
    eapply safe_mono; [apply handleRead_handled; [apply Hs0|done|done]|]. intros w2 [? ->]. done. }
  intros w2 [Hs2 Er2]. rewrite bind_Ok, Er2. destruct (Hcb w2 Hs2) as (_ & _ & -> & _).
  eapply (safe_bind settled).
  { destruct (Channel.bits r Channel.POLLOUT); [|done].
    eapply safe_mono; [apply handleWrite_inv, Hs2|]. intros w3. by apply keeps_settled. }
  intros w3 Hs3. rewrite bind_Ok. cbn [safe]. by apply settled_put_chan.
Qed.

Lemma watched_open w : inv w → Channel.events_ (chan w) ≠ 0 → open_or_closing w = true.
Proof.
  intros Hi He. apply state_cases. pose proof (inv_writing w Hi) as Hw.
  destruct (state w); [done|by destruct Hw|auto|auto].
Qed.

Lemma do_event_settled e w : settled w → legal e w → safe settled (do_event user e w).
Proof.
  intros Hst Hl. destruct e as [|r o| |a|a| | |]; cbn [do_event legal] in *.
  - apply connectEstablished_inv; [apply Hst|done].
  - destruct Hl as (He & Hkr & Hrv). pose proof (watched_open w (proj1 Hst) He) as Ho.
    unfold readiness, Channel.handleEvent, get_chan. rewrite bind_Ok.
    match goal with |- safe _ (if ?b then ?x else ?x) => replace (if b then x else x) with x by (by destruct b) end.
    apply (dispatch_settled r o); try done. by apply settled_put_chan.
  - destruct (queue w) as [|f q] eqn:Eq; [done|]. apply run_functor_settled; try done.
    intros [-> | ->]; done.
  - eapply safe_mono; [apply act_inv; [apply Hst|done]|]. intros w'. by apply keeps_settled.
  - destruct Hl. eapply safe_mono; [apply foreign_inv; [apply Hst|done|done]|]. intros w'. by apply keeps_settled.
  - assert (settled (set_timers (pred (timers w)) w) ∨ state w = kDisconnecting) as [Hs1|Hs1].
    { destruct (decide (state w = kDisconnecting)); [by right|left]. destruct Hst as [[] ?].
      split; [|done]. constructor; try done. }
    + cbn. by eapply keeps_settled, forceClose_inv; [|apply Hs1].
    + cbn. unfold forceClose. assert (open_or_closing w = true) as Ho by (apply state_cases; auto).
      change (open_or_closing (set_timers _ w)) with (open_or_closing w). rewrite Ho. split; [|done].
      apply (inv_closing w (queue w ++ [ForceCloseInLoop]) (pred (timers w)) (wshut w)); auto; [apply Hst|].
      right; right; right; left. cbn. set_solver.
  - destruct Hst as [Hi _]. cbn. split; [|done]. pose proof (inv_held w Hi) as Hs. rewrite Hl in Hs.
    specialize (Hs ltac:(done)). destruct Hi. constructor; try done.
    + change (state _) with (state w). by rewrite Hs in *.
    + intros E. change (state w = kDisconnecting) in E. congruence.
    + unfold lifecycle_ok in *. change (state _) with (state w). rewrite Hs in *. rewrite Hl in inv_log0. done.
    + cbn. rewrite count_app, inv_queue0, Hl. done.
    + intros m [?|?]%elem_of_app; [auto|set_solver].
    + intros _. by right.
    + destruct inv_poller0 as (es & Hp & Hl2 & Ha). exists es. cbn. rewrite Hl in *.
      rewrite decide_False in Hp by done. by rewrite decide_False.
  - apply connectDestroyed_open; [apply Hst|done].
Qed.

Lemma do_events_settled es : ∀ w, settled w → legal_run user es w → safe settled (do_events user es w).
Proof.
  induction es as [|e es IH]; intros w Hs Hl; [done|]. destruct Hl as [He Hl]. cbn [do_events].
  pose proof (do_event_settled e w Hs He) as Hx. destruct (do_event user e w) as [w1|]; [|done].
  rewrite bind_Ok. by apply IH; auto.
Qed.
End preservation.

(** ** Properties of every run *)

(** The owner sets the callbacks before the connection is established. *)
Definition configure (wc : bool) (hw : option Z) (c : TcpConnection) : TcpConnection :=
  let c := if wc then setWriteCompleteCallback c else c in
  match hw with Some mark => setHighWaterMarkCallback mark c | None => c end.

Lemma make_settled fd wc hw c k : configure wc hw <$> make fd = Ok c → settled (initial c k).
Proof.
  unfold make. destruct (Buffer.make_ok Buffer.kInitialSize) as (b & Eb & Hb & Hc & _); [done|done|].
  rewrite Eb, !bind_Ok. cbn [fmap result_fmap]. intros [= <-]. unfold configure.
  destruct wc, hw; (split; [|done]); constructor; try done.
  all: first [by left | by intros m ?%elem_of_nil | by intros ?%elem_of_nil | by exists []].
Qed.

Lemma buffer_rest_effect data n w w' :
  wf (outputBuffer_ (conn w)) → 0 ≤ n < zlen data → message_ok data →
  buffer_rest data n (zlen data - n) w = Ok w' →
  wire w' = wire w ∧ out w' = out w ++ zdrop n data ∧
  queue w' = queue w ++
    (if highWaterMarkCallback_ (conn w) && (zlen (out w) <? highWaterMark_ (conn w)) &&
        (highWaterMark_ (conn w) <=? zlen (out w'))
     then [HighWaterMark (zlen (out w'))] else []).
Proof.
  intros Hb Hn Hm. unfold buffer_rest. cbv zeta. rewrite <- Buffer.zlen_content by done. fold (out w).
  set (total := u64 _). set (cond := _ && _ && _).
  assert (∀ w1, w1 = (if cond then queueInLoop (HighWaterMark total) w else w) →
    outputBuffer_ (conn w1) = outputBuffer_ (conn w) ∧ wire w1 = wire w ∧
    queue w1 = queue w ++ (if cond then [HighWaterMark total] else [])) as Hw1.
  { intros w1 ->. destruct cond; [done|]. by rewrite app_nil_r. }
  set (w1 := if cond then _ else _). destruct (Hw1 w1 eq_refl) as (Eo & Ew & Eq). rewrite Eo.
  assert (zlen (zdrop n data) = zlen data - n) as Hd by (apply zlen_zdrop; lia).
  unfold message_ok in Hm.
  pose proof (Buffer.append_n_safe (outputBuffer_ (conn w)) (zdrop n data) (zlen data - n) Hb) as Ha.
  destruct (Buffer.append_n _ _ _) as [b|]; [|done]. destruct Ha as [Hb' Hc]; [lia|lia|].
  rewrite ztake_all in Hc by lia. fold (out w) in Hc. rewrite bind_Ok.
  assert (total = zlen (content b)) as Et.
  { unfold total. rewrite Hc, zlen_app, Hd. apply wrapu_small.
    pose proof (content_message b Hb') as Hx. unfold message_ok in Hx. rewrite Hc, zlen_app, Hd in Hx.
    pose proof (zlen_nonneg (out w)). unfold in_u. zlia. }
  intros [= <-].
  assert (∀ w2 : World, out (if Channel.isWriting (chan w2) then w2 else change Channel.enableWriting w2) = out w2 ∧
    wire (if Channel.isWriting (chan w2) then w2 else change Channel.enableWriting w2) = wire w2 ∧
    queue (if Channel.isWriting (chan w2) then w2 else change Channel.enableWriting w2) = queue w2) as Hch
    by (intros w2; by destruct (Channel.isWriting (chan w2))).
  destruct (Hch (set_conn (with_output b (conn w1)) w1)) as (-> & -> & ->).
  change (out (set_conn _ w1)) with (content b). cbn [queue wire set_conn].
  split_and!; [exact Ew|exact Hc|]. rewrite Eq, Et. subst cond. rewrite Et.
  by rewrite (andb_comm (_ <=? _)), (andb_comm _ (highWaterMarkCallback_ _)), andb_assoc.
Qed.

Lemma sendInLoop_direct data w w' :
  inv w → open_or_closing w = true → out w = [] → 0 < zlen data → message_ok data →
  sendInLoop data w = Ok w' →
  queue w' = queue w ++
    (if writeCompleteCallback_ (conn w) && bool_decide (wire w' = wire w ++ data)
     then [WriteComplete] else []) ++
    (if highWaterMarkCallback_ (conn w) && (zlen (out w) <? highWaterMark_ (conn w)) &&
        (highWaterMark_ (conn w) <=? zlen (out w'))
     then [HighWaterMark (zlen (out w'))] else []).
Proof.
  intros Hi Ho Hnil Hpos Hm. destruct (inv_wf w Hi) as [_ Hb].
  assert (∀ d, d ++ data ≠ d) as Hlonger.
  { intros d E. apply (f_equal zlen) in E. rewrite zlen_app in E. lia. }
  unfold sendInLoop. rewrite (bool_decide_false (state w = kDisconnected)) by (by apply open_not_disconnected).
  rewrite readable_out by done. fold (writing w). rewrite (open_writing w Hi Ho).
  rewrite (bool_decide_false (out w ≠ [])) by tauto. rewrite Hnil, zlen_nil, Z.eqb_refl. cbn [negb andb].
  destruct (write data w) as [[w1 n] e] eqn:E.
  destruct (write_spec _ _ _ _ _ E) as [(-> & _ & ks & ->)|(Hn & _ & ks & ->)].
  - change (0 <=? -1) with false. cbv beta iota. rewrite check_true, bind_Ok by (apply Z.leb_le; lia).
    destruct (negb (e =? EWOULDBLOCK) && ((e =? EPIPE) || (e =? ECONNRESET))); cbn [negb andb].
    + intros [= <-]. cbn [wire set_wire queue]. rewrite bool_decide_false by (intros Ed; by apply (Hlonger (wire w))).
      change (out (set_wire _ _ w)) with (out w). rewrite Hnil, zlen_nil, andb_false_r. cbn [app].
      destruct (Z.ltb_spec 0 (highWaterMark_ (conn w))), (Z.leb_spec (highWaterMark_ (conn w)) 0); try lia;
        rewrite ?andb_false_r, ?andb_true_r; cbn; rewrite ?andb_false_r; by rewrite app_nil_r.
    + rewrite (proj2 (Z.ltb_lt _ _)) by done. intros E2. rewrite <- (Z.sub_0_r (zlen data)) in E2.
      apply buffer_rest_effect in E2 as (Ewi & _ & ->); [|done|lia|done]. rewrite Ewi. cbn [wire accept set_wire].
      rewrite bool_decide_false by (intros Ed; by apply (Hlonger (wire w))). rewrite andb_false_r. cbn [app].
      change (out (accept _ _)) with (out w). by rewrite Hnil, zlen_nil.
  - rewrite (proj2 (Z.leb_le 0 n)) by lia. unfold message_ok in Hm.
    rewrite (wrapu_small 64 (zlen data - n)) by (unfold in_u; zlia).
    rewrite check_true, bind_Ok by (apply Z.leb_le; lia). cbn [negb andb].
    destruct (Z.ltb_spec 0 (zlen data - n)) as [Hlt|Hge].
    + rewrite (proj2 (Z.eqb_neq _ _)) by lia. cbn [andb]. intros E2.
      apply buffer_rest_effect in E2 as (Ewi & _ & ->); [|done|lia|done]. rewrite Ewi. cbn [wire accept set_wire].
      rewrite bool_decide_false.
      2: { intros Ed%app_inv_head. apply (f_equal zlen) in Ed. rewrite zlen_ztake in Ed; lia. }
      rewrite andb_false_r. cbn [app]. change (out (accept _ _)) with (out w). by rewrite Hnil, zlen_nil.
    + rewrite ztake_all by lia. replace (zlen data - n) with 0 by lia. cbn [Z.eqb andb].
      change (writeCompleteCallback_ (conn (set_wire _ _ w))) with (writeCompleteCallback_ (conn w)).
      intros [= <-].
      assert ((highWaterMark_ (conn w) <=? 0) = negb (0 <? highWaterMark_ (conn w))) as Hneg
        by (by rewrite Z.leb_antisym).
      destruct (writeCompleteCallback_ (conn w)); cbn [andb];
        [change (out (accept _ (queueInLoop _ _))) with (out w)|change (out (accept _ (set_wire _ _ _))) with (out w)];
        rewrite Hnil, zlen_nil, Hneg; cbn [wire queue accept set_wire queueInLoop set_queue];
        rewrite ?bool_decide_true by done;
        destruct (highWaterMarkCallback_ (conn w)), (0 <? highWaterMark_ (conn w)); cbn; by rewrite ?app_nil_r.
Qed.

Section runs.
Context (fd : Z) (wc : bool) (hw : option Z) (c : TcpConnection) (k : list write_outcome).
Context (user : call → World → list action) (es : list event).
Hypothesis Hmake : configure wc hw <$> make fd = Ok c.
Hypothesis Huser : user_ok user.
Hypothesis Hlegal : legal_run user es (initial c k).

Lemma run_settled w : do_events user es (initial c k) = Ok w → settled w.
Proof.
  intros E. pose proof (do_events_settled user Huser es (initial c k)) as Hs.
  specialize (Hs (make_settled fd wc hw c k Hmake) Hlegal). by rewrite E in Hs.
Qed.

(** C2: No byte is lost, duplicated or reordered between [send] and the kernel, or
    between the kernel and the user: what the kernel took followed by the output
    buffer is the concatenation of the messages taken over, what the user retrieved
    followed by the input buffer is what [readv] delivered; and while the
    connection is open the channel waits for writability exactly when the output
    buffer is not empty. *)
Theorem tcp_stream w :
  do_events user es (initial c k) = Ok w →
  wire w ++ content (outputBuffer_ (conn w)) = concat (accepted w) ∧
  consumed w ++ content (inputBuffer_ (conn w)) = concat (received w) ∧
  (open_or_closing w = true →
   Channel.isWriting (channel_ (conn w)) = bool_decide (content (outputBuffer_ (conn w)) ≠ [])).
Proof.
  intros [Hi _]%run_settled. split_and!; [apply Hi|apply Hi|]. by apply open_writing.
Qed.

(** C4: In every run that keeps to the rules of [legal_run] - the kernel reports
    watched descriptors only, callbacks and other code make the calls their
    contract allows, in particular no [startRead] or [stopRead] after the close,
    each call from another thread is one step, and the owner drops the connection
    either after the close callback or while it is [kConnected] - no assertion
    fails (only a buffer can exceed the greatest length of a vector); user code
    sees up, messages, down and the close callback in this order and each of up,
    down and close at most once; the poller is told the current interest and the
    removal comes last; and once the owner has let go the object can be
    destroyed. What the rules exclude does fail: [connectDestroyed_aborts],
    [shutdown_race]. *)
Theorem tcp_lifecycle :
  match do_events user es (initial c k) with
  | Ok w => lifecycle_ok w ∧ poller_ok w ∧ (held w ≠ Owned ↔ state w = kDisconnected) ∧
            (held w = Destroyed → destructor w = Ok tt)
  | Fail f => f = LengthError
  end.
Proof.
  pose proof (do_events_settled user Huser es (initial c k) (make_settled fd wc hw c k Hmake) Hlegal) as Hs.
  destruct (do_events user es (initial c k)) as [w|]; [|done]. destruct Hs as [[] Hh].
  split_and!; [done|done|by split|]. intros Hd. unfold destructor.
  rewrite bool_decide_true by (apply inv_held0; by rewrite Hd). cbn [check]. rewrite bind_Ok.
  destruct inv_poller0 as (_ & _ & _ & Ha). by rewrite Ha.
Qed.

(** C6: A graceful close. As long as the connection is shutting down
    ([kDisconnecting]): if the sending side has been shut down, everything taken
    over has gone to the kernel; if not, there is something left that completes
    the shutdown; and when what is left is output, one writable event with
    enough room writes it out and shuts down. (After the peer has closed the
    connection the output that is left is dropped: [shutdown_after_hangup].) *)
Theorem graceful_shutdown w :
  do_events user es (initial c k) = Ok w → state w = kDisconnecting →
  (wshut w = true → wire w = concat (accepted w)) ∧
  shutdown_on_its_way w ∧
  ∀ n ks, writing w = true → wshut w = false → kernel w = WriteRoom n :: ks → zlen (out w) ≤ n →
    ∃ w', handleWrite w = Ok w' ∧ wshut w' = true ∧ out w' = [] ∧ wire w' = concat (accepted w).
Proof.
  intros [Hi _]%run_settled Hs. split_and!; [|by apply inv_pending|].
  { intros Hw. destruct (inv_shut w Hi Hw) as [[_ Ho]|Ho]; [|congruence].
    rewrite <- (inv_out w Hi), Ho, app_nil_r. done. }
  intros n ks Hw Hsh Hk Hn. pose proof (writing_open w Hi Hw) as Ho.
  pose proof (open_writing w Hi Ho) as Ew. rewrite Hw in Ew. symmetry in Ew. apply bool_decide_eq_true in Ew.
  destruct (inv_wf w Hi) as [_ Hb]. unfold handleWrite. fold (writing w). rewrite Hw.
  rewrite Buffer.range_content, bind_Ok by done. fold (out w). unfold write. rewrite Hsh, Hk.
  pose proof (zlen_nonneg (out w)). rewrite Z.min_r, Z.max_r by lia.
  assert (0 < zlen (out w)).
  { destruct (Z.eq_dec (zlen (out w)) 0) as [E|]; [|lia]. by apply zlen_zero_inv in E. }
  rewrite (proj2 (Z.ltb_lt _ _)) by done. rewrite (ztake_all _ (out w)) by done.
  destruct (Buffer.retrieve_ok (outputBuffer_ (conn w)) (zlen (out w))) as (b & Eb & Hb' & Hc); [done| |].
  { rewrite readable_out by done. lia. }
  change (outputBuffer_ (conn (set_wire ks (wire w ++ out w) w))) with (outputBuffer_ (conn w)).
  rewrite Eb, bind_Ok. cbv zeta. rewrite <- Buffer.zlen_content by done.
  fold (out w) in Hc. rewrite zdrop_all in Hc by done. rewrite Hc, zlen_nil. cbn [Z.eqb].
  destruct (writing_events _ (inv_events w Hi)) as (_ & W1 & _).
  destruct (writeCompleteCallback_ _); cbv [shutdownInLoop];
    (rewrite bool_decide_true by exact Hs);
    change (Channel.isWriting (chan _)) with
      (Channel.bits (Z.land (Channel.events_ (chan w)) (Z.lnot Channel.kWriteEvent)) Channel.kWriteEvent);
    rewrite W1; eexists; (split; [reflexivity|]); (split_and!; [done|exact Hc|exact (inv_out w Hi)]).
Qed.

(** What [sendInLoop] leaves in the loop: the write-complete callback
    exactly when the message went to the kernel at once, and the high-water
    callback, with the number of buffered bytes, exactly when this message
    makes the output buffer reach the mark from below. *)
Theorem sendInLoop_notifies w data w' :
  do_events user es (initial c k) = Ok w → open_or_closing w = true →
  data ≠ [] → message_ok data → sendInLoop data w = Ok w' →
  queue w' = queue w ++
    (if writeCompleteCallback_ (conn w) && bool_decide (out w = []) &&
        bool_decide (wire w' = wire w ++ data) then [WriteComplete] else []) ++
    (if highWaterMarkCallback_ (conn w) && (zlen (out w) <? highWaterMark_ (conn w)) &&
        (highWaterMark_ (conn w) <=? zlen (out w'))
     then [HighWaterMark (zlen (out w'))] else []).
Proof.
  intros [Hi _]%run_settled Ho Hne Hm. destruct (inv_wf w Hi) as [_ Hb].
  assert (0 < zlen data) as Hpos.
  { pose proof (zlen_nonneg data). destruct (Z.eq_dec (zlen data) 0) as [E|]; [|lia]. by apply zlen_zero_inv in E. }
  destruct (decide (out w = [])) as [Hnil|Hnil].
  { intros E. rewrite (bool_decide_true (out w = [])), andb_true_r by done. by apply sendInLoop_direct. }
  unfold sendInLoop. rewrite (bool_decide_false (state w = kDisconnected)) by (by apply open_not_disconnected).
  rewrite readable_out by done. fold (writing w). rewrite (open_writing w Hi Ho).
  rewrite (bool_decide_true (out w ≠ [])), (bool_decide_false (out w = [])) by done. cbn [negb andb].
  rewrite check_true, bind_Ok by (apply Z.leb_le; lia). cbn [negb andb].
  rewrite (proj2 (Z.ltb_lt _ _)) by done. rewrite andb_false_r. cbn [andb app].
  intros E. rewrite <- (Z.sub_0_r (zlen data)) in E. apply buffer_rest_effect in E as (_ & _ & ->); [done|done|lia|done].
Qed.
End runs.

(** ** Where the contract of a run is needed *)

(** [connectDestroyed] removes the channel without clearing its interest unless
    the state is [kConnected], so it aborts for a connection that is in
    [kDisconnecting] and still reads (a server destroyed while a client is
    being shut down); and [startReadInLoop] does not look at the state, so
    [startRead] on a closed connection makes the later [connectDestroyed] abort. *)
Theorem connectDestroyed_aborts user w :
  (state w = kDisconnecting → Channel.isReading (chan w) = true →
   connectDestroyed user w = Fail AssertFailed) ∧
  (state w = kDisconnected → Channel.events_ (chan w) = 0 →
   connectDestroyed user (startReadInLoop w) = Fail AssertFailed).
Proof.
  split; intros Hs He; unfold connectDestroyed.
  - rewrite bool_decide_false by (by rewrite Hs). rewrite bind_Ok. unfold remove_channel.
    change (chan (set_held Destroyed w)) with (chan w). unfold Channel.isNoneEvent.
    destruct (Z.eqb_spec (Channel.events_ (chan w)) Channel.kNoneEvent) as [E|E]; [|done].
    unfold Channel.isReading in He. by rewrite E in He.
  - assert (startReadInLoop w = set_conn (with_reading true (conn (change Channel.enableReading w)))
      (change Channel.enableReading w)) as ->.
    { unfold startReadInLoop, Channel.isReading. rewrite He. by destruct (reading_ (conn w)). }
    rewrite bool_decide_false by (by cbn; fold (state w); rewrite Hs). rewrite bind_Ok.
    unfold remove_channel, Channel.isNoneEvent. cbn. fold (chan w). by rewrite He.
Qed.

(** [shutdown] and [forceClose] test [state_] and then assign it. If the loop
    closes the connection in between, the state leaves [kDisconnected] again and
    the destructor's assertion fails. *)
Lemma shutdown_race w b :
  state w = kDisconnected → destructor (shutdown_commit b w) = Fail AssertFailed.
Proof. intros _. unfold shutdown_commit, shutdownInLoop. destruct b; [by case_match|done]. Qed.

(** ** A run *)

Definition greeting : bytes := Channel.str "hello".
Definition example_user (x : call) (w : World) : list action :=
  match x with
  | ConnectionUp => [Send greeting]
  | MessageArrived _ => [RetrieveAll; Send greeting; Shutdown]
  | _ => []
  end.
Definition example_kernel : list write_outcome := [WriteRoom 3; WriteError EWOULDBLOCK; WriteRoom 100].
Definition example_events : list event :=
  [Establish; Readiness Channel.POLLIN (Buffer.ReadvData greeting);
   Readiness Channel.POLLOUT (Buffer.ReadvError EWOULDBLOCK)].
Definition example_end : list event :=
  example_events ++ [Readiness Channel.POLLOUT (Buffer.ReadvError EWOULDBLOCK);
   Readiness Channel.POLLIN (Buffer.ReadvData []); OwnerQueues; RunFunctor; RunFunctor].

Lemma example_user_ok : user_ok example_user.
Proof.
  intros [] w _; cbn; try done; repeat (split; [done|intros]); done.
Qed.

#[global] Instance action_ok_dec a w : Decision (action_ok a w).
Proof. destruct a; cbn; unfold message_ok; apply _. Defined.
#[global] Instance foreign_ok_dec a : Decision (foreign_ok a).
Proof. destruct a; cbn; unfold message_ok; apply _. Defined.
#[global] Instance legal_dec e w : Decision (legal e w).
Proof.
  destruct e as [|r [|]| | | | | |]; cbn; try apply _. destruct (queue w) as [|[] ?]; apply _.
Defined.

Fixpoint check_legal user (es : list event) (w : World) : bool :=
  match es with
  | [] => true
  | e :: es => bool_decide (legal e w) &&
               match do_event user e w with Ok w' => check_legal user es w' | Fail _ => true end
  end.

Lemma check_legal_run user es : ∀ w, check_legal user es w = true → legal_run user es w.
Proof.
  induction es as [|e es IH]; intros w; [done|]. cbn. intros [Hl Hr]%andb_true_iff.
  apply bool_decide_eq_true in Hl. split; [done|]. intros w' E. rewrite E in Hr. auto.
Qed.

Definition example_conn : TcpConnection :=
  match configure true (Some 8) <$> make 5 with Ok c => c | Fail _ => mkTcpConnection kConnecting true (Channel.make 5)
    (Buffer.mkBuffer [] 0 0) (Buffer.mkBuffer [] 0 0) 0 false false end.
Definition example_world (es : list event) : World :=
  match do_events example_user es (initial example_conn example_kernel) with
  | Ok w => w | Fail _ => initial example_conn [] end.

Lemma tcp_stream_witness :
  let w := example_world example_events in
  wire w ++ out w = greeting ++ greeting ∧ wire w = Channel.str "hel" ∧ consumed w = greeting.
Proof.
  intros w.
  destruct (tcp_stream 5 true (Some 8) example_conn example_kernel example_user example_events eq_refl example_user_ok
    ltac:(apply check_legal_run; vm_compute; reflexivity) w ltac:(vm_compute; reflexivity)) as (Hs & _ & _).
  split; [exact Hs|]. split; vm_compute; reflexivity.
Defined.

Lemma tcp_lifecycle_witness :
  let w := example_world example_end in
  lifecycle w = [ConnectionUp; MessageArrived greeting; ConnectionDown; CloseCalled] ∧
  destructor w = Ok tt.
Proof.
  intros w.
  pose proof (tcp_lifecycle 5 true (Some 8) example_conn example_kernel example_user example_end eq_refl example_user_ok
    ltac:(apply check_legal_run; vm_compute; reflexivity)) as H.
  assert (do_events example_user example_end (initial example_conn example_kernel) = Ok w) as E
    by (vm_compute; reflexivity).
  rewrite E in H. split; [vm_compute; reflexivity|]. apply H. vm_compute. reflexivity.
Defined.

Lemma graceful_shutdown_witness :
  ∃ w', handleWrite (example_world example_events) = Ok w' ∧ wshut w' = true ∧ out w' = [] ∧
        wire w' = greeting ++ greeting.
Proof.
  destruct (graceful_shutdown 5 true (Some 8) example_conn example_kernel example_user example_events eq_refl
    example_user_ok ltac:(apply check_legal_run; vm_compute; reflexivity)
    (example_world example_events) ltac:(vm_compute; reflexivity) ltac:(vm_compute; reflexivity))
    as (_ & _ & H).
  apply (H 100 []); vm_compute; (reflexivity || discriminate).
Defined.

(** The connection leaves [kDisconnecting] when the peer hangs up first: the
    queued [shutdownInLoop] then finds the channel not writing and shuts the
    sending side down, although three of the five bytes were never written. *)
Lemma shutdown_after_hangup :
  let es := [Establish; InLoop (Send greeting); Foreign Shutdown;
             Readiness Channel.POLLHUP (Buffer.ReadvError EWOULDBLOCK); RunFunctor] in
  ∃ w, do_events (λ _ _, []) es (initial example_conn [WriteRoom 2]) = Ok w ∧
    legal_run (λ _ _, []) es (initial example_conn [WriteRoom 2]) ∧
    state w = kDisconnected ∧ wshut w = true ∧
    wire w = Channel.str "he" ∧ concat (accepted w) = greeting.
Proof.
  eexists. split; [vm_compute; reflexivity|]. split; [apply check_legal_run; vm_compute; reflexivity|].
  split_and!; vm_compute; reflexivity.
Qed.

Lemma sendInLoop_notifies_witness :
  let w := example_world example_events in
  ∃ w', sendInLoop greeting w = Ok w' ∧ queue w = [] ∧ queue w' = [HighWaterMark 12].
Proof.
  intros w. destruct (sendInLoop greeting w) as [w'|] eqn:E; [|vm_compute in E; discriminate E].
  exists w'. split; [reflexivity|]. split; [vm_compute; reflexivity|].
  pose proof (sendInLoop_notifies 5 true (Some 8) example_conn example_kernel example_user example_events
    eq_refl example_user_ok ltac:(apply check_legal_run; vm_compute; reflexivity) w greeting w'
    ltac:(vm_compute; reflexivity) ltac:(vm_compute; reflexivity) ltac:(discriminate)
    ltac:(vm_compute; discriminate) E) as H.
  rewrite H. vm_compute in E. injection E as <-. vm_compute. reflexivity.
Defined.

Lemma connectDestroyed_aborts_witness :
  connectDestroyed example_user (example_world example_events) = Fail AssertFailed.
Proof.
  apply (proj1 (connectDestroyed_aborts example_user (example_world example_events)));
    vm_compute; reflexivity.
Defined.

End TcpConnection.
