(* ===== verification/Http.v ===== *)
(** * HTTP ([net/http])

    The request parser of [HttpContext], the request and response objects, and
    [HttpServer]'s message handler, which turns received bytes into calls on the
    connection ([TcpConnection.action]). The user's [httpCallback_] is a
    parameter. *)

From stdpp Require Import sets.
From S2P Require Import Prelude Endian Format StringPiece NetBuffer Channel TcpConnection.

(** [std::map<string, string>]: pairs sorted by key. *)
Module StringMap.
Definition t := list (bytes * bytes).

Fixpoint ltb (x y : bytes) : bool :=
  match x, y with
  | _, [] => false
  | [], _ :: _ => true
  | a :: x, b :: y =>
      (Endian.byte_val a <? Endian.byte_val b) || (bool_decide (a = b) && ltb x y)
  end.

(** [m[k] = v] *)
Fixpoint set (k v : bytes) (m : t) : t :=
  match m with
  | [] => [(k, v)]
  | (k', v') :: m' =>
      if bool_decide (k = k') then (k, v) :: m'
      else if ltb k k' then (k, v) :: m else (k', v') :: set k v m'
  end.

Fixpoint get (k : bytes) (m : t) : option bytes :=
  match m with
  | [] => None
  | (k', v) :: m => if bool_decide (k = k') then Some v else get k m
  end.

Lemma get_set k v m k' : get k' (set k v m) = if bool_decide (k' = k) then Some v else get k' m.
Proof.
  induction m as [|[k1 v1] m IH]; cbn; [by repeat case_bool_decide|].
  repeat (case_bool_decide || case_match); simplify_eq; cbn;
    repeat case_bool_decide; simplify_eq; try done.
Qed.
End StringMap.

Module HttpRequest.
Inductive Method := kInvalid | kGet | kPost | kHead | kPut | kDelete.
Inductive Version := kUnknown | kHttp10 | kHttp11.
#[global] Instance Method_eq_dec : EqDecision Method.
Proof. solve_decision. Defined.
#[global] Instance Version_eq_dec : EqDecision Version.
Proof. solve_decision. Defined.

Record HttpRequest := mkHttpRequest {
  method_ : Method;
  version_ : Version;
  path_ : bytes;
  query_ : bytes;
  receiveTime_ : Z;
  headers_ : StringMap.t
}.

Definition make : HttpRequest := mkHttpRequest kInvalid kUnknown [] [] 0 [].

Definition with_method (m : Method) (r : HttpRequest) : HttpRequest :=
  mkHttpRequest m (version_ r) (path_ r) (query_ r) (receiveTime_ r) (headers_ r).
Definition setVersion (v : Version) (r : HttpRequest) : HttpRequest :=
  mkHttpRequest (method_ r) v (path_ r) (query_ r) (receiveTime_ r) (headers_ r).
Definition setPath (p : bytes) (r : HttpRequest) : HttpRequest :=
  mkHttpRequest (method_ r) (version_ r) p (query_ r) (receiveTime_ r) (headers_ r).
Definition setQuery (q : bytes) (r : HttpRequest) : HttpRequest :=
  mkHttpRequest (method_ r) (version_ r) (path_ r) q (receiveTime_ r) (headers_ r).
Definition setReceiveTime (t : Z) (r : HttpRequest) : HttpRequest :=
  mkHttpRequest (method_ r) (version_ r) (path_ r) (query_ r) t (headers_ r).
Definition with_headers (h : StringMap.t) (r : HttpRequest) : HttpRequest :=
  mkHttpRequest (method_ r) (version_ r) (path_ r) (query_ r) (receiveTime_ r) h.

Definition method_of (m : bytes) : Method :=
  if bool_decide (m = Channel.str "GET") then kGet
  else if bool_decide (m = Channel.str "POST") then kPost
  else if bool_decide (m = Channel.str "HEAD") then kHead
  else if bool_decide (m = Channel.str "PUT") then kPut
  else if bool_decide (m = Channel.str "DELETE") then kDelete
  else kInvalid.

Definition setMethod (m : bytes) (r : HttpRequest) : result (HttpRequest * bool) :=
  _ ← check (bool_decide (method_ r = kInvalid));
  let r := with_method (method_of m) r in
  Ok (r, bool_decide (method_ r ≠ kInvalid)).

Definition methodString (r : HttpRequest) : bytes :=
  Channel.str match method_ r with
  | kGet => "GET"
  | kPost => "POST"
  | kHead => "HEAD"
  | kPut => "PUT"
  | kDelete => "DELETE"
  | kInvalid => "UNKNOWN"
  end.

(** <ctype.h> in the C locale *)
Definition isspace (c : ascii) : bool :=
  let v := Endian.byte_val c in (v =? 32) || ((9 <=? v) && (v <=? 13)).

Fixpoint skip_spaces (l : bytes) : bytes :=
  match l with c :: l' => if isspace c then skip_spaces l' else l | [] => [] end.
Definition trim_end (l : bytes) : bytes := rev (skip_spaces (rev l)).

(** [addHeader(start, colon, end)], of a line and the offset of the colon. *)
Definition addHeader (line : bytes) (colon : Z) (r : HttpRequest) : HttpRequest :=
  let field := ztake colon line in
  let value := trim_end (skip_spaces (zdrop (colon + 1) line)) in
  with_headers (StringMap.set field value (headers_ r)) r.

Definition getHeader (field : bytes) (r : HttpRequest) : bytes :=
  default [] (StringMap.get field (headers_ r)).

Definition swap (r that : HttpRequest) : HttpRequest * HttpRequest := (that, r).
End HttpRequest.

Module HttpContext.
Import HttpRequest(HttpRequest).

Inductive HttpRequestParseState := kExpectRequestLine | kExpectHeaders | kExpectBody | kGotAll.
#[global] Instance state_eq_dec : EqDecision HttpRequestParseState.
Proof. solve_decision. Defined.

Record HttpContext := mkHttpContext { state_ : HttpRequestParseState; request_ : HttpRequest }.

Definition make : HttpContext := mkHttpContext kExpectRequestLine HttpRequest.make.
Definition gotAll (c : HttpContext) : bool := bool_decide (state_ c = kGotAll).
Definition reset (c : HttpContext) : HttpContext :=
  mkHttpContext kExpectRequestLine (fst (HttpRequest.swap (request_ c) HttpRequest.make)).

Definition sp : ascii := " "%char.

(** The part of [processRequestLine] behind the second space. *)
Definition process_version (version : bytes) (r : HttpRequest) : HttpRequest * bool :=
  if (zlen version =? 8) && bool_decide (ztake 7 version = Channel.str "HTTP/1.")
  then
    let c := zdrop 7 version in
    if bool_decide (c = ["1"%char]) then (HttpRequest.setVersion HttpRequest.kHttp11 r, true)
    else if bool_decide (c = ["0"%char]) then (HttpRequest.setVersion HttpRequest.kHttp10 r, true)
    else (r, false)
  else (r, false).

Definition processRequestLine (line : bytes) (r : HttpRequest) : result (HttpRequest * bool) :=
  let space := Buffer.find sp line in
  if space =? zlen line then Ok (r, false)
  else
    '(r, known) ← HttpRequest.setMethod (ztake space line) r;
    if negb known then Ok (r, false)
    else
      let rest := zdrop (space + 1) line in
      let space := Buffer.find sp rest in
      if space =? zlen rest then Ok (r, false)
      else
        let target := ztake space rest in
        let question := Buffer.find "?"%char target in
        let r := if question =? zlen target then HttpRequest.setPath target r
                 else HttpRequest.setQuery (zdrop question target)
                        (HttpRequest.setPath (ztake question target) r) in
        Ok (process_version (zdrop (space + 1) rest) r).

(** One round of the loop of [parseRequest]: context, buffer, [ok], [hasMore]. *)
Definition parse_round (t : Z) (c : HttpContext) (b : Buffer.Buffer) (ok : bool) :
    result (HttpContext * Buffer.Buffer * bool * bool) :=
  match state_ c with
  | kExpectRequestLine =>
      crlf ← Buffer.findCRLF b;
      match crlf with
      | Some crlf =>
          line ← Buffer.range b (Buffer.peek b) crlf;
          '(r, ok) ← processRequestLine line (request_ c);
          if (ok : bool)
          then b ← Buffer.retrieveUntil b (crlf + 2);
               Ok (mkHttpContext kExpectHeaders (HttpRequest.setReceiveTime t r), b, ok, true)
          else Ok (mkHttpContext (state_ c) r, b, ok, false)
      | None => Ok (c, b, ok, false)
      end
  | kExpectHeaders =>
      crlf ← Buffer.findCRLF b;
      match crlf with
      | Some crlf =>
          line ← Buffer.range b (Buffer.peek b) crlf;
          let colon := Buffer.find ":"%char line in
          let '(c, hasMore) :=
            if negb (colon =? zlen line)
            then (mkHttpContext (state_ c) (HttpRequest.addHeader line colon (request_ c)), true)
            else (mkHttpContext kGotAll (request_ c), false) in
          b ← Buffer.retrieveUntil b (crlf + 2);
          Ok (c, b, ok, hasMore)
      | None => Ok (c, b, ok, false)
      end
  | kExpectBody | kGotAll => Ok (c, b, ok, true)
  end.

(** The loop, with fuel; [None] when it does not end in that many rounds. *)
Fixpoint parse_loop (fuel : nat) (t : Z) (c : HttpContext) (b : Buffer.Buffer) (ok : bool) :
    option (result (HttpContext * Buffer.Buffer * bool)) :=
  match fuel with
  | O => None
  | S fuel =>
      match parse_round t c b ok with
      | Fail f => Some (Fail f)
      | Ok (c, b, ok, hasMore) => if (hasMore : bool) then parse_loop fuel t c b ok else Some (Ok (c, b, ok))
      end
  end.
Definition parseRequest (fuel : nat) (c : HttpContext) (b : Buffer.Buffer) (t : Z) :=
  parse_loop fuel t c b true.
(** One more round than there are readable bytes. *)
Definition enough (b : Buffer.Buffer) : nat := S (Z.to_nat (Buffer.readableBytes b)).
End HttpContext.

Module HttpResponse.
Record HttpResponse := mkHttpResponse {
  headers_ : StringMap.t;
  statusCode_ : Z;
  statusMessage_ : bytes;
  closeConnection_ : bool;
  body_ : bytes
}.
Definition kUnknown : Z := 0.
Definition k200Ok : Z := 200.
Definition k301MovedPermanently : Z := 301.
Definition k400BadRequest : Z := 400.
Definition k404NotFound : Z := 404.

Definition make (close : bool) : HttpResponse := mkHttpResponse [] kUnknown [] close [].
Definition setStatusCode (code : Z) (r : HttpResponse) : HttpResponse :=
  mkHttpResponse (headers_ r) code (statusMessage_ r) (closeConnection_ r) (body_ r).
Definition setStatusMessage (m : bytes) (r : HttpResponse) : HttpResponse :=
  mkHttpResponse (headers_ r) (statusCode_ r) m (closeConnection_ r) (body_ r).
Definition setCloseConnection (on : bool) (r : HttpResponse) : HttpResponse :=
  mkHttpResponse (headers_ r) (statusCode_ r) (statusMessage_ r) on (body_ r).
Definition addHeader (key value : bytes) (r : HttpResponse) : HttpResponse :=
  mkHttpResponse (StringMap.set key value (headers_ r)) (statusCode_ r) (statusMessage_ r)
    (closeConnection_ r) (body_ r).
Definition setContentType (contentType : bytes) (r : HttpResponse) : HttpResponse :=
  addHeader (Channel.str "Content-Type") contentType r.
Definition setBody (b : bytes) (r : HttpResponse) : HttpResponse :=
  mkHttpResponse (headers_ r) (statusCode_ r) (statusMessage_ r) (closeConnection_ r) b.

Definition crlf : bytes := Buffer.kCRLF.

(** [char buf[32]; snprintf(buf, sizeof buf, ...)] *)
Definition status_line (r : HttpResponse) : bytes :=
  Format.snprintf 32 (Channel.str "HTTP/1.1 " ++ Format.dec (statusCode_ r) ++ [" "%char]).
Definition content_length (r : HttpResponse) : bytes :=
  Format.snprintf 32 (Channel.str "Content-Length: " ++ Format.dec (s64 (zlen (body_ r))) ++ crlf).

Fixpoint append_headers (h : StringMap.t) (output : Buffer.Buffer) : result Buffer.Buffer :=
  match h with
  | [] => Ok output
  | (k, v) :: h =>
      output ← Buffer.append output k;
      output ← Buffer.append output (Channel.str ": ");
      output ← Buffer.append output v;
      output ← Buffer.append output crlf;
      append_headers h output
  end.

(** (The parts go through [StringPiece], whose length is an [int]; a body of 2 GiB or
    more is idealised here.) *)
Definition appendToBuffer (r : HttpResponse) (output : Buffer.Buffer) : result Buffer.Buffer :=
  output ← Buffer.append output (status_line r);
  output ← Buffer.append output (statusMessage_ r);
  output ← Buffer.append output crlf;
  output ← (if closeConnection_ r
            then Buffer.append output (Channel.str "Connection: close" ++ crlf)
            else output ← Buffer.append output (content_length r);
                 Buffer.append output (Channel.str "Connection: Keep-Alive" ++ crlf));
  output ← append_headers (headers_ r) output;
  output ← Buffer.append output crlf;
  Buffer.append output (body_ r).
End HttpResponse.

Module HttpServer.
Import HttpRequest(HttpRequest) HttpResponse(HttpResponse) HttpContext(HttpContext).

Definition defaultHttpCallback (_ : HttpRequest) (resp : HttpResponse) : HttpResponse :=
  HttpResponse.setCloseConnection true
    (HttpResponse.setStatusMessage (Channel.str "Not Found")
       (HttpResponse.setStatusCode HttpResponse.k404NotFound resp)).

Section server.
Context (httpCallback_ : HttpRequest → HttpResponse → HttpResponse).

(** [onConnection]: a fresh context when the connection comes up. *)
Definition onConnection (connected : bool) (context : HttpContext) : HttpContext :=
  if connected then HttpContext.make else context.

Definition wants_close (req : HttpRequest) : bool :=
  let connection := HttpRequest.getHeader (Channel.str "Connection") req in
  bool_decide (connection = Channel.str "close") ||
  (bool_decide (HttpRequest.version_ req = HttpRequest.kHttp10) &&
   bool_decide (connection ≠ Channel.str "Keep-Alive")).

Definition onRequest (req : HttpRequest) : result (list TcpConnection.action) :=
  let response := httpCallback_ req (HttpResponse.make (wants_close req)) in
  buf ← Buffer.make Buffer.kInitialSize;
  buf ← HttpResponse.appendToBuffer response buf;
  Ok (TcpConnection.SendBuffer buf ::
      (if HttpResponse.closeConnection_ response then [TcpConnection.Shutdown] else [])).

Definition bad_request : bytes := Channel.str "HTTP/1.1 400 Bad Request" ++ Buffer.kCRLF ++ Buffer.kCRLF.

(** [onMessage]: the context and the input buffer afterwards, and the calls on
    the connection. *)
Definition onMessage (context : HttpContext) (buf : Buffer.Buffer) (receiveTime : Z) :
    option (result (HttpContext * Buffer.Buffer * list TcpConnection.action)) :=
  match HttpContext.parseRequest (HttpContext.enough buf) context buf receiveTime with
  | None => None
  | Some r => Some (
      '(context, buf, ok) ← r;
      let refused := if (ok : bool) then [] else [TcpConnection.Send bad_request; TcpConnection.Shutdown] in
      if HttpContext.gotAll context
      then answer ← onRequest (HttpContext.request_ context);
           Ok (HttpContext.reset context, buf, refused ++ answer)
      else Ok (context, buf, refused))
  end.
End server.
End HttpServer.

(** ** The parser on byte strings *)
Module HttpFacts.
Import HttpContext Buffer(content, wf).

(** The first line, without its terminator, and what follows it. *)
Definition line_of (l : bytes) : option (bytes * bytes) :=
  let i := Buffer.search Buffer.kCRLF l in
  if i =? zlen l then None else Some (ztake i l, zdrop (i + 2) l).

Definition pure_round (t : Z) (c : HttpContext) (l : bytes) (ok : bool) :
    result (HttpContext * bytes * bool * bool) :=
  match state_ c with
  | kExpectRequestLine =>
      match line_of l with
      | Some (line, rest) =>
          '(r, ok) ← processRequestLine line (request_ c);
          Ok (if (ok : bool) then (mkHttpContext kExpectHeaders (HttpRequest.setReceiveTime t r), rest, ok, true)
              else (mkHttpContext (state_ c) r, l, ok, false))
      | None => Ok (c, l, ok, false)
      end
  | kExpectHeaders =>
      match line_of l with
      | Some (line, rest) =>
          let colon := Buffer.find ":"%char line in
          Ok (if negb (colon =? zlen line)
              then (mkHttpContext (state_ c) (HttpRequest.addHeader line colon (request_ c)), rest, ok, true)
              else (mkHttpContext kGotAll (request_ c), rest, ok, false))
      | None => Ok (c, l, ok, false)
      end
  | kExpectBody | kGotAll => Ok (c, l, ok, true)
  end.

Fixpoint pure_loop (fuel : nat) (t : Z) (c : HttpContext) (l : bytes) (ok : bool) :
    option (result (HttpContext * bytes * bool)) :=
  match fuel with
  | O => None
  | S fuel =>
      match pure_round t c l ok with
      | Fail f => Some (Fail f)
      | Ok (c, l, ok, hasMore) => if (hasMore : bool) then pure_loop fuel t c l ok else Some (Ok (c, l, ok))
      end
  end.

Lemma line_of_length l line rest :
  line_of l = Some (line, rest) →
  l = line ++ Buffer.kCRLF ++ rest ∧ zlen line = Buffer.search Buffer.kCRLF l.
Proof.
  unfold line_of. pose proof (Buffer.search_range Buffer.kCRLF l) as Hr.
  destruct (Z.eqb_spec (Buffer.search Buffer.kCRLF l) (zlen l)); [done|]. intros [= <- <-].
  set (i := Buffer.search _ _) in *. assert (i < zlen l) as Hi by lia.
  pose proof (Buffer.search_found _ _ Hi) as [t Ht]. fold i in Ht.
  split; [|apply zlen_ztake; lia].
  rewrite <- (ztake_zdrop i l) at 1. f_equal. rewrite Ht. f_equal.
  rewrite <- (zdrop_zdrop 2 i) by lia. by rewrite Ht.
Qed.

Lemma buffer_line b :
  wf b →
  match line_of (content b) with
  | None => Buffer.findCRLF b = Ok None
  | Some (line, rest) =>
      Buffer.findCRLF b = Ok (Some (Buffer.peek b + zlen line)) ∧
      Buffer.range b (Buffer.peek b) (Buffer.peek b + zlen line) = Ok line ∧
      ∃ b', Buffer.retrieveUntil b (Buffer.peek b + zlen line + 2) = Ok b' ∧ wf b' ∧ content b' = rest
  end.
Proof.
  intros Hb. unfold Buffer.findCRLF. rewrite Buffer.range_content, bind_Ok by done.
  pose proof (Buffer.zlen_content b Hb) as Hc. pose proof (Buffer.readable_wf b Hb) as Hr.
  assert (Buffer.beginWrite b = Buffer.peek b + zlen (content b)) as -> by (Buffer.buf; lia).
  destruct (line_of (content b)) as [[line rest]|] eqn:E.
  - destruct (line_of_length _ _ _ E) as [Hl Hs]. rewrite <- Hs.
    apply (f_equal zlen) in Hl as Hz. rewrite !zlen_app in Hz. change (zlen Buffer.kCRLF) with 2 in Hz.
    pose proof (zlen_nonneg rest). pose proof (zlen_nonneg line).
    rewrite (proj2 (Z.eqb_neq _ _)) by lia. split_and!; [done| |].
    + unfold Buffer.range. replace (Buffer.peek b + zlen line - Buffer.peek b) with (zlen line) by lia.
      rewrite Buffer.read_content by (done || lia). f_equal. rewrite Hl. by apply ztake_app_exact.
    + destruct (Buffer.retrieveUntil_ok b (Buffer.peek b + zlen line + 2)) as (b' & -> & Hb' & Hc'); [done|Buffer.buf; lia|].
      exists b'. split_and!; [done|done|]. rewrite Hc', Hl.
      replace (Buffer.peek b + zlen line + 2 - Buffer.peek b) with (zlen line + 2) by lia.
      rewrite <- zdrop_zdrop by lia. by rewrite zdrop_app_exact.
  - unfold line_of in E. destruct (Z.eqb_spec (Buffer.search Buffer.kCRLF (content b)) (zlen (content b))); [|done].
    rewrite (proj2 (Z.eqb_eq _ _)) by lia. done.
Qed.

Lemma round_refines t c b ok :
  wf b →
  match pure_round t c (content b) ok with
  | Fail f => parse_round t c b ok = Fail f
  | Ok (c', l', ok', more) =>
      ∃ b', parse_round t c b ok = Ok (c', b', ok', more) ∧ wf b' ∧ content b' = l'
  end.
Proof.
  intros Hb. pose proof (buffer_line b Hb) as Hline. unfold pure_round, parse_round.
  destruct (state_ c) eqn:Es; [| |eauto|eauto].
  - destruct (line_of (content b)) as [[line rest]|]; [|rewrite Hline, bind_Ok; eauto].
    destruct Hline as (-> & Hr & b' & Hu & Hb' & Hc). rewrite bind_Ok, Hr, bind_Ok.
    destruct (processRequestLine line (request_ c)) as [[r ok']|]; [|done]. rewrite !bind_Ok.
    destruct ok'; [rewrite Hu, bind_Ok; eauto|eauto].
  - destruct (line_of (content b)) as [[line rest]|]; [|rewrite Hline, bind_Ok; eauto].
    destruct Hline as (-> & Hr & b' & Hu & Hb' & Hc). rewrite bind_Ok, Hr, bind_Ok. cbv zeta.
    destruct (negb _); rewrite Hu, bind_Ok; eauto.
Qed.

Lemma loop_refines t fuel : ∀ c b ok,
  wf b →
  match pure_loop fuel t c (content b) ok with
  | None => parse_loop fuel t c b ok = None
  | Some (Fail f) => parse_loop fuel t c b ok = Some (Fail f)
  | Some (Ok (c', l', ok')) =>
      ∃ b', parse_loop fuel t c b ok = Some (Ok (c', b', ok')) ∧ wf b' ∧ content b' = l'
  end.
Proof.
  induction fuel as [|fuel IH]; intros c b ok Hb; [done|]. cbn [pure_loop parse_loop].
  pose proof (round_refines t c b ok Hb) as Hr.
  destruct (pure_round t c (content b) ok) as [[[[c' l'] ok'] more]|f]; [|by rewrite Hr].
  destruct Hr as (b' & -> & Hb' & <-). destruct more; [by apply IH|eauto].
Qed.

(** ** Termination *)

Definition expecting (c : HttpContext) : Prop :=
  state_ c = kExpectRequestLine ∨ state_ c = kExpectHeaders.

(** A round that goes on has consumed a line. *)
Lemma round_shrinks t c l ok c' l' ok' :
  expecting c → pure_round t c l ok = Ok (c', l', ok', true) →
  (length l' < length l)%nat ∧ expecting c' ∧ ok' = (if decide (state_ c = kExpectRequestLine) then true else ok).
Proof.
  intros Hc. unfold pure_round.
  assert (∀ line rest, line_of l = Some (line, rest) → (length rest < length l)%nat) as Hlen.
  { intros line rest [Hl _]%line_of_length. rewrite Hl, !length_app. cbn. lia. }
  destruct Hc as [Hc|Hc]; rewrite Hc; destruct (line_of l) as [[line rest]|] eqn:El; try done.
  - destruct (processRequestLine line (request_ c)) as [[r [|]]|]; cbn; try done.
    intros [= <- <- <-]. split_and!; eauto. by right.
  - cbv zeta. destruct (negb _); intros [= <- <- <-]. split_and!; eauto. by right.
Qed.

Lemma loop_total t fuel : ∀ c l ok,
  expecting c → (length l < fuel)%nat → is_Some (pure_loop fuel t c l ok).
Proof.
  induction fuel as [|fuel IH]; intros c l ok Hc Hl; [lia|]. cbn.
  destruct (pure_round t c l ok) as [[[[c' l'] ok'] []]|f] eqn:E; [|by eauto..].
  destruct (round_shrinks _ _ _ _ _ _ _ Hc E) as (? & ? & _). apply IH; [done|lia].
Qed.

Lemma loop_mono t fuel fuel' : ∀ c l ok r,
  pure_loop fuel t c l ok = Some r → (fuel ≤ fuel')%nat → pure_loop fuel' t c l ok = Some r.
Proof.
  revert fuel'. induction fuel as [|fuel IH]; intros fuel' c l ok r; [done|].
  destruct fuel' as [|fuel']; [lia|]. cbn. intros E Hf.
  destruct (pure_round t c l ok) as [[[[c' l'] ok'] []]|f]; try done. apply (IH fuel'); [done|lia].
Qed.

(** The loop ends with [r]. *)
Definition parses (t : Z) (c : HttpContext) (l : bytes) (ok : bool) r : Prop :=
  ∃ fuel, pure_loop fuel t c l ok = Some r.

Lemma parses_det t c l ok r r' : parses t c l ok r → parses t c l ok r' → r = r'.
Proof.
  intros [n En] [m Em]. apply (loop_mono _ _ (n `max` m)) in En; [|lia].
  apply (loop_mono _ _ (n `max` m)) in Em; [|lia]. congruence.
Qed.

Lemma parses_step t c l ok c' l' ok' r :
  pure_round t c l ok = Ok (c', l', ok', true) → parses t c' l' ok' r → parses t c l ok r.
Proof. intros E [n En]. exists (S n). cbn. by rewrite E. Qed.

Lemma parses_stop t c l ok c' l' ok' :
  pure_round t c l ok = Ok (c', l', ok', false) → parses t c l ok (Ok (c', l', ok')).
Proof. intros E. exists 1%nat. cbn. by rewrite E. Qed.

(** ** Bytes that arrive later *)

Lemma line_of_app l k line rest :
  line_of l = Some (line, rest) → line_of (l ++ k) = Some (line, rest ++ k).
Proof.
  unfold line_of. pose proof (Buffer.search_range Buffer.kCRLF l) as Hr. pose proof (zlen_nonneg k).
  destruct (Z.eqb_spec (Buffer.search Buffer.kCRLF l) (zlen l)) as [|Hne]; [done|].
  assert (Buffer.search Buffer.kCRLF l < zlen l) as Hi by lia.
  pose proof (Buffer.search_found _ _ Hi) as [u Hu]. apply (f_equal zlen) in Hu.
  rewrite zlen_zdrop, zlen_app in Hu by lia. change (zlen Buffer.kCRLF) with 2 in Hu. pose proof (zlen_nonneg u).
  intros [= <- <-]. rewrite Buffer.search_app, zlen_app by done. rewrite (proj2 (Z.eqb_neq _ _)) by lia.
  by rewrite ztake_app_le, zdrop_app_le by lia.
Qed.

Definition finished (c : HttpContext) (ok : bool) : bool := gotAll c || negb ok.

(** A round that does something does the same when more bytes follow. *)
Lemma round_app t c l k ok c' l' ok' more :
  expecting c → ok = true → pure_round t c l ok = Ok (c', l', ok', more) →
  (more = true ∨ finished c' ok' = true) ∧ pure_round t c (l ++ k) ok = Ok (c', if ok' then l' ++ k else l ++ k, ok', more) ∧ (ok' = false → l' = l)
  ∨ (more = false ∧ c' = c ∧ l' = l ∧ ok' = true ∧ line_of l = None).
Proof.
  intros Hc -> . unfold pure_round.
  destruct Hc as [Hc|Hc]; rewrite Hc; destruct (line_of l) as [[line rest]|] eqn:El.
  - rewrite (line_of_app _ k _ _ El).
    destruct (processRequestLine line (request_ c)) as [[r [|]]|]; cbn; try done; intros [= <- <- <- <-];
      left; split_and!; try done; auto.
  - intros [= <- <- <- <-]. by right.
  - rewrite (line_of_app _ k _ _ El). cbv zeta. destruct (negb _); intros [= <- <- <- <-];
      left; split_and!; try done; auto.
  - intros [= <- <- <- <-]. by right.
Qed.

Lemma round_app_fail t c l k f :
  pure_round t c l true = Fail f → pure_round t c (l ++ k) true = Fail f.
Proof.
  unfold pure_round. destruct (state_ c); try done; destruct (line_of l) as [[line rest]|] eqn:El; try done.
  rewrite (line_of_app _ k _ _ El). by destruct (processRequestLine line (request_ c)) as [[? ?]|].
Qed.

(** Stopping without being finished means that no complete line is left. *)
Definition waiting (c : HttpContext) (l : bytes) : Prop := expecting c ∧ line_of l = None.

Lemma parses_waiting t c l : waiting c l → parses t c l true (Ok (c, l, true)).
Proof.
  intros [[Hc|Hc] Hl]; apply parses_stop; unfold pure_round; by rewrite Hc, Hl.
Qed.

(** Parsing what there is and going on when the rest arrives is the same as
    parsing it all at once. *)
Lemma parses_app t k fuel : ∀ c l r,
  expecting c → pure_loop fuel t c l true = Some r →
  match r with
  | Fail f => parses t c (l ++ k) true (Fail f)
  | Ok (c', l', ok') =>
      if finished c' ok' then parses t c (l ++ k) true (Ok (c', l' ++ k, ok'))
      else waiting c' l' ∧ ok' = true ∧
           (state_ c' = kExpectRequestLine → c' = c ∧ l' = l) ∧
           (∀ r2, parses t c' (l' ++ k) true r2 → parses t c (l ++ k) true r2)
  end.
Proof.
  induction fuel as [|fuel IH]; intros c l r Hc; [done|]. cbn [pure_loop].
  destruct (pure_round t c l true) as [[[[c1 l1] ok1] more]|f] eqn:E.
  2: { intros [= <-]. exists 1%nat. cbn. by rewrite (round_app_fail _ _ _ k _ E). }
  destruct (round_app t c l k true c1 l1 ok1 more Hc eq_refl E) as [(Hm & Ea & Hl)|(-> & -> & -> & -> & Hn)].
  2: { intros [= <-]. assert (finished c true = false) as ->.
       { unfold finished, gotAll. by destruct Hc as [-> | ->]. }
       split_and!; try done. }
  destruct more.
  - destruct (round_shrinks _ _ _ _ _ _ _ Hc E) as (_ & Hc1 & ->).
    assert ((if decide (state_ c = kExpectRequestLine) then true else true) = true) as Hb by by case_decide.
    rewrite Hb in *. intros Hr. specialize (IH _ _ _ Hc1 Hr). destruct r as [[[c' l'] ok']|f].
    + destruct (finished c' ok'); [by eapply parses_step|].
      destruct IH as (Hw & Hok & Hs & Hcont). split_and!; try done.
      * intros Hst. destruct (Hs Hst) as [-> _]. exfalso. revert E. unfold pure_round. revert Hst.
        destruct Hc as [Hc|Hc]; rewrite Hc; destruct (line_of l) as [[line rest]|]; try done.
        -- destruct (processRequestLine line (request_ c)) as [[? [|]]|]; cbn; try done. by intros ? [= <- _].
        -- cbv zeta. destruct (negb _); [|done]. by intros ? [= <- _].
      * intros r2 Hr2. eapply parses_step; [exact Ea|]. auto.
    + by eapply parses_step.
  - intros [= <-]. destruct Hm as [?|Hf]; [done|]. rewrite Hf. destruct ok1.
    + by apply parses_stop.
    + rewrite (Hl eq_refl). by apply parses_stop.
Qed.

(** The time stamp is set with the request line and not looked at otherwise. *)
Lemma parses_time t t' fuel : ∀ c l ok,
  state_ c = kExpectHeaders → pure_loop fuel t c l ok = pure_loop fuel t' c l ok.
Proof.
  induction fuel as [|fuel IH]; intros c l ok Hc; [done|]. cbn. unfold pure_round. rewrite Hc.
  destruct (line_of l) as [[line rest]|]; [|done]. cbv zeta. destruct (negb _); [|done]. by apply IH.
Qed.

(** ** The text of a request *)

Definition version_text (v : HttpRequest.Version) : bytes :=
  match v with
  | HttpRequest.kHttp10 => Channel.str "HTTP/1.0"
  | HttpRequest.kHttp11 => Channel.str "HTTP/1.1"
  | HttpRequest.kUnknown => []
  end.

Definition request_line (r : HttpRequest.HttpRequest) : bytes :=
  HttpRequest.methodString r ++ [sp] ++ (HttpRequest.path_ r ++ HttpRequest.query_ r) ++ [sp] ++
  version_text (HttpRequest.version_ r).
Definition header_line (h : bytes * bytes) : bytes := h.1 ++ [":"%char; sp] ++ h.2.

Fixpoint headers_text (hs : list (bytes * bytes)) : bytes :=
  match hs with [] => Buffer.kCRLF | h :: hs => header_line h ++ Buffer.kCRLF ++ headers_text hs end.
Definition request_text (r : HttpRequest.HttpRequest) (hs : list (bytes * bytes)) : bytes :=
  request_line r ++ Buffer.kCRLF ++ headers_text hs.

(** Well-formed parts: no line feed anywhere, no space in the target, the query
    is empty or starts with a question mark, which the path does not contain; a field
    name has no colon and a value no spaces around it. *)
Definition line_ok (r : HttpRequest.HttpRequest) : Prop :=
  HttpRequest.method_ r ≠ HttpRequest.kInvalid ∧ HttpRequest.version_ r ≠ HttpRequest.kUnknown ∧
  Buffer.LF ∉ HttpRequest.path_ r ++ HttpRequest.query_ r ∧ sp ∉ HttpRequest.path_ r ++ HttpRequest.query_ r ∧
  "?"%char ∉ HttpRequest.path_ r ∧
  (HttpRequest.query_ r = [] ∨ ∃ q, HttpRequest.query_ r = "?"%char :: q).
Definition header_ok (h : bytes * bytes) : Prop :=
  Buffer.LF ∉ h.1 ∧ Buffer.LF ∉ h.2 ∧ ":"%char ∉ h.1 ∧
  HttpRequest.skip_spaces h.2 = h.2 ∧ HttpRequest.trim_end h.2 = h.2.

#[global] Instance header_ok_dec h : Decision (header_ok h).
Proof. unfold header_ok. apply _. Defined.

(** What such a request parses to. *)
Definition parsed (t : Z) (r : HttpRequest.HttpRequest) (hs : list (bytes * bytes)) : HttpRequest.HttpRequest :=
  HttpRequest.mkHttpRequest (HttpRequest.method_ r) (HttpRequest.version_ r) (HttpRequest.path_ r)
    (HttpRequest.query_ r) t (fold_left (λ m h, StringMap.set h.1 h.2 m) hs []).

Lemma find_app c l k : c ∉ l → Buffer.find c (l ++ c :: k) = zlen l.
Proof.
  induction l as [|x l IH]; cbn [app Buffer.find]; intros Hc.
  - by rewrite bool_decide_true.
  - apply not_elem_of_cons in Hc as [Hx Hc]. rewrite bool_decide_false by congruence.
    rewrite zlen_cons, IH by done. done.
Qed.

Lemma find_absent c l : c ∉ l → Buffer.find c l = zlen l.
Proof.
  induction l as [|x l IH]; cbn [Buffer.find]; intros Hc; [done|].
  apply not_elem_of_cons in Hc as [Hx Hc]. rewrite bool_decide_false by congruence.
  rewrite zlen_cons, IH by done. done.
Qed.

Lemma search_line line rest :
  Buffer.LF ∉ line → Buffer.search Buffer.kCRLF (line ++ Buffer.kCRLF ++ rest) = zlen line.
Proof.
  induction line as [|x line IH]; intros Hn; [done|]. apply not_elem_of_cons in Hn as [Hx Hn].
  cbn [app Buffer.search]. rewrite IH by done.
  assert (Buffer.is_prefix Buffer.kCRLF (x :: line ++ Buffer.kCRLF ++ rest) = false) as ->.
  { cbn. destruct line as [|y line]; cbn; [by rewrite andb_false_r|].
    apply not_elem_of_cons in Hn as [Hy _]. rewrite (bool_decide_false (Buffer.LF = y)) by done.
    by rewrite andb_false_r. }
  by rewrite zlen_cons.
Qed.

Lemma line_of_line line rest :
  Buffer.LF ∉ line → line_of (line ++ Buffer.kCRLF ++ rest) = Some (line, rest).
Proof.
  intros Hn. unfold line_of. rewrite search_line by done.
  pose proof (zlen_nonneg line). pose proof (zlen_nonneg rest).
  rewrite !zlen_app. change (zlen Buffer.kCRLF) with 2. rewrite (proj2 (Z.eqb_neq _ _)) by lia.
  rewrite ztake_app_exact by done. f_equal. f_equal.
  rewrite <- zdrop_zdrop by lia. by rewrite zdrop_app_exact.
Qed.

(** Splitting at a character. *)
Lemma split_at c l k :
  c ∉ l → Buffer.find c (l ++ c :: k) = zlen l ∧ (zlen l =? zlen (l ++ c :: k)) = false ∧
    ztake (zlen l) (l ++ c :: k) = l ∧ zdrop (zlen l + 1) (l ++ c :: k) = k.
Proof.
  intros Hc. pose proof (zlen_nonneg k). pose proof (zlen_nonneg l). split_and!; [by apply find_app| |by apply ztake_app_exact|].
  - apply Z.eqb_neq. rewrite zlen_app, zlen_cons. lia.
  - rewrite <- zdrop_zdrop by lia. by rewrite zdrop_app_exact.
Qed.

Lemma process_target p q :
  "?"%char ∉ p → (q = [] ∨ ∃ q', q = "?"%char :: q') →
  ∀ r, (if Buffer.find "?"%char (p ++ q) =? zlen (p ++ q) then HttpRequest.setPath (p ++ q) r
        else HttpRequest.setQuery (zdrop (Buffer.find "?"%char (p ++ q)) (p ++ q))
               (HttpRequest.setPath (ztake (Buffer.find "?"%char (p ++ q)) (p ++ q)) r)) =
       if decide (q = []) then HttpRequest.setPath p r else HttpRequest.setQuery q (HttpRequest.setPath p r).
Proof.
  intros Hp Hq r. destruct Hq as [->|[q' ->]].
  - rewrite app_nil_r, find_absent, Z.eqb_refl by done. by rewrite decide_True.
  - destruct (split_at _ _ q' Hp) as (-> & -> & -> & _). rewrite decide_False by done.
    by rewrite zdrop_app_exact.
Qed.

Lemma method_text r :
  HttpRequest.method_ r ≠ HttpRequest.kInvalid →
  HttpRequest.method_of (HttpRequest.methodString r) = HttpRequest.method_ r ∧
  sp ∉ HttpRequest.methodString r ∧ Buffer.LF ∉ HttpRequest.methodString r.
Proof.
  unfold HttpRequest.methodString. intros Hm.
  destruct (HttpRequest.method_ r); [done|..]; (split; [vm_compute; reflexivity|]);
    split; apply (bool_decide_unpack _); vm_compute; exact I.
Qed.

Lemma process_version_text v r :
  v ≠ HttpRequest.kUnknown → process_version (version_text v) r = (HttpRequest.setVersion v r, true) ∧
  Buffer.LF ∉ version_text v.
Proof.
  intros Hv. destruct v; [done|..]; (split; [reflexivity|]);
    apply (bool_decide_unpack _); vm_compute; exact I.
Qed.

Lemma processRequestLine_ok r :
  line_ok r →
  processRequestLine (request_line r) HttpRequest.make =
    Ok (HttpRequest.mkHttpRequest (HttpRequest.method_ r) (HttpRequest.version_ r) (HttpRequest.path_ r)
          (HttpRequest.query_ r) 0 [], true) ∧
  Buffer.LF ∉ request_line r.
Proof.
  intros (Hm & Hv & Hlf & Hsp & Hq & Hqq). destruct (method_text r Hm) as (Em & Hms & Hml).
  destruct (process_version_text (HttpRequest.version_ r) (HttpRequest.make) Hv) as [_ Hvl].
  split.
  2: { unfold request_line. rewrite !not_elem_of_app. rewrite not_elem_of_app in Hlf.
       assert (Buffer.LF ∉ [sp]) by (apply (bool_decide_unpack _); vm_compute; exact I). tauto. }
  unfold processRequestLine, request_line. set (rest := (HttpRequest.path_ r ++ _) ++ _).
  change ([sp] ++ rest) with (sp :: rest). destruct (split_at sp _ rest Hms) as (-> & -> & -> & ->).
  unfold HttpRequest.setMethod. rewrite Em. cbn [HttpRequest.method_ HttpRequest.make HttpRequest.with_method].
  rewrite (bool_decide_true (HttpRequest.kInvalid = HttpRequest.kInvalid)) by done. cbn [check]. rewrite !bind_Ok.
  rewrite (bool_decide_true (HttpRequest.method_ r ≠ HttpRequest.kInvalid)) by done. cbn [negb].
  subst rest. change ([sp] ++ version_text _) with (sp :: version_text (HttpRequest.version_ r)).
  destruct (split_at sp _ (version_text (HttpRequest.version_ r)) Hsp) as (-> & -> & -> & ->). cbv zeta.
  rewrite process_target by done. case_decide as Hd.
  - by rewrite (proj1 (process_version_text _ _ Hv)), Hd.
  - by rewrite (proj1 (process_version_text _ _ Hv)).
Qed.

Lemma headers_parse t k hs : ∀ r,
  Forall header_ok hs →
  parses t (mkHttpContext kExpectHeaders r) (headers_text hs ++ k) true
    (Ok (mkHttpContext kGotAll (HttpRequest.with_headers
          (fold_left (λ m h, StringMap.set h.1 h.2 m) hs (HttpRequest.headers_ r)) r), k, true)).
Proof.
  induction hs as [|[f v] hs IH]; intros r Hok; cbn [headers_text fold_left].
  - apply parses_stop. unfold pure_round. cbn [state_ request_].
    change (Buffer.kCRLF ++ k) with ([] ++ Buffer.kCRLF ++ k). rewrite line_of_line by set_solver. by destruct r.
  - apply Forall_cons in Hok as [(H1 & H2 & H3 & H4 & H5) Hok]. cbn [fst snd] in *.
    assert (Buffer.LF ∉ header_line (f, v)) as Hl.
    { unfold header_line. rewrite !not_elem_of_app. cbn [fst snd].
      assert (Buffer.LF ∉ [":"%char; sp]) by (apply (bool_decide_unpack _); vm_compute; exact I). tauto. }
    specialize (IH (HttpRequest.with_headers (StringMap.set f v (HttpRequest.headers_ r)) r) Hok).
    eapply parses_step; [|exact IH]. unfold pure_round. cbn [state_ request_].
    rewrite <- !app_assoc, line_of_line by done. unfold header_line. cbn [fst snd app]. cbv zeta.
    destruct (split_at ":"%char f (sp :: v) H3) as (-> & -> & E1 & E2). cbn [negb].
    unfold HttpRequest.addHeader. rewrite E1, E2.
    change (HttpRequest.skip_spaces (sp :: v)) with (HttpRequest.skip_spaces v). by rewrite H4, H5.
Qed.

Lemma request_parses t r hs k :
  line_ok r → Forall header_ok hs →
  parses t HttpContext.make (request_text r hs ++ k) true
    (Ok (mkHttpContext kGotAll (parsed t r hs), k, true)).
Proof.
  intros Hr Hh. destruct (processRequestLine_ok r Hr) as [Ep Hl]. unfold request_text.
  eapply parses_step; [|apply (headers_parse t k hs (HttpRequest.setReceiveTime t (HttpRequest.mkHttpRequest (HttpRequest.method_ r) (HttpRequest.version_ r) (HttpRequest.path_ r)
          (HttpRequest.query_ r) 0 [])) Hh)].
  unfold pure_round. cbn [state_ request_ HttpContext.make]. rewrite <- !app_assoc, line_of_line by done.
  rewrite Ep. done.
Qed.

(** ** From strings to buffers *)

Lemma enough_length b : wf b → enough b = S (length (content b)).
Proof.
  intros Hb. unfold enough. rewrite <- Buffer.zlen_content by done. unfold zlen. by rewrite Nat2Z.id.
Qed.

Lemma parseRequest_parses t c b r :
  wf b → expecting c → parses t c (content b) true r →
  match r with
  | Ok (c', l', ok') => ∃ b', parseRequest (enough b) c b t = Some (Ok (c', b', ok')) ∧ wf b' ∧ content b' = l'
  | Fail f => parseRequest (enough b) c b t = Some (Fail f)
  end.
Proof.
  intros Hb Hc Hr. unfold parseRequest. pose proof (loop_refines t (enough b) c b true Hb) as Hl.
  destruct (loop_total t (enough b) c (content b) true Hc) as [r' Er']; [rewrite enough_length by done; lia|].
  assert (r' = r) as -> by (eapply parses_det; [by exists (enough b)|done]).
  rewrite Er' in Hl. destruct r as [[[c' l'] ok']|f]; done.
Qed.

Lemma parseRequest_ends t c b :
  wf b → expecting c → ∃ r, parses t c (content b) true r.
Proof.
  intros Hb Hc. destruct (loop_total t (enough b) c (content b) true Hc) as [r' Er']; [rewrite enough_length by done; lia|].
  exists r'. by exists (enough b).
Qed.

(** C19: [parseRequest] ends: from any state it can be called in with a fresh or
    half-read request, one round more than there are bytes in the buffer is
    enough. Called on a context that already holds a complete request, or
    that expects a body, it never returns. *)
Theorem parseRequest_terminates c b t :
  wf b →
  match state_ c with
  | kExpectRequestLine | kExpectHeaders => is_Some (parseRequest (enough b) c b t)
  | kExpectBody | kGotAll => ∀ fuel, parseRequest fuel c b t = None
  end.
Proof.
  intros Hb.
  assert (expecting c → is_Some (parseRequest (enough b) c b t)) as Hend.
  { intros Hc. destruct (parseRequest_ends t c b Hb Hc) as [r Hr].
    pose proof (parseRequest_parses t c b r Hb Hc Hr) as Hp. destruct r as [[[c' l'] ok']|f]; [|by rewrite Hp].
    destruct Hp as (b' & -> & _). done. }
  assert (state_ c = kExpectBody ∨ state_ c = kGotAll → ∀ fuel ok, parse_loop fuel t c b ok = None) as Hdiv.
  { intros Hs. induction fuel as [|fuel IH]; intros ok; [done|]. cbn. unfold parse_round.
    destruct Hs as [Hs|Hs]; rewrite Hs; apply IH; auto. }
  unfold expecting in Hend. destruct (state_ c); [auto..|intros fuel; apply Hdiv; auto|intros fuel; apply Hdiv; auto].
Qed.

(** Round trip: the parser recovers method, path, query, version and
    headers from the text of any well-formed request, and leaves the bytes
    behind it in the buffer. *)
Theorem request_roundtrip r hs rest b t :
  line_ok r → Forall header_ok hs → wf b → content b = request_text r hs ++ rest →
  ∃ b', parseRequest (enough b) HttpContext.make b t =
          Some (Ok (mkHttpContext kGotAll (parsed t r hs), b', true)) ∧ content b' = rest.
Proof.
  intros Hr Hh Hb Hc. pose proof (request_parses t r hs rest Hr Hh) as Hp. rewrite <- Hc in Hp.
  destruct (parseRequest_parses t HttpContext.make b _ Hb ltac:(by left) Hp) as (b' & E & _ & Hc').
  eauto.
Qed.

(** ** Requests in pieces *)

Section serving.
Context (cb : HttpRequest.HttpRequest → HttpResponse.HttpResponse → HttpResponse.HttpResponse).

(** Each piece is read into the input buffer, then [onMessage] runs. *)
Fixpoint serve (pieces : list (bytes * Z)) (c : HttpContext) (b : Buffer.Buffer) :
    option (result (HttpContext * Buffer.Buffer * list TcpConnection.action)) :=
  match pieces with
  | [] => Some (Ok (c, b, []))
  | (d, t) :: pieces =>
      match Buffer.append b d with
      | Fail f => Some (Fail f)
      | Ok b =>
          match HttpServer.onMessage cb c b t with
          | Some (Ok (c, b, a)) =>
              match serve pieces c b with
              | Some (Ok (c, b, a')) => Some (Ok (c, b, a ++ a'))
              | r => r
              end
          | r => r
          end
      end
  end.

Definition all_bytes (pieces : list (bytes * Z)) : bytes := concat (fst <$> pieces).

Lemma onMessage_waiting c b t c' l' :
  wf b → expecting c → parses t c (content b) true (Ok (c', l', true)) → gotAll c' = false →
  ∃ b', HttpServer.onMessage cb c b t = Some (Ok (c', b', [])) ∧ wf b' ∧ content b' = l'.
Proof.
  intros Hb Hc Hp Hg. destruct (parseRequest_parses t c b _ Hb Hc Hp) as (b' & E & Hb' & Hl).
  exists b'. unfold HttpServer.onMessage. rewrite E, bind_Ok. cbv zeta. by rewrite Hg.
Qed.

Lemma onMessage_complete c b t r l' answer :
  wf b → expecting c → parses t c (content b) true (Ok (mkHttpContext kGotAll r, l', true)) →
  HttpServer.onRequest cb r = Ok answer →
  ∃ b', HttpServer.onMessage cb c b t = Some (Ok (HttpContext.make, b', answer)) ∧ wf b' ∧ content b' = l'.
Proof.
  intros Hb Hc Hp Ha. destruct (parseRequest_parses t c b _ Hb Hc Hp) as (b' & E & Hb' & Hl).
  exists b'. unfold HttpServer.onMessage. rewrite E, bind_Ok. cbv zeta.
  change (gotAll (mkHttpContext kGotAll r)) with true. cbn [request_]. rewrite Ha. done.
Qed.

Definition pieces_ok (pieces : list (bytes * Z)) : Prop := Forall (λ x, TcpConnection.message_ok x.1) pieces.

Lemma append_safe b d :
  wf b → TcpConnection.message_ok d → safe (λ b', wf b' ∧ content b' = content b ++ d) (Buffer.append b d).
Proof.
  intros Hb Hd. pose proof (zlen_nonneg d). unfold Buffer.append.
  eapply safe_mono; [apply Buffer.append_n_safe; [done|lia|done]|]. intros b' [? Hc].
  by rewrite ztake_all in Hc by lia.
Qed.

Lemma serve_empty pieces : ∀ b,
  wf b → content b = [] → all_bytes pieces = [] → pieces_ok pieces →
  ends_well (λ '(c, b', acts), c = HttpContext.make ∧ content b' = [] ∧ acts = []) (serve pieces HttpContext.make b).
Proof.
  induction pieces as [|[d t] pieces IH]; intros b Hb Hc Hall Hok; [done|]. cbn [serve].
  apply app_eq_nil in Hall as [Hd Hall]. cbn in Hd. subst d. apply Forall_cons in Hok as [Hok Hoks].
  pose proof (append_safe b [] Hb Hok) as Ha. destruct (Buffer.append b []) as [b1|f]; [|done].
  destruct Ha as [Hb1 Hc1]. rewrite Hc in Hc1.
  destruct (onMessage_waiting HttpContext.make b1 t HttpContext.make []) as (b2 & -> & Hb2 & Hc2);
    [done|by left|rewrite Hc1; apply parses_waiting; by split; [left|]|done|].
  specialize (IH b2 Hb2 Hc2 Hall Hoks). destruct (serve pieces HttpContext.make b2) as [[[[c b3] a]|f]|]; done.
Qed.

Section request.
Context (r : HttpRequest.HttpRequest) (hs : list (bytes * bytes)) (answer : Z → list TcpConnection.action).
Hypothesis Hanswer : ∀ t, HttpServer.onRequest cb (parsed t r hs) = Ok (answer t).

Let fin (t : Z) : result (HttpContext * bytes * bool) := Ok (mkHttpContext kGotAll (parsed t r hs), [], true).

(** What the bytes still to come will make of the request: its time stamp is
    that of a piece seen already, or of the next one. *)
Definition promises (times : list Z) (c : HttpContext) (l : bytes) : Prop :=
  (∃ t0, t0 ∈ times ∧ ∀ t, parses t c l true (fin t0)) ∨ ∀ t, parses t c l true (fin t).

Lemma promised times c l t : promises times c l → t ∈ times → ∃ tt, tt ∈ times ∧ parses t c l true (fin tt).
Proof. intros [(t0 & ? & H)|H] Ht; eauto. Qed.

Lemma promises_waiting times c l l1 k t c' l' :
  promises times c (l1 ++ k) → t ∈ times → l = l1 ++ k → expecting c → parses t c l1 true (Ok (c', l', true)) →
  waiting c' l' → (state_ c' = kExpectRequestLine → c' = c ∧ l' = l1) → promises times c' (l' ++ k).
Proof.
  intros Hp Ht -> Hc Hr [Hw Hn] Hs. destruct Hr as [fuel Hr]. pose proof (parses_app t k fuel c l1 _ Hc Hr) as Ha.
  cbn in Ha. assert (finished c' true = false) as Hf.
  { unfold finished, gotAll. by destruct Hw as [-> | ->]. }
  rewrite Hf in Ha. destruct Ha as (_ & _ & _ & Hcont).
  destruct Hw as [Hw|Hw]; [by destruct (Hs Hw) as [-> ->]|].
  left. destruct (promised _ _ _ t Hp Ht) as (tt & Htt & Hfin). exists tt. split; [done|]. intros t2.
  destruct (loop_total t (S (length (l' ++ k))) c' (l' ++ k) true ltac:(by right) ltac:(lia)) as [r2 Hr2].
  assert (r2 = fin tt) as -> by (eapply parses_det; [apply Hcont; by eexists|done]).
  exists (S (length (l' ++ k))). by rewrite (parses_time t2 t).
Qed.

(** One call of [onMessage] while the request is not complete: it completes it and
    answers, or waits for more. *)
Lemma onMessage_step times c b t k :
  wf b → expecting c → t ∈ times → promises times c (content b ++ k) →
  (∃ tt b', tt ∈ times ∧ k = [] ∧ HttpServer.onMessage cb c b t = Some (Ok (HttpContext.make, b', answer tt)) ∧
     wf b' ∧ content b' = []) ∨
  (∃ c' b', HttpServer.onMessage cb c b t = Some (Ok (c', b', [])) ∧ wf b' ∧ waiting c' (content b') ∧
     promises times c' (content b' ++ k)).
Proof.
  intros Hb Hc Hti Hp. destruct (promised _ _ _ t Hp Hti) as (tt & Htt & Hfin).
  destruct (parseRequest_ends t c b Hb Hc) as [r1 [fuel Hr1]].
  pose proof (parses_app t k fuel c _ r1 Hc Hr1) as Happ.
  destruct r1 as [[[c' l'] ok']|f]; [|pose proof (parses_det _ _ _ _ _ _ Happ Hfin); done].
  destruct (finished c' ok') eqn:Ef.
  - pose proof (parses_det _ _ _ _ _ _ Happ Hfin) as [= -> Hnil ->]. apply app_eq_nil in Hnil as [-> ->].
    destruct (onMessage_complete c b t (parsed tt r hs) [] (answer tt)) as (b2 & -> & Hb2 & Hc2);
      [done|done|by exists fuel|done|]. left. by exists tt, b2.
  - destruct Happ as (Hw' & -> & Hs & _).
    assert (gotAll c' = false) as Hg by (unfold finished in Ef; by apply orb_false_iff in Ef as [? _]).
    destruct (onMessage_waiting c b t c' l') as (b2 & -> & Hb2 & Hc2); [done|done|by exists fuel|done|].
    right. exists c', b2. rewrite Hc2. split_and!; try done.
    eapply (promises_waiting times c _ (content b) k t c' l'); try done. by exists fuel.
Qed.

(** A context that waits for more has not seen the whole request. *)
Lemma promises_more times c l : waiting c l → ¬ promises times c l.
Proof.
  intros Hw Hp. pose proof (parses_waiting 0 c l Hw) as Hstop. destruct Hw as [Hc _].
  destruct Hp as [(t0 & _ & Hp)|Hp]; pose proof (parses_det _ _ _ _ _ _ Hstop (Hp 0)) as [= E];
    subst c; by destruct Hc.
Qed.

Lemma serve_rest pieces times : ∀ c b,
  wf b → waiting c (content b) → promises times c (content b ++ all_bytes pieces) →
  pieces_ok pieces → (∀ t, t ∈ snd <$> pieces → t ∈ times) →
  ends_well (λ '(c', b', acts), c' = HttpContext.make ∧ content b' = [] ∧ ∃ t, t ∈ times ∧ acts = answer t)
    (serve pieces c b).
Proof.
  induction pieces as [|[d t] pieces IH]; intros c b Hb Hw Hp Hok Ht.
  { exfalso. change (all_bytes []) with (@nil ascii) in Hp. rewrite app_nil_r in Hp. by apply (promises_more times c (content b)). }
  cbn [serve]. apply Forall_cons in Hok as [Hd Hok].
  pose proof (append_safe b d Hb Hd) as Ha. destruct (Buffer.append b d) as [b1|f]; [|done].
  destruct Ha as [Hb1 Hc1]. destruct Hw as [Hc Hn].
  change (all_bytes ((d, t) :: pieces)) with (d ++ all_bytes pieces) in Hp. rewrite app_assoc, <- Hc1 in Hp.
  destruct (onMessage_step times c b1 t (all_bytes pieces) Hb1 Hc ltac:(apply Ht; cbn; set_solver) Hp)
    as [(tt & b2 & Htt & Hk & -> & Hb2 & Hc2)|(c' & b2 & -> & Hb2 & Hw2 & Hp2)].
  - pose proof (serve_empty pieces b2 Hb2 Hc2 Hk Hok) as He.
    destruct (serve pieces HttpContext.make b2) as [[[[c3 b3] a3]|f]|]; [|done|done].
    destruct He as (-> & ? & ->). cbn. split_and!; [done|done|]. exists tt. by rewrite app_nil_r.
  - specialize (IH c' b2 Hb2 Hw2 Hp2 Hok ltac:(intros; apply Ht; cbn; set_solver)).
    destruct (serve pieces c' b2) as [[[[c3 b3] a3]|f]|]; done.
Qed.

(** C9: Message boundaries do not matter: however the text of a well-formed
    request is cut into pieces, the server answers exactly once, with the
    answer to that request (stamped with the time of one of the pieces), nothing
    is left in the buffer, and the context is ready for the next request. *)
Theorem http_fragmentation pieces b :
  line_ok r → Forall header_ok hs → pieces_ok pieces → all_bytes pieces = request_text r hs →
  wf b → content b = [] →
  ends_well (λ '(c, b', acts), c = HttpContext.make ∧ content b' = [] ∧
               ∃ t, t ∈ snd <$> pieces ∧ acts = answer t)
    (serve pieces HttpContext.make b).
Proof.
  intros Hr Hh Hok Hall Hb Hc. apply serve_rest; try done.
  - rewrite Hc. by split; [left|].
  - right. intros t. rewrite Hc, Hall. cbn [app].
    pose proof (request_parses t r hs [] Hr Hh) as Hp. by rewrite app_nil_r in Hp.
Qed.
End request.
End serving.

(** ** Refused requests *)

Lemma processRequestLine_twice line r :
  processRequestLine line HttpRequest.make = Ok (r, false) → HttpRequest.method_ r ≠ HttpRequest.kInvalid →
  processRequestLine line r = Fail AssertFailed.
Proof.
  unfold processRequestLine. destruct (_ =? _); [intros [= <-] Hm; by destruct Hm|].
  intros _ Hm. unfold HttpRequest.setMethod. by rewrite (bool_decide_false (HttpRequest.method_ r = HttpRequest.kInvalid)).
Qed.

(** C40: A request line that is refused after its method was recognised (an
    unknown HTTP version, a missing target) is answered with 400 and stays in the
    buffer with the method set: the next message on this connection, whatever it
    contains, fails the assertion in [setMethod]. *)
Theorem refused_request_aborts cb line rest r b t :
  wf b → content b = line ++ Buffer.kCRLF ++ rest → Buffer.LF ∉ line →
  processRequestLine line HttpRequest.make = Ok (r, false) → HttpRequest.method_ r ≠ HttpRequest.kInvalid →
  ∃ c' b', HttpServer.onMessage cb HttpContext.make b t =
      Some (Ok (c', b', [TcpConnection.Send HttpServer.bad_request; TcpConnection.Shutdown])) ∧
    ∀ b2 more t2, wf b2 → content b2 = content b' ++ more →
      HttpServer.onMessage cb c' b2 t2 = Some (Fail AssertFailed).
Proof.
  intros Hb Hc Hl Hp Hm. set (c' := mkHttpContext kExpectRequestLine r).
  assert (parses t HttpContext.make (content b) true (Ok (c', content b, false))) as Hfirst.
  { apply parses_stop. unfold pure_round. cbn [state_ request_ HttpContext.make].
    by rewrite Hc, line_of_line, Hp by done. }
  destruct (parseRequest_parses t HttpContext.make b _ Hb ltac:(by left) Hfirst) as (b' & E & Hb' & Hc').
  exists c', b'. split.
  { unfold HttpServer.onMessage. rewrite E, bind_Ok. done. }
  intros b2 more t2 Hb2 Hc2.
  assert (parses t2 c' (content b2) true (Fail AssertFailed)) as Hsecond.
  { exists 1%nat. cbn. unfold pure_round. cbn [state_ request_]. rewrite Hc2, Hc', Hc, <- !app_assoc.
    rewrite line_of_line by done. by rewrite (processRequestLine_twice line r). }
  pose proof (parseRequest_parses t2 c' b2 _ Hb2 ltac:(by left) Hsecond) as E2.
  unfold HttpServer.onMessage. by rewrite E2.
Qed.

(** ** Responses *)

Definition header_lines (r : HttpResponse.HttpResponse) : list bytes :=
  (if HttpResponse.closeConnection_ r then [Channel.str "Connection: close"]
   else [Channel.str "Content-Length: " ++ Format.dec (zlen (HttpResponse.body_ r));
         Channel.str "Connection: Keep-Alive"]) ++
  ((λ h, h.1 ++ Channel.str ": " ++ h.2) <$> HttpResponse.headers_ r).
Definition first_line (r : HttpResponse.HttpResponse) : bytes :=
  Channel.str "HTTP/1.1 " ++ Format.dec (HttpResponse.statusCode_ r) ++ [" "%char] ++ HttpResponse.statusMessage_ r.

Fixpoint lines_text (ls : list bytes) : bytes :=
  match ls with [] => [] | l :: ls => l ++ Buffer.kCRLF ++ lines_text ls end.
Definition response_text (r : HttpResponse.HttpResponse) : bytes :=
  lines_text (first_line r :: header_lines r) ++ Buffer.kCRLF ++ HttpResponse.body_ r.

Lemma lines_text_app ls ks : lines_text (ls ++ ks) = lines_text ls ++ lines_text ks.
Proof. induction ls as [|l ls IH]; cbn; [done|]. by rewrite IH, <- !app_assoc. Qed.

(** What a client does with it: lines up to the first empty one, then the rest. *)
Fixpoint read_head (fuel : nat) (l : bytes) : option (list bytes * bytes) :=
  match fuel with
  | O => None
  | S fuel =>
      match line_of l with
      | None => None
      | Some ([], rest) => Some ([], rest)
      | Some (line, rest) =>
          match read_head fuel rest with Some (ls, rest) => Some (line :: ls, rest) | None => None end
      end
  end.

Lemma read_head_lines ls : ∀ fuel k,
  Forall (λ l, l ≠ [] ∧ Buffer.LF ∉ l) ls → (length ls < fuel)%nat →
  read_head fuel (lines_text ls ++ Buffer.kCRLF ++ k) = Some (ls, k).
Proof.
  induction ls as [|l ls IH]; intros [|fuel] k Hl Hf; try (cbn in Hf; lia); cbn [lines_text read_head].
  - change (([] : bytes) ++ Buffer.kCRLF ++ k) with (([] : bytes) ++ Buffer.kCRLF ++ k).
    by rewrite line_of_line by set_solver.
  - apply Forall_cons in Hl as [[Hne Hlf] Hl]. rewrite <- !app_assoc, line_of_line by done.
    rewrite IH by (done || (cbn in Hf; lia)). by destruct l.
Qed.

Definition response_ok (r : HttpResponse.HttpResponse) : Prop :=
  0 ≤ HttpResponse.statusCode_ r < 10 ^ 10 ∧ zlen (HttpResponse.body_ r) < 10 ^ 13 ∧
  TcpConnection.message_ok (HttpResponse.statusMessage_ r) ∧ Buffer.LF ∉ HttpResponse.statusMessage_ r ∧
  Forall (λ h, TcpConnection.message_ok h.1 ∧ TcpConnection.message_ok h.2 ∧ Buffer.LF ∉ h.1 ∧ Buffer.LF ∉ h.2)
    (HttpResponse.headers_ r).

Lemma dec_nonneg z : 0 ≤ z → Format.dec z = Format.digits z.
Proof. intros. unfold Format.dec. by rewrite (proj2 (Z.ltb_ge _ _)). Qed.

Lemma dec_no_LF z : 0 ≤ z → Buffer.LF ∉ Format.dec z.
Proof.
  intros Hz. rewrite dec_nonneg by done. pose proof (Format.digits_all z Hz) as Hd.
  rewrite Forall_forall in Hd. intros Hin. specialize (Hd _ Hin). by vm_compute in Hd.
Qed.

(** Neither [snprintf] cuts anything off. *)
Lemma status_line_fits r :
  response_ok r →
  HttpResponse.status_line r = Channel.str "HTTP/1.1 " ++ Format.dec (HttpResponse.statusCode_ r) ++ [" "%char].
Proof.
  intros (Hs & _). unfold HttpResponse.status_line, Format.snprintf. apply ztake_all.
  rewrite !zlen_app, dec_nonneg by lia. pose proof (Format.digits_length (HttpResponse.statusCode_ r) 10 Hs ltac:(lia)).
  change (zlen (Channel.str "HTTP/1.1 ")) with 9. change (zlen [" "%char]) with 1. lia.
Qed.

Lemma content_length_fits r :
  response_ok r →
  HttpResponse.content_length r =
    (Channel.str "Content-Length: " ++ Format.dec (zlen (HttpResponse.body_ r))) ++ Buffer.kCRLF.
Proof.
  intros (_ & Hb & _). pose proof (zlen_nonneg (HttpResponse.body_ r)) as Hn.
  unfold HttpResponse.content_length, Format.snprintf. rewrite wraps_small by (unfold in_s; lia).
  rewrite <- app_assoc. apply ztake_all.
  rewrite !zlen_app, dec_nonneg by lia.
  pose proof (Format.digits_length (zlen (HttpResponse.body_ r)) 13 ltac:(lia) ltac:(lia)).
  change (zlen (Channel.str "Content-Length: ")) with 16. change (zlen Buffer.kCRLF) with 2. lia.
Qed.

Lemma append_then (b : Buffer.Buffer) d (P : Buffer.Buffer → Prop) (k : Buffer.Buffer → result Buffer.Buffer) :
  wf b → TcpConnection.message_ok d →
  (∀ b', wf b' → content b' = content b ++ d → safe P (k b')) → safe P (b' ← Buffer.append b d; k b').
Proof. intros Hb Hd Hk. eapply safe_bind; [by apply append_safe|]. intros b' [? ?]. auto. Qed.

Lemma append_headers_safe hs : ∀ b,
  wf b → Forall (λ h, TcpConnection.message_ok h.1 ∧ TcpConnection.message_ok h.2 ∧ Buffer.LF ∉ h.1 ∧ Buffer.LF ∉ h.2) hs →
  safe (λ b', wf b' ∧ content b' = content b ++ lines_text ((λ h, h.1 ++ Channel.str ": " ++ h.2) <$> hs))
    (HttpResponse.append_headers hs b).
Proof.
  induction hs as [|[f v] hs IH]; intros b Hb Hok; cbn [HttpResponse.append_headers].
  { cbn. by rewrite app_nil_r. }
  apply Forall_cons in Hok as [(H1 & H2 & _) Hok]. cbn [fst snd] in *.
  apply append_then; [done..|]. intros b1 Hb1 E1.
  apply append_then; [done..|]. intros b2 Hb2 E2.
  apply append_then; [done..|]. intros b3 Hb3 E3.
  apply append_then; [done..|]. intros b4 Hb4 E4.
  eapply safe_mono; [by apply IH|]. intros b5 [? E5]. split; [done|].
  rewrite E5, E4, E3, E2, E1. cbn [fmap list_fmap lines_text fst snd]. by rewrite <- !app_assoc.
Qed.

Lemma small_message d : zlen d ≤ 100 → TcpConnection.message_ok d.
Proof. unfold TcpConnection.message_ok. zlia. Qed.

Lemma snprintf_length n m s : 0 ≤ n → n ≤ m → zlen (Format.snprintf n s) ≤ m.
Proof. intros. unfold Format.snprintf, ztake, zlen. rewrite length_take. lia. Qed.

Lemma appendToBuffer_safe r b :
  wf b → response_ok r →
  safe (λ b', wf b' ∧ content b' = content b ++ response_text r) (HttpResponse.appendToBuffer r b).
Proof.
  intros Hb Hok. pose proof (status_line_fits r Hok) as Hs. pose proof (content_length_fits r Hok) as Hl.
  assert (TcpConnection.message_ok (HttpResponse.status_line r)) as Hsm.
  { apply small_message. unfold HttpResponse.status_line. apply snprintf_length; lia. }
  assert (TcpConnection.message_ok (HttpResponse.content_length r)) as Hlm.
  { apply small_message. unfold HttpResponse.content_length. apply snprintf_length; lia. }
  destruct Hok as (_ & Hbody & Hmsg & _ & Hhs). unfold HttpResponse.appendToBuffer.
  apply append_then; [done..|]. intros b1 Hb1 E1.
  apply append_then; [done..|]. intros b2 Hb2 E2.
  apply append_then; [done..|]. intros b3 Hb3 E3.
  eapply (safe_bind (λ b4, wf b4 ∧ content b4 = content b3 ++
    lines_text (if HttpResponse.closeConnection_ r then [Channel.str "Connection: close"]
      else [Channel.str "Content-Length: " ++ Format.dec (zlen (HttpResponse.body_ r)); Channel.str "Connection: Keep-Alive"]))).
  { destruct (HttpResponse.closeConnection_ r).
    - eapply safe_mono; [by apply append_safe|]. intros b4 [? E4]. split; [done|]. rewrite E4. cbn [lines_text]. by rewrite app_nil_r.
    - apply append_then; [done..|]. intros b4 Hb4 E4.
      eapply safe_mono; [by apply append_safe|]. intros b5 [? E5]. split; [done|].
      rewrite E5, E4, Hl. cbn [lines_text]. by rewrite <- !app_assoc, app_nil_r. }
  intros b4 [Hb4 E4]. eapply safe_bind; [by apply append_headers_safe|]. intros b5 [Hb5 E5].
  apply append_then; [done..|]. intros b6 Hb6 E6.
  eapply safe_mono; [apply append_safe; [done|unfold TcpConnection.message_ok; zlia]|]. intros b7 [? E7]. split; [done|].
  rewrite E7, E6, E5, E4, E3, E2, E1, Hs. unfold response_text, header_lines, first_line, HttpResponse.crlf.
  cbn [lines_text]. rewrite lines_text_app. by rewrite <- !app_assoc.
Qed.

Lemma response_lines_ok r :
  response_ok r → Forall (λ l, l ≠ [] ∧ Buffer.LF ∉ l) (first_line r :: header_lines r).
Proof.
  intros (Hs & _ & _ & Hm & Hh).
  assert (∀ s : string, bool_decide (Buffer.LF ∉ Channel.str s) = true → Buffer.LF ∉ Channel.str s) as Hstr
    by (intros s ?; by eapply bool_decide_eq_true_1).
  pose proof (zlen_nonneg (HttpResponse.body_ r)) as Hn.
  apply Forall_cons. split; [|apply Forall_app; split].
  - split; [done|]. unfold first_line. rewrite !not_elem_of_app. split_and!; try done.
    + apply Hstr. reflexivity.
    + apply dec_no_LF. lia.
    + apply (bool_decide_unpack _). vm_compute. exact I.
  - destruct (HttpResponse.closeConnection_ r); repeat apply Forall_cons_2; try apply Forall_nil_2.
    all: split; [done|]; try (apply Hstr; reflexivity).
    rewrite not_elem_of_app. split; [apply Hstr; reflexivity|by apply dec_no_LF].
  - apply Forall_fmap. eapply Forall_impl; [exact Hh|]. intros [f v] (_ & _ & H1 & H2). unfold compose. cbn [fst snd] in *.
    split; [by destruct f|]. rewrite !not_elem_of_app. split_and!; try done. apply Hstr. reflexivity.
Qed.

(** Responses are framed: a client that reads lines up to the first empty one
    finds the status line and the headers, then the body; on a connection
    that is kept alive the first header announces the length of the body, so the
    client can tell where the next response starts. *)
Theorem response_roundtrip r b rest :
  wf b → content b = [] → response_ok r →
  safe (λ b', let text := content b' ++ rest in
     read_head (S (S (length (header_lines r)))) text =
       Some (first_line r :: header_lines r, HttpResponse.body_ r ++ rest) ∧
     (HttpResponse.closeConnection_ r = false →
      ∃ n, header_lines r !! 0%nat = Some (Channel.str "Content-Length: " ++ n) ∧
           ztake (Format.dec_read n) (HttpResponse.body_ r ++ rest) = HttpResponse.body_ r))
    (HttpResponse.appendToBuffer r b).
Proof.
  intros Hb Hc Hok. eapply safe_mono; [by apply appendToBuffer_safe|]. intros b' [_ E]. cbv zeta.
  rewrite E, Hc. cbn [app]. split.
  - unfold response_text. rewrite <- !app_assoc. apply read_head_lines; [by apply response_lines_ok|]. cbn. lia.
  - intros Hk. unfold header_lines. rewrite Hk. eexists. split; [reflexivity|].
    pose proof (zlen_nonneg (HttpResponse.body_ r)). rewrite dec_nonneg, Format.digits_read by done.
    by apply ztake_app_exact.
Qed.

(** ** A request in pieces *)

Definition example_request : HttpRequest.HttpRequest :=
  HttpRequest.mkHttpRequest HttpRequest.kGet HttpRequest.kHttp11 (Channel.str "/index") (Channel.str "?q=1") 0 [].
Definition example_headers : list (bytes * bytes) :=
  [(Channel.str "Host", Channel.str "a: b"); (Channel.str "Connection", Channel.str "close")].
Definition example_buffer : Buffer.Buffer :=
  match Buffer.make Buffer.kInitialSize with Ok b => b | Fail _ => Buffer.mkBuffer [] 0 0 end.
Definition example_pieces : list (bytes * Z) :=
  let l := request_text example_request example_headers in
  [(ztake 5 l, 1); (ztake 30 (zdrop 5 l), 2); (zdrop 35 l, 3)].
Definition example_answer : list TcpConnection.action :=
  match HttpServer.onRequest HttpServer.defaultHttpCallback (parsed 2 example_request example_headers) with
  | Ok a => a | Fail _ => [] end.

Lemma example_request_ok : line_ok example_request.
Proof.
  unfold line_ok. split_and!; try done; try (apply (bool_decide_unpack _); vm_compute; exact I).
  right. eexists. reflexivity.
Qed.
Lemma example_headers_ok : Forall header_ok example_headers.
Proof. apply (bool_decide_unpack _). vm_compute. exact I. Qed.

Definition example_full : Buffer.Buffer :=
  match Buffer.append example_buffer (request_text example_request example_headers) with
  | Ok b => b | Fail _ => example_buffer end.

Lemma parseRequest_terminates_witness :
  wf example_full ∧ is_Some (parseRequest (enough example_full) HttpContext.make example_full 7).
Proof.
  assert (wf example_full) as Hw by (vm_compute; intuition discriminate).
  split; [exact Hw|]. exact (parseRequest_terminates HttpContext.make example_full 7 Hw).
Defined.

Lemma request_roundtrip_witness :
  ∃ b', parseRequest (enough example_full) HttpContext.make example_full 7 =
    Some (Ok (mkHttpContext kGotAll (parsed 7 example_request example_headers), b', true)) ∧ content b' = [].
Proof.
  apply (request_roundtrip example_request example_headers [] example_full 7);
    [exact example_request_ok|exact example_headers_ok|vm_compute; intuition discriminate|vm_compute; reflexivity].
Defined.

Lemma http_fragmentation_witness :
  ends_well (λ '(c, b', acts), c = HttpContext.make ∧ content b' = [] ∧
               ∃ t, t ∈ snd <$> example_pieces ∧ acts = example_answer)
    (serve HttpServer.defaultHttpCallback example_pieces HttpContext.make example_buffer).
Proof.
  apply (http_fragmentation HttpServer.defaultHttpCallback example_request example_headers (λ _, example_answer)).
  - intros t. vm_compute. reflexivity.
  - exact example_request_ok.
  - exact example_headers_ok.
  - repeat constructor; vm_compute; discriminate.
  - vm_compute. reflexivity.
  - vm_compute. intuition discriminate.
  - vm_compute. reflexivity.
Defined.

Definition example_bad : bytes := Channel.str "GET / HTTP/2.0".
Definition example_refused : Buffer.Buffer :=
  match Buffer.append example_buffer (example_bad ++ Buffer.kCRLF) with Ok b => b | Fail _ => example_buffer end.

Lemma refused_request_aborts_witness :
  ∃ c' b', HttpServer.onMessage HttpServer.defaultHttpCallback HttpContext.make example_refused 1 =
      Some (Ok (c', b', [TcpConnection.Send HttpServer.bad_request; TcpConnection.Shutdown])) ∧
    ∀ b2 more t2, wf b2 → content b2 = content b' ++ more →
      HttpServer.onMessage HttpServer.defaultHttpCallback c' b2 t2 = Some (Fail AssertFailed).
Proof.
  destruct (processRequestLine example_bad HttpRequest.make) as [[r []]|] eqn:E; try (vm_compute in E; discriminate E).
  apply (refused_request_aborts HttpServer.defaultHttpCallback example_bad [] r example_refused 1).
  - vm_compute. intuition discriminate.
  - vm_compute. reflexivity.
  - apply (bool_decide_unpack _). vm_compute. exact I.
  - exact E.
  - vm_compute in E. injection E as <-. discriminate.
Defined.

Definition example_response : HttpResponse.HttpResponse :=
  HttpResponse.setBody (Channel.str "hello") (HttpResponse.setContentType (Channel.str "text/plain")
    (HttpResponse.setStatusMessage (Channel.str "OK") (HttpResponse.setStatusCode HttpResponse.k200Ok (HttpResponse.make false)))).

Lemma response_roundtrip_witness :
  ∃ b', HttpResponse.appendToBuffer example_response example_buffer = Ok b' ∧
    read_head 5 (content b') = Some (first_line example_response :: header_lines example_response, Channel.str "hello").
Proof.
  assert (response_ok example_response) as Hok.
  { unfold response_ok. split; [split; [discriminate|reflexivity]|]. split; [reflexivity|].
    split; [vm_compute; discriminate|].
    split; [apply (bool_decide_unpack _); vm_compute; exact I|].
    apply Forall_singleton. split_and!; [vm_compute; discriminate..| |];
      apply (bool_decide_unpack _); vm_compute; exact I. }
  pose proof (response_roundtrip example_response example_buffer [] ltac:(vm_compute; intuition discriminate)
    ltac:(vm_compute; reflexivity) Hok) as H.
  destruct (HttpResponse.appendToBuffer example_response example_buffer) as [b'|f] eqn:E;
    [|vm_compute in E; discriminate E].
  exists b'. split; [reflexivity|]. destruct H as [H _]. rewrite !app_nil_r in H. exact H.
Defined.
End HttpFacts.
