(* ===== verification/Codec.v ===== *)
(** * ProtobufCodecLite ([net/protobuf/ProtobufCodecLite.h], [.cc])

    The wire format size / tag / payload / checksum: encoding into a buffer and
    the receive loop with its error codes. Protocol buffers are a class
    ([Message]) with the one law the codec relies on, and [adler32] of zlib is a
    parameter. *)

From stdpp Require Import sets.
From S2P Require Import Prelude Endian Format StringPiece NetBuffer Channel TcpConnection.

Module ProtobufCodecLite.
Import Endian Buffer(Buffer, content, wf).

(** [google::protobuf::Message]: the bytes of a message, and parsing. *)
Class Message (M : Type) := {
  SerializeToArray : M → bytes;
  ParseFromArray : bytes → option M
}.
(** Parsing the serialised form gives the message back. *)
Class MessageLaws (M : Type) `{Message M} := {
  ParseFromArray_Serialize : ∀ m, ParseFromArray (SerializeToArray m) = Some m
}.

Definition kHeaderLen : Z := 4.
Definition kChecksumLen : Z := 4.
Definition kMaxMessageLen : Z := 64 * 1024 * 1024.

Inductive ErrorCode :=
  | kNoError | kInvalidLength | kCheckSumError | kInvalidNameLen | kUnknownMessageType | kParseError.
#[global] Instance ErrorCode_eq_dec : EqDecision ErrorCode.
Proof. solve_decision. Defined.

Definition errorCodeToString (errorCode : ErrorCode) : bytes :=
  Channel.str match errorCode with
  | kNoError => "NoError"
  | kInvalidLength => "InvalidLength"
  | kCheckSumError => "CheckSumError"
  | kInvalidNameLen => "InvalidNameLen"
  | kUnknownMessageType => "UnknownMessageType"
  | kParseError => "ParseError"
  end.

(** [defaultErrorCallback]: the calls on the connection, if there is one. *)
Definition defaultErrorCallback (connected : bool) (_ : ErrorCode) : list TcpConnection.action :=
  if connected then [TcpConnection.Shutdown] else [].

Section codec.
Context `{Host} {M : Type} `{Message M}.
(** zlib's [adler32(1, buf, len)]. *)
Context (adler32 : bytes → Z).

Record ProtobufCodecLite := mkCodec {
  tag_ : bytes;
  rawCb_ : option (bytes → bool);
  kMinMessageLen : Z
}.
Definition make (tag : bytes) (rawCb : option (bytes → bool)) : result ProtobufCodecLite :=
  n ← sint 32 (zlen tag + kChecksumLen);
  Ok (mkCodec tag rawCb n).

Definition asInt32 (buf : bytes) : Z :=
  let be32 := s32 (obj_val (ztake 4 buf)) in s32 (networkToHost32 (u32 be32)).

Definition checksum (buf : bytes) : Z := s32 (adler32 buf).

(** [buf] is the [len] bytes the pointer points at. *)
Definition validateChecksum (buf : bytes) : bool :=
  let len := zlen buf in
  let expectedCheckSum := asInt32 (zdrop (len - kChecksumLen) buf) in
  let checkSum := checksum (ztake (len - kChecksumLen) buf) in
  checkSum =? expectedCheckSum.

Definition parseFromBuffer (buf : bytes) : option M := ParseFromArray buf.

Definition parse (c : ProtobufCodecLite) (buf : bytes) : ErrorCode * option M :=
  let len := zlen buf in
  if validateChecksum buf
  then
    if bool_decide (ztake (zlen (tag_ c)) buf = tag_ c)
    then
      let dataLen := len - kChecksumLen - zlen (tag_ c) in
      match parseFromBuffer (ztake dataLen (zdrop (zlen (tag_ c)) buf)) with
      | Some m => (kNoError, Some m)
      | None => (kParseError, None)
      end
    else (kUnknownMessageType, None)
  else (kCheckSumError, None).

(** ** Sending *)

Definition serializeToBuffer (message : M) (buf : Buffer) : result (Buffer * Z) :=
  byte_size ← sint 32 (zlen (SerializeToArray message));
  n ← sint 32 (byte_size + kChecksumLen);
  buf ← Buffer.ensureWritableBytes buf (u64 n);
  v ← vec_write (Buffer.buffer_ buf) (Buffer.beginWrite buf) (SerializeToArray message);
  buf ← Buffer.hasWritten (Buffer.mkBuffer v (Buffer.readerIndex_ buf) (Buffer.writerIndex_ buf)) (u64 byte_size);
  Ok (buf, byte_size).

Definition fillEmptyBuffer (c : ProtobufCodecLite) (buf : Buffer) (message : M) : result Buffer :=
  _ ← check (Buffer.readableBytes buf =? 0);
  buf ← Buffer.append buf (tag_ c);
  '(buf, byte_size) ← serializeToBuffer message buf;
  data ← vec_read (Buffer.buffer_ buf) (Buffer.peek buf) (s32 (Buffer.readableBytes buf));
  let checkSum := checksum data in
  buf ← Buffer.appendInt32 buf checkSum;
  _ ← check (Buffer.readableBytes buf =? u64 (zlen (tag_ c) + byte_size + kChecksumLen));
  let len := s32 (hostToNetwork32 (u32 (s32 (Buffer.readableBytes buf)))) in
  Buffer.prepend buf (obj_bytes 4 (u32 len)).

Definition send (c : ProtobufCodecLite) (message : M) : result (list TcpConnection.action) :=
  buf ← Buffer.make Buffer.kInitialSize;
  buf ← fillEmptyBuffer c buf message;
  Ok [TcpConnection.SendBuffer buf].

(** ** Receiving *)

(** What the loop of [onMessage] reports. *)
Inductive report := Received (m : M) | Skipped (raw : bytes) | Refused (e : ErrorCode).

(** One round: the buffer, what was reported, and whether the loop goes on. *)
Definition receive_round (c : ProtobufCodecLite) (buf : Buffer) : result (Buffer * list report * bool) :=
  if u32 (kMinMessageLen c + kHeaderLen) <=? Buffer.readableBytes buf
  then
    len ← Buffer.peekInt32 buf;
    if (kMaxMessageLen <? len) || (len <? kMinMessageLen c)
    then Ok (buf, [Refused kInvalidLength], false)
    else if kHeaderLen + len <=? Buffer.readableBytes buf
    then
      raw ← vec_read (Buffer.buffer_ buf) (Buffer.peek buf) (kHeaderLen + len);
      if match rawCb_ c with Some cb => negb (cb raw) | None => false end
      then buf ← Buffer.retrieve buf (kHeaderLen + len); Ok (buf, [Skipped raw], true)
      else
        match parse c (zdrop kHeaderLen raw) with
        | (kNoError, Some m) =>
            buf ← Buffer.retrieve buf (kHeaderLen + len);
            Ok (buf, [Received m], true)
        | (errorCode, _) => Ok (buf, [Refused errorCode], false)
        end
    else Ok (buf, [], false)
  else Ok (buf, [], false).

(** The loop, with fuel; [None] when it does not end in that many rounds. *)
Fixpoint receive_loop (fuel : nat) (c : ProtobufCodecLite) (buf : Buffer) :
    option (result (Buffer * list report)) :=
  match fuel with
  | O => None
  | S fuel =>
      match receive_round c buf with
      | Fail f => Some (Fail f)
      | Ok (buf, rs, true) =>
          match receive_loop fuel c buf with
          | Some (Ok (buf, rs')) => Some (Ok (buf, rs ++ rs'))
          | r => r
          end
      | Ok (buf, rs, false) => Some (Ok (buf, rs))
      end
  end.

(** Every round that goes on takes at least a header off the buffer. *)
Definition enough (buf : Buffer) : nat := S (Z.to_nat (Buffer.readableBytes buf)).
Definition onMessage (c : ProtobufCodecLite) (buf : Buffer) : option (result (Buffer * list report)) :=
  receive_loop (enough buf) c buf.
End codec.
Arguments Received {M} m.
Arguments Skipped {M} raw.
Arguments Refused {M} e.

(** ** The wire format *)
Section facts.
Context {Hhost : Host} {M : Type} {Hmsg : Message M} {Hlaws : MessageLaws M}.
Context (adler32 : bytes → Z) (c : ProtobufCodecLite).
Hypothesis Hmin : kMinMessageLen c = zlen (tag_ c) + kChecksumLen.
Hypothesis Htag : zlen (tag_ c) ≤ 1024.

Definition body (m : M) : bytes := tag_ c ++ SerializeToArray m.
Definition body_len (m : M) : Z := zlen (body m) + kChecksumLen.
Definition frame (m : M) : bytes :=
  be_bytes 4 (body_len m) ++ body m ++ be_bytes 4 (checksum adler32 (body m)).

Lemma zlen_be_bytes n x : zlen (be_bytes n x) = Z.of_nat n.
Proof. unfold zlen. by rewrite length_be_bytes. Qed.

Lemma body_len_min m : kMinMessageLen c ≤ body_len m.
Proof.
  rewrite Hmin. unfold body_len, body. rewrite zlen_app. pose proof (zlen_nonneg (SerializeToArray m)). lia.
Qed.

Lemma zlen_frame m : zlen (frame m) = kHeaderLen + body_len m.
Proof. unfold frame, body_len, kHeaderLen, kChecksumLen. rewrite !zlen_app, !zlen_be_bytes. lia. Qed.

Lemma checksum_range d : in_s 32 (checksum adler32 d).
Proof. apply wraps_range. lia. Qed.

Lemma asInt32_be x : in_s 32 x → asInt32 (be_bytes 4 x) = x.
Proof.
  intros Hx. unfold asInt32. rewrite ztake_all by (rewrite zlen_be_bytes; lia).
  unfold networkToHost32. rewrite Buffer.be_peek_val by (done || apply length_be_bytes).
  by apply (Buffer.be_val_of_bytes 4 32).
Qed.

(** [parse] accepts what a frame carries. *)
Lemma parse_frame m :
  parse adler32 c (body m ++ be_bytes 4 (checksum adler32 (body m))) = (kNoError, Some m).
Proof.
  unfold parse, validateChecksum. set (s := be_bytes 4 _). rewrite zlen_app.
  assert (zlen s = 4) as Hs by apply zlen_be_bytes.
  replace (zlen (body m) + zlen s - kChecksumLen) with (zlen (body m)) by (unfold kChecksumLen; lia).
  rewrite zdrop_app_exact, ztake_app_exact by done. unfold s.
  rewrite asInt32_be by apply checksum_range. rewrite Z.eqb_refl. fold s.
  unfold body. rewrite <- app_assoc, ztake_app_exact by done. rewrite bool_decide_true by done.
  rewrite zdrop_app_exact by done. rewrite zlen_app.
  replace (zlen (tag_ c) + zlen (SerializeToArray m) - zlen (tag_ c)) with (zlen (SerializeToArray m)) by lia.
  rewrite ztake_app_exact by done. unfold parseFromBuffer. by rewrite ParseFromArray_Serialize.
Qed.

(** ** Sending *)

Lemma serializeToBuffer_safe m b :
  wf b → zlen (SerializeToArray m) + kChecksumLen < 2 ^ 31 →
  safe (λ r, wf r.1 ∧ content r.1 = content b ++ SerializeToArray m ∧ r.2 = zlen (SerializeToArray m) ∧
             Z.min Buffer.kCheapPrepend (Buffer.prependableBytes b) ≤ Buffer.prependableBytes r.1)
    (serializeToBuffer m b).
Proof.
  intros Hb Hn. unfold serializeToBuffer. set (d := SerializeToArray m) in *. pose proof (zlen_nonneg d).
  unfold kChecksumLen in *. rewrite !sint_Ok, bind_Ok by (unfold in_s; lia). rewrite sint_Ok, bind_Ok by (unfold in_s; lia).
  rewrite !wrapu_small by (unfold in_u; lia).
  eapply safe_bind; [apply Buffer.ensureWritableBytes_safe; [done|unfold vec_max_size; lia]|].
  intros b1 (Hb1 & Hc1 & Hw1 & Hp1).
  rewrite vec_write_Ok by (rewrite Buffer.writable_wf in Hw1 by done; Buffer.buf; lia). rewrite bind_Ok.
  destruct (Buffer.hasWritten_ok b1 d) as (b2 & E & Hb2 & Hc2 & Hp2 & _); [done|lia|].
  unfold Buffer.beginWrite. rewrite E, bind_Ok. cbn. rewrite Hc2, Hc1, Hp2. auto.
Qed.

(** A fresh buffer receives exactly one frame. *)
Lemma fillEmptyBuffer_safe m b :
  wf b → content b = [] → 8 ≤ Buffer.prependableBytes b → body_len m < 2 ^ 31 →
  safe (λ b', wf b' ∧ content b' = frame m) (fillEmptyBuffer adler32 c b m).
Proof.
  intros Hb Hc Hp Hn. unfold fillEmptyBuffer. unfold body_len, body in Hn. rewrite zlen_app in Hn.
  pose proof (zlen_nonneg (SerializeToArray m)). pose proof (zlen_nonneg (tag_ c)). unfold kChecksumLen in *.
  rewrite check_true by (rewrite <- Buffer.zlen_content, Hc by done; done). rewrite bind_Ok.
  eapply safe_bind; [apply Buffer.append_headroom; [done|unfold vec_max_size; lia]|].
  intros b1 (Hb1 & Hc1 & Hp1). rewrite Hc in Hc1. cbn [app] in Hc1.
  eapply safe_bind; [apply serializeToBuffer_safe; [done|unfold kChecksumLen; lia]|].
  intros [b2 n] (Hb2 & Hc2 & Hn2 & Hp2). cbn [fst snd] in *. subst n. rewrite Hc1 in Hc2. fold (body m) in Hc2.
  pose proof (Buffer.zlen_content b2 Hb2) as Hz. rewrite Hc2 in Hz. unfold body in Hz. rewrite zlen_app in Hz.
  rewrite wraps_small by (unfold in_s; lia). rewrite Buffer.read_content, bind_Ok by (done || lia).
  rewrite <- (Buffer.zlen_content b2), ztake_all, Hc2 by done. rewrite Buffer.appendInt32_bytes.
  eapply safe_bind; [apply Buffer.append_headroom; [done|rewrite zlen_be_bytes; done]|].
  intros b3 (Hb3 & Hc3 & Hp3). rewrite Hc2 in Hc3.
  pose proof (Buffer.zlen_content b3 Hb3) as Hz3. rewrite Hc3, zlen_app, zlen_be_bytes in Hz3.
  unfold body in Hz3. rewrite zlen_app in Hz3. change (Z.of_nat 4) with 4 in Hz3.
  rewrite (wrapu_small 64) by (unfold in_u; lia).
  rewrite check_true, bind_Ok by (apply Z.eqb_eq; lia). cbv zeta.
  unfold hostToNetwork32. rewrite (wraps_small 32 (Buffer.readableBytes b3)) by (unfold in_s; lia).
  rewrite Buffer.be_append_bytes by done. 
  unfold Buffer.kCheapPrepend in *.
  destruct (Buffer.prepend_ok b3 (be_bytes 4 (Buffer.readableBytes b3))) as (b4 & -> & Hb4 & Hc4);
    [done|rewrite zlen_be_bytes; lia|].
  cbn [safe]. split; [done|]. rewrite Hc4, Hc3. unfold frame. do 2 f_equal. unfold body_len, body, kChecksumLen.
  rewrite zlen_app. lia.
Qed.

(** ** Receiving, on byte strings *)

Definition frame_len (l : bytes) : Z := s32 (be_val (ztake 4 l)).

Definition pure_round (l : bytes) : bytes * list (report (M := M)) * bool :=
  if kMinMessageLen c + kHeaderLen <=? zlen l
  then
    let len := frame_len l in
    if (kMaxMessageLen <? len) || (len <? kMinMessageLen c) then (l, [Refused kInvalidLength], false)
    else if kHeaderLen + len <=? zlen l
    then
      let raw := ztake (kHeaderLen + len) l in
      let rest := zdrop (kHeaderLen + len) l in
      if match rawCb_ c with Some cb => negb (cb raw) | None => false end then (rest, [Skipped raw], true)
      else
        match parse adler32 c (zdrop kHeaderLen raw) with
        | (kNoError, Some m) => (rest, [Received m], true)
        | (errorCode, _) => (l, [Refused errorCode], false)
        end
    else (l, [], false)
  else (l, [], false).

Lemma codec_round_refines b :
  wf b →
  let '(l', rs, more) := pure_round (content b) in
  ∃ b', receive_round adler32 c b = Ok (b', rs, more) ∧ wf b' ∧ content b' = l'.
Proof.
  intros Hb. pose proof (Buffer.zlen_content b Hb) as Hz. pose proof (zlen_nonneg (tag_ c)).
  unfold receive_round, pure_round. rewrite wrapu_small by (unfold in_u, kHeaderLen, kChecksumLen in *; lia).
  rewrite <- Hz. destruct (Z.leb_spec (kMinMessageLen c + kHeaderLen) (zlen (content b))) as [Hlen|Hlen]; [|eauto].
  assert (4 ≤ zlen (content b)) as H4 by (unfold kHeaderLen, kChecksumLen in *; lia).
  assert (Buffer.peekInt32 b = Ok (frame_len (content b))) as ->.
  { apply (Buffer.peekInt_content 4 b (ztake 4 (content b)) (zdrop 4 (content b))).
    - unfold Buffer.int_width. auto.
    - done.
    - by rewrite ztake_zdrop.
    - pose proof (zlen_ztake 4 (content b) ltac:(lia)) as E. unfold zlen in E. lia. }
  rewrite bind_Ok. cbv zeta. set (len := frame_len (content b)).
  destruct ((kMaxMessageLen <? len) || (len <? kMinMessageLen c)) eqn:Ebad; [eauto|].
  apply orb_false_iff in Ebad as [Hmax Hmin2]. apply Z.ltb_ge in Hmax. apply Z.ltb_ge in Hmin2.
  destruct (Z.leb_spec (kHeaderLen + len) (zlen (content b))) as [Hfull|Hfull]; [|eauto].
  rewrite Buffer.read_content, bind_Ok by (done || (unfold kHeaderLen, kChecksumLen in *; lia)).
  set (raw := ztake (kHeaderLen + len) (content b)).
  destruct (Buffer.retrieve_ok b (kHeaderLen + len)) as (b' & Er & Hb' & Hc');
    [done|unfold kHeaderLen, kChecksumLen in *; lia|].
  rewrite Er. destruct (match rawCb_ c with Some cb => negb (cb raw) | None => false end); [rewrite bind_Ok; eauto|].
  destruct (parse adler32 c (zdrop kHeaderLen raw)) as [[] [m|]]; rewrite ?bind_Ok; eauto.
Qed.

Fixpoint pure_receive (fuel : nat) (l : bytes) : option (bytes * list (report (M := M))) :=
  match fuel with
  | O => None
  | S fuel =>
      match pure_round l with
      | (l, rs, true) => match pure_receive fuel l with Some (l, rs') => Some (l, rs ++ rs') | None => None end
      | (l, rs, false) => Some (l, rs)
      end
  end.

Lemma receive_refines fuel : ∀ b,
  wf b →
  match pure_receive fuel (content b) with
  | None => receive_loop adler32 fuel c b = None
  | Some (l', rs) => ∃ b', receive_loop adler32 fuel c b = Some (Ok (b', rs)) ∧ wf b' ∧ content b' = l'
  end.
Proof.
  induction fuel as [|fuel IH]; intros b Hb; [done|]. cbn [pure_receive receive_loop].
  pose proof (codec_round_refines b Hb) as Hr. destruct (pure_round (content b)) as [[l' rs] more].
  destruct Hr as (b' & -> & Hb' & <-). destruct more; [|eauto].
  specialize (IH b' Hb'). destruct (pure_receive fuel (content b')) as [[l2 rs2]|]; [|by rewrite IH].
  destruct IH as (b2 & -> & ? & ?). eauto.
Qed.

(** A round that goes on consumes a header at least. *)
Lemma round_consumes l l' rs : pure_round l = (l', rs, true) → (length l' < length l)%nat.
Proof.
  unfold pure_round. pose proof (zlen_nonneg (tag_ c)).
  destruct (Z.leb_spec (kMinMessageLen c + kHeaderLen) (zlen l)) as [Hlen|]; [|done]. cbv zeta.
  destruct ((kMaxMessageLen <? frame_len l) || (frame_len l <? kMinMessageLen c)) eqn:Ebad; [done|].
  apply orb_false_iff in Ebad as [_ Hmin2]. apply Z.ltb_ge in Hmin2.
  destruct (Z.leb_spec (kHeaderLen + frame_len l) (zlen l)) as [Hfull|]; [|done].
  assert (length (zdrop (kHeaderLen + frame_len l) l) < length l)%nat as Hsh.
  { unfold zdrop, kHeaderLen, kChecksumLen in *. rewrite length_drop. unfold zlen in *. lia. }
  case_match; [by intros [= <- _]|]. destruct (parse _ _ _) as [[] [m|]]; try done. by intros [= <- _].
Qed.

Lemma receive_total fuel : ∀ l, (length l < fuel)%nat → is_Some (pure_receive fuel l).
Proof.
  induction fuel as [|fuel IH]; intros l Hl; [lia|]. cbn.
  destruct (pure_round l) as [[l' rs] []] eqn:E; [|by eauto].
  apply round_consumes in E. destruct (IH l') as [[? ?] ->]; [lia|]. by eauto.
Qed.

Lemma onMessage_spec b :
  wf b → ∃ l' rs b', pure_receive (S (length (content b))) (content b) = Some (l', rs) ∧
    onMessage adler32 c b = Some (Ok (b', rs)) ∧ wf b' ∧ content b' = l'.
Proof.
  intros Hb. unfold onMessage.
  assert (enough b = S (length (content b))) as ->.
  { unfold enough. rewrite <- Buffer.zlen_content by done. unfold zlen. by rewrite Nat2Z.id. }
  destruct (receive_total (S (length (content b))) (content b)) as [[l' rs] E]; [lia|].
  pose proof (receive_refines (S (length (content b))) b Hb) as Hr. rewrite E in Hr.
  destruct Hr as (b' & ? & ? & ?). eauto 10.
Qed.

(** ** A stream of frames *)

Definition fits (m : M) : Prop := body_len m ≤ kMaxMessageLen.
Definition accepts_all : Prop := match rawCb_ c with Some cb => ∀ r, cb r = true | None => True end.
Definition stream (ms : list M) : bytes := concat (frame <$> ms).

Lemma frame_len_frame m k :
  body_len m < 2 ^ 31 → frame_len (be_bytes 4 (body_len m) ++ k) = body_len m.
Proof.
  intros Hm. unfold frame_len. rewrite ztake_app_exact by apply zlen_be_bytes.
  apply (Buffer.be_val_of_bytes 4 32); [done|done|]. pose proof (body_len_min m). pose proof (zlen_nonneg (tag_ c)).
  unfold in_s, kChecksumLen in *. lia.
Qed.

Lemma round_frame m k :
  accepts_all → fits m → pure_round (frame m ++ k) = (k, [Received m], true).
Proof.
  intros Hraw Hfit. unfold fits in Hfit. pose proof (body_len_min m) as Hge. pose proof (zlen_nonneg k).
  unfold pure_round. rewrite zlen_app, zlen_frame. rewrite (proj2 (Z.leb_le _ _)) by lia. cbv zeta.
  assert (frame_len (frame m ++ k) = body_len m) as ->.
  { unfold frame. rewrite <- app_assoc. apply frame_len_frame. unfold kMaxMessageLen in Hfit. lia. }
  rewrite (proj2 (Z.ltb_ge _ _)), (proj2 (Z.ltb_ge _ _)) by lia. cbn [orb].
  rewrite (proj2 (Z.leb_le _ _)) by lia. rewrite ztake_app_exact, zdrop_app_exact by apply zlen_frame.
  assert (match rawCb_ c with Some cb => negb (cb (frame m)) | None => false end = false) as ->.
  { unfold accepts_all in Hraw. destruct (rawCb_ c) as [cb|]; [by rewrite Hraw|done]. }
  unfold frame at 1. unfold kHeaderLen. rewrite zdrop_app_exact by apply zlen_be_bytes. by rewrite parse_frame.
Qed.

(** A proper prefix of a frame is left alone. *)
Lemma round_partial m l k :
  fits m → l ++ k = frame m → k ≠ [] → pure_round l = (l, [], false).
Proof.
  intros Hfit E Hk. unfold pure_round. pose proof (zlen_frame m) as Hz. rewrite <- E, zlen_app in Hz.
  assert (0 < zlen k) as Hkp.
  { pose proof (zlen_nonneg k). destruct (Z.eq_dec (zlen k) 0) as [Ek|]; [|lia]. by apply zlen_zero_inv in Ek. }
  destruct (Z.leb_spec (kMinMessageLen c + kHeaderLen) (zlen l)) as [Hlen|]; [|done]. cbv zeta.
  pose proof (zlen_nonneg (tag_ c)). pose proof (body_len_min m) as Hge. unfold fits in Hfit.
  assert (frame_len l = body_len m) as ->.
  { assert (frame_len l = frame_len (l ++ k)) as ->.
    { unfold frame_len. rewrite ztake_app_le; [done|]. unfold kHeaderLen, kChecksumLen in *. lia. }
    rewrite E. unfold frame. apply frame_len_frame. unfold kMaxMessageLen in Hfit. lia. }
  rewrite (proj2 (Z.ltb_ge _ _)), (proj2 (Z.ltb_ge _ _)) by lia. cbn [orb].
  by rewrite (proj2 (Z.leb_gt _ _)) by lia.
Qed.

Lemma receive_stream ms : ∀ l k fuel,
  accepts_all → Forall fits ms → l ++ k = stream ms → (length l < fuel)%nat →
  ∃ ms1 ms2 l', ms = ms1 ++ ms2 ∧ pure_receive fuel l = Some (l', Received <$> ms1) ∧ l' ++ k = stream ms2.
Proof.
  induction ms as [|m ms IH]; intros l k [|fuel] Hraw Hfit E Hf; try lia.
  { apply app_eq_nil in E as [-> ->]. exists [], [], []. split_and!; try done. cbn. unfold pure_round.
    rewrite (proj2 (Z.leb_gt _ _)); [done|]. pose proof (zlen_nonneg (tag_ c)).
    unfold kHeaderLen, kChecksumLen in *. change (zlen []) with 0. lia. }
  apply Forall_cons in Hfit as [Hm Hms]. change (stream (m :: ms)) with (frame m ++ stream ms) in E.
  apply List.app_eq_app in E as [x [[-> Ek]|[Efr ->]]].
  - destruct (IH x k fuel) as (ms1 & ms2 & l' & -> & Er & El); try done.
    { rewrite length_app in Hf. pose proof (zlen_frame m) as Hz. pose proof (body_len_min m).
      pose proof (zlen_nonneg (tag_ c)). unfold zlen, kHeaderLen, kChecksumLen in *. lia. }
    exists (m :: ms1), ms2, l'. split_and!; [done| |done]. cbn [pure_receive].
    rewrite round_frame by done. by rewrite Er.
  - destruct (decide (x = [])) as [->|Hx].
    + rewrite app_nil_r in Efr. subst l. cbn [app].
      destruct (IH [] (stream ms) fuel) as (ms1 & ms2 & l' & -> & Er & El); try done.
      { pose proof (zlen_frame m) as Hz. pose proof (body_len_min m). pose proof (zlen_nonneg (tag_ c)).
        unfold zlen, kHeaderLen, kChecksumLen in *. cbn. lia. }
      exists (m :: ms1), ms2, l'. split_and!; [done| |done]. cbn [pure_receive].
      rewrite <- (app_nil_r (frame m)), round_frame by done. by rewrite Er.
    + exists [], (m :: ms), l. split_and!; [done| |].
      * cbn [pure_receive]. by rewrite (round_partial m l x) by done.
      * change (stream (m :: ms)) with (frame m ++ stream ms). by rewrite Efr, app_assoc.
Qed.

(** Where the loop stops, another round would stop too. *)
Lemma receive_stops l fuel : ∀ l' rs,
  pure_receive fuel l = Some (l', rs) → ∃ rs', pure_round l' = (l', rs', false).
Proof.
  revert l. induction fuel as [|fuel IH]; intros l l' rs; [done|]. cbn.
  destruct (pure_round l) as [[l1 rs1] []] eqn:E.
  - destruct (pure_receive fuel l1) as [[l2 rs2]|] eqn:E2; [|done]. intros [= <- _]. by eapply IH.
  - intros [= <- <-]. assert (l1 = l) as ->; [|by eauto]. revert E. unfold pure_round.
    repeat case_match; by intros [= <- _].
Qed.

(** Each piece is read into the input buffer, then [onMessage] runs. *)
Fixpoint feed (pieces : list bytes) (b : Buffer) : option (result (Buffer * list (report (M := M)))) :=
  match pieces with
  | [] => Some (Ok (b, []))
  | d :: pieces =>
      match Buffer.append b d with
      | Fail f => Some (Fail f)
      | Ok b =>
          match onMessage adler32 c b with
          | Some (Ok (b, rs)) =>
              match feed pieces b with
              | Some (Ok (b, rs')) => Some (Ok (b, rs ++ rs'))
              | r => r
              end
          | r => r
          end
      end
  end.

Lemma feed_stream pieces : ∀ b ms,
  accepts_all → Forall fits ms → Forall TcpConnection.message_ok pieces →
  wf b → content b ++ concat pieces = stream ms → (pieces = [] → ms = []) →
  ends_well (λ '(b', rs), content b' = [] ∧ rs = Received <$> ms) (feed pieces b).
Proof.
  induction pieces as [|d pieces IH]; intros b ms Hraw Hfit Hok Hb E Hne.
  { rewrite (Hne eq_refl) in *. cbn in E. rewrite app_nil_r in E. done. }
  apply Forall_cons in Hok as [Hd Hok]. cbn [feed concat] in *.
  pose proof (Buffer.append_headroom b d Hb Hd) as Ha. destruct (Buffer.append b d) as [b1|f]; [|done].
  destruct Ha as (Hb1 & Hc1 & _). rewrite app_assoc, <- Hc1 in E.
  destruct (onMessage_spec b1 Hb1) as (l' & rs & b2 & Er & -> & Hb2 & Hc2).
  destruct (receive_stream ms (content b1) (concat pieces) _ Hraw Hfit E (Nat.lt_succ_diag_r _))
    as (ms1 & ms2 & l2 & -> & Er2 & El).
  rewrite Er2 in Er. injection Er as -> <-. apply Forall_app in Hfit as [_ Hfit2].
  destruct (decide (pieces = [])) as [->|Hpn].
  - cbn [concat] in El. rewrite app_nil_r in El. cbn [feed ends_well safe].
    destruct ms2 as [|m ms2]; [by rewrite Hc2, El, !app_nil_r|]. exfalso.
    (* a complete frame was left in the buffer *)
    destruct (receive_stops (content b1) (S (length (content b1))) _ _ Er2) as [rs' Hstop].
    rewrite El in Hstop. change (stream (m :: ms2)) with (frame m ++ stream ms2) in Hstop.
    apply Forall_cons in Hfit2 as [Hm _]. by rewrite round_frame in Hstop.
  - specialize (IH b2 ms2 Hraw Hfit2 Hok Hb2 ltac:(by rewrite Hc2) ltac:(done)).
    destruct (feed pieces b2) as [[[b3 rs3]|f]|]; [|done|done]. destruct IH as [? ->].
    cbn. split; [done|]. by rewrite fmap_app.
Qed.

(** What [send] puts on the wire for a message. *)
Definition encodes (m : M) (d : bytes) : Prop :=
  ∃ b0 b1, Buffer.make Buffer.kInitialSize = Ok b0 ∧ fillEmptyBuffer adler32 c b0 m = Ok b1 ∧ d = content b1.

Lemma encodes_frame m d : encodes m d → body_len m < 2 ^ 31 → d = frame m.
Proof.
  intros (b0 & b1 & E0 & E1 & ->) Hm.
  destruct (Buffer.make_ok Buffer.kInitialSize) as (b & Eb & Hb & Hc & _ & Hp); [done|done|].
  rewrite E0 in Eb. injection Eb as ->. pose proof (fillEmptyBuffer_safe m b Hb Hc) as Hs. rewrite E1 in Hs.
  apply Hs; [rewrite Hp; done|done].
Qed.

Lemma encodes_stream ms ds : Forall fits ms → Forall2 encodes ms ds → concat ds = stream ms.
Proof.
  intros Hfit. induction 1 as [|m d ms ds Hm _ IH]; [done|]. apply Forall_cons in Hfit as [Hf Hfit].
  cbn [concat]. rewrite IH by done. change (stream (m :: ms)) with (frame m ++ stream ms). f_equal.
  apply encodes_frame; [done|]. unfold fits, kMaxMessageLen in Hf. lia.
Qed.

(** C11: End to end: the messages of any sequence, each of them within the limit of
    64 MiB ([fits]), encoded one by one, sent as one stream and received in pieces cut
    anywhere, are delivered completely, in order and without error, and nothing is
    left in the buffer. *)
Theorem codec_roundtrip ms ds pieces b :
  accepts_all → Forall fits ms → Forall2 encodes ms ds → concat pieces = concat ds →
  Forall TcpConnection.message_ok pieces → wf b → content b = [] →
  ends_well (λ '(b', rs), content b' = [] ∧ rs = Received <$> ms) (feed pieces b).
Proof.
  intros Hraw Hfit Henc Hcat Hok Hb Hc. apply feed_stream; try done.
  - by rewrite Hc, Hcat, (encodes_stream ms ds).
  - intros ->. destruct ms as [|m ms]; [done|]. exfalso. rewrite (encodes_stream _ _ Hfit Henc) in Hcat.
    symmetry in Hcat. change (stream (m :: ms)) with (frame m ++ stream ms) in Hcat.
    apply app_eq_nil in Hcat as [Hf _]. pose proof (zlen_frame m) as Hz. rewrite Hf in Hz.
    pose proof (body_len_min m). pose proof (zlen_nonneg (tag_ c)).
    unfold kHeaderLen, kChecksumLen in *. change (zlen []) with 0 in Hz. lia.
Qed.

(** ** What is delivered was sent *)

(** A payload with its size, tag and checksum. *)
Definition raw_frame (p : bytes) : bytes :=
  be_bytes 4 (zlen (tag_ c ++ p) + kChecksumLen) ++ (tag_ c ++ p) ++ be_bytes 4 (checksum adler32 (tag_ c ++ p)).

Lemma be_bytes_s32 l : length l = 4%nat → be_bytes 4 (s32 (be_val l)) = l.
Proof.
  intros Hl. rewrite <- (be_bytes_val 4 l Hl) at 2. unfold be_bytes.
  rewrite <- (le_bytes_mod 4 (s32 (be_val l))), <- (le_bytes_mod 4 (be_val l)).
  change (256 ^ Z.of_nat 4) with (2 ^ 32). fold (u32 (s32 (be_val l))). by rewrite wrapu_wraps.
Qed.

Lemma asInt32_bytes l : length l = 4%nat → be_bytes 4 (asInt32 l) = l.
Proof.
  intros Hl. unfold asInt32. rewrite ztake_all by (unfold zlen; lia). unfold networkToHost32.
  rewrite Buffer.be_peek_val by done. by apply be_bytes_s32.
Qed.

Lemma parse_sound d m :
  kMinMessageLen c ≤ zlen d → parse adler32 c d = (kNoError, Some m) →
  ∃ p, d = (tag_ c ++ p) ++ be_bytes 4 (checksum adler32 (tag_ c ++ p)) ∧ ParseFromArray p = Some m.
Proof.
  intros Hd. unfold parse, validateChecksum. pose proof (zlen_nonneg (tag_ c)).
  assert (kChecksumLen ≤ zlen d) as Hd4 by (rewrite Hmin in Hd; unfold kChecksumLen in *; lia).
  destruct (Z.eqb_spec (checksum adler32 (ztake (zlen d - kChecksumLen) d))
    (asInt32 (zdrop (zlen d - kChecksumLen) d))) as [Hsum|]; [|done].
  case_bool_decide as Htg; [|done]. unfold parseFromBuffer. set (p := ztake _ (zdrop _ _)).
  destruct (ParseFromArray p) as [m'|] eqn:Ep; [|done]. intros [= ->]. exists p.
  assert (ztake (zlen d - kChecksumLen) d = tag_ c ++ p) as Hbody.
  { transitivity (ztake (zlen (tag_ c)) d ++ p); [|by rewrite Htg]. unfold p.
    rewrite <- (ztake_zdrop (zlen (tag_ c)) (ztake (zlen d - kChecksumLen) d)).
    rewrite ztake_ztake by (rewrite Hmin in Hd; unfold kChecksumLen in *; lia). f_equal.
    rewrite zdrop_ztake by lia. f_equal. }
  split; [|done]. rewrite <- Hbody, Hsum, asInt32_bytes; [by rewrite ztake_zdrop|].
  pose proof (zlen_zdrop (zlen d - kChecksumLen) d ltac:(unfold kChecksumLen in *; lia)) as Hz.
  unfold zlen, kChecksumLen in *. lia.
Qed.

Lemma round_sound l l' m :
  pure_round l = (l', [Received m], true) → ∃ p, l = raw_frame p ++ l' ∧ ParseFromArray p = Some m.
Proof.
  unfold pure_round. pose proof (zlen_nonneg (tag_ c)).
  destruct (Z.leb_spec (kMinMessageLen c + kHeaderLen) (zlen l)) as [Hlen|]; [|done]. cbv zeta.
  destruct ((kMaxMessageLen <? frame_len l) || (frame_len l <? kMinMessageLen c)) eqn:Ebad; [done|].
  apply orb_false_iff in Ebad as [Hmax Hmin2]. apply Z.ltb_ge in Hmax, Hmin2.
  destruct (Z.leb_spec (kHeaderLen + frame_len l) (zlen l)) as [Hfull|]; [|done].
  destruct (match rawCb_ c with Some cb => _ | None => _ end); [done|].
  set (d := zdrop kHeaderLen (ztake (kHeaderLen + frame_len l) l)).
  assert (zlen d = frame_len l) as Hd.
  { unfold d, kHeaderLen, kChecksumLen in *. rewrite zlen_zdrop by (rewrite zlen_ztake; lia).
    rewrite zlen_ztake by lia. lia. }
  destruct (parse adler32 c d) as [[] [m'|]] eqn:Ep; try done. intros [= <- ->].
  destruct (parse_sound d m) as (p & Hp & Hpm); [by rewrite Hd|done|]. exists p. split; [|done].
  assert (zlen (tag_ c ++ p) + kChecksumLen = frame_len l) as Hsz.
  { rewrite <- Hd, Hp, !zlen_app, zlen_be_bytes. unfold kChecksumLen. lia. }
  unfold raw_frame. rewrite Hsz, <- Hp. unfold frame_len at 1.
  assert (length (ztake 4 l) = 4%nat) as Hl4.
  { pose proof (zlen_ztake 4 l ltac:(unfold kHeaderLen, kChecksumLen in *; lia)) as Hz. unfold zlen in Hz. lia. }
  rewrite be_bytes_s32 by done. unfold d, kHeaderLen in *.
  rewrite <- (ztake_zdrop (4 + frame_len l) l) at 1. f_equal.
  rewrite <- (ztake_zdrop 4 (ztake (4 + frame_len l) l)) at 1. f_equal. apply ztake_ztake.
  unfold kChecksumLen in *. lia.
Qed.

(** C30: Nothing is delivered that was not framed: whatever bytes arrive, each
    message reported was parsed from a payload that stood in the stream with a
    matching size, tag and checksum, in this order; at most one error is
    reported, last, and the bytes from the refused frame on stay in the buffer. *)
Theorem codec_sound b b' rs :
  rawCb_ c = None → wf b → onMessage adler32 c b = Some (Ok (b', rs)) →
  ∃ ps ms tail, rs = (Received <$> ms) ++ tail ∧ (tail = [] ∨ ∃ e, tail = [Refused e]) ∧
    ParseFromArray <$> ps = Some <$> ms ∧ content b = concat (raw_frame <$> ps) ++ content b'.
Proof.
  intros Hraw Hb E. destruct (onMessage_spec b Hb) as (l' & rs' & b2 & Er & E2 & _ & Hc).
  rewrite E in E2. injection E2 as <- <-. rewrite Hc. clear E Hc b'.
  revert Er. generalize (content b) as l. intros l. generalize (S (length l)) as fuel. intros fuel. revert l rs.
  induction fuel as [|fuel IH]; intros l rs; [done|]. cbn [pure_receive].
  destruct (pure_round l) as [[l1 rs1] []] eqn:E1.
  - destruct (pure_receive fuel l1) as [[l2 rs2]|] eqn:E2; [|done]. intros [= -> <-].
    destruct (IH _ _ E2) as (ps & ms & tail & -> & Ht & Hps & Hl).
    assert (∃ m, rs1 = [Received m]) as [m ->].
    { revert E1. unfold pure_round. rewrite Hraw. cbv zeta. repeat case_match; try done; intros [= _ <-]; eauto. }
    destruct (round_sound _ _ _ E1) as (p & -> & Hp).
    exists (p :: ps), (m :: ms), tail. split_and!; [done|done|cbn; by rewrite Hp, Hps|].
    cbn. by rewrite Hl, app_assoc.
  - intros [= -> <-]. exists [], [], rs1. cbn. split_and!; [done| |done|].
    + revert E1. unfold pure_round. cbv zeta. repeat case_match; intros [= _ <-]; eauto.
    + revert E1. unfold pure_round. cbv zeta. repeat case_match; by intros [= <- _].
Qed.

(** The sender does not know the receiver's limit: a message whose frame
    exceeds [kMaxMessageLen] (up to the range of [int]) is encoded without complaint, and
    refused with [kInvalidLength] by the codec at the other end. *)
Theorem oversized_refused m b :
  kMaxMessageLen < body_len m < 2 ^ 31 → wf b → content b = [] → 8 ≤ Buffer.prependableBytes b →
  safe (λ b1, ∃ b2, onMessage adler32 c b1 = Some (Ok (b2, [Refused kInvalidLength])) ∧ content b2 = content b1)
    (fillEmptyBuffer adler32 c b m).
Proof.
  intros Hm Hb Hc Hp. eapply safe_mono; [apply fillEmptyBuffer_safe; [done..|lia]|]. intros b1 [Hb1 Hc1].
  destruct (onMessage_spec b1 Hb1) as (l' & rs & b' & Er & -> & _ & Hc'). exists b'. rewrite Hc'. rewrite Hc1 in Er |- *.
  revert Er. cbn [pure_receive]. unfold pure_round. rewrite zlen_frame. pose proof (body_len_min m).
  rewrite (proj2 (Z.leb_le _ _)) by lia. cbv zeta.
  assert (frame_len (frame m) = body_len m) as -> by (unfold frame; apply frame_len_frame; lia).
  rewrite (proj2 (Z.ltb_lt kMaxMessageLen _)) by lia. cbn [orb]. intros [= <- <-]. done.
Qed.
End facts.

(** ** An instance: byte strings as messages *)

#[local] Instance bytes_message : Message bytes := {| SerializeToArray m := m; ParseFromArray b := Some b |}.
#[local] Instance bytes_laws : MessageLaws bytes.
Proof. constructor. done. Qed.
#[local] Instance example_host : Host := false.

(** Adler-32 as in RFC 1950. *)
Definition example_adler32 (l : bytes) : Z :=
  let '(a, b) := fold_left (λ '(a, b) x, let a := (a + byte_val x) mod 65521 in (a, (b + a) mod 65521)) l (1, 0) in
  65536 * b + a.
Definition example_codec : ProtobufCodecLite := mkCodec (Channel.str "RPC0") None 8.
Definition example_messages : list bytes := [Channel.str "first"; []; Channel.str "third message"].
Definition example_buffer : Buffer :=
  match Buffer.make Buffer.kInitialSize with Ok b => b | Fail _ => Buffer.mkBuffer [] 0 0 end.
Definition example_fill (m : bytes) : Buffer :=
  match fillEmptyBuffer example_adler32 example_codec example_buffer m with Ok b => b | Fail _ => example_buffer end.
Definition example_encoded : list bytes := (λ m, content (example_fill m)) <$> example_messages.
Definition example_pieces : list bytes :=
  let l := concat example_encoded in [ztake 3 l; ztake 20 (zdrop 3 l); zdrop 23 l].

Lemma codec_roundtrip_witness :
  ends_well (λ '(b', rs), content b' = [] ∧ rs = Received <$> example_messages)
    (feed example_adler32 example_codec example_pieces example_buffer).
Proof.
  apply (codec_roundtrip example_adler32 example_codec eq_refl ltac:(vm_compute; discriminate)
    example_messages example_encoded).
  - exact I.
  - repeat constructor; vm_compute; discriminate.
  - apply Forall2_fmap_r, Forall_Forall2_diag.
    apply Forall_forall. intros m Hm. exists example_buffer, (example_fill m).
    apply list_elem_of_In in Hm.
    destruct Hm as [<-|[<-|[<-|[]]]]; (split; [vm_compute; reflexivity|]); split; vm_compute; reflexivity.
  - vm_compute. reflexivity.
  - repeat constructor; vm_compute; discriminate.
  - vm_compute. intuition discriminate.
  - vm_compute. reflexivity.
Defined.

Definition example_received : Buffer :=
  match Buffer.append example_buffer (concat example_encoded ++ Channel.str "tail with bad size") with
  | Ok b => b | Fail _ => example_buffer end.

Lemma codec_sound_witness :
  ∃ b' ps ms, onMessage example_adler32 example_codec example_received =
      Some (Ok (b', (Received <$> ms) ++ [Refused kInvalidLength])) ∧
    ms = example_messages ∧ content example_received = concat (raw_frame example_adler32 example_codec <$> ps) ++ content b'.
Proof.
  destruct (onMessage example_adler32 example_codec example_received) as [[[b' rs]|]|] eqn:E;
    try (vm_compute in E; discriminate E).
  destruct (codec_sound example_adler32 example_codec eq_refl ltac:(vm_compute; discriminate) example_received b' rs
    eq_refl ltac:(vm_compute; intuition discriminate) E) as (ps & ms & tail & Hrs & Ht & _ & Hc).
  assert (rs = (Received <$> example_messages) ++ [Refused kInvalidLength]) as Hrs'.
  { vm_compute in E. injection E as _ <-. reflexivity. }
  exists b', ps, example_messages. rewrite Hrs'. split; [reflexivity|]. split; [reflexivity|exact Hc].
Defined.

Definition example_big : bytes := zrep kMaxMessageLen "a"%char.

Lemma oversized_refused_witness :
  safe (λ b1, ∃ b2, onMessage example_adler32 example_codec b1 = Some (Ok (b2, [Refused kInvalidLength])) ∧
                    content b2 = content b1)
    (fillEmptyBuffer example_adler32 example_codec example_buffer example_big).
Proof.
  apply (oversized_refused example_adler32 example_codec eq_refl ltac:(vm_compute; discriminate)).
  - unfold body_len, body. rewrite zlen_app. cbn [SerializeToArray bytes_message]. unfold example_big.
    rewrite zlen_zrep by discriminate. split; reflexivity.
  - vm_compute. intuition discriminate.
  - vm_compute. reflexivity.
  - vm_compute. discriminate.
Defined.
End ProtobufCodecLite.
