(* ===== verification/Rpc.v ===== *)
(** * RPC ([net/protorpc], [base/Atomic.h])

    [RpcChannel] at both ends of a connection: calls are numbered by an atomic
    counter, remembered until the answer with the same number arrives, and
    answered by services that may finish in any order. Services and protocol
    buffers are parameters; transport of messages in order is what the codec
    provides. *)

From stdpp Require Import gmap.
From S2P Require Import Prelude.

(** ** AtomicIntegerT: each operation is one atomic step on a [w]-bit integer. *)
Module Atomic.
Section atomic.
Context (w : Z).
Definition initial : Z := 0.
Definition get (value_ : Z) : Z * Z := (value_, value_).
Definition getAndAdd (x value_ : Z) : Z * Z := (wraps w (value_ + x), value_).
(** [getAndAdd(x) + x] adds again, outside the atomic operation. *)
Definition addAndGet (x value_ : Z) : result (Z * Z) :=
  let '(v, old) := getAndAdd x value_ in
  r ← sint w (old + x);
  Ok (v, r).
Definition incrementAndGet (value_ : Z) : result (Z * Z) := addAndGet 1 value_.
Definition decrementAndGet (value_ : Z) : result (Z * Z) := addAndGet (-1) value_.
Definition add (x value_ : Z) : Z := fst (getAndAdd x value_).
Definition increment (value_ : Z) : result Z := fst <$> incrementAndGet value_.
Definition decrement (value_ : Z) : result Z := fst <$> decrementAndGet value_.
Definition getAndSet (newValue value_ : Z) : Z * Z := (newValue, value_).
End atomic.

Lemma incrementAndGet_Ok w v :
  0 < w → in_s w v → v + 1 < 2 ^ (w - 1) → incrementAndGet w v = Ok (v + 1, v + 1).
Proof.
  intros Hw Hv Hlt. unfold incrementAndGet, addAndGet, getAndAdd.
  assert (in_s w (v + 1)) by (unfold in_s in *; lia). by rewrite sint_Ok, bind_Ok, wraps_small.
Qed.
End Atomic.

Module RpcChannel.

(** [rpc.proto] *)
Inductive MessageType := REQUEST | RESPONSE | ERROR.
Inductive ErrorCode :=
  NO_ERROR | WRONG_PROTO | NO_SERVICE | NO_METHOD | INVALID_REQUEST | INVALID_RESPONSE | TIMEOUT.
#[global] Instance ErrorCode_eq_dec : EqDecision ErrorCode.
Proof. solve_decision. Defined.

Record RpcMessage := mkRpcMessage {
  type : MessageType;
  id : Z;
  service : bytes;
  method : bytes;
  request : option bytes;
  response : option bytes;
  error : option ErrorCode
}.

(** A registered service: which methods it has and which requests they can parse. *)
Record Service := mkService {
  FindMethodByName : bytes → bool;
  ParseRequest : bytes → bytes → bool
}.

(** The caller's response object and closure, by address; 0 is NULL. *)
Record OutstandingCall := mkOutstandingCall { out_response : Z; out_done : Z }.

Record RpcChannel := mkRpcChannel {
  id_ : Z;
  outstandings_ : gmap Z OutstandingCall;
  services_ : option (bytes → option Service)
}.

Definition make : RpcChannel := mkRpcChannel Atomic.initial ∅ None.
Definition setServices (s : bytes → option Service) (ch : RpcChannel) : RpcChannel :=
  mkRpcChannel (id_ ch) (outstandings_ ch) (Some s).

(** What a channel does to the outside. *)
Inductive effect :=
  | SendMessage (m : RpcMessage)                           (* codec_.send *)
  | ParseResponse (out : Z) (data : bytes)                 (* out.response->ParseFromString *)
  | RunDone (done : Z)                                     (* out.done->Run() *)
  | DeleteResponse (out : Z)                               (* ~unique_ptr *)
  | DeleteDone (done : Z)                                  (* delete out.done *)
  | CallService (svc meth req : bytes) (i : Z).            (* service->CallMethod, with doneCallback *)

Definition destructor (ch : RpcChannel) : list effect :=
  '(_, out) ← map_to_list (outstandings_ ch); [DeleteResponse (out_response out); DeleteDone (out_done out)].

Definition CallMethod (svc meth req : bytes) (resp done : Z) (ch : RpcChannel) :
    result (RpcChannel * list effect) :=
  '(v, i) ← Atomic.incrementAndGet 64 (id_ ch);
  let message := mkRpcMessage REQUEST i svc meth (Some req) None None in
  let out := mkOutstandingCall resp done in
  Ok (mkRpcChannel v (<[i := out]> (outstandings_ ch)) (services_ ch), [SendMessage message]).

Definition doneCallback (resp : bytes) (i : Z) : list effect :=
  [SendMessage (mkRpcMessage RESPONSE i [] [] None (Some resp) None)].

Definition onResponse (message : RpcMessage) (ch : RpcChannel) : result (RpcChannel * list effect) :=
  _ ← check (bool_decide (is_Some (response message)) || bool_decide (is_Some (error message)));
  let '(out, rest) :=
    match outstandings_ ch !! id message with
    | Some out => (out, delete (id message) (outstandings_ ch))
    | None => (mkOutstandingCall 0 0, outstandings_ ch)
    end in
  Ok (mkRpcChannel (id_ ch) rest (services_ ch),
      if out_response out =? 0 then []
      else match response message with Some d => [ParseResponse (out_response out) d] | None => [] end ++
           (if out_done out =? 0 then [] else [RunDone (out_done out)]) ++
           [DeleteResponse (out_response out)]).

Definition onRequest (message : RpcMessage) (ch : RpcChannel) : list effect :=
  let '(err, effects) :=
    match services_ ch with
    | None => (NO_SERVICE, [])
    | Some services =>
        match services (service message) with
        | None => (NO_SERVICE, [])
        | Some s =>
            if FindMethodByName s (method message)
            then if ParseRequest s (method message) (default [] (request message))
                 then (NO_ERROR, [CallService (service message) (method message)
                                    (default [] (request message)) (id message)])
                 else (INVALID_REQUEST, [])
            else (NO_METHOD, [])
        end
    end in
  effects ++
  (if bool_decide (err = NO_ERROR) then []
   else [SendMessage (mkRpcMessage RESPONSE (id message) [] [] None None (Some err))]).

Definition onRpcMessage (message : RpcMessage) (ch : RpcChannel) : result (RpcChannel * list effect) :=
  match type message with
  | RESPONSE => onResponse message ch
  | REQUEST => Ok (ch, onRequest message ch)
  | ERROR => Ok (ch, [])
  end.

(** ** A client and a server

    [answer] computes what the service replies; it may finish invocations in any
    order. Messages travel in order in each direction. *)

Record System := mkSystem {
  client : RpcChannel;
  server : RpcChannel;
  c2s : list RpcMessage;
  s2c : list RpcMessage;
  working : list (bytes * bytes * bytes * Z);     (* invocations in the service *)
  calls : gmap Z (bytes * bytes * bytes * OutstandingCall);   (* ghost: calls made *)
  parsed : list (Z * bytes);                      (* response objects filled in *)
  finished : list Z                               (* closures run *)
}.

Inductive step := Call (svc meth req : bytes) (resp done : Z) | ServerReceives | ServiceAnswers (n : nat) | ClientReceives.

Definition client_effects (es : list effect) (s : System) : System :=
  mkSystem (client s) (server s)
    (c2s s ++ omap (λ e, match e with SendMessage m => Some m | _ => None end) es)
    (s2c s) (working s) (calls s)
    (parsed s ++ omap (λ e, match e with ParseResponse o d => Some (o, d) | _ => None end) es)
    (finished s ++ omap (λ e, match e with RunDone d => Some d | _ => None end) es).
Definition server_effects (es : list effect) (s : System) : System :=
  mkSystem (client s) (server s) (c2s s)
    (s2c s ++ omap (λ e, match e with SendMessage m => Some m | _ => None end) es)
    (working s ++ omap (λ e, match e with CallService v m r i => Some (v, m, r, i) | _ => None end) es)
    (calls s) (parsed s) (finished s).

Section system.
Context (answer : bytes → bytes → bytes → bytes).

Definition do_step (x : step) (s : System) : result System :=
  match x with
  | Call svc meth req resp done =>
      '(ch, es) ← CallMethod svc meth req resp done (client s);
      Ok (client_effects es (mkSystem ch (server s) (c2s s) (s2c s) (working s)
            (<[id_ ch := (svc, meth, req, mkOutstandingCall resp done)]> (calls s)) (parsed s) (finished s)))
  | ServerReceives =>
      match c2s s with
      | [] => Ok s
      | m :: q =>
          '(ch, es) ← onRpcMessage m (server s);
          Ok (server_effects es (mkSystem (client s) ch q (s2c s) (working s) (calls s) (parsed s) (finished s)))
      end
  | ServiceAnswers n =>
      match working s !! n with
      | None => Ok s
      | Some (v, m, r, i) =>
          Ok (server_effects (doneCallback (answer v m r) i)
                (mkSystem (client s) (server s) (c2s s) (s2c s) (delete n (working s)) (calls s) (parsed s) (finished s)))
      end
  | ClientReceives =>
      match s2c s with
      | [] => Ok s
      | m :: q =>
          '(ch, es) ← onRpcMessage m (client s);
          Ok (client_effects es (mkSystem ch (server s) (c2s s) q (working s) (calls s) (parsed s) (finished s)))
      end
  end.

Fixpoint do_steps (xs : list step) (s : System) : result System :=
  match xs with [] => Ok s | x :: xs => s ← do_step x s; do_steps xs s end.
End system.

Definition initial (services : bytes → option Service) : System :=
  mkSystem make (setServices services make) [] [] [] ∅ [] [].

(** ** Exactly one answer per call *)
Section exactly_once.
Context (answer : bytes → bytes → bytes → bytes) (services : bytes → option Service).

Definition accepted (v m r : bytes) : bool :=
  match services v with Some s => FindMethodByName s m && ParseRequest s m r | None => false end.

(** Numbers of the calls that are on their way. *)
Definition flight (s : System) : list Z := (id <$> c2s s) ++ (snd <$> working s) ++ (id <$> s2c s).

Definition request_for (s : System) (m : RpcMessage) : Prop :=
  type m = REQUEST ∧ ∃ r out, request m = Some r ∧ calls s !! id m = Some (service m, method m, r, out).
Definition response_for (s : System) (m : RpcMessage) : Prop :=
  type m = RESPONSE ∧ ∃ v me r out, calls s !! id m = Some (v, me, r, out) ∧
    if accepted v me r then response m = Some (answer v me r) else response m = None ∧ is_Some (error m).
Definition work_for (s : System) (x : bytes * bytes * bytes * Z) : Prop :=
  ∃ out, calls s !! x.2 = Some (x.1, out) ∧ accepted x.1.1.1 x.1.1.2 x.1.2 = true.

Record rpc_inv (s : System) : Prop := {
  rpc_ids : 0 ≤ id_ (client s) < 2 ^ 63 ∧ ∀ i, is_Some (calls s !! i) → 1 ≤ i ≤ id_ (client s);
  rpc_services : services_ (server s) = Some services;
  rpc_flight : NoDup (flight s) ∧ ∀ i, i ∈ flight s ↔ is_Some (outstandings_ (client s) !! i);
  rpc_out : ∀ i out, outstandings_ (client s) !! i = Some out → ∃ q, calls s !! i = Some (q, out);
  rpc_c2s : Forall (request_for s) (c2s s);
  rpc_working : Forall (work_for s) (working s);
  rpc_s2c : Forall (response_for s) (s2c s);
  rpc_complete : ∀ i v m r out, calls s !! i = Some (v, m, r, out) → outstandings_ (client s) !! i = None →
    (accepted v m r = true → (out_response out, answer v m r) ∈ parsed s) ∧ out_done out ∈ finished s;
  rpc_parsed : NoDup (fst <$> parsed s) ∧ ∀ o d, (o, d) ∈ parsed s → ∃ i v m r dn,
    calls s !! i = Some (v, m, r, mkOutstandingCall o dn) ∧ outstandings_ (client s) !! i = None ∧
    accepted v m r = true ∧ d = answer v m r;
  rpc_finished : NoDup (finished s) ∧ ∀ dn, dn ∈ finished s → ∃ i q o,
    calls s !! i = Some (q, mkOutstandingCall o dn) ∧ outstandings_ (client s) !! i = None;
  rpc_distinct : ∀ i j q q' out out', calls s !! i = Some (q, out) → calls s !! j = Some (q', out') →
    out_response out = out_response out' ∨ out_done out = out_done out' → i = j;
  rpc_nonnull : ∀ i q out, calls s !! i = Some (q, out) → out_response out ≠ 0 ∧ out_done out ≠ 0
}.

(** A caller passes a new response object and a new closure with each call, and
    makes fewer than 2^63 - 1 calls. *)
Definition legal (x : step) (s : System) : Prop :=
  match x with
  | Call _ _ _ resp done =>
      id_ (client s) + 1 < 2 ^ 63 ∧ resp ≠ 0 ∧ done ≠ 0 ∧
      ∀ i q out, calls s !! i = Some (q, out) → out_response out ≠ resp ∧ out_done out ≠ done
  | _ => True
  end.
Fixpoint legal_steps (xs : list step) (s : System) : Prop :=
  match xs with
  | [] => True
  | x :: xs => legal x s ∧ ∀ s', do_step answer x s = Ok s' → legal_steps xs s'
  end.

Lemma rpc_initial : rpc_inv (initial services).
Proof.
  constructor; cbn; try done; try (by intros; simplify_map_eq).
  - split; [done|]. intros i [? ?]. by simplify_map_eq.
  - split; [constructor|]. intros i. split; [set_solver|]. intros [? ?]. by simplify_map_eq.
  - split; [constructor|]. set_solver.
  - split; [constructor|]. set_solver.
Qed.

Lemma onRequest_spec m ch :
  services_ ch = Some services →
  ∀ r, request m = Some r →
  onRequest m ch =
    if accepted (service m) (method m) r then [CallService (service m) (method m) r (id m)]
    else [SendMessage (mkRpcMessage RESPONSE (id m) [] [] None None
            (Some match services (service m) with
                  | None => NO_SERVICE
                  | Some s => if FindMethodByName s (method m) then INVALID_REQUEST else NO_METHOD
                  end))].
Proof.
  intros Hs r Hr. unfold onRequest, accepted. rewrite Hs, Hr. change (default [] (Some r)) with r.
  destruct (services (service m)) as [sv|]; [|done].
  destruct (FindMethodByName sv (method m)); [|done]. cbn [andb]. by destruct (ParseRequest sv (method m) r).
Qed.

(** A new call leaves what is known of the old ones in place. *)
Lemma rpc_call s svc meth req resp done s' :
  rpc_inv s → legal (Call svc meth req resp done) s → do_step answer (Call svc meth req resp done) s = Ok s' → rpc_inv s'.
Proof.
  intros [] (Hid & Hr0 & Hd0 & Hnew). destruct rpc_ids0 as [Hrange Hcalls].
  set (i := id_ (client s) + 1).
  assert (calls s !! i = None) as Hfresh.
  { destruct (calls s !! i) eqn:E; [|done]. specialize (Hcalls i ltac:(by eauto)). unfold i in Hcalls. lia. }
  assert (outstandings_ (client s) !! i = None) as Hfo.
  { destruct (outstandings_ (client s) !! i) eqn:E; [|done]. apply rpc_out0 in E as [? E]. congruence. }
  unfold do_step, CallMethod. rewrite Atomic.incrementAndGet_Ok by (unfold in_s; lia). rewrite !bind_Ok. intros [= <-].
  fold i. set (out := mkOutstandingCall resp done).
  assert (∀ j x, calls s !! j = Some x → (<[i:=(svc, meth, req, out)]> (calls s)) !! j = Some x) as Hold.
  { intros j x Hj. rewrite lookup_insert_ne; [done|]. intros ->. congruence. }
  destruct rpc_flight0 as [Hnd Hfl].
  constructor; cbn [client server c2s s2c working calls parsed finished client_effects outstandings_ id_ omap list_omap app] in *.
  - split; [unfold i; lia|]. intros j [x Hx]. destruct (decide (j = i)) as [->|Hj]; [unfold i; lia|].
    rewrite lookup_insert_ne in Hx by done. specialize (Hcalls j ltac:(by eauto)). unfold i. lia.
  - done.
  - unfold flight in *. cbn [client server c2s s2c working calls parsed finished client_effects outstandings_ id_ omap list_omap app] in *.
    rewrite fmap_app. cbn.
    assert (((id <$> c2s s) ++ [i]) ++ (snd <$> working s) ++ (id <$> s2c s) ≡ₚ
      i :: (id <$> c2s s) ++ (snd <$> working s) ++ (id <$> s2c s)) as HP by solve_Permutation.
    split.
    + rewrite HP. apply NoDup_cons. split; [|done]. rewrite Hfl, Hfo. by intros [? ?].
    + intros j. rewrite HP, elem_of_cons. destruct (decide (j = i)) as [->|Hj].
      * rewrite lookup_insert_eq. naive_solver.
      * rewrite lookup_insert_ne, <- Hfl by done. naive_solver.
  - intros j o. destruct (decide (j = i)) as [->|Hj].
    + rewrite !lookup_insert_eq. intros [= <-]. eauto.
    + rewrite !lookup_insert_ne by done. apply rpc_out0.
  - apply Forall_app. split.
    + eapply Forall_impl; [exact rpc_c2s0|]. intros m (Ht & r & o & Hr & Hc). split; [done|]. exists r, o. split; [done|].
      by apply Hold.
    + apply Forall_singleton. split; [done|]. exists req, out. split; [done|]. apply lookup_insert_eq.
  - eapply Forall_impl; [exact rpc_working0|]. intros x (o & Hc & Ha). exists o. split; [by apply Hold|done].
  - eapply Forall_impl; [exact rpc_s2c0|]. intros m (Ht & v & me & r & o & Hc & Ha).
    split; [done|]. exists v, me, r, o. split; [by apply Hold|done].
  - intros j v m r o. rewrite !app_nil_r. destruct (decide (j = i)) as [->|Hj].
    + rewrite !lookup_insert_eq. done.
    + rewrite !lookup_insert_ne by done. apply rpc_complete0.
  - rewrite app_nil_r. destruct rpc_parsed0 as [? Hp]. split; [done|]. intros o d Hod.
    destruct (Hp o d Hod) as (j & v & m & r & dn & Hc & Ho & ?). exists j, v, m, r, dn.
    split; [by apply Hold|]. split; [|done]. rewrite lookup_insert_ne; [done|]. intros ->. congruence.
  - rewrite app_nil_r. destruct rpc_finished0 as [? Hp]. split; [done|]. intros dn Hdn.
    destruct (Hp dn Hdn) as (j & q & o & Hc & Ho). exists j, q, o.
    split; [by apply Hold|]. rewrite lookup_insert_ne; [done|]. intros ->. congruence.
  - intros j k q q' o o'. destruct (decide (j = i)) as [->|Hj], (decide (k = i)) as [->|Hk]; [done|..].
    + rewrite lookup_insert_eq, lookup_insert_ne by done. intros [= <- <-] Hk' Heq. cbn in Heq.
      destruct (Hnew _ _ _ Hk'). destruct Heq; congruence.
    + rewrite lookup_insert_eq, lookup_insert_ne by done. intros Hj' [= <- <-] Heq. cbn in Heq.
      destruct (Hnew _ _ _ Hj'). destruct Heq; congruence.
    + rewrite !lookup_insert_ne by done. apply rpc_distinct0.
  - intros j q o. destruct (decide (j = i)) as [->|Hj].
    + rewrite lookup_insert_eq. by intros [= <- <-].
    + rewrite lookup_insert_ne by done. apply rpc_nonnull0.
Qed.

(** Steps that only move messages along. *)
Lemma rpc_move s s' :
  rpc_inv s → client s' = client s → server s' = server s → calls s' = calls s → parsed s' = parsed s →
  finished s' = finished s → flight s' ≡ₚ flight s →
  Forall (request_for s) (c2s s') → Forall (work_for s) (working s') → Forall (response_for s) (s2c s') → rpc_inv s'.
Proof.
  intros [] Hcl Hsv Hca Hpa Hfi Hfl H1 H2 H3.
  constructor; rewrite ?Hcl, ?Hsv, ?Hca, ?Hpa, ?Hfi; try done.
  - rewrite Hfl. destruct rpc_flight0 as [? Hin]. split; [done|]. intros i. by rewrite Hfl.
  - eapply Forall_impl; [exact H1|]. intros m. unfold request_for. by rewrite Hca.
  - eapply Forall_impl; [exact H2|]. intros m. unfold work_for. by rewrite Hca.
  - eapply Forall_impl; [exact H3|]. intros m. unfold response_for. by rewrite Hca.
Qed.

Lemma rpc_server_receives s s' :
  rpc_inv s → do_step answer ServerReceives s = Ok s' → rpc_inv s'.
Proof.
  intros Hi. unfold do_step. destruct (c2s s) as [|m q] eqn:Eq; [by intros [= <-]|].
  pose proof (rpc_c2s s Hi) as Hc. rewrite Eq in Hc. apply Forall_cons in Hc as [Hm Hq].
  destruct Hm as (Ht & r & out & Hr & Hcall). unfold onRpcMessage. rewrite Ht, bind_Ok.
  rewrite (onRequest_spec m (server s) (rpc_services s Hi) r Hr). intros [= <-].
  pose proof (rpc_working s Hi) as Hw. pose proof (rpc_s2c s Hi) as Hs.
  destruct (accepted (service m) (method m) r) eqn:Ha.
  - apply (rpc_move s); try done; cbn [c2s s2c working server_effects omap list_omap].
    + unfold flight. cbn [c2s s2c working server_effects omap list_omap]. rewrite Eq, ?app_nil_r, fmap_app. cbn.
      solve_Permutation.
    + apply Forall_app. split; [done|]. apply Forall_singleton. exists out. done.
    + by rewrite app_nil_r.
  - apply (rpc_move s); try done; cbn [c2s s2c working server_effects omap list_omap].
    + unfold flight. cbn [c2s s2c working server_effects omap list_omap]. rewrite Eq, ?app_nil_r, fmap_app. cbn.
      solve_Permutation.
    + by rewrite app_nil_r.
    + apply Forall_app. split; [done|]. apply Forall_singleton. split; [done|].
      exists (service m), (method m), r, out. cbn. rewrite Ha. eauto.
Qed.

Lemma rpc_service_answers s n s' :
  rpc_inv s → do_step answer (ServiceAnswers n) s = Ok s' → rpc_inv s'.
Proof.
  intros Hi. unfold do_step. destruct (working s !! n) as [[[[v m] r] i]|] eqn:Eq; [|by intros [= <-]].
  intros [= <-]. pose proof (rpc_working s Hi) as Hw. pose proof (rpc_s2c s Hi) as Hs.
  pose proof (delete_Permutation _ _ _ Eq) as HP.
  assert (work_for s (v, m, r, i)) as (out & Hc & Ha) by (by eapply Forall_lookup_1). cbn in Hc, Ha.
  apply (rpc_move s); try done; cbn [c2s s2c working server_effects doneCallback omap list_omap].
  - unfold flight. cbn [c2s s2c working server_effects doneCallback omap list_omap]. rewrite ?app_nil_r, fmap_app. cbn.
    pose proof (fmap_Permutation snd _ _ HP) as HP2. rewrite HP2. cbn. solve_Permutation.
  - apply (rpc_c2s s Hi).
  - rewrite app_nil_r. by apply Forall_delete.
  - apply Forall_app. split; [done|]. apply Forall_singleton. split; [done|].
    exists v, m, r, out. cbn. by rewrite Ha.
Qed.

(** The call numbered [id m] is over: its response object got [new]. *)
Lemma rpc_retire s m q out v me r :
  rpc_inv s → s2c s = m :: q → calls s !! id m = Some (v, me, r, out) →
  outstandings_ (client s) !! id m = Some out →
  let new := if accepted v me r then [(out_response out, answer v me r)] else [] in
  rpc_inv (mkSystem (mkRpcChannel (id_ (client s)) (delete (id m) (outstandings_ (client s))) (services_ (client s)))
    (server s) (c2s s) q (working s) (calls s) (parsed s ++ new) (finished s ++ [out_done out])).
Proof.
  intros [] Eq Hcall Hout new. destruct rpc_flight0 as [Hnd Hfl]. rewrite Eq in rpc_s2c0.
  apply Forall_cons in rpc_s2c0 as [_ Hq].
  assert (flight s ≡ₚ id m :: ((id <$> c2s s) ++ (snd <$> working s) ++ (id <$> q))) as HP.
  { unfold flight. rewrite Eq. cbn. solve_Permutation. }
  rewrite HP in Hnd. apply NoDup_cons in Hnd as [Hnin Hnd].
  assert (∀ j o, outstandings_ (client s) !! j = None → calls s !! j = Some o → j ≠ id m) as Hother by congruence.
  constructor; cbn [client server c2s s2c working calls parsed finished outstandings_ id_]; try done.
  - unfold flight. cbn [c2s working s2c]. split; [done|]. intros j. destruct (decide (j = id m)) as [->|Hj].
    + rewrite lookup_delete_eq. split; [done|]. by intros [? ?].
    + rewrite lookup_delete_ne, <- Hfl, HP, elem_of_cons by done. naive_solver.
  - intros j o. rewrite lookup_delete_Some. intros [_ Ho]. auto.
  - intros j v' m' r' o Hj Hjo. destruct (decide (j = id m)) as [->|Hne].
    + rewrite Hcall in Hj. injection Hj as <- <- <- <-. unfold new. split; [|set_solver]. intros ->. set_solver.
    + rewrite lookup_delete_ne in Hjo by done. destruct (rpc_complete0 _ _ _ _ _ Hj Hjo) as [Hx Hy]. set_solver.
  - destruct rpc_parsed0 as [Hpd Hp]. split.
    + rewrite fmap_app. apply NoDup_app. split_and!; [done| |unfold new; case_match; by repeat constructor; set_solver].
      intros o ([o' d] & -> & Hx)%list_elem_of_fmap Hin. destruct (Hp _ _ Hx) as (j & ? & ? & ? & dn & Hj & Hjo & _).
      apply (Hother j _ Hjo Hj), (rpc_distinct0 j (id m) _ _ _ _ Hj Hcall). left. unfold new in Hin.
      destruct (accepted v me r); set_solver.
    + intros o d [Hod|Hod]%elem_of_app.
      * destruct (Hp _ _ Hod) as (j & v' & m' & r' & dn & Hj & Hjo & ?). exists j, v', m', r', dn.
        split_and!; try tauto. rewrite lookup_delete_None. auto.
      * unfold new in Hod. destruct (accepted v me r) eqn:Ha; [|set_solver].
        apply list_elem_of_singleton in Hod as [= -> ->]. destruct out as [o' dn]. exists (id m), v, me, r, dn.
        split_and!; try done. apply lookup_delete_eq.
  - destruct rpc_finished0 as [Hfd Hf]. split.
    + apply NoDup_app. split_and!; [done| |apply NoDup_singleton]. intros x Hx ->%list_elem_of_singleton.
      destruct (Hf _ Hx) as (j & q' & o & Hj & Hjo). apply (Hother j _ Hjo Hj), (rpc_distinct0 j (id m) _ _ _ _ Hj Hcall).
      by right.
    + intros dn [Hdn|Hdn]%elem_of_app.
      * destruct (Hf _ Hdn) as (j & q' & o & Hj & Hjo). exists j, q', o. split; [done|]. rewrite lookup_delete_None. auto.
      * apply list_elem_of_singleton in Hdn as ->. destruct out as [o dn]. exists (id m), (v, me, r), o.
        split; [done|]. apply lookup_delete_eq.
Qed.

(** What an answer makes of an outstanding call. *)
Lemma onResponse_spec s m v me r out :
  rpc_inv s → response_for s m → calls s !! id m = Some (v, me, r, out) →
  outstandings_ (client s) !! id m = Some out →
  onRpcMessage m (client s) =
    Ok (mkRpcChannel (id_ (client s)) (delete (id m) (outstandings_ (client s))) (services_ (client s)),
        (if accepted v me r then [ParseResponse (out_response out) (answer v me r)] else []) ++
        [RunDone (out_done out); DeleteResponse (out_response out)]).
Proof.
  intros Hi (Ht & v' & me' & r' & out' & Hc & Hresp) Hcall Hout. rewrite Hcall in Hc. injection Hc as <- <- <- <-.
  destruct (rpc_nonnull s Hi _ _ _ Hcall) as [Hr0 Hd0].
  unfold onRpcMessage. rewrite Ht. unfold onResponse. rewrite Hout, check_true, bind_Ok.
  - rewrite (proj2 (Z.eqb_neq _ _)), (proj2 (Z.eqb_neq _ _)) by done. destruct (accepted v me r); [by rewrite Hresp|].
    by destruct Hresp as [-> _].
  - destruct (accepted v me r); [by rewrite Hresp, bool_decide_true|]. destruct Hresp as [_ He].
    by rewrite (bool_decide_true (is_Some (error m))), orb_true_r.
Qed.

Lemma rpc_answer_known s m q :
  rpc_inv s → s2c s = m :: q → response_for s m ∧
  ∃ v me r out, calls s !! id m = Some (v, me, r, out) ∧ outstandings_ (client s) !! id m = Some out.
Proof.
  intros [] Eq. rewrite Eq in rpc_s2c0. apply Forall_cons in rpc_s2c0 as [Hm _]. split; [done|].
  destruct Hm as (_ & v & me & r & out & Hcall & _). exists v, me, r, out. split; [done|].
  destruct (proj1 (proj2 rpc_flight0 (id m))) as [out' Ho]; [unfold flight; rewrite Eq; set_solver|].
  rewrite Ho. apply rpc_out0 in Ho as [? Ho]. congruence.
Qed.

Lemma rpc_client_receives s s' :
  rpc_inv s → do_step answer ClientReceives s = Ok s' → rpc_inv s'.
Proof.
  intros Hi. unfold do_step. destruct (s2c s) as [|m q] eqn:Eq; [by intros [= <-]|].
  destruct (rpc_answer_known s m q Hi Eq) as (Hm & v & me & r & out & Hcall & Hout).
  rewrite (onResponse_spec s m v me r out), bind_Ok by done. intros [= <-].
  pose proof (rpc_retire s m q out v me r Hi Eq Hcall Hout) as H.
  unfold client_effects. destruct (accepted v me r); cbn; cbn in H; by rewrite app_nil_r.
Qed.

Lemma rpc_defined x s : rpc_inv s → legal x s → ∃ s', do_step answer x s = Ok s'.
Proof.
  intros Hi Hl. pose proof (rpc_ids s Hi). pose proof (rpc_c2s s Hi) as rpc_c2s0.
  destruct x as [svc meth req resp done| |n| ]; unfold do_step.
  - destruct Hl as [Hid _]. unfold CallMethod. rewrite Atomic.incrementAndGet_Ok by (unfold in_s; lia).
    rewrite !bind_Ok. eauto.
  - destruct (c2s s) as [|m q]; [eauto|]. apply Forall_cons in rpc_c2s0 as [(Ht & _) _].
    unfold onRpcMessage. rewrite Ht, bind_Ok. eauto.
  - destruct (working s !! n) as [[[[v m] r] i]|]; eauto.
  - destruct (s2c s) as [|m q] eqn:Eq; [eauto|].
    destruct (rpc_answer_known s m q Hi Eq) as (Hm & v & me & r & out & Hcall & Hout).
    rewrite (onResponse_spec s m v me r out), bind_Ok by done. eauto.
Qed.

Lemma rpc_step x s s' : rpc_inv s → legal x s → do_step answer x s = Ok s' → rpc_inv s'.
Proof.
  destruct x; eauto using rpc_call, rpc_server_receives, rpc_service_answers, rpc_client_receives.
Qed.

Lemma rpc_steps xs : ∀ s, rpc_inv s → legal_steps xs s → ∃ s', do_steps answer xs s = Ok s' ∧ rpc_inv s'.
Proof.
  induction xs as [|x xs IH]; intros s Hi Hl; [eauto|]. destruct Hl as [Hx Hl]. cbn.
  destruct (rpc_defined x s Hi Hx) as [s1 E]. rewrite E, bind_Ok. apply IH; [by eapply rpc_step|auto].
Qed.

(** C17: Every call is answered exactly once and with its own answer, whatever the
    order in which services finish: no run fails; a call still on its way has
    not run its closure; a call that is no longer on its way has run it, and
    its response object holds the service's answer to its own request, or was left
    alone when the server refused the call; nothing else is filled in, and
    nothing twice. *)
Theorem rpc_exactly_once xs :
  legal_steps xs (initial services) →
  ∃ s, do_steps answer xs (initial services) = Ok s ∧
    NoDup (fst <$> parsed s) ∧ NoDup (finished s) ∧
    (∀ i v m r out, calls s !! i = Some (v, m, r, out) →
       if bool_decide (i ∈ flight s) then out_done out ∉ finished s
       else out_done out ∈ finished s ∧ (accepted v m r = true → (out_response out, answer v m r) ∈ parsed s)) ∧
    (∀ o d, (o, d) ∈ parsed s → ∃ i v m r dn, calls s !! i = Some (v, m, r, mkOutstandingCall o dn) ∧
       accepted v m r = true ∧ d = answer v m r).
Proof.
  intros Hl. destruct (rpc_steps xs _ rpc_initial Hl) as (s & E & []). exists s.
  destruct rpc_parsed0 as [Hpd Hp], rpc_finished0 as [Hfd Hf], rpc_flight0 as [_ Hfl].
  split_and!; try done.
  - intros i v m r out Hc. case_bool_decide as Hin.
    + intros Hd. destruct (Hf _ Hd) as (j & q & o & Hj & Hjo).
      assert (j = i) as -> by (eapply rpc_distinct0; [exact Hj|exact Hc|by right]).
      apply Hfl in Hin as [? ?]. congruence.
    + assert (outstandings_ (client s) !! i = None) as Hn.
      { destruct (outstandings_ (client s) !! i) eqn:Eo; [|done]. exfalso. apply Hin, Hfl. eauto. }
      destruct (rpc_complete0 _ _ _ _ _ Hc Hn). done.
  - intros o d Hod. destruct (Hp _ _ Hod) as (i & v & m & r & dn & ? & _ & ?). eauto 10.
Qed.

(** Destroying the client frees the closures that were never run, each once. *)
Lemma rpc_teardown xs s :
  legal_steps xs (initial services) → do_steps answer xs (initial services) = Ok s →
  NoDup (finished s ++ omap (λ e, match e with DeleteDone d => Some d | _ => None end) (destructor (client s))).
Proof.
  intros Hl E. destruct (rpc_steps xs _ rpc_initial Hl) as (s' & E' & []). rewrite E in E'. injection E' as <-.
  set (pending := map_to_list (outstandings_ (client s))).
  assert (omap (λ e, match e with DeleteDone d => Some d | _ => None end) (destructor (client s)) =
    (λ x, out_done x.2) <$> pending) as ->.
  { unfold destructor. fold pending. clearbody pending. induction pending as [|[i o] l IH]; [done|]. cbn. by f_equal. }
  assert (∀ i o, (i, o) ∈ pending → ∃ q, calls s !! i = Some (q, o) ∧ outstandings_ (client s) !! i = Some o) as Hp.
  { intros i o Ho%elem_of_map_to_list. destruct (rpc_out0 _ _ Ho) as [q ?]. eauto. }
  apply NoDup_app. split_and!; [apply rpc_finished0| |].
  - intros d Hd ([i o] & -> & Hx)%list_elem_of_fmap. destruct (proj2 rpc_finished0 _ Hd) as (j & q & o' & Hj & Hjo).
    destruct (Hp _ _ Hx) as (q' & Hc & Hpo). assert (j = i) as -> by (eapply rpc_distinct0; [exact Hj|exact Hc|by right]).
    congruence.
  - pose proof (NoDup_map_to_list (outstandings_ (client s))) as Hnd. fold pending in Hnd.
    eapply NoDup_fmap_2_strong; [|exact Hnd]. intros [i o] [j o'] Hx Hy Heq. cbn in Heq.
    destruct (Hp _ _ Hx) as (q & Hc & Ho), (Hp _ _ Hy) as (q' & Hc' & Ho').
    assert (i = j) as -> by (eapply rpc_distinct0; [exact Hc|exact Hc'|by right]). congruence.
Qed.
End exactly_once.

(** Two calls, answered in the opposite order, and one to an unknown service. *)
Definition example_services (v : bytes) : option Service :=
  if bool_decide (v = ["s"%char]) then Some (mkService (λ _, true) (λ _ _, true)) else None.
Definition example_answer (v m r : bytes) : bytes := r ++ r.
Definition example_steps : list step :=
  [Call ["s"%char] ["m"%char] ["1"%char] 10 11; Call ["s"%char] ["m"%char] ["2"%char] 20 21;
   Call ["x"%char] ["m"%char] ["3"%char] 30 31;
   ServerReceives; ServerReceives; ServiceAnswers 1; ServerReceives; ServiceAnswers 0;
   ClientReceives; ClientReceives; ClientReceives].

Definition distinct (resp done : Z) (c : gmap Z (bytes * bytes * bytes * OutstandingCall)) : bool :=
  forallb (λ x, negb (out_response x.2.2 =? resp) && negb (out_done x.2.2 =? done)) (map_to_list c).

Lemma distinct_legal resp done c :
  distinct resp done c = true → ∀ i q out, c !! i = Some (q, out) → out_response out ≠ resp ∧ out_done out ≠ done.
Proof.
  unfold distinct. rewrite forallb_forall. intros H i q out Hc. apply elem_of_map_to_list, list_elem_of_In in Hc.
  specialize (H _ Hc). cbn in H. apply andb_true_iff in H as [H1 H2]. to_prop. done.
Qed.

Fixpoint check_steps (answer : bytes → bytes → bytes → bytes) (xs : list step) (s : System) : bool :=
  match xs with
  | [] => true
  | x :: xs =>
      match x with
      | Call _ _ _ resp done =>
          (id_ (client s) + 1 <? 2 ^ 63) && negb (resp =? 0) && negb (done =? 0) && distinct resp done (calls s)
      | _ => true
      end && match do_step answer x s with Ok s' => check_steps answer xs s' | Fail _ => true end
  end.

Lemma check_legal_steps answer xs : ∀ s, check_steps answer xs s = true → legal_steps answer xs s.
Proof.
  induction xs as [|x xs IH]; intros s; [done|]. cbn [check_steps legal_steps]. intros [Hx Hr]%andb_true_iff. split.
  - destruct x; [|exact I..]. apply andb_true_iff in Hx as [[[H1 H2]%andb_true_iff H3]%andb_true_iff H4].
    split_and!; [lia|intros ->; discriminate H2|intros ->; discriminate H3|by apply distinct_legal].
  - intros s' E. rewrite E in Hr. auto.
Qed.

Lemma rpc_exactly_once_witness :
  ∃ s, do_steps example_answer example_steps (initial example_services) = Ok s ∧
    parsed s = [(20, ["2"%char; "2"%char]); (10, ["1"%char; "1"%char])] ∧ finished s = [21; 31; 11] ∧
    NoDup (finished s).
Proof.
  destruct (rpc_exactly_once example_answer example_services example_steps) as (s & E & _ & H & _).
  - apply check_legal_steps. vm_compute. reflexivity.
  - exists s. split; [exact E|]. vm_compute in E. injection E as <-.
    split; [reflexivity|]. split; [reflexivity|exact H].
Defined.
End RpcChannel.
