(* ===== verification/LogStream.v ===== *)
(** * Log streams ([base/LogStream.h], [base/LogStream.cc])

    The fixed buffer, the integer conversions that write digits backwards and
    reverse them in place, and the stream operators. *)

From S2P Require Import Prelude Endian Format Channel.
Import Endian.

(** ** Integer to text ([muduo::detail]) *)
Module Convert.

Definition digits : bytes := Channel.str "9876543210123456789".
Definition digitsHex : bytes := Channel.str "0123456789ABCDEF".

(** [zero[lsd]] with [zero = digits + 9]; a remainder by ten is in [-9, 9]. *)
Definition zero (lsd : Z) : ascii := default "000"%char (digits !! Z.to_nat (9 + lsd)).
Definition hex (lsd : Z) : ascii := default "000"%char (digitsHex !! Z.to_nat lsd).

(** The characters the [do] loops store, in the order of the stores. Division
    truncates. A 64-bit value has at most 20 digits. *)
Fixpoint convert_loop (fuel : nat) (i : Z) : bytes :=
  match fuel with
  | O => []
  | S fuel =>
      let lsd := Z.rem i 10 in
      let i := Z.quot i 10 in
      zero lsd :: (if i =? 0 then [] else convert_loop fuel i)
  end.
Fixpoint convertHex_loop (fuel : nat) (i : Z) : bytes :=
  match fuel with
  | O => []
  | S fuel =>
      let lsd := i mod 16 in
      let i := i / 16 in
      hex lsd :: (if i =? 0 then [] else convertHex_loop fuel i)
  end.

(** The stores from [buf] on, the terminating NUL, and [std::reverse]. *)
Definition store_reversed (v : bytes) (buf : Z) (stored : bytes) : result (bytes * Z) :=
  v ← vec_write v buf (stored ++ ["000"%char]);
  d ← vec_read v buf (zlen stored);
  v ← vec_write v buf (reverse d);
  Ok (v, zlen stored).

Definition convert (v : bytes) (buf value : Z) : result (bytes * Z) :=
  let stored := convert_loop 20 value in
  store_reversed v buf (if value <? 0 then stored ++ ["-"%char] else stored).
Definition convertHex (v : bytes) (buf value : Z) : result (bytes * Z) :=
  store_reversed v buf (convertHex_loop 16 value).

(** *** What they write *)

Lemma zero_digit d : 0 ≤ d < 10 → zero d = Format.digit d ∧ zero (- d) = Format.digit d.
Proof.
  intros. assert (d = 0 ∨ d = 1 ∨ d = 2 ∨ d = 3 ∨ d = 4 ∨ d = 5 ∨ d = 6 ∨ d = 7 ∨ d = 8 ∨ d = 9) as Hd by lia.
  repeat destruct Hd as [->|Hd]; subst; done.
Qed.

Lemma zero_rem i : zero (Z.rem i 10) = Format.digit (Z.abs i mod 10).
Proof.
  pose proof (Z.mod_pos_bound (Z.abs i) 10 ltac:(lia)) as Hb.
  destruct (Z.leb_spec 0 i).
  - rewrite Z.rem_mod_nonneg, Z.abs_eq in * by lia. by apply zero_digit.
  - replace i with (- (- i)) at 1 by lia. rewrite Z.rem_opp_l, Z.rem_mod_nonneg by lia.
    rewrite Z.abs_neq in * by lia. by apply zero_digit.
Qed.

Lemma abs_quot i : Z.abs (Z.quot i 10) = Z.abs i / 10.
Proof. rewrite <- Z.quot_abs by lia. apply Z.quot_div_nonneg; lia. Qed.

Lemma digits_fuel_step fuel n : 0 ≤ n →
  Format.digits_fuel (S fuel) n = (if n / 10 =? 0 then [] else Format.digits_fuel fuel (n / 10)) ++ [Format.digit (n mod 10)].
Proof.
  intros. cbn [Format.digits_fuel]. destruct (Z.ltb_spec n 10).
  - rewrite Z.div_small, Z.mod_small by lia. done.
  - rewrite (proj2 (Z.eqb_neq _ _)); [done|]. pose proof (Z.div_str_pos n 10). lia.
Qed.

Lemma digits_fuel_irrel f g n :
  0 ≤ n < 10 ^ Z.of_nat f → n < 10 ^ Z.of_nat g → (0 < f)%nat → (0 < g)%nat →
  Format.digits_fuel f n = Format.digits_fuel g n.
Proof.
  revert g n. induction f as [|f IH]; intros [|g] n Hf Hg ??; try lia.
  rewrite !digits_fuel_step by lia. f_equal. destruct (Z.eqb_spec (n / 10) 0); [done|].
  pose proof (Z.div_pos n 10). rewrite !Nat2Z.inj_succ, !Z.pow_succ_r in * by lia.
  assert (n / 10 < 10 ^ Z.of_nat f ∧ n / 10 < 10 ^ Z.of_nat g) as [??]
    by (split; apply Z.div_lt_upper_bound; lia).
  apply IH; try lia; [destruct f|destruct g]; cbn in *; lia.
Qed.

Lemma convert_loop_digits fuel i :
  Z.abs i < 10 ^ Z.of_nat fuel → (0 < fuel)%nat →
  convert_loop fuel i = reverse (Format.digits_fuel fuel (Z.abs i)).
Proof.
  revert i. induction fuel as [|fuel IH]; intros i Hi Hf; [lia|].
  rewrite digits_fuel_step, reverse_app by lia. cbn [convert_loop]. rewrite zero_rem, <- abs_quot.
  cbn. f_equal. destruct (Z.eqb_spec (Z.quot i 10) 0) as [->|Hq]; [done|].
  rewrite (proj2 (Z.eqb_neq _ _)) by lia. apply IH.
  - rewrite abs_quot. apply Z.div_lt_upper_bound; [lia|]. rewrite <- Z.pow_succ_r, <- Nat2Z.inj_succ by lia. done.
  - destruct fuel; [|lia]. change (10 ^ Z.of_nat 1) with 10 in Hi. exfalso. apply Hq. apply Z.quot_small_iff; lia.
Qed.

Definition numeric (v : Z) : Prop := - 2 ^ 63 ≤ v < 2 ^ 64.

Lemma convert_stored value :
  numeric value →
  (if value <? 0 then convert_loop 20 value ++ ["-"%char] else convert_loop 20 value) = reverse (Format.dec value) ∧
  0 < zlen (Format.dec value) ≤ 21.
Proof.
  intros Hv. assert (Z.abs value < 10 ^ Z.of_nat 20) as Ha by (unfold numeric in Hv; lia).
  rewrite convert_loop_digits by lia.
  pose proof (Format.digits_length (Z.abs value) 20) as Hl.
  assert (Format.digits_fuel 20 (Z.abs value) = Format.digits (Z.abs value)) as ->
    by (unfold Format.digits; pose proof (Format.log2_fuel (Z.abs value)); apply digits_fuel_irrel; lia).
  unfold Format.dec. destruct (Z.ltb_spec value 0).
  - rewrite Z.abs_neq in * by lia. rewrite zlen_cons. split; [|lia]. by rewrite reverse_cons.
  - rewrite Z.abs_eq in * by lia. split; [done|lia].
Qed.

Lemma zlen_reverse {A} (l : list A) : zlen (reverse l) = zlen l.
Proof. unfold zlen. by rewrite length_reverse. Qed.

(** The text ends up in place, in order, NUL-terminated; nothing before it changes. *)
Lemma store_reversed_Ok v buf text :
  0 ≤ buf → buf + zlen text < zlen v →
  ∃ v', store_reversed v buf (reverse text) = Ok (v', zlen text) ∧ zlen v' = zlen v ∧
    ztake (buf + zlen text) v' = ztake buf v ++ text.
Proof.
  intros Hb Hl. pose proof (zlen_nonneg text). unfold store_reversed.
  rewrite vec_write_Ok, bind_Ok by (rewrite ?zlen_app, ?zlen_reverse; change (zlen ["000"%char]) with 1; lia).
  set (rest := zdrop _ v). rewrite <- app_assoc.
  assert (zlen (ztake buf v) = buf) as Hp by (apply zlen_ztake; lia).
  rewrite vec_read_Ok, bind_Ok; [|lia|apply zlen_nonneg|].
  2: { rewrite !zlen_app, Hp. pose proof (zlen_nonneg rest). change (zlen ["000"%char]) with 1. lia. }
  rewrite (zdrop_app_exact buf) by done. rewrite (ztake_app_exact (zlen (reverse text))) by done.
  rewrite reverse_involutive, zlen_reverse.
  rewrite vec_write_Ok, bind_Ok; [|lia|].
  2: { rewrite !zlen_app, Hp, zlen_reverse. pose proof (zlen_nonneg rest). change (zlen ["000"%char]) with 1. lia. }
  rewrite (ztake_app_exact buf) by done. eexists. split; [done|]. split.
  - rewrite !zlen_app, Hp, zlen_zdrop; rewrite !zlen_app, zlen_reverse, Hp; unfold rest;
      rewrite zlen_zdrop; rewrite ?zlen_app, ?zlen_reverse; change (zlen ["000"%char]) with 1; lia.
  - rewrite app_assoc. apply ztake_app_exact. rewrite zlen_app. lia.
Qed.

Lemma convert_Ok v buf value :
  numeric value → 0 ≤ buf → buf + zlen (Format.dec value) < zlen v →
  ∃ v', convert v buf value = Ok (v', zlen (Format.dec value)) ∧ zlen v' = zlen v ∧
    ztake (buf + zlen (Format.dec value)) v' = ztake buf v ++ Format.dec value.
Proof.
  intros Hv Hb Hl. unfold convert. rewrite (proj1 (convert_stored value Hv)). by apply store_reversed_Ok.
Qed.

(** *** Hexadecimal *)

Definition hex_val (c : ascii) : Z :=
  if byte_val c <? 65 then byte_val c - 48 else byte_val c - 55.
Definition hex_read (l : bytes) : Z := fold_left (λ acc c, 16 * acc + hex_val c) l 0.

Lemma hex_val_hex d : 0 ≤ d < 16 → hex_val (hex d) = d.
Proof.
  intros. assert (d = 0 ∨ d = 1 ∨ d = 2 ∨ d = 3 ∨ d = 4 ∨ d = 5 ∨ d = 6 ∨ d = 7 ∨ d = 8 ∨ d = 9 ∨ d = 10 ∨ d = 11 ∨
    d = 12 ∨ d = 13 ∨ d = 14 ∨ d = 15) as Hd by lia.
  repeat destruct Hd as [->|Hd]; subst; done.
Qed.

Lemma convertHex_loop_read fuel i :
  0 ≤ i < 16 ^ Z.of_nat fuel → (0 < fuel)%nat →
  hex_read (reverse (convertHex_loop fuel i)) = i ∧ zlen (convertHex_loop fuel i) ≤ Z.of_nat fuel.
Proof.
  revert i. induction fuel as [|fuel IH]; intros i Hi Hf; [lia|]. cbn [convertHex_loop].
  pose proof (Z.mod_pos_bound i 16 ltac:(lia)). pose proof (Z.div_mod i 16 ltac:(lia)).
  rewrite reverse_cons, zlen_cons. unfold hex_read. rewrite fold_left_app. cbn [fold_left].
  rewrite hex_val_hex by done. destruct (Z.eqb_spec (i / 16) 0) as [E|E].
  - cbn. rewrite zlen_nil. lia.
  - rewrite Nat2Z.inj_succ, Z.pow_succ_r in Hi by lia. pose proof (Z.div_pos i 16).
    assert (i / 16 < 16 ^ Z.of_nat fuel) by (apply Z.div_lt_upper_bound; lia).
    destruct (IH (i / 16)) as [Hr Hl]; [lia|destruct fuel; cbn in *; lia|].
    unfold hex_read in Hr. rewrite Hr. lia.
Qed.

(** The hexadecimal text of a number: most significant digit first, no leading zeros,
    [0]-[9] and [A]-[F] by their character codes. *)
Definition hex_char (d : Z) : ascii := Ascii.ascii_of_nat (Z.to_nat (if d <? 10 then 48 + d else 55 + d)).
Fixpoint hex_digits (len : nat) (i : Z) : bytes :=
  match len with
  | O => []
  | S len => (if i <? 16 then [] else hex_digits len (i / 16)) ++ [hex_char (i mod 16)]
  end.
Definition hex_text (i : Z) : bytes := hex_digits 16 i.

Lemma hex_hex_char d : 0 ≤ d < 16 → hex d = hex_char d.
Proof.
  intros. assert (d = 0 ∨ d = 1 ∨ d = 2 ∨ d = 3 ∨ d = 4 ∨ d = 5 ∨ d = 6 ∨ d = 7 ∨ d = 8 ∨ d = 9 ∨ d = 10 ∨ d = 11 ∨
    d = 12 ∨ d = 13 ∨ d = 14 ∨ d = 15) as Hd by lia.
  repeat destruct Hd as [->|Hd]; subst; done.
Qed.

Lemma convertHex_loop_text fuel : ∀ i, 0 ≤ i → reverse (convertHex_loop fuel i) = hex_digits fuel i.
Proof.
  induction fuel as [|fuel IH]; intros i Hi; [done|]. cbn [convertHex_loop hex_digits].
  rewrite reverse_cons, hex_hex_char by (apply Z.mod_pos_bound; lia). f_equal.
  destruct (Z.ltb_spec i 16).
  - by rewrite Z.div_small by lia.
  - pose proof (Z.div_le_lower_bound i 16 1 ltac:(lia) ltac:(lia)).
    rewrite (proj2 (Z.eqb_neq _ _)) by lia. apply IH. lia.
Qed.

Lemma convertHex_Ok v buf value :
  in_u 64 value → 0 ≤ buf → buf + 16 < zlen v →
  ∃ v' text, convertHex v buf value = Ok (v', zlen text) ∧ zlen v' = zlen v ∧ zlen text ≤ 16 ∧
    hex_read text = value ∧ text = hex_text value ∧
    ztake (buf + zlen text) v' = ztake buf v ++ text.
Proof.
  intros Hv Hb Hl. destruct (convertHex_loop_read 16 value) as [Hr Hlen]; [exact Hv|lia|].
  set (text := reverse (convertHex_loop 16 value)) in *. assert (zlen text ≤ 16) by (unfold text; rewrite zlen_reverse; lia).
  unfold convertHex. destruct (store_reversed_Ok v buf text) as (v' & E & Hz & Ht); [done|lia|].
  unfold text in E. rewrite reverse_involutive in E. exists v', text.
  split_and!; try done. apply convertHex_loop_text. apply Hv.
Qed.

Lemma hex_text_length value : in_u 64 value → zlen (hex_text value) ≤ 16.
Proof.
  intros Hv. unfold hex_text. rewrite <- convertHex_loop_text, zlen_reverse by apply Hv.
  exact (proj2 (convertHex_loop_read 16 value Hv ltac:(lia))).
Qed.
End Convert.

(** ** [%.12g] of a double

    A finite double is a fraction; the conversion rounds the exact value to
    twelve significant digits, half to even. *)
Module Double.

(** [p / q] to the nearest integer, ties to even. *)
Definition rne (p q : Z) : Z :=
  let f := p / q in let r := p mod q in
  if 2 * r <? q then f else if q <? 2 * r then f + 1 else if Z.even f then f else f + 1.

Inductive double := Finite (neg : bool) (num den : Z) | Inf (neg : bool) | NaN (neg : bool).

(** Magnitudes a binary64 can have. *)
Definition is_double (d : double) : Prop :=
  match d with
  | Finite _ num den => 0 ≤ num ∧ 0 < den ≤ 2 ^ 1074 ∧ num ≤ 2 ^ 1024 * den
  | _ => True
  end.

(** [X] with 10^X <= p/q < 10^(X+1) *)
Definition exponent10 (p q : Z) : Z :=
  if q <=? p then zlen (Format.digits (p / q)) - 1
  else - zlen (Format.digits ((q - 1) / p)).
Definition scaled (p q k : Z) : Z := if 0 <=? k then rne (p * 10 ^ k) q else rne p (q * 10 ^ (- k)).

Fixpoint drop_zeros (l : bytes) : bytes :=
  match l with "0"%char :: l => drop_zeros l | _ => l end.
(** Digits behind the point, with the point, unless only zeros are left. *)
Definition fraction (l : bytes) : bytes :=
  match drop_zeros (reverse l) with [] => [] | k => "."%char :: reverse k end.

Definition g12 (p q : Z) : bytes :=
  if p =? 0 then ["0"%char]
  else
    let X := exponent10 p q in
    let R := scaled p q (11 - X) in
    let '(X, R) := if 10 ^ 12 <=? R then (X + 1, 10 ^ 11) else (X, R) in
    let D := Format.digits R in
    if (-4 <=? X) && (X <? 12)
    then if 0 <=? X then ztake (X + 1) D ++ fraction (zdrop (X + 1) D)
         else "0"%char :: fraction (zrep (- X - 1) "0"%char ++ D)
    else ztake 1 D ++ fraction (zdrop 1 D) ++
         "e"%char :: (if X <? 0 then "-"%char else "+"%char) :: Format.dec_pad0 2 (Z.abs X).

Definition format_g12 (d : double) : bytes :=
  match d with
  | Finite neg num den => (if neg then ["-"%char] else []) ++ g12 num den
  | Inf neg => (if neg then ["-"%char] else []) ++ Channel.str "inf"
  | NaN neg => (if neg then ["-"%char] else []) ++ Channel.str "nan"
  end.

Example g12_pi : format_g12 (Finite false 884279719003555 (2 ^ 48)) = Channel.str "3.14159265359".
Proof. reflexivity. Qed.
Example g12_small : format_g12 (Finite true 5 (2 ^ 20)) = Channel.str "-4.76837158203e-06".
Proof. reflexivity. Qed.
Example g12_million : format_g12 (Finite false 1000000 1) = Channel.str "1000000".
Proof. reflexivity. Qed.
Example g12_half : format_g12 (Finite false 1 2) = Channel.str "0.5".
Proof. reflexivity. Qed.

(** *** It never takes more than twenty characters *)

Lemma rne_le a b c : 0 ≤ a → 0 < b → a ≤ c * b → 0 ≤ rne a b ≤ c.
Proof.
  intros Ha Hb Hc. unfold rne. pose proof (Z.div_mod a b ltac:(lia)). pose proof (Z.mod_pos_bound a b Hb).
  pose proof (Z.div_pos a b Ha Hb). assert (a / b ≤ c) by (apply Z.div_le_upper_bound; lia).
  assert (0 < a mod b → a / b < c) by nia.
  destruct (Z.ltb_spec (2 * (a mod b)) b), (Z.ltb_spec b (2 * (a mod b))); try destruct (Z.even (a / b)); lia.
Qed.

Lemma digits_bounds n : 0 < n → 10 ^ (zlen (Format.digits n) - 1) ≤ n < 10 ^ zlen (Format.digits n) ∧ 0 < zlen (Format.digits n).
Proof.
  intros Hn. pose proof (Format.dec_read_bound _ (Format.digits_all n ltac:(lia))) as Hb.
  rewrite Format.digits_read in Hb by lia. set (k := zlen (Format.digits n)) in *.
  assert (0 < k) as Hk.
  { pose proof (zlen_nonneg (Format.digits n)). destruct (decide (k = 0)) as [E|]; [rewrite E in Hb; lia|unfold k in *; lia]. }
  split; [|done]. split; [|lia]. destruct (decide (k = 1)) as [->|]; [cbn; lia|].
  destruct (Z.le_gt_cases (10 ^ (k - 1)) n); [done|].
  pose proof (Format.digits_length n (Z.to_nat (k - 1))) as Hl. rewrite Z2Nat.id in Hl by lia. fold k in Hl. lia.
Qed.

(** [p/q < 10^(X+1)], without negative powers. *)
Lemma exponent10_upper p q :
  0 < p → 0 < q →
  let X := exponent10 p q in
  (0 ≤ X ∧ p < q * 10 ^ (X + 1)) ∨ (X < 0 ∧ p * 10 ^ (- X - 1) < q).
Proof.
  intros Hp Hq X. unfold X, exponent10. destruct (Z.leb_spec q p).
  - pose proof (Z.div_str_pos p q ltac:(lia)). destruct (digits_bounds (p / q)) as [[_ Hu] Hpos]; [done|].
    left. split; [lia|]. rewrite Z.sub_add. pose proof (Z.div_mod p q ltac:(lia)). pose proof (Z.mod_pos_bound p q Hq). nia.
  - assert (0 < (q - 1) / p) by (apply Z.div_str_pos; lia). destruct (digits_bounds ((q - 1) / p)) as [[Hl _] Hpos]; [done|].
    right. split; [lia|]. rewrite Z.opp_involutive. pose proof (Z.mul_div_le (q - 1) p Hp). nia.
Qed.

Lemma exponent10_range num den :
  0 < num → 0 < den ≤ 2 ^ 1074 → num ≤ 2 ^ 1024 * den → -325 ≤ exponent10 num den ≤ 309.
Proof.
  intros Hp Hq Hr. unfold exponent10. destruct (Z.leb_spec den num).
  - assert (0 < num / den) by (apply Z.div_str_pos; lia).
    assert (num / den ≤ 2 ^ 1024) by (apply Z.div_le_upper_bound; lia).
    assert (2 ^ 1024 < 10 ^ Z.of_nat 309) by (vm_compute; reflexivity).
    pose proof (Format.digits_length (num / den) 309). lia.
  - assert (0 ≤ (den - 1) / num) by (apply Z.div_pos; lia).
    assert ((den - 1) / num ≤ 2 ^ 1074) by (apply Z.div_le_upper_bound; nia).
    assert (2 ^ 1074 < 10 ^ Z.of_nat 325) by (vm_compute; reflexivity).
    pose proof (Format.digits_length ((den - 1) / num) 325). lia.
Qed.

Lemma scaled_le p q : 0 < p → 0 < q → 0 ≤ scaled p q (11 - exponent10 p q) ≤ 10 ^ 12.
Proof.
  intros Hp Hq. pose proof (exponent10_upper p q Hp Hq) as HX. cbn zeta in HX. set (X := exponent10 p q) in *.
  unfold scaled. destruct (Z.leb_spec 0 (11 - X)).
  - apply rne_le; [apply Z.mul_nonneg_nonneg; lia|done|]. destruct HX as [[Hs HX]|[Hs HX]].
    + replace (10 ^ 12) with (10 ^ (X + 1) * 10 ^ (11 - X)) by (rewrite <- Z.pow_add_r by lia; f_equal; lia).
      assert (0 < 10 ^ (11 - X)) by lia. nia.
    + replace (11 - X) with ((- X - 1) + 12) by lia. rewrite Z.pow_add_r by lia. nia.
  - assert (0 < 10 ^ (- (11 - X))) by lia. apply rne_le; [lia|nia|]. destruct HX as [[Hs HX]|[Hs HX]]; [|lia].
    replace (X + 1) with (- (11 - X) + 12) in HX by lia. rewrite Z.pow_add_r in HX by lia. nia.
Qed.

Lemma fraction_length l : zlen (fraction l) ≤ zlen l + 1.
Proof.
  assert (∀ k, zlen (drop_zeros k) ≤ zlen k) as Hz.
  { induction k as [|c k IH]; [done|]. rewrite zlen_cons. destruct (decide (c = "0"%char)) as [->|Hc].
    - cbn. lia.
    - assert (drop_zeros (c :: k) = c :: k) as ->; [|rewrite zlen_cons; lia].
      destruct c as [[] [] [] [] [] [] [] []]; done. }
  specialize (Hz (reverse l)). rewrite Convert.zlen_reverse in Hz. unfold fraction.
  pose proof (zlen_nonneg l). destruct (drop_zeros (reverse l)); [rewrite zlen_nil; lia|].
  rewrite zlen_cons, Convert.zlen_reverse. lia.
Qed.

Lemma zlen_ztake_le {A} n (l : list A) : zlen (ztake n l) ≤ zlen l.
Proof. unfold zlen, ztake. rewrite length_take. lia. Qed.

Lemma g12_length num den :
  0 ≤ num → 0 < den ≤ 2 ^ 1074 → num ≤ 2 ^ 1024 * den → zlen (g12 num den) ≤ 19.
Proof.
  intros Hp Hq Hr. unfold g12. destruct (Z.eqb_spec num 0) as [|Hn]; [done|].
  pose proof (exponent10_range num den ltac:(lia) Hq Hr) as HX. pose proof (scaled_le num den ltac:(lia) ltac:(lia)) as HR.
  set (X := exponent10 num den) in *. set (R := scaled num den (11 - X)) in *.
  destruct (if 10 ^ 12 <=? R then (X + 1, 10 ^ 11) else (X, R)) as [X' R'] eqn:E.
  assert (-325 ≤ X' ≤ 310 ∧ 0 ≤ R' < 10 ^ Z.of_nat 12) as [HX' HR'].
  { destruct (Z.leb_spec (10 ^ 12) R); injection E as <- <-; lia. }
  clear E. pose proof (Format.digits_length R' 12 HR' ltac:(lia)) as HD. set (D := Format.digits R') in *.
  destruct ((-4 <=? X') && (X' <? 12)) eqn:Eb.
  - to_prop. destruct (Z.leb_spec 0 X').
    + pose proof (fraction_length (zdrop (X' + 1) D)). pose proof (ztake_zdrop (X' + 1) D) as Hs.
      apply (f_equal zlen) in Hs. rewrite zlen_app in *. lia.
    + rewrite zlen_cons. pose proof (fraction_length (zrep (- X' - 1) "0"%char ++ D)) as Hf.
      rewrite zlen_app, zlen_zrep in Hf by lia. lia.
  - rewrite !zlen_app, !zlen_cons. pose proof (fraction_length (zdrop 1 D)). pose proof (ztake_zdrop 1 D) as Hs.
    apply (f_equal zlen) in Hs. rewrite zlen_app in Hs.
    assert (zlen (Format.dec_pad0 2 (Z.abs X')) ≤ 3); [|lia].
    unfold Format.dec_pad0. rewrite (proj2 (Z.ltb_ge _ _)) by lia. rewrite zlen_app.
    pose proof (Format.digits_length (Z.abs X') 3 ltac:(change (10 ^ Z.of_nat 3) with 1000; lia) ltac:(lia)).
    destruct (Z.leb_spec (2 - zlen (Format.digits (Z.abs X'))) 0).
    + rewrite zrep_nonpos, zlen_nil by lia. lia.
    + rewrite zlen_zrep; lia.
Qed.

Lemma format_g12_length d : is_double d → zlen (format_g12 d) ≤ 20.
Proof.
  destruct d as [neg num den|neg|neg]; cbn [is_double format_g12]; [|by destruct neg..].
  intros (? & ? & ?). rewrite zlen_app. pose proof (g12_length num den ltac:(done) ltac:(done) ltac:(done)).
  destruct neg; [change (zlen ["-"%char]) with 1|rewrite zlen_nil]; lia.
Qed.
End Double.

(** ** The buffer

    [data_] has [SIZE] bytes, which the constructor leaves as they are. *)
Module FixedBuffer.

Record FixedBuffer := mkFixedBuffer { data_ : bytes; cur_ : Z }.

Definition kSmallBuffer : Z := 4000.
Definition kLargeBuffer : Z := 4000 * 1000.

Definition make (storage : bytes) : FixedBuffer := mkFixedBuffer storage 0.
Definition data (b : FixedBuffer) : bytes := data_ b.
Definition end_ (b : FixedBuffer) : Z := zlen (data_ b).
Definition length (b : FixedBuffer) : Z := s32 (cur_ b).
Definition current (b : FixedBuffer) : Z := cur_ b.
Definition avail (b : FixedBuffer) : Z := s32 (end_ b - cur_ b).
Definition append (buf : bytes) (b : FixedBuffer) : result FixedBuffer :=
  let len := zlen buf in
  if len <? u64 (avail b)
  then v ← vec_write (data_ b) (cur_ b) buf; Ok (mkFixedBuffer v (cur_ b + len))
  else Ok b.
(** Moving the pointer beyond the end of the array is undefined. *)
Definition add (len : Z) (b : FixedBuffer) : result FixedBuffer :=
  if cur_ b + len <=? end_ b then Ok (mkFixedBuffer (data_ b) (cur_ b + len)) else Fail OutOfRange.
Definition reset (b : FixedBuffer) : FixedBuffer := mkFixedBuffer (data_ b) 0.
Definition bzero (b : FixedBuffer) : FixedBuffer := mkFixedBuffer (zrep (zlen (data_ b)) "000"%char) (cur_ b).
Definition debugString (b : FixedBuffer) : result FixedBuffer :=
  v ← vec_write (data_ b) (cur_ b) ["000"%char]; Ok (mkFixedBuffer v (cur_ b)).
Definition toString (b : FixedBuffer) : result bytes := vec_read (data_ b) 0 (length b).

(** One byte is always left for the NUL of [debugString]. *)
Definition buf_inv (size : Z) (b : FixedBuffer) : Prop :=
  zlen (data_ b) = size ∧ 0 ≤ cur_ b < size ∧ size < 2 ^ 31.
Definition text (b : FixedBuffer) : bytes := ztake (cur_ b) (data_ b).

Section facts.
Context (size : Z) (b : FixedBuffer) (Hinv : buf_inv size b).

Lemma avail_eq : avail b = size - cur_ b.
Proof. destruct Hinv as (Hz & Hc & Hs). unfold avail, end_. rewrite Hz. apply wraps_small; [lia|]. unfold in_s. lia. Qed.

Lemma text_length : zlen (text b) = cur_ b.
Proof. destruct Hinv as (Hz & Hc & Hs). apply zlen_ztake. lia. Qed.

Lemma toString_text : toString b = Ok (text b).
Proof.
  destruct Hinv as (Hz & Hc & Hs). unfold toString, length.
  rewrite wraps_small by (unfold in_s; lia). rewrite vec_read_Ok by lia. done.
Qed.

Lemma append_spec buf :
  zlen buf < 2 ^ 63 →
  ∃ b', append buf b = Ok b' ∧ buf_inv size b' ∧
    text b' = if zlen buf <? size - cur_ b then text b ++ buf else text b.
Proof.
  destruct Hinv as (Hz & Hc & Hs). intros Hl. unfold append. rewrite avail_eq, wrapu_small by (unfold in_u; lia).
  destruct (Z.ltb_spec (zlen buf) (size - cur_ b)); [|by exists b].
  pose proof (zlen_nonneg buf). assert (zlen (ztake (cur_ b) (data_ b)) = cur_ b) as Ht by (apply zlen_ztake; lia).
  rewrite vec_write_Ok, bind_Ok by lia. eexists. split; [done|]. split.
  - split_and!; cbn; [|lia..]. rewrite !zlen_app, Ht, zlen_zdrop; lia.
  - unfold text. cbn. rewrite app_assoc. apply ztake_app_exact. rewrite zlen_app. lia.
Qed.

(** Text stored behind the pointer, which is then moved over it. *)
Lemma add_stored v n (s : bytes) :
  zlen v = size → n = zlen s → cur_ b + n < size → ztake (cur_ b + n) v = ztake (cur_ b) (data_ b) ++ s →
  ∃ b', add n (mkFixedBuffer v (cur_ b)) = Ok b' ∧ buf_inv size b' ∧ text b' = text b ++ s.
Proof.
  destruct Hinv as (Hz & Hc & Hs). intros Hv -> Hn Ht. pose proof (zlen_nonneg s). unfold add, end_. cbn.
  rewrite (proj2 (Z.leb_le _ _)) by lia. eexists. split; [done|]. split; [split_and!; cbn; lia|]. exact Ht.
Qed.

Lemma debugString_spec : ∃ b', debugString b = Ok b' ∧ buf_inv size b' ∧ text b' = text b.
Proof.
  destruct Hinv as (Hz & Hc & Hs). unfold debugString. change (zlen ["000"%char]) with 1 in *.
  rewrite vec_write_Ok, bind_Ok by (change (zlen ["000"%char]) with 1; lia).
  assert (zlen (ztake (cur_ b) (data_ b)) = cur_ b) as Ht by (apply zlen_ztake; lia).
  eexists. split; [done|]. split.
  - split_and!; cbn [data_ cur_]; [|lia..]. rewrite !zlen_app, Ht, zlen_zdrop; change (zlen ["000"%char]) with 1; lia.
  - unfold text. cbn. by apply ztake_app_exact.
Qed.
End facts.

Lemma make_inv storage : 0 < zlen storage < 2 ^ 31 → buf_inv (zlen storage) (make storage).
Proof. intros. split_and!; cbn; lia. Qed.
End FixedBuffer.

(** ** The stream *)
Module LogStream.
Import FixedBuffer.

Definition kMaxNumericSize : Z := 32.

(** [operator<<] for the integer types: the value is in the type's range. *)
Definition formatInteger (v : Z) (b : FixedBuffer) : result FixedBuffer :=
  if kMaxNumericSize <=? avail b
  then '(d, len) ← Convert.convert (data_ b) (current b) v;
       add len (mkFixedBuffer d (cur_ b))
  else Ok b.
Definition shl_short (v : Z) := formatInteger v.
Definition shl_int (v : Z) := formatInteger v.
Definition shl_uint (v : Z) := formatInteger v.
Definition shl_long (v : Z) := formatInteger v.
Definition shl_ulong (v : Z) := formatInteger v.

Definition shl_pointer (v : Z) (b : FixedBuffer) : result FixedBuffer :=
  if kMaxNumericSize <=? avail b
  then d ← vec_write (data_ b) (current b) ["0"%char; "x"%char];
       '(d, len) ← Convert.convertHex d (current b + 2) v;
       add (len + 2) (mkFixedBuffer d (cur_ b))
  else Ok b.

(** [snprintf] stores at most 31 characters and a NUL, and returns the full length. *)
Definition shl_double (v : Double.double) (b : FixedBuffer) : result FixedBuffer :=
  if kMaxNumericSize <=? avail b
  then let t := Double.format_g12 v in
       d ← vec_write (data_ b) (current b) (Format.snprintf kMaxNumericSize t ++ ["000"%char]);
       add (zlen t) (mkFixedBuffer d (cur_ b))
  else Ok b.

Definition shl_bool (v : bool) : FixedBuffer → result FixedBuffer :=
  append (if v then ["1"%char] else ["0"%char]).
Definition shl_char (v : ascii) : FixedBuffer → result FixedBuffer := append [v].
(** A C string is given by the characters before its NUL. *)
Definition shl_cstr (str : option bytes) : FixedBuffer → result FixedBuffer :=
  match str with Some s => append s | None => append (Channel.str "(null)") end.
Definition shl_string (v : bytes) : FixedBuffer → result FixedBuffer := append v.
Definition shl_piece (v : bytes) : FixedBuffer → result FixedBuffer := append v.
Definition shl_buffer (v : FixedBuffer) (b : FixedBuffer) : result FixedBuffer :=
  t ← toString v; shl_piece t b.
Definition resetBuffer (b : FixedBuffer) : FixedBuffer := reset b.

(** [Fmt(fmt, val)]: [formatted] is what the conversion of [val] by [fmt] prints. *)
Definition Fmt (formatted : bytes) : result bytes :=
  _ ← check (zlen formatted <? 32);
  Ok (Format.snprintf 32 formatted).
Definition shl_fmt (fmt : bytes) : FixedBuffer → result FixedBuffer := append fmt.

(** *** Specification

    What is written, and when there is room for it. *)
Inductive item :=
  | Integer (v : Z) | Pointer (v : Z) | Real (v : Double.double) | Bool (v : bool) | Char (c : ascii)
  | CStr (s : option bytes) | Str (s : bytes) | Formatted (s : bytes).

Definition shl (i : item) : FixedBuffer → result FixedBuffer :=
  match i with
  | Integer v => shl_long v
  | Pointer v => shl_pointer v
  | Real v => shl_double v
  | Bool v => shl_bool v
  | Char c => shl_char c
  | CStr s => shl_cstr s
  | Str s => shl_string s
  | Formatted s => λ b, f ← Fmt s; shl_fmt f b
  end.
Fixpoint shl_all (l : list item) (b : FixedBuffer) : result FixedBuffer :=
  match l with [] => Ok b | i :: l => b ← shl i b; shl_all l b end.

Definition text_of (i : item) : bytes :=
  match i with
  | Integer v => Format.dec v
  | Pointer v => "0"%char :: "x"%char :: Convert.hex_text v
  | Real v => Double.format_g12 v
  | Bool v => if v then ["1"%char] else ["0"%char]
  | Char c => [c]
  | CStr s => default (Channel.str "(null)") s
  | Str s => s
  | Formatted s => s
  end.
Definition numeric_item (i : item) : bool :=
  match i with Integer _ | Pointer _ | Real _ => true | _ => false end.
Definition has_room (i : item) (room : Z) : bool :=
  if numeric_item i then kMaxNumericSize <=? room else zlen (text_of i) <? room.
Definition write (i : item) (room : Z) (s : bytes) : bytes :=
  if has_room i room then s ++ text_of i else s.
Definition render (l : list item) : bytes :=
  fold_left (λ s i, write i (kSmallBuffer - zlen s) s) l [].

(** Values of the types the operators take. *)
Definition legal_item (i : item) : Prop :=
  match i with
  | Integer v => Convert.numeric v
  | Pointer v => in_u 64 v
  | Real v => Double.is_double v
  | CStr s => zlen (default [] s) < 2 ^ 63
  | Str s => zlen s < 2 ^ 63
  | Formatted s => zlen s < 32
  | _ => True
  end.

Section facts.
Context (size : Z).

(** The operators for numbers: there is room for 32 characters, or nothing is written. *)
Lemma numeric_written i b (out : result FixedBuffer) :
  buf_inv size b → numeric_item i = true →
  (32 ≤ size - cur_ b → ∃ b', out = Ok b' ∧ buf_inv size b' ∧ text b' = text b ++ text_of i) →
  ∃ b', (if kMaxNumericSize <=? avail b then out else Ok b) = Ok b' ∧ buf_inv size b' ∧
    text b' = write i (size - cur_ b) (text b).
Proof.
  intros Hb Hn Hout. unfold write, has_room. rewrite Hn, (avail_eq size b Hb). unfold kMaxNumericSize in *.
  destruct (Z.leb_spec 32 (size - cur_ b)); [by apply Hout|by exists b].
Qed.

Lemma shl_integer_spec v b :
  buf_inv size b → Convert.numeric v →
  ∃ b', shl_long v b = Ok b' ∧ buf_inv size b' ∧ text b' = write (Integer v) (size - cur_ b) (text b).
Proof.
  intros Hb Hv. apply numeric_written; [done..|]. intros Hroom. destruct (Hb) as (Hz & Hc & Hs).
  pose proof (proj2 (Convert.convert_stored v Hv)) as Hlen.
  destruct (Convert.convert_Ok (data_ b) (cur_ b) v Hv) as (d & E & Hd & Ht); [lia..|].
  unfold current. rewrite E, bind_Ok. apply (add_stored size b Hb); [lia|done|lia|done].
Qed.

Lemma shl_pointer_spec v b :
  buf_inv size b → in_u 64 v →
  ∃ b', shl_pointer v b = Ok b' ∧ buf_inv size b' ∧ text b' = write (Pointer v) (size - cur_ b) (text b).
Proof.
  intros Hb Hv. apply numeric_written; [done..|]. intros Hroom. destruct (Hb) as (Hz & Hc & Hs). unfold current.
  set (p := ["0"%char; "x"%char]). assert (zlen p = 2) as Hp by done.
  assert (zlen (ztake (cur_ b) (data_ b)) = cur_ b) as Ht by (apply zlen_ztake; lia).
  rewrite vec_write_Ok, bind_Ok by lia. set (d := _ ++ p ++ _).
  assert (zlen d = size) as Hd by (unfold d; rewrite !zlen_app, Ht, zlen_zdrop; lia).
  destruct (Convert.convertHex_Ok d (cur_ b + 2) v Hv) as (d' & t & E & Hd' & Hl & _ & -> & Hpre); [lia..|].
  rewrite E, bind_Ok. set (t := Convert.hex_text v) in *.
  apply (add_stored size b Hb _ _ (p ++ t)); [lia|rewrite zlen_app; lia|lia|].
  replace (cur_ b + (zlen t + 2)) with (cur_ b + 2 + zlen t) by lia. rewrite Hpre, app_assoc. f_equal.
  unfold d. rewrite app_assoc. apply ztake_app_exact. rewrite zlen_app. lia.
Qed.

Lemma shl_double_spec v b :
  buf_inv size b → Double.is_double v →
  ∃ b', shl_double v b = Ok b' ∧ buf_inv size b' ∧ text b' = write (Real v) (size - cur_ b) (text b).
Proof.
  intros Hb Hv. apply numeric_written; [done..|]. intros Hroom. destruct (Hb) as (Hz & Hc & Hs). unfold current.
  pose proof (Double.format_g12_length v Hv) as Hlen. cbn [text_of]. set (t := Double.format_g12 v) in *.
  pose proof (zlen_nonneg t). assert (zlen (ztake (cur_ b) (data_ b)) = cur_ b) as Ht by (apply zlen_ztake; lia).
  unfold Format.snprintf, kMaxNumericSize. rewrite ztake_all by lia.
  assert (zlen (t ++ ["000"%char]) = zlen t + 1) as Hl by (by rewrite zlen_app).
  rewrite vec_write_Ok, bind_Ok by lia.
  apply (add_stored size b Hb _ _ t); [rewrite !zlen_app, Ht, zlen_zdrop; rewrite ?zlen_app; change (zlen ["000"%char]) with 1; lia|done|lia|].
  rewrite <- app_assoc, app_assoc. apply ztake_app_exact. rewrite zlen_app. lia.
Qed.

Lemma shl_append_spec i b :
  buf_inv size b → numeric_item i = false → zlen (text_of i) < 2 ^ 63 → shl i b = append (text_of i) b →
  ∃ b', shl i b = Ok b' ∧ buf_inv size b' ∧ text b' = write i (size - cur_ b) (text b).
Proof.
  intros Hb Hn Hl ->. destruct (append_spec size b Hb (text_of i) Hl) as (b' & E & Hb' & Ht).
  exists b'. split_and!; [done..|]. unfold write, has_room. rewrite Hn. exact Ht.
Qed.

Lemma shl_spec i b :
  buf_inv size b → legal_item i →
  ∃ b', shl i b = Ok b' ∧ buf_inv size b' ∧ text b' = write i (size - cur_ b) (text b).
Proof.
  intros Hb Hi. destruct i as [v|v|v|v|c|s|s|s].
  - by apply shl_integer_spec.
  - by apply shl_pointer_spec.
  - by apply shl_double_spec.
  - apply shl_append_spec; [done..| |done]. by destruct v.
  - by apply shl_append_spec.
  - apply shl_append_spec; [done..| |by destruct s]. by destruct s.
  - by apply shl_append_spec.
  - cbn in Hi. apply shl_append_spec; [done|done|cbn; lia|].
    unfold shl, Fmt, Format.snprintf. rewrite (proj2 (Z.ltb_lt (zlen s) 32)), (ztake_all (32 - 1)) by lia. done.
Qed.

Lemma shl_all_spec l : ∀ b,
  buf_inv size b → Forall legal_item l →
  ∃ b', shl_all l b = Ok b' ∧ buf_inv size b' ∧
    text b' = fold_left (λ s i, write i (size - zlen s) s) l (text b).
Proof.
  induction l as [|i l IH]; intros b Hb Hl; [by exists b|]. apply Forall_cons in Hl as [Hi Hl]. cbn [shl_all fold_left].
  destruct (shl_spec i b Hb Hi) as (b1 & E & Hb1 & Ht). rewrite E, bind_Ok.
  rewrite (text_length size b Hb), <- Ht. by apply IH.
Qed.
End facts.

Lemma numeric_item_length i : legal_item i → numeric_item i = true → zlen (text_of i) < 32.
Proof.
  destruct i as [v|v|v| | | | | ]; try done; intros Hi _; cbn [text_of legal_item] in *.
  - pose proof (proj2 (Convert.convert_stored v Hi)). lia.
  - rewrite !zlen_cons. pose proof (Convert.hex_text_length v Hi). lia.
  - pose proof (Double.format_g12_length v Hi). lia.
Qed.

(** Nothing is dropped as long as the line leaves 32 bytes of the buffer. *)
Lemma render_complete l : ∀ s,
  zlen s + zlen (concat (text_of <$> l)) + kMaxNumericSize ≤ kSmallBuffer →
  fold_left (λ s i, write i (kSmallBuffer - zlen s) s) l s = s ++ concat (text_of <$> l).
Proof.
  unfold kMaxNumericSize, kSmallBuffer. induction l as [|i l IH]; intros s Hl; cbn in *; [by rewrite app_nil_r|].
  rewrite zlen_app in Hl. pose proof (zlen_nonneg (concat (text_of <$> l))). pose proof (zlen_nonneg (text_of i)).
  assert (write i (4000 - zlen s) s = s ++ text_of i) as ->.
  { unfold write, has_room, kMaxNumericSize. destruct (numeric_item i).
    - by rewrite (proj2 (Z.leb_le _ _)) by lia.
    - by rewrite (proj2 (Z.ltb_lt _ _)) by lia. }
  rewrite IH, <- app_assoc; [done|]. rewrite zlen_app. lia.
Qed.

(** C23: Whatever is written to a log stream, no operator stores outside the buffer:
    the stream then holds exactly the texts of the items for which there was
    room, in order and whole (numbers in decimal, pointers in hexadecimal,
    doubles with twelve significant digits), fewer than 4000 characters, and all
    of them while 32 bytes stay free. *)
Theorem logstream_refines storage l :
  zlen storage = kSmallBuffer → Forall legal_item l →
  ∃ b, shl_all l (make storage) = Ok b ∧ toString b = Ok (render l) ∧ zlen (render l) < kSmallBuffer ∧
    (zlen (concat (text_of <$> l)) + kMaxNumericSize ≤ kSmallBuffer → render l = concat (text_of <$> l)) ∧
    is_Some (match debugString b with Ok b' => Some b' | Fail _ => None end).
Proof.
  intros Hz Hl. assert (buf_inv kSmallBuffer (make storage)) as Hb by (rewrite <- Hz; apply make_inv; rewrite Hz; done).
  destruct (shl_all_spec kSmallBuffer l _ Hb Hl) as (b & E & Hb' & Ht). exists b.
  assert (text b = render l) as Hr by (rewrite Ht; done).
  split_and!; [done|by rewrite (toString_text kSmallBuffer), Hr| | |].
  - rewrite <- Hr, (text_length kSmallBuffer) by done. apply Hb'.
  - intros Hc. apply (render_complete l []). rewrite zlen_nil. lia.
  - destruct (debugString_spec kSmallBuffer b Hb') as (b2 & -> & _). eauto.
Qed.

Definition example_items : list item :=
  [Str (Channel.str "x="); Integer (- 2 ^ 63); Char " "%char; Pointer 3735928559; Char " "%char;
   Real (Double.Finite false 1 2); CStr None; Bool true].

Lemma logstream_refines_witness :
  ∃ b, shl_all example_items (make (zrep 4000 "?"%char)) = Ok b ∧
    toString b = Ok (Channel.str "x=-9223372036854775808 0xDEADBEEF 0.5(null)1").
Proof.
  destruct (logstream_refines (zrep 4000 "?"%char) example_items) as (b & E & Hs & _).
  - vm_compute. reflexivity.
  - apply Forall_cons. repeat split; try (unfold Convert.numeric; lia); repeat (constructor; [cbn; unfold Convert.numeric, in_u; vm_compute; intuition discriminate|]); try constructor.
  - exists b. split; [exact E|]. rewrite Hs. vm_compute. reflexivity.
Defined.
End LogStream.
