(* ===== verification/Units.v ===== *)
(** * Quantities with units ([formatSI] and [formatIEC] of [base/LogStream.cc])

    Both functions divide in double precision and print with two, one or no
    digits behind the point. Doubles are exact fractions, rounded to 53 bits,
    ties to even, after the conversion from [int64_t] and after each operation. *)

From S2P Require Import Prelude Endian Format Channel LogStream.
Import Double.

Module Units.

(** A double in the normal range, or zero: numerator, denominator. *)
Definition dbl : Type := Z * Z.

(** [floor (log2 (p / q))] *)
Definition exponent2 (p q : Z) : Z :=
  if q <=? p then Z.log2 (p / q) else - Z.log2_up ((q + p - 1) / p).
(** The double nearest to [p / q]. *)
Definition round64 (p q : Z) : dbl :=
  let e := exponent2 p q - 52 in
  if e <? 0 then (rne (p * 2 ^ (- e)) q, 2 ^ (- e)) else (rne p (q * 2 ^ e) * 2 ^ e, 1).
Definition of_int (s : Z) : dbl :=
  if 0 <=? s then round64 s 1 else let '(a, b) := round64 (- s) 1 in (- a, b).
Definition ddiv (x y : dbl) : dbl := round64 (x.1 * y.2) (x.2 * y.1).
Definition dmul (x y : dbl) : dbl := round64 (x.1 * y.1) (x.2 * y.2).
Definition dlt (x y : dbl) : bool := x.1 * y.2 <? y.1 * x.2.

(** The decimal text of [R / 10^k], and [%.<k>f]. *)
Definition number (k R : Z) : bytes :=
  Format.digits (R / 10 ^ k) ++ (if k =? 0 then [] else "."%char :: Format.dec_pad0 k (R mod 10 ^ k)).
Definition fixed (k : Z) (x : dbl) : bytes := number k (rne (x.1 * 10 ^ k) x.2).

(** [snprintf(buf, sizeof buf, "%.<k>f<suffix>", x)] with [char buf[64]] *)
Definition print (k : Z) (suffix : string) (x : dbl) : bytes :=
  Format.snprintf 64 (fixed k x ++ Channel.str suffix).

Definition formatSI (s : Z) : bytes :=
  let n := of_int s in
  if s <? 1000 then Format.snprintf 64 (Format.dec s)
  else if s <? 9995 then print 2 "k" (ddiv n (of_int (10 ^ 3)))
  else if s <? 99950 then print 1 "k" (ddiv n (of_int (10 ^ 3)))
  else if s <? 999500 then print 0 "k" (ddiv n (of_int (10 ^ 3)))
  else if s <? 9995000 then print 2 "M" (ddiv n (of_int (10 ^ 6)))
  else if s <? 99950000 then print 1 "M" (ddiv n (of_int (10 ^ 6)))
  else if s <? 999500000 then print 0 "M" (ddiv n (of_int (10 ^ 6)))
  else if s <? 9995000000 then print 2 "G" (ddiv n (of_int (10 ^ 9)))
  else if s <? 99950000000 then print 1 "G" (ddiv n (of_int (10 ^ 9)))
  else if s <? 999500000000 then print 0 "G" (ddiv n (of_int (10 ^ 9)))
  else if s <? 9995000000000 then print 2 "T" (ddiv n (of_int (10 ^ 12)))
  else if s <? 99950000000000 then print 1 "T" (ddiv n (of_int (10 ^ 12)))
  else if s <? 999500000000000 then print 0 "T" (ddiv n (of_int (10 ^ 12)))
  else if s <? 9995000000000000 then print 2 "P" (ddiv n (of_int (10 ^ 15)))
  else if s <? 99950000000000000 then print 1 "P" (ddiv n (of_int (10 ^ 15)))
  else if s <? 999500000000000000 then print 0 "P" (ddiv n (of_int (10 ^ 15)))
  else print 2 "E" (ddiv n (of_int (10 ^ 18))).

Definition Ki : dbl := (1024, 1).
Definition Mi : dbl := dmul Ki (1024, 1).
Definition Gi : dbl := dmul Mi (1024, 1).
Definition Ti : dbl := dmul Gi (1024, 1).
Definition Pi : dbl := dmul Ti (1024, 1).
Definition Ei : dbl := dmul Pi (1024, 1).

(** The literals 9.995, 99.95 and 1023.5. *)
Definition d9_995 : dbl := round64 9995 1000.
Definition d99_95 : dbl := round64 9995 100.
Definition d1023_5 : dbl := round64 10235 10.

Definition formatIEC (s : Z) : bytes :=
  let n := of_int s in
  if dlt n Ki then Format.snprintf 64 (Format.dec s)
  else if dlt n (dmul Ki d9_995) then print 2 "Ki" (ddiv n Ki)
  else if dlt n (dmul Ki d99_95) then print 1 "Ki" (ddiv n Ki)
  else if dlt n (dmul Ki d1023_5) then print 0 "Ki" (ddiv n Ki)
  else if dlt n (dmul Mi d9_995) then print 2 "Mi" (ddiv n Mi)
  else if dlt n (dmul Mi d99_95) then print 1 "Mi" (ddiv n Mi)
  else if dlt n (dmul Mi d1023_5) then print 0 "Mi" (ddiv n Mi)
  else if dlt n (dmul Gi d9_995) then print 2 "Gi" (ddiv n Gi)
  else if dlt n (dmul Gi d99_95) then print 1 "Gi" (ddiv n Gi)
  else if dlt n (dmul Gi d1023_5) then print 0 "Gi" (ddiv n Gi)
  else if dlt n (dmul Ti d9_995) then print 2 "Ti" (ddiv n Ti)
  else if dlt n (dmul Ti d99_95) then print 1 "Ti" (ddiv n Ti)
  else if dlt n (dmul Ti d1023_5) then print 0 "Ti" (ddiv n Ti)
  else if dlt n (dmul Pi d9_995) then print 2 "Pi" (ddiv n Pi)
  else if dlt n (dmul Pi d99_95) then print 1 "Pi" (ddiv n Pi)
  else if dlt n (dmul Pi d1023_5) then print 0 "Pi" (ddiv n Pi)
  else if dlt n (dmul Ei d9_995) then print 2 "Ei" (ddiv n Ei)
  else print 1 "Ei" (ddiv n Ei).

Example formatSI_1k : formatSI 1234 = Channel.str "1.23k".
Proof. reflexivity. Qed.
Example formatSI_max : formatSI (2 ^ 63 - 1) = Channel.str "9.22E".
Proof. reflexivity. Qed.
Example formatIEC_max : formatIEC (2 ^ 63 - 1) = Channel.str "8.00Ei".
Proof. reflexivity. Qed.
Example formatIEC_half : formatIEC 1048063 = Channel.str "1023Ki".
Proof. reflexivity. Qed.

(** ** Accuracy and width *)

Lemma rne_near a b : 0 < b → 2 * Z.abs (rne a b * b - a) ≤ b.
Proof.
  intros Hb. unfold rne. pose proof (Z.div_mod a b ltac:(lia)). pose proof (Z.mod_pos_bound a b Hb).
  destruct (Z.ltb_spec (2 * (a mod b)) b), (Z.ltb_spec b (2 * (a mod b))); try destruct (Z.even (a / b)); nia.
Qed.

Lemma rne_exact a b : 0 < b → rne (a * b) b = a.
Proof.
  intros Hb. unfold rne. rewrite Z.div_mul, Z.mod_mul by lia. by rewrite (proj2 (Z.ltb_lt _ _)) by lia.
Qed.

(** [2^L <= p/q], without negative powers. *)
Lemma exponent2_lower p q :
  0 < q → 0 < p →
  let L := exponent2 p q in (0 ≤ L ∧ q * 2 ^ L ≤ p) ∨ (L < 0 ∧ q ≤ p * 2 ^ (- L)).
Proof.
  intros Hq Hp L. unfold L, exponent2. destruct (Z.leb_spec q p).
  - left. split; [apply Z.log2_nonneg|]. etransitivity; [|apply (Z.mul_div_le p q Hq)].
    apply Z.mul_le_mono_nonneg_l; [lia|]. apply Z.log2_spec. apply Z.div_str_pos. lia.
  - right. set (c := (q + p - 1) / p).
    assert (1 < c) as Hc.
    { assert (2 ≤ c); [|lia]. apply Z.div_le_lower_bound; lia. }
    pose proof (Z.log2_up_spec c Hc). pose proof (Z.log2_up_pos c Hc). rewrite Z.opp_involutive. split; [lia|].
    etransitivity; [|apply (Z.mul_le_mono_nonneg_l c); lia].
    pose proof (Z.div_mod (q + p - 1) p ltac:(lia)). pose proof (Z.mod_pos_bound (q + p - 1) p Hp). unfold c. lia.
Qed.

(** Rounding changes a number by at most one part in 2^53. *)
Lemma round64_near p q :
  0 < q → 0 < p →
  let x := round64 p q in 0 < x.2 ∧ Z.abs (x.1 * q - p * x.2) * 2 ^ 53 ≤ p * x.2.
Proof.
  intros Hq Hp x. unfold x, round64. pose proof (exponent2_lower p q Hq Hp) as HL. cbn zeta in HL.
  set (L := exponent2 p q) in *. destruct (Z.ltb_spec (L - 52) 0).
  - cbn [fst snd]. assert (0 < 2 ^ (- (L - 52))) by lia.
    pose proof (rne_near (p * 2 ^ (- (L - 52))) q Hq) as Hu. set (m := rne _ q) in *.
    assert (q * 2 ^ 52 ≤ p * 2 ^ (- (L - 52))) as Hk.
    { destruct HL as [[Hs HL]|[Hs HL]].
      - replace 52 with (L + (- (L - 52))) at 1 by lia. rewrite Z.pow_add_r, Z.mul_assoc by lia.
        apply Z.mul_le_mono_nonneg_r; lia.
      - replace (- (L - 52)) with (- L + 52) by lia. rewrite Z.pow_add_r, Z.mul_assoc by lia.
        apply Z.mul_le_mono_nonneg_r; lia. }
    split; [done|]. set (P := p * 2 ^ (- (L - 52))) in *. change (2 ^ 53) with (2 * 2 ^ 52). lia.
  - destruct HL as [[_ HL]|]; [|lia]. cbn [fst snd]. assert (0 < 2 ^ (L - 52)) by lia.
    pose proof (rne_near p (q * 2 ^ (L - 52)) ltac:(apply Z.mul_pos_pos; lia)) as Hu. set (m := rne _ _) in *.
    assert (q * 2 ^ (L - 52) * 2 ^ 52 ≤ p) as Hk.
    { rewrite <- Z.mul_assoc, <- Z.pow_add_r by lia. by replace (L - 52 + 52) with L by lia. }
    split; [done|].
    replace (m * 2 ^ (L - 52) * q) with (m * (q * 2 ^ (L - 52))) by ring.
    set (Q := q * 2 ^ (L - 52)) in *. change (2 ^ 53) with (2 * 2 ^ 52). lia.
Qed.

Lemma of_int_exact s : 0 < s < 2 ^ 53 → ∃ g, 0 < g ∧ of_int s = (s * g, g).
Proof.
  intros Hs. unfold of_int. rewrite (proj2 (Z.leb_le 0 s)) by lia. unfold round64, exponent2.
  rewrite (proj2 (Z.leb_le 1 s)), Z.div_1_r by lia.
  pose proof (Z.log2_lt_pow2 s 53 ltac:(lia)) as HL. destruct (Z.ltb_spec (Z.log2 s - 52) 0).
  - exists (2 ^ (- (Z.log2 s - 52))). split; [lia|]. f_equal. rewrite <- (Z.mul_1_r (s * _)) at 1. by apply rne_exact.
  - assert (Z.log2 s - 52 = 0) as -> by lia. exists 1. split; [done|]. f_equal. rewrite Z.mul_1_r. change (1 * 2 ^ 0) with 1.
    change (2 ^ 0) with 1. rewrite Z.mul_1_r. rewrite <- (Z.mul_1_r s) at 1. by apply rne_exact.
Qed.

(** The number printed for [s / d]: within half a unit of its last digit, but for the
    rounding of the quotient. *)
Lemma quotient_near k s d h :
  0 < h → 0 ≤ k → 0 < d → 0 < s < 2 ^ 53 →
  let x := ddiv (of_int s) (d * h, h) in
  Z.abs (rne (x.1 * 10 ^ k) x.2 * d - 10 ^ k * s) * 2 ^ 54 ≤ d * 2 ^ 53 + 2 * 10 ^ k * s.
Proof.
  intros Hh Hk Hd Hs x. destruct (of_int_exact s) as (g & Hg & Es); [lia|].
  assert (x = round64 (s * (g * h)) (d * (g * h))) as ->.
  { unfold x, ddiv. rewrite Es. cbn [fst snd]. f_equal; ring. }
  destruct (round64_near (s * (g * h)) (d * (g * h))) as (H2 & H3); [apply Z.mul_pos_pos; lia..|].
  set (y := round64 _ _) in *. assert (Z.abs (y.1 * d - s * y.2) * 2 ^ 53 ≤ s * y.2) as H4.
  { apply (Z.mul_le_mono_pos_r _ _ (g * h)); [lia|]. etransitivity; [|etransitivity; [exact H3|apply Z.eq_le_incl; ring]].
    apply Z.eq_le_incl. replace (y.1 * (d * (g * h)) - s * (g * h) * y.2) with ((y.1 * d - s * y.2) * (g * h)) by ring.
    rewrite Z.abs_mul, (Z.abs_eq (g * h)) by lia. ring. }
  clear H3. clearbody y. pose proof (rne_near (y.1 * 10 ^ k) y.2 H2) as Hr. set (R := rne _ _) in *. clearbody R.
  assert (0 < 10 ^ k) as Hp by lia. set (e := 10 ^ k) in *. clearbody e.
  apply (Z.mul_le_mono_pos_r _ _ y.2 H2).
  assert (Z.abs (R * d - e * s) * y.2 ≤ Z.abs (R * y.2 - y.1 * e) * d + e * Z.abs (y.1 * d - s * y.2)) as Ht.
  { pose proof (Z.abs_triangle ((R * y.2 - y.1 * e) * d) (e * (y.1 * d - s * y.2))) as Ht.
    replace ((R * y.2 - y.1 * e) * d + e * (y.1 * d - s * y.2)) with ((R * d - e * s) * y.2) in Ht by ring.
    rewrite !Z.abs_mul, (Z.abs_eq y.2), (Z.abs_eq d), (Z.abs_eq e) in Ht by lia. exact Ht. }
  replace (Z.abs (R * d - e * s) * 2 ^ 54 * y.2) with (Z.abs (R * d - e * s) * y.2 * 2 ^ 54) by ring.
  etransitivity; [apply Z.mul_le_mono_nonneg_r; [lia|exact Ht]|].
  assert (Z.abs (R * y.2 - y.1 * e) * d * 2 ≤ y.2 * d) as A1.
  { replace (Z.abs (R * y.2 - y.1 * e) * d * 2) with (2 * Z.abs (R * y.2 - y.1 * e) * d) by ring. apply Z.mul_le_mono_nonneg_r; lia. }
  assert (e * Z.abs (y.1 * d - s * y.2) * 2 ^ 53 ≤ e * (s * y.2)) as A2.
  { rewrite <- Z.mul_assoc. apply Z.mul_le_mono_nonneg_l; lia. }
  change (2 ^ 54) with (2 * 2 ^ 53). lia.
Qed.

(** One branch: [k] digits behind the point, the unit [d]. *)
Lemma print_shows k suffix s d h lo c :
  0 < h → 0 ≤ k ≤ 2 → 0 < d → 0 < s < 2 ^ 53 → 10 ^ k * s ≤ 1024 * d →
  (2 * lo - 1) * d * 2 ^ 53 < 2 * 10 ^ k * s * (2 ^ 53 - 1) →
  2 * 10 ^ k * s * (2 ^ 53 + 1) < (2 * c + 1) * d * 2 ^ 53 → 0 ≤ lo → c < 10 ^ 4 → zlen (Channel.str suffix) < 20 →
  ∃ R, print k suffix (ddiv (of_int s) (d * h, h)) = number k R ++ Channel.str suffix ∧ lo ≤ R ≤ c ∧
    Z.abs (R * d - 10 ^ k * s) * 2 ^ 43 ≤ d * (2 ^ 42 + 1).
Proof.
  intros Hh Hk Hd Hs Hsd Hlo Hhi Hlo0 Hc Hsuf. pose proof (quotient_near k s d h Hh ltac:(lia) Hd Hs) as Hn. cbv zeta in Hn.
  set (R := rne _ _) in *. exists R. assert (0 < 10 ^ k) by lia.
  assert (lo ≤ R ≤ c) as HR by (split; nia).
  split_and!; [|lia|lia|lia]. unfold print, fixed. fold R. unfold Format.snprintf. apply ztake_all.
  rewrite zlen_app. unfold number. rewrite zlen_app.
  assert (0 ≤ R / 10 ^ k < 10 ^ Z.of_nat 4) as Hint.
  { split; [apply Z.div_pos; lia|]. apply Z.div_lt_upper_bound; [lia|]. change (10 ^ Z.of_nat 4) with (10 ^ 4). nia. }
  pose proof (Format.digits_length _ 4 Hint ltac:(lia)). destruct (Z.eqb_spec k 0); [rewrite zlen_nil; lia|].
  rewrite zlen_cons. pose proof (Z.mod_pos_bound R (10 ^ k) ltac:(lia)).
  pose proof (Format.dec_pad0_length (Z.to_nat k) (R mod 10 ^ k)) as Hf. rewrite Z2Nat.id in Hf by lia.
  rewrite Hf by lia. lia.
Qed.

(** The text of [s] in one of the units: three significant digits, or in [top] those of
    a number up to 1023; the value shown differs from [s] by at most 1/2 + 2^-43 units
    of its last digit. *)
Definition shown (units : list (string * Z)) (top s : Z) (t : bytes) : Prop :=
  ∃ k R u d, (u, d) ∈ units ∧ 0 ≤ k ≤ 2 ∧ 100 ≤ R ≤ (if k =? 0 then top else 999) ∧
    t = number k R ++ Channel.str u ∧ Z.abs (R * d - 10 ^ k * s) * 2 ^ 43 ≤ d * (2 ^ 42 + 1).

Lemma number_length k R :
  0 ≤ k ≤ 2 → 100 ≤ R ≤ (if k =? 0 then 9999 else 999) → zlen (number k R) ≤ 4.
Proof.
  intros Hk HR. unfold number. rewrite zlen_app.
  assert (k = 0 ∨ k = 1 ∨ k = 2) as [->|[->| ->]] by lia; cbn [Z.eqb] in *.
  - pose proof (Format.digits_length (R / 10 ^ 0) 4 ltac:(change (10 ^ 0) with 1; rewrite Z.div_1_r; lia) ltac:(lia)).
    rewrite zlen_nil. lia.
  - pose proof (Format.digits_length (R / 10 ^ 1) 2 ltac:(split; [apply Z.div_pos|apply Z.div_lt_upper_bound]; lia) ltac:(lia)).
    pose proof (Z.mod_pos_bound R (10 ^ 1) ltac:(lia)).
    rewrite zlen_cons, (Format.dec_pad0_length 1) by lia. lia.
  - pose proof (Format.digits_length (R / 10 ^ 2) 1 ltac:(split; [apply Z.div_pos|apply Z.div_lt_upper_bound]; lia) ltac:(lia)).
    pose proof (Z.mod_pos_bound R (10 ^ 2) ltac:(lia)).
    rewrite zlen_cons, (Format.dec_pad0_length 2) by lia. lia.
Qed.

Lemma shown_length units top s t n :
  shown units top s t → top ≤ 9999 → (∀ u d, (u, d) ∈ units → zlen (Channel.str u) ≤ n) → zlen t ≤ 4 + n.
Proof.
  intros (k & R & u & d & Hu & Hk & HR & -> & _) Ht Hn. specialize (Hn u d Hu). rewrite zlen_app.
  pose proof (number_length k R Hk). destruct (k =? 0); lia.
Qed.

Lemma dlt_int s a b : 0 < s < 2 ^ 53 → 0 < b → dlt (of_int s) (a, b) = (s * b <? a).
Proof.
  intros Hs Hb. destruct (of_int_exact s Hs) as (g & Hg & ->). unfold dlt. cbn [fst snd].
  destruct (Z.ltb_spec (s * b) a); [apply Z.ltb_lt|apply Z.ltb_ge]; nia.
Qed.

Lemma dec_text s : 0 ≤ s < 10 ^ Z.of_nat 4 → Format.snprintf 64 (Format.dec s) = Format.dec s ∧ zlen (Format.dec s) ≤ 4.
Proof.
  intros Hs. assert (zlen (Format.dec s) ≤ 4) as Hw.
  { unfold Format.dec. rewrite (proj2 (Z.ltb_ge s 0)) by lia. pose proof (Format.digits_length s 4 Hs ltac:(lia)). lia. }
  split; [|done]. unfold Format.snprintf. apply ztake_all. lia.
Qed.

Definition SI_units : list (string * Z) := [("k", 10 ^ 3); ("M", 10 ^ 6); ("G", 10 ^ 9); ("T", 10 ^ 12)]%string.
Definition IEC_units : list (string * Z) := [("Ki", 2 ^ 10); ("Mi", 2 ^ 20); ("Gi", 2 ^ 30); ("Ti", 2 ^ 40)]%string.

(** One branch per unit and number of digits. *)
Ltac cases_ltb :=
  repeat match goal with |- context [if ?a <? ?b then _ else _] => destruct (Z.ltb_spec a b) end.
Ltac shown_branch top :=
  match goal with
  | |- shown _ _ _ (print ?k ?u (ddiv (of_int ?s) (?d * ?h, ?h))) =>
      let c := lazymatch k with 0 => constr:(top) | _ => constr:(999) end in
      destruct (print_shows k u s d h 100 c) as (R & ? & ? & ?);
        [lia|lia|lia|lia|lia|lia|lia|lia|lia|vm_compute; reflexivity|];
      exists k, R, u, d; split; [unfold SI_units, IEC_units; rewrite !elem_of_cons; tauto|]; split; [lia|]; cbn [Z.eqb]; split_and!; [lia|lia|done|done]
  end.

Lemma formatSI_shown s : 1000 ≤ s < 999500000000000 → shown SI_units 999 s (formatSI s).
Proof.
  intros Hs. unfold formatSI.
  change (of_int (10 ^ 3)) with (10 ^ 3 * 2 ^ 43, 2 ^ 43). change (of_int (10 ^ 6)) with (10 ^ 6 * 2 ^ 33, 2 ^ 33).
  change (of_int (10 ^ 9)) with (10 ^ 9 * 2 ^ 23, 2 ^ 23). change (of_int (10 ^ 12)) with (10 ^ 12 * 2 ^ 13, 2 ^ 13).
  cases_ltb; try (exfalso; lia); shown_branch 999.
Qed.

Lemma formatIEC_shown s : 1024 ≤ s < 1125350151028736 → shown IEC_units 1023 s (formatIEC s).
Proof.
  intros Hs. unfold formatIEC.
  change Ki with (2 ^ 10 * 1, 1). change Mi with (2 ^ 20 * 2 ^ 32, 2 ^ 32).
  change Gi with (2 ^ 30 * 2 ^ 22, 2 ^ 22). change Ti with (2 ^ 40 * 2 ^ 12, 2 ^ 12).
  repeat match goal with |- context [dmul ?a ?b] =>
    let c := eval vm_compute in (dmul a b) in change (dmul a b) with c end.
  rewrite !(dlt_int s) by lia. cases_ltb; try (exfalso; lia); shown_branch 1023.
Qed.

Lemma formatIEC_small s : 0 ≤ s < 1024 → formatIEC s = Format.dec s.
Proof.
  intros Hs. destruct (decide (s = 0)) as [->|Hpos]; [reflexivity|]. unfold formatIEC.
  change Ki with (2 ^ 10, 1) at 1. rewrite dlt_int, (proj2 (Z.ltb_lt _ _)) by lia. apply dec_text. lia.
Qed.

(** C39: [formatSI] and [formatIEC] below 999.5 T and 1023.5 Ti. Numbers below 1000 and 1024
    are printed as they are. Any other one is printed in one of the units k, M, G, T (Ki,
    Mi, Gi, Ti) with three significant digits (100Ki to 1023Ki and so on: as a whole
    number), and the value shown differs from the number by at most 1/2 + 2^-43 units of
    its last digit, the second part for the rounding of the quotient. The text has at
    most 5 (6) characters, as the header promises for all numbers. Above that range the promise fails:
    99949999999999999 is printed in 6 characters. *)
Theorem units_short s :
  0 ≤ s →
  (s < 1000 → formatSI s = Format.dec s) ∧ (s < 1024 → formatIEC s = Format.dec s) ∧
  (1000 ≤ s < 999500000000000 → shown SI_units 999 s (formatSI s)) ∧
  (1024 ≤ s < 1125350151028736 → shown IEC_units 1023 s (formatIEC s)) ∧
  (s < 999500000000000 → zlen (formatSI s) ≤ 5) ∧ (s < 1125350151028736 → zlen (formatIEC s) ≤ 6) ∧
  formatSI 99949999999999999 = Channel.str "100.0P".
Proof.
  intros Hs. assert (s < 1000 → formatSI s = Format.dec s) as H1.
  { intros. unfold formatSI. rewrite (proj2 (Z.ltb_lt _ _)) by lia. apply dec_text. lia. }
  split_and!; [done|intros; apply formatIEC_small; lia|apply formatSI_shown|apply formatIEC_shown| | |vm_compute; reflexivity].
  - intros Hl. destruct (Z.ltb_spec s 1000); [rewrite H1 by done; pose proof (dec_text s); lia|].
    apply (shown_length SI_units 999 s _ 1); [by apply formatSI_shown|lia|].
    intros u d. unfold SI_units. rewrite !elem_of_cons, elem_of_nil. naive_solver (vm_compute; congruence).
  - intros Hl. destruct (Z.ltb_spec s 1024); [rewrite formatIEC_small by lia; pose proof (dec_text s); lia|].
    apply (shown_length IEC_units 1023 s _ 2); [by apply formatIEC_shown|lia|].
    intros u d. unfold IEC_units. rewrite !elem_of_cons, elem_of_nil. naive_solver (vm_compute; congruence).
Qed.

Lemma units_short_witness :
  shown SI_units 999 123456 (formatSI 123456) ∧ formatSI 123456 = Channel.str "123k" ∧
  zlen (formatIEC 1125350151028735) ≤ 6 ∧ formatIEC 1125350151028735 = Channel.str "1023Ti".
Proof.
  split; [apply (units_short 123456); lia|]. split; [vm_compute; reflexivity|].
  split; [apply (units_short 1125350151028735); lia|vm_compute; reflexivity].
Defined.
End Units.
