(* ===== verification/Logging.v ===== *)
(** * Loggers ([base/Logging.h], [base/Logging.cc], [base/CurrentThread.h])

    A log statement builds one line in a [LogStream]: time, thread, level,
    error, message, source position. Each thread caches the text of the
    current second and of its own number. *)

From S2P Require Import Prelude Endian Format Date TimeZone Timestamp Channel LogStream.
Import Format.

(** ** [CurrentThread]: the thread number and its text, fetched once. *)
Module CurrentThread.

Record CurrentThread := mkCurrent { t_cachedTid : Z; t_tidString : bytes; t_tidStringLength : Z }.
Definition initial : CurrentThread := mkCurrent 0 [] 0.

Definition cacheTid (gettid : Z) (c : CurrentThread) : CurrentThread :=
  if t_cachedTid c =? 0
  then let s := dec_pad 5 gettid ++ [" "%char] in mkCurrent gettid (snprintf 32 s) (zlen s)
  else c.
Definition tid (gettid : Z) (c : CurrentThread) : CurrentThread * Z :=
  let c := if t_cachedTid c =? 0 then cacheTid gettid c else c in (c, t_cachedTid c).
Definition tidString (c : CurrentThread) : bytes := t_tidString c.
Definition tidStringLength (c : CurrentThread) : Z := t_tidStringLength c.
Definition isMainThread (gettid getpid : Z) (c : CurrentThread) : CurrentThread * bool :=
  let '(c, t) := tid gettid c in (c, t =? getpid).
(** [afterFork]: the child asks for its number again. *)
Definition afterFork (gettid : Z) (c : CurrentThread) : CurrentThread :=
  fst (tid gettid (mkCurrent 0 (t_tidString c) (t_tidStringLength c))).

(** A thread number is a positive [pid_t]. *)
Definition tid_inv (g : Z) (c : CurrentThread) : Prop :=
  c = initial ∨ c = mkCurrent g (dec_pad 5 g ++ [" "%char]) (zlen (dec_pad 5 g ++ [" "%char])).

Lemma tid_text_length g : 0 < g < 2 ^ 31 → zlen (dec_pad 5 g ++ [" "%char]) ≤ 11.
Proof.
  intros Hg. pose proof (digits_length g 10 ltac:(lia) ltac:(lia)) as Hl.
  unfold dec_pad, dec. rewrite (proj2 (Z.ltb_ge g 0)) by lia. rewrite !zlen_app. change (zlen [" "%char]) with 1.
  destruct (Z.leb_spec 0 (5 - zlen (digits g))); [rewrite zlen_zrep by lia|rewrite zrep_nonpos, zlen_nil by lia]; lia.
Qed.

Lemma tid_spec g c :
  0 < g < 2 ^ 31 → tid_inv g c →
  tid g c = (mkCurrent g (dec_pad 5 g ++ [" "%char]) (zlen (dec_pad 5 g ++ [" "%char])), g).
Proof.
  intros Hg [->| ->]; unfold tid, cacheTid; cbn [t_cachedTid initial Z.eqb].
  - unfold snprintf. rewrite ztake_all by (pose proof (tid_text_length g Hg); lia). done.
  - by rewrite (proj2 (Z.eqb_neq g 0)) by lia.
Qed.
End CurrentThread.

Module Logger.
Import FixedBuffer LogStream.

Inductive LogLevel := TRACE | DEBUG | INFO | WARN | ERROR | FATAL.
Definition LogLevelName (l : LogLevel) : bytes :=
  Channel.str match l with
  | TRACE => "TRACE " | DEBUG => "DEBUG " | INFO => "INFO  " | WARN => "WARN  " | ERROR => "ERROR " | FATAL => "FATAL "
  end.
Definition level_number (l : LogLevel) : Z :=
  match l with TRACE => 0 | DEBUG => 1 | INFO => 2 | WARN => 3 | ERROR => 4 | FATAL => 5 end.

Definition initLogLevel (log_trace log_debug : bool) : LogLevel :=
  if log_trace then TRACE else if log_debug then DEBUG else INFO.
(** The guards of the [LOG_] macros. *)
Definition enabled (logLevel l : LogLevel) : bool :=
  match l with
  | TRACE | DEBUG | INFO => level_number logLevel <=? level_number l
  | WARN | ERROR | FATAL => true
  end.

(** [strrchr(s, '/')], as an index. *)
Fixpoint last_slash (s : bytes) (i : Z) (found : option Z) : option Z :=
  match s with
  | [] => found
  | c :: s => last_slash s (i + 1) (if bool_decide (c = "/"%char) then Some i else found)
  end.
Definition SourceFile (filename : bytes) : bytes :=
  match last_slash filename 0 None with Some slash => zdrop (slash + 1) filename | None => filename end.

(** The thread's variables: [t_time] up to its NUL. *)
Record Thread := mkThread { current_ : CurrentThread.CurrentThread; t_time : bytes; t_lastSecond : Z }.
Definition new_thread : Thread := mkThread CurrentThread.initial [] 0.

Record Impl := mkImpl { stream_ : FixedBuffer; level_ : LogLevel; line_ : Z; basename_ : bytes }.

(** The helper [T]: the length is known at compile time. *)
Definition T (str : bytes) (len : Z) : result bytes := _ ← check (zlen str =? len); Ok str.
Definition shl_T (v : bytes) : FixedBuffer → result FixedBuffer := append v.
Definition shl_SourceFile (v : bytes) : FixedBuffer → result FixedBuffer := append v.

Section logger.
(** [strerror_r] of the C library and the memory of the stream. *)
Context (strerror : Z → bytes) (storage : bytes).

(** [%4d%02d%02d %02d:%02d:%02d] *)
Definition second_text (tm : TimeZone.tm) : bytes :=
  dec_pad 4 (TimeZone.tm_year tm + 1900) ++ dec_pad0 2 (TimeZone.tm_mon tm + 1) ++ dec_pad0 2 (TimeZone.tm_mday tm) ++
  [" "%char] ++ dec_pad0 2 (TimeZone.tm_hour tm) ++ [":"%char] ++ dec_pad0 2 (TimeZone.tm_min tm) ++ [":"%char] ++
  dec_pad0 2 (TimeZone.tm_sec tm).

(** The text of the second is made anew only when the second has changed. *)
Definition refresh (zone : TimeZone.TimeZone) (seconds : Z) (th : Thread) : result Thread :=
  if seconds =? t_lastSecond th then Ok th
  else
    tm_time ← (if TimeZone.valid zone then TimeZone.toLocalTime zone seconds else TimeZone.gmtime_r seconds);
    let t := second_text tm_time in
    _ ← check (zlen t =? 17);
    Ok (mkThread (current_ th) (snprintf 64 t) seconds).

Definition formatTime (zone : TimeZone.TimeZone) (time_ : Timestamp.Timestamp) (th : Thread) (s : FixedBuffer) :
    result (Thread * FixedBuffer) :=
  let us := Timestamp.microSecondsSinceEpoch time_ in
  let seconds := Z.quot us Timestamp.kMicroSecondsPerSecond in
  let microseconds := s32 (Z.rem us Timestamp.kMicroSecondsPerSecond) in
  th ← refresh zone seconds th;
  if TimeZone.valid zone then
    us ← Fmt (["."%char] ++ dec_pad0 6 microseconds ++ [" "%char]);
    _ ← check (zlen us =? 8);
    t ← T (t_time th) 17; s ← shl_T t s; u ← T us 8; s ← shl_T u s;
    Ok (th, s)
  else
    us ← Fmt (["."%char] ++ dec_pad0 6 microseconds ++ ["Z"%char; " "%char]);
    _ ← check (zlen us =? 9);
    t ← T (t_time th) 17; s ← shl_T t s; u ← T us 9; s ← shl_T u s;
    Ok (th, s).

Definition make_impl (zone : TimeZone.TimeZone) (now : Timestamp.Timestamp) (gettid : Z)
    (level : LogLevel) (savedErrno : Z) (file : bytes) (line : Z) (th : Thread) : result (Thread * Impl) :=
  '(th, s) ← formatTime zone now th (make storage);
  let '(c, _) := CurrentThread.tid gettid (current_ th) in
  let th := mkThread c (t_time th) (t_lastSecond th) in
  t ← T (CurrentThread.tidString c) (CurrentThread.tidStringLength c);
  s ← shl_T t s;
  l ← T (LogLevelName level) 6;
  s ← shl_T l s;
  s ← (if savedErrno =? 0 then Ok s
       else s ← shl_cstr (Some (strerror savedErrno)) s;
            s ← shl_cstr (Some (Channel.str " (errno=")) s;
            s ← shl_int savedErrno s;
            shl_cstr (Some (Channel.str ") ")) s);
  Ok (th, mkImpl s level line file).

Definition finish (i : Impl) : result Impl :=
  s ← shl_cstr (Some (Channel.str " - ")) (stream_ i);
  s ← shl_SourceFile (basename_ i) s;
  s ← shl_char ":"%char s;
  s ← shl_int (line_ i) s;
  s ← shl_char "010"%char s;
  Ok (mkImpl s (level_ i) (line_ i) (basename_ i)).

(** The four constructors: plain, with a level and a function name, with a
    level, and for a system error. *)
Inductive constructor :=
  | Plain | WithFunc (level : LogLevel) (func : bytes) | WithLevel (level : LogLevel) | System (toAbort : bool) (errno : Z).
Definition make_logger (zone : TimeZone.TimeZone) (now : Timestamp.Timestamp) (gettid : Z)
    (k : constructor) (file : bytes) (line : Z) (th : Thread) : result (Thread * Impl) :=
  match k with
  | Plain => make_impl zone now gettid INFO 0 file line th
  | WithFunc level func =>
      '(th, i) ← make_impl zone now gettid level 0 file line th;
      s ← shl_cstr (Some func) (stream_ i);
      s ← shl_char " "%char s;
      Ok (th, mkImpl s (level_ i) (line_ i) (basename_ i))
  | WithLevel level => make_impl zone now gettid level 0 file line th
  | System toAbort errno => make_impl zone now gettid (if toAbort then FATAL else ERROR) errno file line th
  end.

(** [~Logger]: the line for [g_output], and whether the process is aborted after [g_flush]. *)
Definition destroy_logger (i : Impl) : result (bytes * bool) :=
  i ← finish i;
  line ← toString (stream_ i);
  Ok (line, bool_decide (level_number (level_ i) = level_number FATAL)).

(** One log statement: construct, stream the items, destroy. *)
Record statement := mkStatement {
  when : Timestamp.Timestamp; kind : constructor; file : bytes; at_line : Z; message : list item
}.
Definition log (zone : TimeZone.TimeZone) (gettid : Z) (x : statement) (th : Thread) :
    result (Thread * (bytes * bool)) :=
  '(th, i) ← make_logger zone (when x) gettid (kind x) (SourceFile (file x)) (at_line x) th;
  s ← shl_all (message x) (stream_ i);
  out ← destroy_logger (mkImpl s (level_ i) (line_ i) (basename_ i));
  Ok (th, out).
End logger.

(** ** Global settings *)
Record Globals := mkGlobals { g_logLevel : LogLevel; g_logTimeZone : TimeZone.TimeZone }.
Definition setLogLevel (l : LogLevel) (g : Globals) : Globals := mkGlobals l (g_logTimeZone g).
Definition setTimeZone (tz : TimeZone.TimeZone) (g : Globals) : Globals := mkGlobals (g_logLevel g) tz.
Definition logLevel (g : Globals) : LogLevel := g_logLevel g.

(** A thread's log statements, and changes of the time zone (by any thread). *)
Inductive event := Log (x : statement) | SetTimeZone (tz : TimeZone.TimeZone).
Fixpoint log_events (strerror : Z → bytes) (storage : bytes) (gettid : Z) (es : list event)
    (gl : Globals) (th : Thread) : result (Globals * Thread * list (bytes * bool)) :=
  match es with
  | [] => Ok (gl, th, [])
  | Log x :: es =>
      '(th, out) ← log strerror storage (g_logTimeZone gl) gettid x th;
      '(gl, th, outs) ← log_events strerror storage gettid es gl th;
      Ok (gl, th, out :: outs)
  | SetTimeZone tz :: es => log_events strerror storage gettid es (setTimeZone tz gl) th
  end.

(** ** The line a statement should produce *)
Section spec.
Context (strerror : Z → bytes) (storage : bytes) (zone : TimeZone.TimeZone) (g : Z).

Definition time_text (seconds : Z) : result bytes :=
  tm ← (if TimeZone.valid zone then TimeZone.toLocalTime zone seconds else TimeZone.gmtime_r seconds);
  Ok (second_text tm).
Definition date (us : Z) : bytes :=
  match time_text (us / 1000000) with Ok t => t | Fail _ => [] end.
Definition fraction (us : Z) : bytes :=
  ["."%char] ++ dec_pad0 6 (us mod 1000000) ++ (if TimeZone.valid zone then [" "%char] else ["Z"%char; " "%char]).
Definition micros (x : statement) : Z := Timestamp.microSecondsSinceEpoch (when x).
Definition level_of (k : constructor) : LogLevel :=
  match k with Plain => INFO | WithFunc l _ | WithLevel l => l | System a _ => if a then FATAL else ERROR end.

Definition head_items (x : statement) : list item :=
  [Str (date (micros x)); Str (fraction (micros x)); Str (dec_pad 5 g ++ [" "%char]); Str (LogLevelName (level_of (kind x)))].
Definition kind_items (k : constructor) : list item :=
  match k with
  | WithFunc _ f => [CStr (Some f); Char " "%char]
  | System _ e => if e =? 0 then []
      else [CStr (Some (strerror e)); CStr (Some (Channel.str " (errno=")); Integer e; CStr (Some (Channel.str ") "))]
  | _ => []
  end.
Definition tail_items (x : statement) : list item :=
  [CStr (Some (Channel.str " - ")); Str (SourceFile (file x)); Char ":"%char; Integer (at_line x); Char "010"%char].
Definition line (x : statement) : bytes :=
  concat (text_of <$> head_items x ++ kind_items (kind x) ++ message x ++ tail_items x).
Definition fatal (x : statement) : bool := bool_decide (level_number (level_of (kind x)) = level_number FATAL).

(** From one second after the epoch to the end of 9999, if the zone has such a time. *)
Definition legal_time (us : Z) : Prop :=
  1000000 ≤ us ∧
  if TimeZone.valid zone then ∃ t, time_text (us / 1000000) = Ok t ∧ zlen t = 17 else us < 253402300800 * 1000000.
Definition legal (x : statement) : Prop :=
  legal_time (micros x) ∧ Forall legal_item (message x) ∧ Forall legal_item (kind_items (kind x)) ∧
  in_s 32 (at_line x) ∧ zlen (line x) + kMaxNumericSize ≤ kSmallBuffer.

(** The cache holds the text of its second; a new thread's cache is empty. *)
Definition cached (th : Thread) : Prop :=
  CurrentThread.tid_inv g (current_ th) ∧
  (t_lastSecond th = 0 ∨ (time_text (t_lastSecond th) = Ok (t_time th) ∧ zlen (t_time th) = 17)).

(** *** Streams that hold a known text *)
Definition holds (t : bytes) (s : FixedBuffer) : Prop := buf_inv kSmallBuffer s ∧ text s = t.

Lemma shl_holds i t s :
  holds t s → legal_item i → zlen t + zlen (text_of i) + kMaxNumericSize ≤ kSmallBuffer →
  ∃ s', shl i s = Ok s' ∧ holds (t ++ text_of i) s'.
Proof.
  intros [Hb <-] Hi Hl. destruct (shl_spec kSmallBuffer i s Hb Hi) as (s' & E & Hb' & Ht).
  exists s'. split; [done|]. split; [done|]. rewrite Ht. unfold write, has_room.
  rewrite (text_length _ s Hb) in Hl. unfold kMaxNumericSize in *. pose proof (zlen_nonneg (text_of i)).
  destruct (numeric_item i); [by rewrite (proj2 (Z.leb_le _ _)) by lia|by rewrite (proj2 (Z.ltb_lt _ _)) by lia].
Qed.

Lemma shl_all_holds l : ∀ t s,
  holds t s → Forall legal_item l → zlen t + zlen (concat (text_of <$> l)) + kMaxNumericSize ≤ kSmallBuffer →
  ∃ s', shl_all l s = Ok s' ∧ holds (t ++ concat (text_of <$> l)) s'.
Proof.
  induction l as [|i l IH]; intros t s Hs Hl Hf; [exists s; by rewrite app_nil_r|]. apply Forall_cons in Hl as [Hi Hl].
  cbn in *. rewrite zlen_app in Hf. pose proof (zlen_nonneg (concat (text_of <$> l))).
  destruct (shl_holds i t s Hs Hi) as (s1 & E & Hs1); [lia|]. rewrite E, bind_Ok, app_assoc. apply IH; [done|done|].
  rewrite zlen_app. lia.
Qed.

(** *** The parts of a line *)

Lemma quot_rem_million us :
  0 ≤ us → Z.quot us Timestamp.kMicroSecondsPerSecond = us / 1000000 ∧
           s32 (Z.rem us Timestamp.kMicroSecondsPerSecond) = us mod 1000000.
Proof.
  intros Hus. destruct (Timestamp.quot_rem_pos us Hus) as [-> ->].
  change Timestamp.kMicroSecondsPerSecond with 1000000. split; [done|].
  pose proof (Z.mod_pos_bound us 1000000 ltac:(lia)). apply wraps_small; [lia|]. unfold in_s. lia.
Qed.

Lemma stamp_length us : 0 ≤ us → zlen (fraction us) = if TimeZone.valid zone then 8 else 9.
Proof.
  intros. pose proof (Z.mod_pos_bound us 1000000 ltac:(lia)). unfold fraction. rewrite !zlen_app.
  change 6 with (Z.of_nat 6). rewrite (dec_pad0_length 6) by lia. by destruct (TimeZone.valid zone).
Qed.

(** [Timestamp::toFormattedString] prints the same text in UTC. *)
Lemma utc_date us :
  TimeZone.valid zone = false → 0 ≤ us < 253402300800 * 1000000 →
  time_text (us / 1000000) = Ok (date us) ∧ zlen (date us) = 17 ∧
  Timestamp.toFormattedString (Timestamp.mkTimestamp us) true = Ok (date us ++ ["."%char] ++ dec_pad0 6 (us mod 1000000)).
Proof.
  intros Hz Hus. destruct (Timestamp.toFormattedString_spec us) as (s & E & Hs & _); [exact Hus|]. rewrite E.
  unfold date, time_text. rewrite Hz. unfold Timestamp.toFormattedString in E. cbn [Timestamp.microSecondsSinceEpoch_] in E.
  destruct (Timestamp.quot_rem_pos us) as [H1 H2]; [lia|]. rewrite H1, H2 in E.
  change Timestamp.kMicroSecondsPerSecond with 1000000 in E.
  apply bind_Ok_inv in E as (tm & -> & E). rewrite !bind_Ok.
  assert (∀ a b : bytes, Ok a = Ok b → a = b) as Ok_inj by congruence. apply Ok_inj in E. fold (second_text tm) in E.
  unfold snprintf in E. rewrite ztake_all in E.
  - pose proof (Z.mod_pos_bound us 1000000 ltac:(lia)). subst s. split; [done|]. split; [|done].
    pose proof (dec_pad0_length 6 (us mod 1000000) ltac:(lia) ltac:(lia)) as H6. change (Z.of_nat 6) with 6 in H6.
    rewrite !zlen_app, H6 in Hs.
    change (zlen ["."%char]) with 1 in Hs. lia.
  - destruct (Z.leb_spec (zlen (second_text tm ++ ["."%char] ++ dec_pad0 6 (us mod 1000000))) (64 - 1)); [done|].
    apply (f_equal zlen) in E. rewrite zlen_ztake in E by lia. lia.
Qed.

Lemma legal_date us :
  legal_time us → time_text (us / 1000000) = Ok (date us) ∧ zlen (date us) = 17.
Proof.
  intros [Hlo H]. destruct (TimeZone.valid zone) eqn:Hz.
  - destruct H as (t & E & Ht). unfold date. by rewrite E.
  - destruct (utc_date us) as (? & ? & _); [done|lia|done].
Qed.

Lemma refresh_spec us th :
  cached th → legal_time us → refresh zone (us / 1000000) th = Ok (mkThread (current_ th) (date us) (us / 1000000)).
Proof.
  intros [_ Hc] Hus. destruct (legal_date us Hus) as [Hd Hdl]. destruct Hus as [Hlo _].
  pose proof (Z.div_le_lower_bound us 1000000 1 ltac:(lia) ltac:(lia)) as Hsec.
  unfold refresh. destruct (Z.eqb_spec (us / 1000000) (t_lastSecond th)) as [E|E].
  - destruct Hc as [Hc|[Hc _]]; [lia|]. rewrite <- E, Hd in Hc. rewrite E. destruct th; cbn in *. congruence.
  - unfold time_text in Hd. apply bind_Ok_inv in Hd as (tm & -> & Hd).
    assert (second_text tm = date us) as Ht by congruence. rewrite bind_Ok. cbv zeta.
    rewrite Ht, Hdl, check_true, bind_Ok by done. unfold snprintf. by rewrite ztake_all by lia.
Qed.

Lemma formatTime_spec us th s t :
  cached th → legal_time us → holds t s → zlen t + 100 ≤ kSmallBuffer →
  ∃ s', formatTime zone (Timestamp.mkTimestamp us) th s = Ok (mkThread (current_ th) (date us) (us / 1000000), s') ∧
    holds (t ++ date us ++ fraction us) s'.
Proof.
  intros Hc Hus Hs Ht. destruct (legal_date us Hus) as [Hd Hdl]. pose proof (refresh_spec us th Hc Hus) as Hr.
  destruct Hus as [Hlo _]. unfold formatTime. cbn [Timestamp.microSecondsSinceEpoch Timestamp.microSecondsSinceEpoch_].
  destruct (quot_rem_million us) as [-> ->]; [lia|]. rewrite Hr.
  rewrite bind_Ok. cbn [t_time]. pose proof (stamp_length us ltac:(lia)) as Hfl.
  assert (8 ≤ zlen (fraction us) ≤ 9) as Hfl2 by (rewrite Hfl; destruct (TimeZone.valid zone); lia).
  unfold kSmallBuffer in *.
  destruct (shl_holds (Str (date us)) t s Hs) as (s1 & E1 & H1);
    cbn [text_of legal_item]; unfold kMaxNumericSize, kSmallBuffer; [lia..|].
  destruct (shl_holds (Str (fraction us)) _ s1 H1) as (s2 & E2 & H2);
    cbn [text_of legal_item]; rewrite ?zlen_app; unfold kMaxNumericSize, kSmallBuffer; [lia..|].
  exists s2. cbn [text_of] in H2. rewrite <- app_assoc in H2. split; [|done]. unfold fraction in *.
  unfold shl, shl_string in E1, E2. unfold T, shl_T, Fmt.
  destruct (TimeZone.valid zone); rewrite (check_true (_ <? 32)), bind_Ok by lia; unfold snprintf;
    rewrite ztake_all, bind_Ok, Hfl, Hdl by lia; rewrite !check_true, !bind_Ok by done;
    rewrite E1, bind_Ok, ?Hfl, ?check_true, !bind_Ok by done; by rewrite E2, bind_Ok.
Qed.

Hypothesis (Hg : 0 < g < 2 ^ 31) (Hstorage : zlen storage = kSmallBuffer).

Definition errno_items (e : Z) : list item :=
  if e =? 0 then []
  else [CStr (Some (strerror e)); CStr (Some (Channel.str " (errno=")); Integer e; CStr (Some (Channel.str ") "))].
Definition tid_cached : CurrentThread.CurrentThread :=
  CurrentThread.mkCurrent g (dec_pad 5 g ++ [" "%char]) (zlen (dec_pad 5 g ++ [" "%char])).

(** Two known texts in front of the rest. *)
Lemma shl_two a b t s :
  holds t s → zlen t + zlen a + zlen b + kMaxNumericSize ≤ kSmallBuffer →
  ∃ s1 s2, append a s = Ok s1 ∧ append b s1 = Ok s2 ∧ holds (t ++ a ++ b) s2.
Proof.
  intros Hs Hl. pose proof (zlen_nonneg a). pose proof (zlen_nonneg b). pose proof (zlen_nonneg t).
  unfold kMaxNumericSize, kSmallBuffer in Hl.
  destruct (shl_holds (Str a) t s Hs) as (s1 & E1 & K1);
    cbn [text_of legal_item]; unfold kMaxNumericSize, kSmallBuffer; [lia..|].
  destruct (shl_holds (Str b) _ s1 K1) as (s2 & E2 & K2);
    cbn [text_of legal_item]; rewrite ?zlen_app; unfold kMaxNumericSize, kSmallBuffer; [lia..|].
  exists s1, s2. cbn [text_of] in K2. rewrite <- app_assoc in K2. done.
Qed.

Lemma make_impl_spec us level e f ln th :
  let t := date us ++ fraction us ++ (dec_pad 5 g ++ [" "%char]) ++ LogLevelName level ++ concat (text_of <$> errno_items e) in
  cached th → legal_time us → Forall legal_item (errno_items e) → zlen t + kMaxNumericSize ≤ kSmallBuffer →
  ∃ s, make_impl strerror storage zone (Timestamp.mkTimestamp us) g level e f ln th =
         Ok (mkThread tid_cached (date us) (us / 1000000), mkImpl s level ln f) ∧ holds t s.
Proof.
  intros t Hc Hus He Hl. unfold make_impl. assert (holds [] (make storage)) as H0.
  { split; [|done]. rewrite <- Hstorage. apply make_inv. rewrite Hstorage. done. }
  destruct (formatTime_spec us th _ [] Hc Hus H0) as (s1 & E1 & H1); [done|]. rewrite E1, bind_Ok. clear E1 H0.
  cbn [current_ t_time t_lastSecond]. rewrite (CurrentThread.tid_spec g (current_ th) Hg (proj1 Hc)).
  unfold T, CurrentThread.tidString, CurrentThread.tidStringLength.
  cbn [CurrentThread.t_tidString CurrentThread.t_tidStringLength].
  set (tid_text := dec_pad 5 g ++ [" "%char]) in *.
  rewrite (check_true (zlen tid_text =? zlen tid_text)), !bind_Ok by apply Z.eqb_refl. unfold t in Hl. rewrite !zlen_app in Hl.
  pose proof (zlen_nonneg (concat (text_of <$> errno_items e))).
  destruct (shl_two tid_text (LogLevelName level) _ s1 H1) as (s2 & s3 & E2 & E3 & H3);
    [rewrite !zlen_app, zlen_nil; unfold kMaxNumericSize, kSmallBuffer in *; lia|].
  unfold shl_T. rewrite E2, bind_Ok. rewrite (check_true (zlen (LogLevelName level) =? 6)), !bind_Ok by (by destruct level).
  rewrite E3, bind_Ok.
  destruct (shl_all_holds (errno_items e) _ s3 H3 He) as (s4 & E4 & H4);
    [rewrite !zlen_app, zlen_nil; unfold kMaxNumericSize, kSmallBuffer in *; lia|].
  assert ((if e =? 0 then Ok s3
           else s ← shl_cstr (Some (strerror e)) s3; s ← shl_cstr (Some (Channel.str " (errno=")) s;
                s ← shl_int e s; shl_cstr (Some (Channel.str ") ")) s) = Ok s4) as E5.
  { rewrite <- E4. unfold errno_items. destruct (e =? 0); [done|]. cbn [shl_all shl]. unfold shl_int, shl_long.
    destruct (shl_cstr (Some (strerror e)) s3) as [a|]; [|done]. rewrite !bind_Ok.
    destruct (shl_cstr _ a) as [b|]; [|done]. rewrite !bind_Ok. destruct (formatInteger e b) as [c|]; [|done].
    rewrite !bind_Ok. by destruct (shl_cstr _ c). }
  rewrite E5, bind_Ok. exists s4. split; [done|]. unfold t. cbn [app] in H4. rewrite <- !app_assoc in *. exact H4.
Qed.

Lemma concat_texts l k : concat (text_of <$> l ++ k) = concat (text_of <$> l) ++ concat (text_of <$> k).
Proof. by rewrite fmap_app, concat_app. Qed.

Lemma head_text x : concat (text_of <$> head_items x) =
  date (micros x) ++ fraction (micros x) ++ (dec_pad 5 g ++ [" "%char]) ++ LogLevelName (level_of (kind x)).
Proof. unfold head_items. cbn [fmap list_fmap concat text_of]. by rewrite app_nil_r. Qed.

Lemma make_logger_spec x ln f th :
  let t := concat (text_of <$> head_items x ++ kind_items (kind x)) in
  cached th → legal_time (micros x) → Forall legal_item (kind_items (kind x)) → zlen t + kMaxNumericSize ≤ kSmallBuffer →
  ∃ s, make_logger strerror storage zone (when x) g (kind x) f ln th =
         Ok (mkThread tid_cached (date (micros x)) (micros x / 1000000), mkImpl s (level_of (kind x)) ln f) ∧ holds t s.
Proof.
  intros t Hc Hus Hk Hl. unfold t in *. rewrite concat_texts, head_text in *.
  destruct x as [[us] k f' ln' msg]. unfold micros in *. cbn [when kind Timestamp.microSecondsSinceEpoch Timestamp.microSecondsSinceEpoch_] in *.
  assert (∀ level e, concat (text_of <$> errno_items e) = [] →
    zlen (date us ++ fraction us ++ (dec_pad 5 g ++ [" "%char]) ++ LogLevelName level) + kMaxNumericSize ≤ kSmallBuffer →
    Forall legal_item (errno_items e) →
    ∃ s, make_impl strerror storage zone (Timestamp.mkTimestamp us) g level e f ln th =
         Ok (mkThread tid_cached (date us) (us / 1000000), mkImpl s level ln f) ∧
       holds (date us ++ fraction us ++ (dec_pad 5 g ++ [" "%char]) ++ LogLevelName level) s) as Hplain.
  { intros level e He Hll Hel. pose proof (make_impl_spec us level e f ln th) as H. rewrite He, app_nil_r in H. by apply H. }
  destruct k as [|level func|level|a e]; cbn [make_logger kind_items level_of fmap list_fmap concat] in *.
  - rewrite app_nil_r in *. apply (Hplain INFO 0); [done|done|constructor].
  - rewrite (zlen_app _ (_ ++ _ ++ [])) in Hl. pose proof (zlen_nonneg (text_of (CStr (Some func)) ++ text_of (Char " "%char) ++ [])).
    destruct (Hplain level 0) as (s & -> & Hs); [done|lia|constructor|]. rewrite bind_Ok. cbn [stream_ level_ line_ basename_].
    destruct (shl_two func [" "%char] _ s Hs) as (s1 & s2 & E1 & E2 & H2).
    { change (text_of (CStr (Some func)) ++ text_of (Char " "%char) ++ []) with (func ++ [" "%char]) in Hl.
      rewrite (zlen_app func) in Hl. lia. }
    unfold shl_cstr, shl_char. rewrite E1, bind_Ok, E2, bind_Ok. exists s2. split; [done|]. exact H2.
  - rewrite app_nil_r in *. apply (Hplain level 0); [done|done|constructor].
  - fold (errno_items e) in *. pose proof (make_impl_spec us (if a then FATAL else ERROR) e f ln th) as H.
    cbv zeta in H. rewrite <- !app_assoc in *. by apply H.
Qed.

Lemma destroy_logger_spec i t :
  holds t (stream_ i) → in_s 32 (line_ i) → zlen (basename_ i) < 2 ^ 63 →
  let tail := [CStr (Some (Channel.str " - ")); Str (basename_ i); Char ":"%char; Integer (line_ i); Char "010"%char] in
  zlen t + zlen (concat (text_of <$> tail)) + kMaxNumericSize ≤ kSmallBuffer →
  destroy_logger i = Ok (t ++ concat (text_of <$> tail), bool_decide (level_number (level_ i) = level_number FATAL)).
Proof.
  intros Hs Hln Hb tail Hl. destruct (shl_all_holds tail t (stream_ i) Hs) as (s & E & Hs'); [|done|].
  { unfold tail. repeat (apply Forall_cons; split); try done. cbn. unfold Convert.numeric, in_s in *. lia. }
  unfold tail in E. cbn [shl_all shl] in E. unfold destroy_logger, finish, shl_SourceFile, shl_int, shl_long, shl_string in *.
  inv_result. rewrite Hr, bind_Ok, Hr0, bind_Ok, Hr1, bind_Ok, Hr2, bind_Ok, Hr3, bind_Ok. rewrite bind_Ok. cbn [stream_ level_].
  destruct Hs' as [Hb' Ht]. rewrite (toString_text kSmallBuffer), bind_Ok, Ht by done. done.
Qed.

Lemma log_spec x th :
  cached th → legal x →
  log strerror storage zone g x th =
    Ok (mkThread tid_cached (date (micros x)) (micros x / 1000000), (line x, fatal x)).
Proof.
  intros Hc (Hus & Hm & Hk & Hln & Hl). unfold line in *.
  rewrite app_assoc, !(concat_texts (_ ++ _)), (concat_texts (message x)), !zlen_app in *.
  set (t := concat (text_of <$> head_items x ++ kind_items (kind x))) in *.
  pose proof (zlen_nonneg (concat (text_of <$> message x))). pose proof (zlen_nonneg (concat (text_of <$> tail_items x))).
  destruct (make_logger_spec x (at_line x) (SourceFile (file x)) th Hc Hus Hk) as (s & E & Hs);
    [fold t; unfold kMaxNumericSize, kSmallBuffer in *; lia|]. fold t in Hs.
  unfold log. rewrite E, bind_Ok. cbn [stream_ level_ line_ basename_].
  destruct (shl_all_holds (message x) t s Hs Hm) as (s1 & -> & Hs1);
    [unfold kMaxNumericSize, kSmallBuffer in *; lia|]. rewrite bind_Ok.
  pose proof (zlen_nonneg t). assert (zlen (SourceFile (file x)) ≤ zlen (concat (text_of <$> tail_items x))) as Hf.
  { unfold tail_items. cbn [fmap list_fmap concat text_of]. rewrite 2!zlen_app.
    pose proof (zlen_nonneg (default (Channel.str "(null)") (Some (Channel.str " - ")))).
    pose proof (zlen_nonneg ([":"%char] ++ Format.dec (at_line x) ++ ["010"%char] ++ [])). lia. }
  rewrite (destroy_logger_spec _ (t ++ concat (text_of <$> message x))); cbn [stream_ level_ line_ basename_];
    [|done|done|unfold kMaxNumericSize, kSmallBuffer in *; lia|].
  - rewrite bind_Ok. unfold fatal. do 3 f_equal. by rewrite <- app_assoc.
  - rewrite zlen_app. unfold tail_items in *. unfold kMaxNumericSize, kSmallBuffer in *. lia.
Qed.

Lemma cached_date x : legal x → cached (mkThread tid_cached (date (micros x)) (micros x / 1000000)).
Proof. intros [Hus _]. split; [by right|]. right. by apply legal_date. Qed.

(** A UTC line begins with the formatted time. *)
Lemma utc_line x :
  TimeZone.valid zone = false → legal x →
  Timestamp.toFormattedString (when x) true = Ok (ztake 24 (line x)).
Proof.
  intros Hz Hx. destruct Hx as [[Hlo Hhi] _]. rewrite Hz in Hhi.
  destruct x as [[us] k f ln msg]. unfold micros in *. cbn in Hlo, Hhi.
  destruct (utc_date us Hz) as (_ & Hd & E1); [lia|]. cbn [when]. rewrite E1. f_equal.
  unfold line. rewrite concat_texts, head_text. unfold micros, fraction.
  cbn [when Timestamp.microSecondsSinceEpoch Timestamp.microSecondsSinceEpoch_].
  pose proof (Z.mod_pos_bound us 1000000 ltac:(lia)).
  pose proof (dec_pad0_length 6 (us mod 1000000) ltac:(lia) ltac:(lia)) as H6. change (Z.of_nat 6) with 6 in H6.
  symmetry. match goal with |- ztake 24 ?l = ?d =>
    assert (∃ r, l = d ++ r) as [r ->] by (eexists; rewrite <- !app_assoc; reflexivity) end.
  apply ztake_app_exact.
  rewrite !zlen_app, Hd, H6. done.
Qed.
End spec.

(** ** A thread's statements, in changing zones *)

(** The statements with the zone in force. *)
Fixpoint in_zones (zone : TimeZone.TimeZone) (es : list event) : list (TimeZone.TimeZone * statement) :=
  match es with
  | [] => []
  | Log x :: es => (zone, x) :: in_zones zone es
  | SetTimeZone tz :: es => in_zones tz es
  end.

Section lines.
Context (strerror : Z → bytes) (storage : bytes) (g : Z).
Hypothesis (Hg : 0 < g < 2 ^ 31) (Hstorage : zlen storage = kSmallBuffer).

(** Every statement is legal in the zone in force; and the thread's first statement
    after a change of the zone is not in the second of its last statement before it
    ([last]; see [stale_zone]). *)
Fixpoint legal_events (zone : TimeZone.TimeZone) (last : Z) (changed : bool) (es : list event) : Prop :=
  match es with
  | [] => True
  | Log x :: es =>
      legal strerror zone g x ∧ (changed = true → micros x / 1000000 ≠ last) ∧
      legal_events zone (micros x / 1000000) false es
  | SetTimeZone tz :: es => legal_events tz last true es
  end.

(** The cache of another second is not looked at. *)
Lemma log_other_second zone x th :
  1000000 ≤ micros x → micros x / 1000000 ≠ t_lastSecond th →
  log strerror storage zone g x th = log strerror storage zone g x (mkThread (current_ th) [] 0).
Proof.
  intros Hx Hne. assert (refresh zone (micros x / 1000000) th = refresh zone (micros x / 1000000) (mkThread (current_ th) [] 0)) as E.
  { unfold refresh. cbn [t_lastSecond current_]. rewrite (proj2 (Z.eqb_neq _ _)) by done.
    rewrite (proj2 (Z.eqb_neq _ 0)); [done|]. pose proof (Z.div_le_mono 1000000 (micros x) 1000000 ltac:(lia) Hx) as Hd.
    rewrite Z.div_same in Hd by lia. lia. }
  assert (∀ s, formatTime zone (when x) th s = formatTime zone (when x) (mkThread (current_ th) [] 0) s) as Ef.
  { intros s. unfold formatTime. fold (micros x). destruct (quot_rem_million (micros x)) as [-> _]; [lia|]. by rewrite E. }
  unfold log, make_logger, make_impl. destruct (kind x); by rewrite Ef.
Qed.

(** C24: Take the log statements of a thread, each of them legal (a time from one
    second after the epoch up to the year 9999, and a line that fits into the 4000
    bytes of the buffer with 32 to spare), with changes of the time zone in
    between, none of which comes between two statements of the same second. Each
    statement writes the line it should, although the texts of the second and of
    the thread number come from caches: the date and time of the statement in the
    zone then in force, the thread, the level, the error if any, the message, the
    base name of the source file and the line number; a UTC line begins with
    [toFormattedString] of the time. Only [FATAL] aborts. *)
Theorem log_lines es gl th :
  cached (g_logTimeZone gl) g th → legal_events (g_logTimeZone gl) (t_lastSecond th) false es →
  ∃ gl' th', log_events strerror storage g es gl th =
      Ok (gl', th', (λ zx, (line strerror zx.1 g zx.2, fatal zx.2)) <$> in_zones (g_logTimeZone gl) es) ∧
    ∀ z x, (z, x) ∈ in_zones (g_logTimeZone gl) es → TimeZone.valid z = false →
      Timestamp.toFormattedString (when x) true = Ok (ztake 24 (line strerror z g x)).
Proof.
  intros Hc. assert (CurrentThread.tid_inv g (current_ th) ∧ (false = false → cached (g_logTimeZone gl) g th)) as Ht
    by (split; [apply Hc|done]). clear Hc. revert gl th Ht. generalize false at 1 3.
  induction es as [|[x|tz] es IH]; intros changed gl th [Ht Hc] Hl; cbn [log_events in_zones legal_events] in *.
  - exists gl, th. split; [done|]. by intros z x ?%not_elem_of_nil.
  - destruct Hl as (Hx & Hsec & Hl).
    assert (log strerror storage (g_logTimeZone gl) g x th =
      Ok (mkThread (tid_cached g) (date (g_logTimeZone gl) (micros x)) (micros x / 1000000),
          (line strerror (g_logTimeZone gl) g x, fatal x))) as E.
    { destruct changed; [|by apply log_spec; auto].
      rewrite log_other_second; [|apply Hx|by apply Hsec]. apply log_spec; [done|done| |done]. split; [done|by left]. }
    rewrite E, bind_Ok. pose proof (cached_date strerror (g_logTimeZone gl) g x Hx) as Hc'.
    destruct (IH false gl _ (conj (proj1 Hc') (λ _, Hc')) Hl) as (gl' & th' & E' & Hu).
    rewrite E', bind_Ok. exists gl', th'. split; [done|].
    intros z y [[= -> ->]|Hy]%elem_of_cons Hz; [|by apply Hu]. by apply utc_line.
  - apply (IH true (setTimeZone tz gl) th); [by split|done].
Qed.
End lines.

(** A line in UTC, and one with an error number in the zone of China; [example_soon] is
    in the second of the former. *)
Definition example_zone : TimeZone.TimeZone := TimeZone.mkZone None.
Definition china : TimeZone.TimeZone := TimeZone.of_fixed (8 * 3600) (Channel.str "CST").
Definition example_first : statement :=
  mkStatement (Timestamp.mkTimestamp 1234567890123456) (WithFunc WARN (Channel.str "main")) (Channel.str "src/a/b.cc") 42
     [CStr (Some (Channel.str "x = ")); Integer (-7)].
Definition example_second : statement :=
  mkStatement (Timestamp.mkTimestamp 1234567891999999) (System true 2) (Channel.str "b.cc") 7 [Str (Channel.str "open")].
Definition example_soon : statement :=
  mkStatement (Timestamp.mkTimestamp 1234567890999999) Plain (Channel.str "b.cc") 8 [].
Definition example_strerror (e : Z) : bytes := Channel.str "No such file or directory".

Ltac compute_bounds :=
  first [vm_compute; reflexivity | vm_compute; discriminate | vm_compute; split; [discriminate|reflexivity]].

Definition example_log (es : list event) : result (list (bytes * bool)) :=
  snd <$> log_events example_strerror (zrep kSmallBuffer "?"%char) 321 es (mkGlobals INFO example_zone) new_thread.

Lemma log_lines_witness :
  example_log [Log example_first; SetTimeZone china; Log example_second] =
    Ok [(Channel.str "20090213 23:31:30.123456Z   321 WARN  main x = -7 - b.cc:42" ++ ["010"%char], false);
        (Channel.str "20090214 07:31:31.999999   321 FATAL No such file or directory (errno=2) open - b.cc:7" ++ ["010"%char], true)].
Proof.
  destruct (log_lines example_strerror (zrep kSmallBuffer "?"%char) 321 ltac:(lia) eq_refl
    [Log example_first; SetTimeZone china; Log example_second] (mkGlobals INFO example_zone) new_thread) as (gl & th' & E & _).
  - split; left; reflexivity.
  - cbn [legal_events g_logTimeZone]. split; [|split; [discriminate|split; [|split; [intros _; compute_bounds|exact I]]]].
    + repeat (apply Forall_cons_2 || apply Forall_nil_2 || split); compute_bounds.
    + split; [split; [compute_bounds|eexists; split; vm_compute; reflexivity]|].
      repeat (apply Forall_cons_2 || apply Forall_nil_2 || split); compute_bounds.
  - unfold example_log. rewrite E. vm_compute. reflexivity.
Defined.

(** What [legal_events] excludes: after a change of the zone a statement of the same
    second shows the time of the old zone, here UTC but without its [Z]. *)
Lemma stale_zone :
  example_log [SetTimeZone china; Log example_soon] =
    Ok [(Channel.str "20090214 07:31:30.999999   321 INFO   - b.cc:8" ++ ["010"%char], false)] ∧
  example_log [Log example_first; SetTimeZone china; Log example_soon] =
    Ok [(Channel.str "20090213 23:31:30.123456Z   321 WARN  main x = -7 - b.cc:42" ++ ["010"%char], false);
        (Channel.str "20090213 23:31:30.999999   321 INFO   - b.cc:8" ++ ["010"%char], false)].
Proof. split; vm_compute; reflexivity. Qed.

End Logger.
