(* ===== verification/LogFile.v ===== *)
(** * Log files ([base/FileUtil.cc], [base/LogFile.cc])

    Appending to a file with possibly short writes, reading a small file, and
    log files that are changed when they are full or the day is over. The
    clock, the results of system calls and the host name are inputs. *)

From stdpp Require Import sorting.
From S2P Require Import Prelude Endian Format Date TimeZone Timestamp Channel.
Import Format.

Module FileUtil.

(** ** AppendFile: what has been given to the stream, and how much of it is flushed. *)
Record AppendFile := mkAppendFile { filename_ : bytes; content : bytes; flushed : Z; writtenBytes_ : Z }.

(** [fopen] in append mode; [old] is what the file holds already. *)
Definition open_append (fopen_ok : bool) (filename old : bytes) : result AppendFile :=
  _ ← check fopen_ok;
  Ok (mkAppendFile filename old (zlen old) 0).

(** [fwrite_unlocked]: the results of the calls to come; a call takes at most
    what it is given, and everything when no result is listed. *)
Definition write (len : Z) (ws : list Z) : Z * list Z :=
  match ws with [] => (len, []) | x :: ws => (Z.max 0 (Z.min x len), ws) end.

(** The loop: bytes written in the end. Each round but the last writes something. *)
Fixpoint append_loop (fuel : nat) (len n : Z) (ws : list Z) : Z * list Z :=
  match fuel with
  | O => (n, ws)
  | S fuel =>
      let remain := len - n in
      if 0 <? remain
      then let '(x, ws) := write remain ws in
           if x =? 0 then (n, ws) else append_loop fuel len (n + x) ws
      else (n, ws)
  end.
Definition append (logline : bytes) (ws : list Z) (f : AppendFile) : AppendFile * list Z :=
  let len := zlen logline in
  let '(n, ws) := write len ws in
  let '(n, ws) := append_loop (S (length logline)) len n ws in
  (mkAppendFile (filename_ f) (content f ++ ztake n logline) (flushed f) (writtenBytes_ f + len), ws).
Definition flush (f : AppendFile) : AppendFile :=
  mkAppendFile (filename_ f) (content f) (zlen (content f)) (writtenBytes_ f).
Definition writtenBytes (f : AppendFile) : Z := writtenBytes_ f.

Lemma append_loop_full fuel len : ∀ n ws,
  Forall (λ x, 0 < x) ws → 0 ≤ n ≤ len → len - n < Z.of_nat fuel →
  (append_loop fuel len n ws).1 = len ∧ Forall (λ x, 0 < x) (append_loop fuel len n ws).2.
Proof.
  induction fuel as [|fuel IH]; intros n ws Hw Hn Hf; [lia|]. cbn [append_loop].
  destruct (Z.ltb_spec 0 (len - n)); [|split; [cbn; lia|done]].
  destruct (write (len - n) ws) as [x ws'] eqn:E.
  assert (0 < x ≤ len - n ∧ Forall (λ x, 0 < x) ws') as [Hx Hw'].
  { destruct ws as [|y ws]; cbn in E; injection E as <- <-; [split; [lia|constructor]|].
    apply Forall_cons in Hw as [??]. split; [lia|done]. }
  rewrite (proj2 (Z.eqb_neq x 0)) by lia. apply IH; [done|lia..].
Qed.

(** Short writes are repeated until the whole line is out. *)
Lemma append_full logline ws f :
  Forall (λ x, 0 < x) ws →
  ∃ ws', append logline ws f =
    (mkAppendFile (filename_ f) (content f ++ logline) (flushed f) (writtenBytes_ f + zlen logline), ws') ∧
    Forall (λ x, 0 < x) ws'.
Proof.
  intros Hw. unfold append. pose proof (zlen_nonneg logline).
  destruct (write (zlen logline) ws) as [n ws1] eqn:E.
  assert (0 ≤ n ≤ zlen logline ∧ Forall (λ x, 0 < x) ws1) as [Hn Hw1].
  { destruct ws as [|y ws]; cbn in E; injection E as <- <-; [split; [lia|constructor]|].
    apply Forall_cons in Hw as [??]. split; [lia|done]. }
  destruct (append_loop_full (S (length logline)) (zlen logline) n ws1) as [H1 H2]; [done|done|unfold zlen in *; lia|].
  destruct (append_loop _ _ n ws1) as [n' ws2]. cbn in H1, H2. subst n'. exists ws2. by rewrite ztake_all.
Qed.

(** ** ReadSmallFile *)

Definition kBufferSize : Z := 64 * 1024.

(** A call of [read]: so many bytes (at least one, unless the file is at its end), or an error. *)
Inductive read_result := Got (k : Z) | Error (errno : Z).
Definition read (toRead : Z) (r : read_result) (rest : bytes) : bytes + Z :=
  match r with
  | Got k => inl (ztake (Z.max 1 (Z.min k toRead)) rest)
  | Error e => inr e
  end.

(** [None]: more calls of [read] than results given. *)
Fixpoint read_loop (rs : list read_result) (maxSize : Z) (file content : bytes) (err : Z) : option (Z * bytes) :=
  if u64 maxSize <=? zlen content then Some (err, content)
  else
    match rs with
    | [] => None
    | r :: rs =>
        let toRead := Z.min (u64 maxSize - zlen content) kBufferSize in
        match read toRead r (zdrop (zlen content) file) with
        | inl [] => Some (err, content)
        | inl got => read_loop rs maxSize file (content ++ got) err
        | inr e => Some (e, content)
        end
    end.

Inductive kind := Regular | Directory | Other.
Record statbuf := mkStat { st_kind : kind; st_size : Z; st_mtime : Z; st_ctime : Z }.
Record info := mkInfo { fileSize : Z; modifyTime : Z; createTime : Z }.
Definition EISDIR : Z := 21.

(** [readToString] with all three result pointers given, or none of them. The
    file is open, or [err_] says why not. *)
Definition readToString (opened : Z + bytes) (stat : statbuf + Z) (rs : list read_result) (maxSize : Z)
    (want : option info) (content0 : bytes) : option (Z * bytes * option info) :=
  match opened with
  | inl err => Some (err, content0, want)
  | inr file =>
      let '(err, want) :=
        match want with
        | None => (0, None)
        | Some i =>
            match stat with
            | inl st =>
                (match st_kind st with Directory => EISDIR | _ => 0 end,
                 Some (mkInfo (match st_kind st with Regular => st_size st | _ => fileSize i end) (st_mtime st) (st_ctime st)))
            | inr e => (e, Some i)
            end
        end in
      match read_loop rs maxSize file [] err with
      | Some (err, c) => Some (err, c, want)
      | None => None
      end
  end.

Definition readToBuffer (opened : Z + bytes) (r : read_result) (buf : bytes) : result (Z * bytes * option Z) :=
  match opened with
  | inl err => Ok (err, buf, None)
  | inr file =>
      match read (kBufferSize - 1) r file with
      | inl got =>
          b ← vec_write buf 0 (got ++ ["000"%char]);
          Ok (0, b, Some (zlen got))
      | inr e => Ok (e, buf, None)
      end
  end.

(** Reads of any size collect the file, up to the limit. *)
Lemma read_loop_prefix rs : ∀ maxSize content rest err e c,
  0 ≤ maxSize < 2 ^ 31 → zlen content ≤ maxSize → Forall (λ r, ∃ k, r = Got k) rs →
  read_loop rs maxSize (content ++ rest) content err = Some (e, c) → e = err ∧ c = ztake maxSize (content ++ rest).
Proof.
  induction rs as [|r rs IH]; intros maxSize content rest err e c Hm Hl Hr; cbn [read_loop];
    rewrite wrapu_small by (unfold in_u; lia); destruct (Z.leb_spec maxSize (zlen content)); try done.
  1,2: intros [= <- <-]; split; [done|]; by rewrite ztake_app_exact by lia.
  apply Forall_cons in Hr as [[k ->] Hr]. cbn [read]. rewrite zdrop_app_exact by done.
  set (n := Z.max 1 (Z.min k (Z.min (maxSize - zlen content) kBufferSize))).
  assert (1 ≤ n ≤ maxSize - zlen content) as Hn by (unfold n, kBufferSize; lia).
  destruct (ztake n rest) as [|a got] eqn:E.
  - intros [= <- <-]. split; [done|]. assert (rest = []) as ->.
    { destruct rest as [|b l]; [done|]. unfold ztake in E. destruct (Z.to_nat n) eqn:En; [lia|done]. }
    rewrite app_nil_r, ztake_all by lia. done.
  - rewrite <- (ztake_zdrop n rest), E, !app_assoc. apply IH; [done| |done]. rewrite zlen_app.
    assert (zlen (ztake n rest) ≤ n) by (unfold zlen, ztake; rewrite length_take; lia). rewrite <- E. lia.
Qed.

(** Given one result more than there are bytes to read, the loop ends. *)
Lemma read_loop_ends rs : ∀ maxSize content rest err,
  0 ≤ maxSize < 2 ^ 31 → zlen content ≤ maxSize → (length rest < length rs)%nat →
  is_Some (read_loop rs maxSize (content ++ rest) content err).
Proof.
  induction rs as [|r rs IH]; intros maxSize content rest err Hm Hl Hr; [cbn in Hr; lia|]. cbn [read_loop].
  rewrite wrapu_small by (unfold in_u; lia). destruct (Z.leb_spec maxSize (zlen content)); [eauto|].
  destruct r as [k|e]; cbn [read]; [|eauto]. rewrite zdrop_app_exact by done.
  set (n := Z.max 1 (Z.min k (Z.min (maxSize - zlen content) kBufferSize))).
  assert (1 ≤ n ≤ maxSize - zlen content) as Hn by (unfold n, kBufferSize; lia).
  destruct (ztake n rest) as [|a got] eqn:E; [eauto|].
  assert (zlen (ztake n rest) ≤ n ∧ length rest = (length (ztake n rest) + length (zdrop n rest))%nat) as [Hg Hs].
  { split; [unfold zlen, ztake; rewrite length_take; lia|]. rewrite <- length_app. by rewrite ztake_zdrop. }
  rewrite E in Hg, Hs. rewrite <- (ztake_zdrop n rest), E, !app_assoc. apply IH; [done| |cbn in *; lia].
  rewrite zlen_app. lia.
Qed.

(** Whatever the sizes in which [read] delivers it, [readToString] returns the
    first [maxSize] bytes of a regular file, and the loop ends. *)
Lemma readToString_prefix file st rs maxSize want content0 :
  0 ≤ maxSize < 2 ^ 31 → st_kind st = Regular → Forall (λ r, ∃ k, r = Got k) rs → (length file < length rs)%nat →
  readToString (inr file) (inl st) rs maxSize want content0 =
    Some (0, ztake maxSize file, (λ _, mkInfo (st_size st) (st_mtime st) (st_ctime st)) <$> want).
Proof.
  intros Hm Hk Hr Hl. unfold readToString.
  destruct (read_loop_ends rs maxSize [] file 0) as [[e c] E]; [done|rewrite zlen_nil; lia|done|].
  destruct (read_loop_prefix rs maxSize [] file 0 e c) as [-> ->]; [done|rewrite zlen_nil; lia|done..|].
  destruct want as [i|]; [rewrite Hk|]; cbn [app] in E; by rewrite E.
Qed.
End FileUtil.

Module LogFile.
Import FileUtil.

Definition kRollPerSeconds_ : Z := 60 * 60 * 24.

Record LogFile := mkLogFile {
  basename_ : bytes; rollSize_ : Z; flushInterval_ : Z; checkEveryN_ : Z;
  count_ : Z; startOfPeriod_ : Z; lastRoll_ : Z; lastFlush_ : Z;
  file_ : option AppendFile;
  closed : list AppendFile      (* ghost: the files written before *)
}.

Section logfile.
(** [fopen] of a new name, the host name and the process number. *)
Context (can_open : bytes → bool) (hostname : bytes) (pid : Z).

Definition getLogFileName (basename : bytes) (now : Z) : result bytes :=
  tm ← TimeZone.gmtime_r now;
  let timebuf := snprintf 32 (["."%char] ++ dec (TimeZone.tm_year tm + 1900) ++ dec_pad0 2 (TimeZone.tm_mon tm + 1) ++
    dec_pad0 2 (TimeZone.tm_mday tm) ++ ["-"%char] ++ dec_pad0 2 (TimeZone.tm_hour tm) ++
    dec_pad0 2 (TimeZone.tm_min tm) ++ dec_pad0 2 (TimeZone.tm_sec tm) ++ ["."%char]) in
  let pidbuf := snprintf 32 (["."%char] ++ dec pid) in
  Ok (basename ++ timebuf ++ hostname ++ pidbuf ++ Channel.str ".log").

Definition rollFile (now : Z) (l : LogFile) : result (LogFile * bool) :=
  filename ← getLogFileName (basename_ l) now;
  let start := Z.quot now kRollPerSeconds_ * kRollPerSeconds_ in
  if lastRoll_ l <? now then
    f ← open_append (can_open filename) filename [];
    Ok (mkLogFile (basename_ l) (rollSize_ l) (flushInterval_ l) (checkEveryN_ l) (count_ l) start now now (Some f)
          (closed l ++ match file_ l with Some f => [f] | None => [] end), true)
  else Ok (l, false).

Definition make (basename : bytes) (rollSize flushInterval checkEveryN now : Z) : result LogFile :=
  _ ← check (bool_decide ("/"%char ∉ basename));
  '(l, _) ← rollFile now (mkLogFile basename rollSize flushInterval checkEveryN 0 0 0 0 None []);
  Ok l.

(** [file_->...] through a null pointer is undefined. *)
Definition with_file (g : AppendFile → AppendFile) (l : LogFile) : result LogFile :=
  match file_ l with
  | Some f => Ok (mkLogFile (basename_ l) (rollSize_ l) (flushInterval_ l) (checkEveryN_ l) (count_ l)
                    (startOfPeriod_ l) (lastRoll_ l) (lastFlush_ l) (Some (g f)) (closed l))
  | None => Fail OutOfRange
  end.
Definition set_count (n : Z) (l : LogFile) : LogFile :=
  mkLogFile (basename_ l) (rollSize_ l) (flushInterval_ l) (checkEveryN_ l) n
    (startOfPeriod_ l) (lastRoll_ l) (lastFlush_ l) (file_ l) (closed l).
Definition set_lastFlush (t : Z) (l : LogFile) : LogFile :=
  mkLogFile (basename_ l) (rollSize_ l) (flushInterval_ l) (checkEveryN_ l) (count_ l)
    (startOfPeriod_ l) (lastRoll_ l) t (file_ l) (closed l).

Definition flush (l : LogFile) : result LogFile := with_file FileUtil.flush l.

(** [ws]: the results of the writes; [now]: what [time(NULL)] returns (here and in
    [getLogFileName], when the file is rolled: one value for the two calls). *)
Definition append_unlocked (logline : bytes) (ws : list Z) (now : Z) (l : LogFile) : result LogFile :=
  l ← with_file (λ f, fst (FileUtil.append logline ws f)) l;
  if rollSize_ l <? match file_ l with Some f => writtenBytes f | None => 0 end
  then fst <$> rollFile now l
  else
    n ← sint 32 (count_ l + 1);
    let l := set_count n l in
    if checkEveryN_ l <=? count_ l then
      let l := set_count 0 l in
      let thisPeriod_ := Z.quot now kRollPerSeconds_ * kRollPerSeconds_ in
      if negb (thisPeriod_ =? startOfPeriod_ l) then fst <$> rollFile now l
      else if flushInterval_ l <? now - lastFlush_ l then flush (set_lastFlush now l)
      else Ok l
    else Ok l.

(** With and without the mutex: one caller at a time. *)
Definition append (logline : bytes) (ws : list Z) (now : Z) (l : LogFile) : result LogFile :=
  append_unlocked logline ws now l.

Fixpoint append_all (xs : list (bytes * list Z * Z)) (l : LogFile) : result LogFile :=
  match xs with
  | [] => Ok l
  | (line, ws, now) :: xs => l ← append line ws now l; append_all xs l
  end.
End logfile.

(** ** Names *)
Section names.
Context (hostname : bytes) (pid : Z).

Definition name_time (basename name : bytes) : result Z :=
  let s := zdrop (zlen basename) name in
  TimeZone.fromUtcTime6 (Timestamp.field s 1 4) (Timestamp.field s 5 2) (Timestamp.field s 7 2)
    (Timestamp.field s 10 2) (Timestamp.field s 12 2) (Timestamp.field s 14 2).

Definition clock_ok (t : Z) : Prop := 0 < t < 253402300800.

Lemma dec_four y : 1000 ≤ y < 10000 → zlen (dec y) = 4 ∧ dec_read (dec y) = y.
Proof.
  intros Hy. destruct (Timestamp.dec_pad_four y Hy) as [H1 H2]. unfold dec_pad in *. pose proof (zlen_nonneg (dec y)).
  rewrite zlen_app in H1. rewrite <- H2 at 3.
  destruct (Z.leb_spec 4 (zlen (dec y))); [rewrite zrep_nonpos in * by lia; rewrite zlen_nil in H1; split; [lia|done]|].
  exfalso. pose proof (digits_length y 4 ltac:(lia) ltac:(lia)) as Hl. unfold dec in *.
  rewrite (proj2 (Z.ltb_ge y 0)) in * by lia.
  pose proof (dec_read_bound (digits y) (digits_all y ltac:(lia))) as Hb. rewrite digits_read in Hb by lia.
  assert (10 ^ zlen (digits y) ≤ 10 ^ 3) by (apply Z.pow_le_mono_r; lia). lia.
Qed.

(** The time of a log file can be read from its name. *)
Lemma getLogFileName_time basename t :
  clock_ok t → ∃ n, getLogFileName hostname pid basename t = Ok n ∧ name_time basename n = Ok t.
Proof.
  intros Ht. unfold clock_ok in Ht.
  assert (0 ≤ t / 86400 < 2932897) as HD by zdiv.
  assert (TimeZone.utc_range t) as Hr by (unfold TimeZone.utc_range, TimeZone.kSecondsPerDay; lia).
  destruct (TimeZone.utc_roundtrip' t Hr) as (u & E1 & E2). unfold getLogFileName, TimeZone.gmtime_r.
  destruct (TimeZone.toUtcTime_spec t true Hr) as (p & _ & Hv & _ & _ & Hc & E).
  rewrite E in E1. injection E1 as <-. rewrite E, bind_Ok. unfold TimeZone.fromUtcTime in E2.
  unfold TimeZone.kSecondsPerDay in *. change Date.kJulianDayOf1970_01_01 with 2440588 in *.
  cbn [TimeZone.tm_year TimeZone.tm_mon TimeZone.tm_mday TimeZone.tm_hour TimeZone.tm_min TimeZone.tm_sec] in *.
  pose proof (Timestamp.year_range _ _ _ Hv ltac:(lia)) as Hy. destruct Hv as [Hmon Hday].
  pose proof (Date.month_length_range (Date.leap (Date.year p)) _ Hmon) as Hml.
  rewrite !(iop_Ok Z.add _ _ _ eq_refl), !bind_Ok in E2 by zlia.
  assert (0 ≤ t mod 86400 / 60 / 60 < 24 ∧ 0 ≤ t mod 86400 / 60 mod 60 < 60 ∧
          0 ≤ (t mod 86400) mod 60 < 60) as (Hh & Hmi & Hse) by zdiv.
  destruct (dec_four (Date.year p - 1900 + 1900)) as [L1 R1]; [lia|].
  destruct (Timestamp.dec_pad0_two (Date.month p - 1 + 1)) as [L2 R2]; [lia|].
  destruct (Timestamp.dec_pad0_two (Date.day p)) as [L3 R3]; [lia|].
  destruct (Timestamp.dec_pad0_two (t mod 86400 / 60 / 60)) as [L4 R4]; [lia|].
  destruct (Timestamp.dec_pad0_two (t mod 86400 / 60 mod 60)) as [L5 R5]; [lia|].
  destruct (Timestamp.dec_pad0_two ((t mod 86400) mod 60)) as [L6 R6]; [lia|].
  eexists. split; [done|]. unfold name_time. rewrite zdrop_app_exact by done. unfold snprintf.
  rewrite (ztake_all (32 - 1) (["."%char] ++ dec _ ++ _)) by (rewrite ?zlen_app, L1, L2, L3, L4, L5, L6; done).
  rewrite <- !app_assoc. Timestamp.fields. by rewrite R1, R2, R3, R4, R5, R6.
Qed.

Lemma getLogFileName_inj basename t t' n :
  clock_ok t → clock_ok t' → getLogFileName hostname pid basename t = Ok n →
  getLogFileName hostname pid basename t' = Ok n → t = t'.
Proof.
  intros Ht Ht' E E'. destruct (getLogFileName_time basename t Ht) as (m & F & G).
  destruct (getLogFileName_time basename t' Ht') as (m' & F' & G'). congruence.
Qed.
End names.

(** ** Rolling *)
Section rolling.
Context (can_open : bytes → bool) (hostname : bytes) (pid : Z) (Hopen : ∀ n, can_open n = true).
Context (basename : bytes) (rollSize flushInterval checkEveryN : Z).
Context (Hroll : 0 ≤ rollSize) (Hevery : checkEveryN < 2 ^ 31).

Definition files (l : LogFile) : list AppendFile := closed l ++ match file_ l with Some f => [f] | None => [] end.
Definition named (t : Z) (f : AppendFile) : Prop :=
  clock_ok t ∧ getLogFileName hostname pid basename t = Ok (filename_ f).

(** [ts]: when the files were opened. *)
Record log_inv (lines : bytes) (ts : list Z) (l : LogFile) : Prop := {
  log_params : basename_ l = basename ∧ rollSize_ l = rollSize ∧ flushInterval_ l = flushInterval ∧ checkEveryN_ l = checkEveryN;
  log_file : ∃ f, file_ l = Some f ∧ 0 ≤ flushed f ≤ zlen (content f);
  log_count : 0 ≤ count_ l < Z.max 1 checkEveryN;
  log_times : StronglySorted Z.lt ts ∧ Forall (λ t, t ≤ lastRoll_ l) ts ∧ Forall2 named ts (files l);
  log_content : concat (content <$> files l) = lines
}.

Lemma sorted_snoc (ts : list Z) t : StronglySorted Z.lt ts → Forall (λ x, x < t) ts → StronglySorted Z.lt (ts ++ [t]).
Proof.
  induction ts as [|x ts IH]; intros Hs Hf; [repeat constructor|]. apply StronglySorted_inv in Hs as [Hs Hx].
  apply Forall_cons in Hf as [Hxt Hf]. cbn. constructor; [by apply IH|]. apply Forall_app. split; [done|]. by constructor.
Qed.

Lemma rollFile_inv lines ts l now :
  log_inv lines ts l → clock_ok now →
  ∃ l' b ts', rollFile can_open hostname pid now l = Ok (l', b) ∧ log_inv lines ts' l' ∧
    if lastRoll_ l <? now then ∃ f, file_ l' = Some f ∧ writtenBytes_ f = 0 else l' = l.
Proof.
  intros Hi Hnow. pose proof Hi as []. unfold rollFile. destruct log_params0 as (Eb & Er & Ef & Ee). rewrite Eb.
  destruct (getLogFileName_time hostname pid basename now Hnow) as (n & E & _). rewrite E, bind_Ok.
  destruct (Z.ltb_spec (lastRoll_ l) now); [|by exists l, false, ts].
  unfold open_append. rewrite Hopen, check_true, !bind_Ok by done.
  eexists _, _, (ts ++ [now]). split; [done|]. destruct log_times0 as (Hs & Hle & Hn). split; [|by eexists].
  constructor; cbn [basename_ rollSize_ flushInterval_ checkEveryN_ count_ lastRoll_ file_ closed]; try done.
  - eexists. split; [done|]. cbn. done.
  - split_and!.
    + apply sorted_snoc; [done|]. eapply Forall_impl; [exact Hle|]. cbn. intros. lia.
    + apply Forall_app. split; [|by constructor]. eapply Forall_impl; [exact Hle|]. cbn. intros. lia.
    + unfold files. cbn [file_ closed]. apply Forall2_app; [exact Hn|]. constructor; [|constructor].
      done.
  - unfold files in *. cbn [file_ closed]. rewrite fmap_app, concat_app. cbn. by rewrite app_nil_r.
Qed.

Lemma with_file_inv lines ts l g d :
  log_inv lines ts l →
  (∀ f, filename_ (g f) = filename_ f ∧ content (g f) = content f ++ d ∧
        (0 ≤ flushed f ≤ zlen (content f) → 0 ≤ flushed (g f) ≤ zlen (content (g f)))) →
  ∃ l' f, with_file g l = Ok l' ∧ log_inv (lines ++ d) ts l' ∧ file_ l = Some f ∧ file_ l' = Some (g f) ∧
    count_ l' = count_ l ∧ lastRoll_ l' = lastRoll_ l.
Proof.
  intros [] Hg. destruct log_file0 as (f & Ef & Hfl). unfold with_file. rewrite Ef.
  eexists _, f. split; [done|]. split; [|done]. destruct (Hg f) as (H1 & H2 & H3).
  constructor; cbn [basename_ rollSize_ flushInterval_ checkEveryN_ count_ lastRoll_ file_ closed]; try done; [by eauto| |].
  - destruct log_times0 as (Hs & Hle & Hn). split_and!; [done..|]. unfold files in *. cbn [file_ closed]. rewrite Ef in Hn.
    apply Forall2_app_inv_r in Hn as (k1 & k2 & Hk1 & Hk2 & ->). apply Forall2_app; [done|].
    inversion_clear Hk2 as [|t f' ? ? Ht Hnil]. inversion_clear Hnil. constructor; [|constructor].
    unfold named. rewrite H1. exact Ht.
  - unfold files in *. cbn [file_ closed]. rewrite Ef in log_content0. rewrite fmap_app, concat_app in *. cbn in *.
    rewrite H2. rewrite app_nil_r in *. by rewrite app_assoc, log_content0.
Qed.

Lemma set_count_inv lines ts l n : log_inv lines ts l → 0 ≤ n < Z.max 1 checkEveryN → log_inv lines ts (set_count n l).
Proof. intros [] Hn. by constructor. Qed.

Lemma set_lastFlush_inv lines ts l n : log_inv lines ts l → log_inv lines ts (set_lastFlush n l).
Proof. intros []. by constructor. Qed.

Lemma append_inv lines ts l line ws now :
  log_inv lines ts l → clock_ok now → Forall (λ x, 0 < x) ws →
  ∃ l' ts' f, append can_open hostname pid line ws now l = Ok l' ∧ log_inv (lines ++ line) ts' l' ∧
    file_ l' = Some f ∧ (writtenBytes_ f ≤ rollSize ∨ now ≤ lastRoll_ l').
Proof.
  intros Hi Hnow Hws. unfold append, append_unlocked.
  destruct (with_file_inv lines ts l (λ f, (FileUtil.append line ws f).1) line Hi) as (l1 & f1 & E1 & Hi1 & _ & Ef & Ec & Elr).
  { intros f. destruct (append_full line ws f Hws) as (ws' & -> & _). cbn. split_and!; [done..|].
    rewrite zlen_app. pose proof (zlen_nonneg line). lia. }
  rewrite E1, bind_Ok. destruct (log_params _ _ _ Hi1) as (_ & Er & _ & Ee). rewrite Er, Ef. unfold writtenBytes.
  set (f := (FileUtil.append line ws f1).1) in *.
  assert (∀ l2, log_inv (lines ++ line) ts l2 → file_ l2 = Some f → lastRoll_ l2 = lastRoll_ l1 →
    ∃ l' ts' f', fst <$> rollFile can_open hostname pid now l2 = Ok l' ∧ log_inv (lines ++ line) ts' l' ∧
      file_ l' = Some f' ∧ (writtenBytes_ f' ≤ rollSize ∨ now ≤ lastRoll_ l')) as Hrf.
  { intros l2 Hi2 Ef2 El2. destruct (rollFile_inv _ _ l2 now Hi2 Hnow) as (l' & b & ts' & -> & Hi' & Hr).
    destruct (Z.ltb_spec (lastRoll_ l2) now).
    - destruct Hr as (f' & Ef' & Hw). exists l', ts', f'. split_and!; [done..|]. left. lia.
    - subst l'. exists l2, ts', f. split_and!; [done..|]. right. lia. }
  destruct (Z.ltb_spec rollSize (writtenBytes_ f)); [by apply Hrf|].
  pose proof (log_count _ _ _ Hi1) as Hcnt. rewrite sint_Ok, bind_Ok by (unfold in_s; lia). cbn zeta.
  cbn [checkEveryN_ count_ set_count]. rewrite Ee. destruct (Z.leb_spec checkEveryN (count_ l1 + 1)).
  - assert (log_inv (lines ++ line) ts (set_count 0 (set_count (count_ l1 + 1) l1))) as Hi2.
    { apply (set_count_inv _ _ _ 0) in Hi1; [exact Hi1|lia]. }
    destruct (negb _); [apply Hrf; [exact Hi2|done|done]|].
    destruct (_ <? _); [|exists (set_count 0 (set_count (count_ l1 + 1) l1)), ts, f; split_and!; [done|done|done|by left]].
    unfold flush. destruct (with_file_inv _ _ _ FileUtil.flush [] (set_lastFlush_inv _ _ _ now Hi2)) as (l3 & f3 & E3 & Hi3 & Ef3 & Ef3' & _).
    { intros f3. cbn. split_and!; [done|by rewrite app_nil_r|]. pose proof (zlen_nonneg (content f3)). lia. }
    rewrite app_nil_r in Hi3. cbn in Ef3. rewrite Ef in Ef3. injection Ef3 as <-.
    exists l3, ts, (FileUtil.flush f). split_and!; [exact E3|done|done|by left].
  - exists (set_count (count_ l1 + 1) l1), ts, f. split_and!; [done|apply set_count_inv; [done|lia]|done|by left].
Qed.

Lemma opened_inv t0 :
  "/"%char ∉ basename → clock_ok t0 →
  ∃ l, make can_open hostname pid basename rollSize flushInterval checkEveryN t0 = Ok l ∧ log_inv [] [t0] l.
Proof.
  intros Hb Ht. unfold make. rewrite check_true, bind_Ok by (by apply bool_decide_true). unfold rollFile. cbn [basename_ lastRoll_].
  destruct (getLogFileName_time hostname pid basename t0 Ht) as (n & E & _). rewrite E, bind_Ok.
  destruct Ht as [Ht1 Ht2] eqn:Eht. rewrite (proj2 (Z.ltb_lt 0 t0)) by done.
  unfold open_append. rewrite Hopen, check_true, !bind_Ok by done. eexists. split; [done|].
  constructor; cbn; try done; try lia; [by eexists|]. split_and!; [repeat constructor|by constructor|].
  constructor; [|constructor]. split; [exact Ht|done].
Qed.

Lemma append_all_inv xs : ∀ lines ts l,
  log_inv lines ts l → Forall (λ x, clock_ok x.2 ∧ Forall (λ n, 0 < n) x.1.2) xs →
  ∃ l' ts' f, append_all can_open hostname pid xs l = Ok l' ∧ log_inv (lines ++ concat (xs.*1.*1)) ts' l' ∧
    file_ l' = Some f ∧ match last xs with Some x => writtenBytes_ f ≤ rollSize ∨ x.2 ≤ lastRoll_ l' | None => True end.
Proof.
  induction xs as [|[[line ws] now] xs IH]; intros lines ts l Hi Hx.
  - destruct (log_file _ _ _ Hi) as (f & Ef & _). exists l, ts, f. cbn. by rewrite app_nil_r.
  - apply Forall_cons in Hx as [[Hnow Hws] Hx]. cbn in Hnow, Hws.
    destruct (append_inv _ _ _ line ws now Hi Hnow Hws) as (l1 & ts1 & f1 & E & Hi1 & Ef & Hlim).
    destruct (IH _ _ _ Hi1 Hx) as (l2 & ts2 & f2 & E2 & Hi2 & Ef2 & Hlim2).
    exists l2, ts2, f2. cbn [append_all]. rewrite E, bind_Ok. split; [done|]. cbn [fmap list_fmap fst concat].
    rewrite <- app_assoc in Hi2. split; [done|]. split; [done|].
    destruct xs as [|y xs]; [|exact Hlim2]. cbn in *. injection E2 as <-. rewrite Ef in Ef2. injection Ef2 as <-. exact Hlim.
Qed.

Lemma named_NoDup ts fs : StronglySorted Z.lt ts → Forall2 named ts fs → NoDup (filename_ <$> fs).
Proof.
  intros Hs Hn. induction Hn as [|t f ts fs Hf Hn IH]; cbn; [constructor|]. apply StronglySorted_inv in Hs as [Hs Hlt].
  constructor; [|by apply IH]. intros (f' & Hname & Hin)%list_elem_of_fmap.
  apply list_elem_of_lookup in Hin as [i Hi]. destruct (Forall2_lookup_r _ _ _ _ _ Hn Hi) as (t' & Ht' & Hc' & Hn').
  destruct Hf as [Hc Hf]. rewrite Hname in Hf. pose proof (getLogFileName_inj _ _ _ _ _ _ Hc Hc' Hf Hn') as ->.
  apply (Forall_lookup_1 _ _ _ _ Hlt) in Ht'. lia.
Qed.

(** C26: However often the file is changed, a log keeps every line: the contents of
    its files, oldest first, are the lines appended, whole and in order, although
    [fwrite] may take a line in pieces. No two files have the same name, and after
    an append the current file is within [rollSize] unless it was opened in that
    very second (or later, by a clock that was set back since). Files are assumed
    to open and writes to make progress. *)
Theorem logfile_keeps t0 xs :
  "/"%char ∉ basename → clock_ok t0 → Forall (λ x, clock_ok x.2 ∧ Forall (λ n, 0 < n) x.1.2) xs →
  ∃ l f, (l ← make can_open hostname pid basename rollSize flushInterval checkEveryN t0;
          append_all can_open hostname pid xs l) = Ok l ∧
    concat (content <$> files l) = concat (xs.*1.*1) ∧ NoDup (filename_ <$> files l) ∧ file_ l = Some f ∧
    match last xs with Some x => writtenBytes_ f ≤ rollSize ∨ x.2 ≤ lastRoll_ l | None => True end.
Proof.
  intros Hb Ht Hx. destruct (opened_inv t0 Hb Ht) as (l0 & -> & Hi0). rewrite bind_Ok.
  destruct (append_all_inv xs _ _ _ Hi0 Hx) as (l & ts & f & E & Hi & Ef & Hlim). exists l, f.
  destruct (log_times _ _ _ Hi) as (Hs & _ & Hn). split_and!; [done|apply (log_content _ _ _ Hi)| |done|done].
  by eapply named_NoDup.
Qed.
End rolling.

(** Three lines into files of 10 bytes; the second is written in two pieces. *)
Definition example_appends : list (bytes * list Z * Z) :=
  [(Channel.str "first line", [], 100000); (Channel.str "second", [2; 3], 100001); (Channel.str "third line", [], 200000)].
Definition example_log : result LogFile :=
  l ← make (λ _, true) (Channel.str "host") 42 (Channel.str "app") 10 3 1 100000;
  append_all (λ _, true) (Channel.str "host") 42 example_appends l.

Lemma logfile_keeps_witness :
  ∃ l, example_log = Ok l ∧
    concat (content <$> files l) = Channel.str "first linesecondthird line" ∧
    filename_ <$> files l = [Channel.str "app.19700102-034640.host.42.log";
      Channel.str "app.19700102-034641.host.42.log"; Channel.str "app.19700103-073320.host.42.log"] ∧
    NoDup (filename_ <$> files l).
Proof.
  destruct (logfile_keeps (λ _, true) (Channel.str "host") 42 (λ _, eq_refl) (Channel.str "app") 10 3 1 ltac:(lia) ltac:(lia)
    100000 example_appends) as (l & f & E & Hc & Hn & _).
  - apply (bool_decide_unpack _). vm_compute. exact I.
  - unfold clock_ok. lia.
  - repeat apply Forall_cons_2; try apply Forall_nil_2; unfold clock_ok; cbn; (split; [lia|]);
      repeat apply Forall_cons_2; try apply Forall_nil_2; reflexivity.
  - exists l. split; [exact E|]. split; [exact Hc|]. split; [|exact Hn].
    unfold example_log in E. vm_compute in E. injection E as <-. vm_compute. reflexivity.
Defined.
End LogFile.
