(* ===== verification/AsyncLogging.v ===== *)
(** * Asynchronous logging ([base/AsyncLogging.h], [base/AsyncLogging.cc])

    Threads append lines to a large buffer under the mutex; the logging thread
    exchanges full buffers for empty ones and writes them to the log file. Each
    critical section is one step; between them, any steps of others. *)

From S2P Require Import Prelude Endian Format TimeZone Timestamp Channel LogStream.
Import FixedBuffer.

Module AsyncLogging.

(** A [std::unique_ptr<Buffer>]; [None] after it was moved from. *)
Abbreviation BufferPtr := (option FixedBuffer).
Definition deref {A} (p : option A) : result A := match p with Some b => Ok b | None => Fail OutOfRange end.

(** Where the logging thread is: at the loop's test, in [waitForSeconds], behind
    the critical section, or done. *)
Inductive place := Head | Waiting | Writing | Finished.
#[global] Instance place_eq_dec : EqDecision place.
Proof. solve_decision. Defined.

(** What the log file is given. *)
Inductive chunk := Data (d : bytes) | Notice (d : bytes).

Record AsyncLogging := mkAsync {
  running_ : bool;
  currentBuffer_ : BufferPtr;
  nextBuffer_ : BufferPtr;
  buffers_ : list BufferPtr;
  newBuffer1 : BufferPtr;
  newBuffer2 : BufferPtr;
  buffersToWrite : list BufferPtr;
  at_ : place;
  output : list chunk;
  appended : list bytes;   (* ghost: the lines, in the order of the appends *)
  lost : Z                 (* ghost: bytes of the buffers erased *)
}.

Section async.
(** [SIZE] of the buffers, and what [new Buffer] finds in its memory. *)
Context (SIZE : Z) (garbage : bytes).

Definition new_buffer : FixedBuffer := make garbage.
Definition zeroed : FixedBuffer := bzero new_buffer.

(** Constructor, [start], and the thread up to its loop. *)
Definition initial : AsyncLogging :=
  mkAsync true (Some zeroed) (Some zeroed) [] (Some zeroed) (Some zeroed) [] Head [] [] 0.

Definition append (logline : bytes) (s : AsyncLogging) : result AsyncLogging :=
  cur ← deref (currentBuffer_ s);
  if zlen logline <? avail cur then
    cur ← FixedBuffer.append logline cur;
    Ok (mkAsync (running_ s) (Some cur) (nextBuffer_ s) (buffers_ s) (newBuffer1 s) (newBuffer2 s) (buffersToWrite s)
          (at_ s) (output s) (appended s ++ [logline]) (lost s))
  else
    let buffers := buffers_ s ++ [Some cur] in
    let cur := match nextBuffer_ s with Some b => b | None => new_buffer end in
    cur ← FixedBuffer.append logline cur;
    Ok (mkAsync (running_ s) (Some cur) None buffers (newBuffer1 s) (newBuffer2 s) (buffersToWrite s)
          (at_ s) (output s) (appended s ++ [logline]) (lost s)).

Definition stop (s : AsyncLogging) : AsyncLogging :=
  mkAsync false (currentBuffer_ s) (nextBuffer_ s) (buffers_ s) (newBuffer1 s) (newBuffer2 s) (buffersToWrite s)
    (at_ s) (output s) (appended s) (lost s).

Definition set_at (p : place) (s : AsyncLogging) : AsyncLogging :=
  mkAsync (running_ s) (currentBuffer_ s) (nextBuffer_ s) (buffers_ s) (newBuffer1 s) (newBuffer2 s) (buffersToWrite s)
    p (output s) (appended s) (lost s).

(** The critical section behind the wait. *)
Definition exchange (s : AsyncLogging) : AsyncLogging :=
  let buffers := buffers_ s ++ [currentBuffer_ s] in
  let '(next, new2) := match nextBuffer_ s with None => (newBuffer2 s, None) | Some b => (Some b, newBuffer2 s) end in
  mkAsync (running_ s) (newBuffer1 s) next (buffersToWrite s) None new2 buffers Writing (output s) (appended s) (lost s).

Definition is_empty_buffer (p : BufferPtr) : bool := match p with Some b => length b =? 0 | None => false end.
Definition empty {A} (l : list A) : bool := match l with [] => true | _ => false end.

Definition dropped_notice (now : Timestamp.Timestamp) (n : Z) : result bytes :=
  t ← Timestamp.toFormattedString now true;
  Ok (Format.snprintf 256 (Channel.str "Dropped log messages at " ++ t ++ Channel.str ", " ++ Format.dec (n - 2) ++
        Channel.str " larger buffers" ++ ["010"%char])).

Fixpoint write_all (l : list BufferPtr) : result (list chunk) :=
  match l with
  | [] => Ok []
  | p :: l => b ← deref p; d ← toString b; rest ← write_all l; Ok (Data d :: rest)
  end.

(** [if (!newBuffer) { assert(!empty); newBuffer = move(back); pop_back; reset; }] *)
Definition recycle (p : BufferPtr) (l : list BufferPtr) : result (BufferPtr * list BufferPtr) :=
  match p with
  | Some b => Ok (Some b, l)
  | None =>
      _ ← check (negb (empty l));
      match last l with
      | Some q => b ← deref q; Ok (Some (reset b), removelast l)
      | None => Fail OutOfRange
      end
  end.

(** Bytes in a list of buffers. *)
Definition text_of (p : BufferPtr) : bytes := match p with Some b => text b | None => [] end.
Definition texts (l : list BufferPtr) : bytes := concat (text_of <$> l).

(** The body behind the critical section. *)
Definition write_out (now : Timestamp.Timestamp) (s : AsyncLogging) : result AsyncLogging :=
  let l := buffersToWrite s in
  _ ← check (negb (empty l));
  '(l, notice, erased) ← (if 25 <? zlen l
                          then n ← dropped_notice now (zlen l); Ok (ztake 2 l, [Notice n], zlen (texts (zdrop 2 l)))
                          else Ok (l, [], 0));
  written ← write_all l;
  let l := if 2 <? zlen l then ztake 2 l else l in
  '(new1, l) ← recycle (newBuffer1 s) l;
  '(new2, _) ← recycle (newBuffer2 s) l;
  Ok (mkAsync (running_ s) (currentBuffer_ s) (nextBuffer_ s) (buffers_ s) new1 new2 [] Head
        (output s ++ notice ++ written) (appended s) (lost s + erased)).

(** One step of [threadFunc]; a wait may end at any time. *)
Definition thread_step (now : Timestamp.Timestamp) (s : AsyncLogging) : result AsyncLogging :=
  match at_ s with
  | Head =>
      if running_ s then
        _ ← check (is_empty_buffer (newBuffer1 s));
        _ ← check (is_empty_buffer (newBuffer2 s));
        _ ← check (empty (buffersToWrite s));
        Ok (if empty (buffers_ s) then set_at Waiting s else exchange s)
      else Ok (set_at Finished s)
  | Waiting => Ok (exchange s)
  | Writing => write_out now s
  | Finished => Ok s
  end.

Inductive event := Append (logline : bytes) | Stop | Thread (now : Timestamp.Timestamp).
Definition do_event (e : event) (s : AsyncLogging) : result AsyncLogging :=
  match e with
  | Append line => append line s
  | Stop => Ok (stop s)
  | Thread now => thread_step now s
  end.
Fixpoint do_events (es : list event) (s : AsyncLogging) : result AsyncLogging :=
  match es with [] => Ok s | e :: es => s ← do_event e s; do_events es s end.

(** ** Nothing is lost silently *)

Definition written (s : AsyncLogging) : bytes :=
  concat ((λ c, match c with Data d => d | Notice _ => [] end) <$> output s).
Definition pending (s : AsyncLogging) : bytes := texts (buffersToWrite s) ++ texts (buffers_ s) ++ text_of (currentBuffer_ s).
Definition notices (s : AsyncLogging) : list bytes :=
  omap (λ c, match c with Notice d => Some d | Data _ => None end) (output s).

Definition good (p : BufferPtr) : Prop := ∃ b, p = Some b ∧ buf_inv SIZE b.
Definition vacant (p : BufferPtr) : Prop := ∃ b, p = Some b ∧ buf_inv SIZE b ∧ cur_ b = 0.

Record async_inv (s : AsyncLogging) : Prop := {
  as_current : good (currentBuffer_ s);
  as_next : vacant (nextBuffer_ s) ∨ (nextBuffer_ s = None ∧ buffers_ s ≠ []);
  as_buffers : Forall good (buffers_ s);
  as_thread : match at_ s with
    | Head | Waiting => vacant (newBuffer1 s) ∧ vacant (newBuffer2 s) ∧ buffersToWrite s = []
    | Writing => newBuffer1 s = None ∧ buffersToWrite s ≠ [] ∧ Forall good (buffersToWrite s) ∧
                 (vacant (newBuffer2 s) ∨ (newBuffer2 s = None ∧ 2 ≤ zlen (buffersToWrite s)))
    | Finished => buffersToWrite s = []
    end;
  as_text : sublist (written s ++ pending s) (concat (appended s));
  as_length : zlen (concat (appended s)) = zlen (written s ++ pending s) + lost s ∧ 0 ≤ lost s;
  as_notice : 0 < lost s → notices s ≠ []
}.

Context (Hsize : 0 < SIZE < 2 ^ 31) (Hgarbage : zlen garbage = SIZE).

Lemma new_buffer_inv : buf_inv SIZE new_buffer ∧ cur_ new_buffer = 0.
Proof. split; [|done]. rewrite <- Hgarbage. apply make_inv. lia. Qed.

Lemma zeroed_vacant : vacant (Some zeroed).
Proof.
  exists zeroed. split; [done|]. split; [|done]. destruct (proj1 new_buffer_inv) as (Hz & Hc & Hs).
  split_and!; [|exact (proj1 Hc)|exact (proj2 Hc)|done]. cbn. rewrite zlen_zrep; [done|apply zlen_nonneg].
Qed.

Lemma vacant_good p : vacant p → good p.
Proof. intros (b & -> & Hb & _). by exists b. Qed.

Lemma vacant_text p : vacant p → text_of p = [].
Proof. intros (b & -> & _ & H). cbn. unfold text. by rewrite H. Qed.

Lemma async_initial : async_inv initial.
Proof.
  pose proof zeroed_vacant as Hz. pose proof (vacant_good _ Hz).
  constructor; cbn [initial currentBuffer_ nextBuffer_ buffers_ at_ newBuffer1 newBuffer2 buffersToWrite lost]; try done; try (by left).
Qed.

Lemma texts_app l k : texts (l ++ k) = texts l ++ texts k.
Proof. unfold texts. by rewrite fmap_app, concat_app. Qed.

Lemma texts_one p : texts [p] = text_of p.
Proof. unfold texts. cbn. apply app_nil_r. Qed.

(** A line goes to the end of what is pending. *)
Lemma append_async s line :
  async_inv s → zlen line < SIZE → ∃ s', append line s = Ok s' ∧ async_inv s' ∧ pending s' = pending s ++ line.
Proof.
  intros [] Hl. destruct as_current0 as (cur & Ec & Hcur). unfold append. rewrite Ec. cbn [deref]. rewrite bind_Ok.
  rewrite (avail_eq SIZE cur Hcur). destruct as_length0 as [Hlen Hpos].
  assert (∀ s', written s' = written s → pending s' = pending s ++ line → appended s' = appended s ++ [line] →
    lost s' = lost s → sublist (written s' ++ pending s') (concat (appended s')) ∧
    zlen (concat (appended s')) = zlen (written s' ++ pending s') + lost s' ∧ 0 ≤ lost s') as Htext.
  { intros s' -> -> -> ->. rewrite concat_app. cbn [concat]. rewrite app_nil_r, (app_assoc (written s)).
    split; [by apply sublist_app|]. rewrite !(zlen_app _ line). lia. }
  destruct (Z.ltb_spec (zlen line) (SIZE - cur_ cur)) as [Hfit|Hfit].
  - destruct (append_spec SIZE cur Hcur line) as (b & E & Hb & Ht); [lia|]. rewrite E, bind_Ok. eexists. split; [done|].
    rewrite (proj2 (Z.ltb_lt _ _)) in Ht by lia.
    match goal with |- async_inv ?s' ∧ _ => assert (pending s' = pending s ++ line) as Hp;
      [|split; [destruct (Htext s') as [H1 H2]; try done|exact Hp]] end.
    { unfold pending. cbn [buffersToWrite buffers_ currentBuffer_ text_of]. rewrite Ec, Ht. cbn [text_of]. by rewrite !app_assoc. }
    constructor; try done. by exists b.
  - set (next := match nextBuffer_ s with Some b => b | None => new_buffer end).
    assert (buf_inv SIZE next ∧ cur_ next = 0) as [Hn Hn0].
    { unfold next. destruct as_next0 as [(b & -> & ? & ?)|[-> _]]; [done|apply new_buffer_inv]. }
    destruct (append_spec SIZE next Hn line) as (b & E & Hb & Ht); [lia|]. rewrite E, bind_Ok. eexists. split; [done|].
    rewrite Hn0, (proj2 (Z.ltb_lt _ _)) in Ht by lia.
    assert (text next = []) as Hnt by (unfold text; by rewrite Hn0). rewrite Hnt in Ht.
    match goal with |- async_inv ?s' ∧ _ => assert (pending s' = pending s ++ line) as Hp;
      [|split; [destruct (Htext s') as [H1 H2]; try done|exact Hp]] end.
    { unfold pending. cbn [buffersToWrite buffers_ currentBuffer_ text_of].
      rewrite texts_app, texts_one, Ht, Ec. cbn [text_of]. by rewrite <- !app_assoc. }
    constructor; try done; [by exists b| |].
    + right. split; [done|]. cbn. by destruct (buffers_ s).
    + cbn. apply Forall_app. split; [done|]. apply Forall_singleton. by exists cur.
Qed.

Lemma exchange_async s :
  async_inv s → at_ s = Head ∨ at_ s = Waiting →
  async_inv (exchange s) ∧ at_ (exchange s) = Writing ∧ written (exchange s) = written s ∧
  buffersToWrite (exchange s) = buffers_ s ++ [currentBuffer_ s] ∧ buffers_ (exchange s) = [] ∧
  text_of (currentBuffer_ (exchange s)) = [].
Proof.
  intros [] Hat. assert (vacant (newBuffer1 s) ∧ vacant (newBuffer2 s) ∧ buffersToWrite s = []) as (V1 & V2 & Hbw).
  { destruct Hat as [E|E]; rewrite E in as_thread0; exact as_thread0. }
  assert (written (exchange s) = written s ∧ pending (exchange s) = pending s ∧ appended (exchange s) = appended s ∧
          lost (exchange s) = lost s ∧ notices (exchange s) = notices s) as (E1 & E2 & E3 & E4 & E5).
  { unfold exchange, written, pending, notices. destruct (nextBuffer_ s); cbn [output buffersToWrite buffers_ currentBuffer_ appended lost];
      rewrite Hbw, texts_app, texts_one, (vacant_text _ V1), app_nil_r; done. }
  assert (Forall good (buffers_ s ++ [currentBuffer_ s])) as Hall by (apply Forall_app; split; [done|by apply Forall_singleton]).
  split.
  - constructor; rewrite ?E1, ?E2, ?E3, ?E4, ?E5; try done; unfold exchange;
      destruct (nextBuffer_ s) as [n|] eqn:En; cbn [currentBuffer_ nextBuffer_ buffers_ at_ newBuffer1 newBuffer2 buffersToWrite];
      rewrite ?Hbw; try (by apply vacant_good); try (by constructor).
    + destruct as_next0 as [?|[? _]]; [by left|done].
    + split_and!; [done|by destruct (buffers_ s)|done|by left].
    + split_and!; [done|by destruct (buffers_ s)|done|]. right. split; [done|]. destruct as_next0 as [(? & ? & _)|[_ Hne]]; [done|].
      rewrite zlen_app. destruct (buffers_ s); [done|]. rewrite zlen_cons. pose proof (zlen_nonneg l).
      change (zlen [currentBuffer_ s]) with 1. lia.
  - unfold exchange. destruct (nextBuffer_ s); cbn; rewrite Hbw; split_and!; try done; by apply vacant_text.
Qed.

Lemma write_all_good l : Forall good l → write_all l = Ok ((λ p, Data (text_of p)) <$> l).
Proof.
  induction 1 as [|p l (b & -> & Hb) _ IH]; [done|]. cbn [write_all deref fmap list_fmap]. rewrite bind_Ok.
  rewrite (toString_text SIZE b Hb), bind_Ok, IH, bind_Ok. done.
Qed.

Lemma recycle_back l :
  Forall good l → l ≠ [] → ∃ p, recycle None l = Ok (p, removelast l) ∧ vacant p.
Proof.
  intros Hl Hne. destruct l as [|x l _] using rev_ind; [done|]. unfold recycle.
  rewrite check_true, bind_Ok by (by destruct l). rewrite last_snoc.
  apply Forall_app in Hl as [_ Hx]. apply Forall_singleton in Hx as (b & -> & Hb). cbn [deref]. rewrite bind_Ok.
  eexists. split; [done|]. exists (reset b). split; [done|]. split; [|done]. destruct Hb as (Hz & Hc & Hs). split_and!; cbn; lia.
Qed.

(** After the buffers are written, two of them serve again. *)
Lemma recycle_both s l :
  newBuffer1 s = None → Forall good l → l ≠ [] → (vacant (newBuffer2 s) ∨ (newBuffer2 s = None ∧ 2 ≤ zlen l)) →
  ∃ p q l' l'', recycle (newBuffer1 s) l = Ok (p, l') ∧ recycle (newBuffer2 s) l' = Ok (q, l'') ∧ vacant p ∧ vacant q.
Proof.
  intros -> Hl Hne H2. destruct (recycle_back l Hl Hne) as (p & -> & Hp). destruct H2 as [V|[-> H2]].
  - destruct (newBuffer2 s) as [b|] eqn:E; [|by destruct V as (? & ? & _)].
    exists p, (Some b), (removelast l), (removelast l). done.
  - destruct l as [|x l _] using rev_ind; [done|]. rewrite removelast_last.
    apply Forall_app in Hl as [Hl _]. destruct (recycle_back l Hl) as (q & Eq & Hq).
    { intros ->. cbn in H2. unfold zlen in H2. cbn in H2. lia. }
    exists p, q, l, (removelast l). done.
Qed.

Definition clock_ok (now : Timestamp.Timestamp) : Prop :=
  0 ≤ Timestamp.microSecondsSinceEpoch_ now < 253402300800 * Timestamp.kMicroSecondsPerSecond.

Lemma dropped_notice_Ok now n : clock_ok now → ∃ d, dropped_notice now n = Ok d.
Proof.
  intros Hnow. destruct now as [us]. destruct (Timestamp.toFormattedString_spec us Hnow) as (t & E & _).
  unfold dropped_notice. rewrite E, bind_Ok. eauto.
Qed.

(** The buffers written are all of them, or the first two and a notice. *)
Definition to_log (l : list BufferPtr) : bytes := if 25 <? zlen l then texts (ztake 2 l) else texts l.
Lemma choose_async now s :
  async_inv s → at_ s = Writing → clock_ok now →
  ∃ l notice erased,
    (if 25 <? zlen (buffersToWrite s)
     then n ← dropped_notice now (zlen (buffersToWrite s));
          Ok (ztake 2 (buffersToWrite s), [Notice n], zlen (texts (zdrop 2 (buffersToWrite s))))
     else Ok (buffersToWrite s, [], 0)) = Ok (l, notice, erased) ∧
    Forall good l ∧ l ≠ [] ∧ (2 ≤ zlen (buffersToWrite s) → 2 ≤ zlen l) ∧
    sublist (texts l) (texts (buffersToWrite s)) ∧ zlen (texts (buffersToWrite s)) = zlen (texts l) + erased ∧ 0 ≤ erased ∧
    concat ((λ c, match c with Data d => d | Notice _ => [] end) <$> notice) = [] ∧
    (0 < erased → omap (λ c, match c with Notice d => Some d | Data _ => None end) notice ≠ []) ∧
    (25 < zlen (buffersToWrite s) → omap (λ c, match c with Notice d => Some d | Data _ => None end) notice ≠ []) ∧
    texts l = to_log (buffersToWrite s).
Proof.
  intros [] Hat Hnow. unfold to_log. rewrite Hat in as_thread0. destruct as_thread0 as (_ & Hne & Hg & _). set (b := buffersToWrite s) in *.
  destruct (Z.ltb_spec 25 (zlen b)).
  - destruct (dropped_notice_Ok now (zlen b) Hnow) as (d & ->). rewrite bind_Ok.
    eexists _, _, _. split; [done|].
    assert (zlen (ztake 2 b) = 2) as H2 by (apply zlen_ztake; lia).
    pose proof (texts_app (ztake 2 b) (zdrop 2 b)) as Ht. rewrite ztake_zdrop in Ht. rewrite Ht, zlen_app.
    split_and!; try done; try lia; try apply zlen_nonneg.
    + by apply Forall_take.
    + intros E. by rewrite E in H2.
    + rewrite <- (app_nil_r (texts (ztake 2 b))) at 1. apply sublist_app; [done|apply sublist_nil_l].
  - exists b, [], 0. split_and!; try done; lia.
Qed.

Lemma write_out_async now s :
  async_inv s → at_ s = Writing → clock_ok now →
  ∃ s', write_out now s = Ok s' ∧ async_inv s' ∧ at_ s' = Head ∧ running_ s' = running_ s ∧
    buffers_ s' = buffers_ s ∧ currentBuffer_ s' = currentBuffer_ s ∧
    written s' = written s ++ to_log (buffersToWrite s) ∧
    (25 < zlen (buffersToWrite s) → notices s' ≠ []) ∧ (notices s ≠ [] → notices s' ≠ []).
Proof.
  intros Hi Hat Hnow. destruct (choose_async now s Hi Hat Hnow) as
    (l & notice & erased & E & Hg & Hne & H2 & Hsub & Hlen & Her & Hn1 & Hn2 & Hn3 & Hall).
  destruct Hi. rewrite Hat in as_thread0. destruct as_thread0 as (En1 & Hbw & _ & Hn).
  unfold write_out. rewrite check_true, bind_Ok by (by destruct (buffersToWrite s)). rewrite E, bind_Ok.
  rewrite (write_all_good l Hg), bind_Ok.
  set (k := if 2 <? zlen l then ztake 2 l else l).
  assert (Forall good k ∧ k ≠ [] ∧ (2 ≤ zlen l → 2 ≤ zlen k)) as (Hk & Hkne & Hk2).
  { unfold k. destruct (Z.ltb_spec 2 (zlen l)); [|done]. assert (zlen (ztake 2 l) = 2) as Hz by (apply zlen_ztake; lia).
    split_and!; [by apply Forall_take|intros Ek; by rewrite Ek in Hz|lia]. }
  destruct (recycle_both s k En1 Hk Hkne) as (p & q & l' & l'' & -> & Eq & Hp & Hq).
  { destruct Hn as [?|[??]]; [by left|right; auto]. }
  rewrite bind_Ok, Eq, bind_Ok. eexists. split; [done|]. destruct as_length0 as [Hlen0 Hpos].
  match goal with |- async_inv ?s' ∧ _ =>
    assert (written s' = written s ++ texts l) as Ew;
    [|assert (notices s' = notices s ++ omap (λ c, match c with Notice d => Some d | Data _ => None end) notice) as Eno] end.
  { unfold written. cbn [output]. rewrite !fmap_app, !concat_app, Hn1. f_equal. unfold texts. f_equal.
    rewrite <- list_fmap_compose. done. }
  { unfold notices. cbn [output]. rewrite !omap_app. f_equal.
    rewrite <- (app_nil_r (omap _ notice)) at 2. f_equal. clear. induction l as [|x l IH]; [done|exact IH]. }
  split; [|split_and!; try done].
  - constructor; rewrite ?Ew, ?Eno; cbn [currentBuffer_ nextBuffer_ buffers_ at_ newBuffer1 newBuffer2 buffersToWrite appended lost]; try done.
    + etransitivity; [|exact as_text0]. unfold pending. cbn [buffersToWrite buffers_ currentBuffer_]. rewrite <- app_assoc.
      apply sublist_app; [done|]. apply sublist_app; [done|done].
    + split; [|lia]. unfold pending in *. cbn [buffersToWrite buffers_ currentBuffer_]. rewrite !zlen_app in *.
      change (texts []) with (@nil ascii). rewrite zlen_nil. lia.
    + intros Hlost. destruct (decide (0 < erased)) as [He|He].
      * intros Hnil. apply app_eq_nil in Hnil as [_ Hnil]. by apply Hn2 in He.
      * intros Hnil. apply app_eq_nil in Hnil as [Hnil _]. apply as_notice0; [lia|done].
  - by rewrite Ew, Hall.
  - intros H25 Hnil. rewrite Eno in Hnil. apply app_eq_nil in Hnil as [_ Hnil]. by apply Hn3 in H25.
  - intros Hold Hnil. rewrite Eno in Hnil. by apply app_eq_nil in Hnil as [? _].
Qed.

Definition legal (e : event) : Prop :=
  match e with Append line => zlen line < SIZE | Stop => True | Thread now => clock_ok now end.

Lemma stop_async s : async_inv s → async_inv (stop s).
Proof. intros []. by constructor. Qed.

Lemma event_async e s : async_inv s → legal e → ∃ s', do_event e s = Ok s' ∧ async_inv s'.
Proof.
  intros Hi He. destruct e as [line| |now]; cbn [do_event].
  - destruct (append_async s line Hi He) as (s' & ? & ? & _). eauto.
  - eauto using stop_async.
  - unfold thread_step. destruct (at_ s) eqn:Hat.
    + pose proof Hi as []. rewrite Hat in as_thread0. destruct as_thread0 as (V1 & V2 & Hbw).
      destruct (running_ s).
      * assert (∀ p, vacant p → is_empty_buffer p = true) as Hv by (by intros ? (b & -> & _ & Hc); cbn; unfold length; rewrite Hc).
        rewrite !check_true, !bind_Ok by (by rewrite ?Hbw; auto).
        destruct (empty (buffers_ s)) eqn:Eb.
        -- eexists. split; [done|]. by constructor.
        -- eexists. split; [done|]. apply exchange_async; auto.
      * eexists. split; [done|]. by constructor.
    + eexists. split; [done|]. apply exchange_async; auto.
    + destruct (write_out_async now s Hi Hat He) as (s' & ? & ? & _). eauto.
    + eauto.
Qed.

Lemma events_async es : ∀ s, async_inv s → Forall legal es → ∃ s', do_events es s = Ok s' ∧ async_inv s'.
Proof.
  induction es as [|e es IH]; intros s Hi Hl; [eauto|]. apply Forall_cons in Hl as [He Hl]. cbn [do_events].
  destruct (event_async e s Hi He) as (s1 & -> & Hi1). rewrite bind_Ok. auto.
Qed.

Lemma sublist_same {A} (l k : list A) : sublist l k → zlen l = zlen k → l = k.
Proof.
  intros Hs. unfold zlen. induction Hs as [|x l k Hs IH|x l k Hs IH]; intros Hl; cbn in *; [done|f_equal; apply IH; lia|].
  apply sublist_length in Hs. lia.
Qed.

(** C15: However appends, [stop] and the logging thread interleave, no assertion
    fails and no line is lost silently: what has been written and what waits in
    buffers is the text appended, in order, less the bytes of buffers that were
    erased because more than 25 had piled up, and then a notice is in the log. *)
Theorem async_keeps es :
  Forall legal es →
  ∃ s, do_events es initial = Ok s ∧
    sublist (written s ++ pending s) (concat (appended s)) ∧
    zlen (concat (appended s)) = zlen (written s ++ pending s) + lost s ∧
    (lost s = 0 → written s ++ pending s = concat (appended s)) ∧ (0 < lost s → notices s ≠ []).
Proof.
  intros Hl. destruct (events_async es initial async_initial Hl) as (s & E & []). exists s.
  destruct as_length0 as [Hlen Hpos]. split_and!; try done. intros H0. apply sublist_same; [done|lia].
Qed.

(** *** After [stop] *)

Lemma append_thread line s s' :
  append line s = Ok s' →
  at_ s' = at_ s ∧ running_ s' = running_ s ∧ output s' = output s ∧ buffersToWrite s' = buffersToWrite s.
Proof.
  unfold append. intros E. apply bind_Ok_inv in E as (cur & _ & E).
  destruct (_ <? _); apply bind_Ok_inv in E as (b & _ & E); by injection E as <-.
Qed.

(** Appends leave the logging thread alone. *)
Lemma appends_async l : ∀ s,
  async_inv s → Forall (λ line, zlen line < SIZE) l →
  ∃ s', do_events (Append <$> l) s = Ok s' ∧ async_inv s' ∧ pending s' = pending s ++ concat l ∧
    at_ s' = at_ s ∧ running_ s' = running_ s ∧ output s' = output s ∧ buffersToWrite s' = buffersToWrite s.
Proof.
  induction l as [|line l IH]; intros s Hi Hl; [exists s; by rewrite app_nil_r|].
  apply Forall_cons in Hl as [H1 Hl]. cbn [fmap list_fmap do_events do_event concat].
  destruct (append_async s line Hi H1) as (s1 & E & Hi1 & Hp). rewrite E, bind_Ok.
  apply append_thread in E as (A1 & R1 & O1 & B1).
  destruct (IH s1 Hi1 Hl) as (s2 & E2 & Hi2 & Hp2 & A2 & R2 & O2 & B2).
  exists s2. rewrite E2, Hp2, Hp, <- app_assoc. split_and!; try done; congruence.
Qed.

(** One step of the thread once [running_] is false. *)
Lemma stopping_step t s :
  async_inv s → running_ s = false → clock_ok t →
  ∃ s', thread_step t s = Ok s' ∧ async_inv s' ∧ running_ s' = false ∧
    (notices s ≠ [] → notices s' ≠ []) ∧
    match at_ s with
    | Waiting => at_ s' = Writing ∧ written s' = written s ∧ buffersToWrite s' = buffers_ s ++ [currentBuffer_ s]
    | Writing => at_ s' = Head ∧ written s' = written s ++ to_log (buffersToWrite s) ∧
                 (25 < zlen (buffersToWrite s) → notices s' ≠ [])
    | _ => at_ s' = Finished ∧ written s' = written s
    end.
Proof.
  intros Hi Hr Ht. unfold thread_step. destruct (at_ s) eqn:Hat.
  - rewrite Hr. eexists. split; [done|]. split; [|done]. destruct Hi. constructor; try done.
    rewrite Hat in as_thread0. apply as_thread0.
  - destruct (exchange_async s Hi) as (Hi1 & Ha1 & Hw1 & Hbw & _); [by right|]. eexists. split; [done|].
    split; [done|]. unfold exchange, notices in *. destruct (nextBuffer_ s); by split_and!.
  - destruct (write_out_async t s Hi Hat Ht) as (s' & -> & Hi' & Ha & Hr' & _ & _ & Hw & Hn & Hold).
    exists s'. split_and!; try done. congruence.
  - exists s. by split_and!.
Qed.

Lemma do_events_app es1 es2 s : do_events (es1 ++ es2) s = (s' ← do_events es1 s; do_events es2 s').
Proof.
  revert s. induction es1 as [|e es1 IH]; intros s; [done|]. cbn [app do_events].
  destruct (do_event e s) as [s1|]; [|done]. rewrite !bind_Ok. apply IH.
Qed.

(** C34: After [stop] the logging thread ends within three steps of its own, also when
    other threads go on appending ([l1], [l2], [l3]) between them. If it was in
    its wait when [stop] was called, then everything appended before its first step
    ([pending u]) is in the log by then, provided fewer than 25 full buffers are
    waiting; with 25 or more only the first two of them are written, and a notice.
    What is appended later is not written. *)
Theorem async_stop es s l1 l2 l3 t1 t2 t3 :
  Forall legal es → Forall (λ line, zlen line < SIZE) (l1 ++ l2 ++ l3) →
  clock_ok t1 → clock_ok t2 → clock_ok t3 → do_events es initial = Ok s →
  ∃ u s', do_events (Stop :: (Append <$> l1)) s = Ok u ∧ pending u = pending s ++ concat l1 ∧
    do_events (Thread t1 :: (Append <$> l2) ++ Thread t2 :: (Append <$> l3) ++ [Thread t3]) u = Ok s' ∧
    at_ s' = Finished ∧
    (at_ s = Waiting →
     if zlen (buffers_ u) <? 25 then written s' = written s ++ pending u
     else written s' = written s ++ texts (ztake 2 (buffers_ u)) ∧ notices s' ≠ []).
Proof.
  intros Hl Hlines H1 H2 H3 E. destruct (events_async es initial async_initial Hl) as (s0 & E0 & Hi). rewrite E in E0.
  injection E0 as <-. apply Forall_app in Hlines as [L1 Hlines]. apply Forall_app in Hlines as [L2 L3].
  apply stop_async in Hi. cbn [do_events do_event]. rewrite bind_Ok.
  destruct (appends_async l1 (stop s) Hi L1) as (u & Eu & Hu & Pu & Au & Ru & Ou & Bu). rewrite Eu. exists u.
  destruct (stopping_step t1 u Hu Ru H1) as (v1 & -> & Hv1 & Rv1 & N1 & S1). rewrite bind_Ok.
  rewrite do_events_app. destruct (appends_async l2 v1 Hv1 L2) as (u2 & -> & Hu2 & _ & Au2 & Ru2 & Ou2 & Bu2).
  rewrite bind_Ok. cbn [do_events do_event]. rewrite Rv1 in Ru2.
  destruct (stopping_step t2 u2 Hu2 Ru2 H2) as (v2 & -> & Hv2 & Rv2 & N2 & S2). rewrite bind_Ok.
  rewrite do_events_app. destruct (appends_async l3 v2 Hv2 L3) as (u3 & -> & Hu3 & _ & Au3 & Ru3 & Ou3 & Bu3).
  rewrite bind_Ok. cbn [do_events do_event]. rewrite Rv2 in Ru3.
  destruct (stopping_step t3 u3 Hu3 Ru3 H3) as (v3 & -> & Hv3 & Rv3 & N3 & S3). rewrite bind_Ok.
  exists v3. split; [done|]. split; [exact Pu|]. split; [done|].
  assert (written u = written s ∧ written u2 = written v1 ∧ written u3 = written v2 ∧ notices u3 = notices v2)
    as (W0 & W2 & W3 & W4) by (unfold written, notices; by rewrite Ou, Ou2, Ou3).
  rewrite Au2 in S2. rewrite Au3 in S3. change (at_ (stop s)) with (at_ s) in Au. rewrite Au in S1.
  split; [destruct (at_ s); destruct S1 as [A1 _]; rewrite A1 in S2; destruct S2 as [A2 _]; rewrite A2 in S3; by destruct S3|].
  intros Hw. rewrite Hw in *. destruct S1 as (A1 & E1 & B1). rewrite A1 in S2. destruct S2 as (A2 & E2 & M2).
  rewrite A2 in S3. destruct S3 as [_ E3]. rewrite Bu2, B1 in E2, M2.
  assert (zlen (buffers_ u ++ [currentBuffer_ u]) = zlen (buffers_ u) + 1) as Hz by (by rewrite zlen_app).
  rewrite E3, W3, E2, W2, E1, W0. unfold to_log. rewrite Hz in *. destruct (Z.ltb_spec (zlen (buffers_ u)) 25).
  - rewrite (proj2 (Z.ltb_ge _ _)) by lia. f_equal. rewrite texts_app, texts_one. unfold pending.
    destruct Hu. rewrite Au in as_thread0. destruct as_thread0 as (_ & _ & ->). done.
  - rewrite (proj2 (Z.ltb_lt _ _)) by lia. rewrite ztake_app_le by lia. split; [done|].
    apply N3. rewrite W4. apply M2. lia.
Qed.
End async.

(** ** Examples, with buffers of eight bytes *)
Definition example_garbage : bytes := zrep 8 "?"%char.
Definition example_now : Timestamp.Timestamp := Timestamp.mkTimestamp 1000000.
Definition line (s : string) : event := Append (Channel.str s).
Definition tick : event := Thread example_now.
Definition example_events : list event := [line "one;"; tick; line "two;"; line "three;"; tick; line "four;"; tick].
Definition example_state (es : list event) : AsyncLogging :=
  match do_events example_garbage es (initial example_garbage) with Ok s => s | Fail _ => initial example_garbage end.

Ltac legal_events := repeat apply Forall_cons_2; try apply Forall_nil_2; try exact I; vm_compute;
  first [reflexivity | split; [discriminate|reflexivity]].

Lemma async_keeps_witness :
  ∃ s, do_events example_garbage example_events (initial example_garbage) = Ok s ∧
    written s = Channel.str "one;two;three;" ∧ pending s = Channel.str "four;" ∧
    written s ++ pending s = concat (appended s).
Proof.
  destruct (async_keeps 8 example_garbage ltac:(lia) eq_refl example_events) as (s & E & _ & _ & H & _); [legal_events|].
  exists s. split; [exact E|]. vm_compute in E. injection E as <-.
  split; [vm_compute; reflexivity|]. split; [vm_compute; reflexivity|]. apply H. vm_compute. reflexivity.
Defined.

Lemma async_stop_witness :
  let s := example_state [line "one;"; tick; line "two;"] in
  ∃ u s', do_events example_garbage [Stop; line "six;"] s = Ok u ∧
    do_events example_garbage [tick; line "late;"; tick; tick] u = Ok s' ∧
    at_ s' = Finished ∧ written s' = Channel.str "one;two;six;".
Proof.
  intros s. destruct (async_stop 8 example_garbage ltac:(lia) eq_refl [line "one;"; tick; line "two;"] s
    [Channel.str "six;"] [Channel.str "late;"] [] example_now example_now example_now)
    as (u & s' & E & _ & E' & Ha & Hw);
    [legal_events|legal_events|vm_compute; split; [discriminate|reflexivity]..|vm_compute; reflexivity|].
  exists u, s'. split; [exact E|]. split; [exact E'|]. split; [exact Ha|].
  vm_compute in E. injection E as <-. cbn in Hw. rewrite Hw; vm_compute; reflexivity.
Defined.

(** With 26 full buffers waiting [stop] writes the first two and a notice. *)
Lemma stop_drops_buffers :
  let s := example_state (tick :: replicate 27 (line "1234567") ++ [Stop; tick; tick; tick]) in
  at_ s = Finished ∧ zlen (concat (appended s)) = 189 ∧ zlen (written s) = 14 ∧ zlen (notices s) = 1.
Proof. vm_compute. split_and!; reflexivity. Qed.

(** Lines appended while the thread writes, before [stop], stay in the buffer for ever. *)
Lemma stop_loses_lines :
  let s := example_state [line "one;"; tick; tick; line "late;"; Stop; tick; tick] in
  at_ s = Finished ∧ written s = Channel.str "one;" ∧ pending s = Channel.str "late;" ∧ lost s = 0.
Proof. vm_compute. split_and!; reflexivity. Qed.
End AsyncLogging.
