(* ===== verification/Connector.v ===== *)
(** * Connector ([net/Connector.h], [net/Connector.cc])

    The active side of a connection: a state machine driven by the loop (the
    functors it was given, timers, events of the socket) and by the owner. The
    results of the system calls are inputs. A socket belongs to the connector
    from its creation until it is closed or handed over. *)

From stdpp Require Import gmap.
From S2P Require Import Prelude Endian Format Channel.

Module Connector.

Inductive States := kDisconnected | kConnecting | kConnected.
#[global] Instance States_eq_dec : EqDecision States.
Proof. solve_decision. Defined.

Definition kMaxRetryDelayMs : Z := 30 * 1000.
Definition kInitRetryDelayMs : Z := 500.

Record Connector := mkConnector {
  connect_ : bool;
  state_ : States;
  channel_ : option Channel.Channel;
  retryDelayMs_ : Z
}.
Definition make : Connector := mkConnector false kDisconnected None kInitRetryDelayMs.

Inductive functor := StartInLoop | StopInLoop | ResetChannel.
#[global] Instance functor_eq_dec : EqDecision functor.
Proof. solve_decision. Defined.

(** What becomes of a socket. *)
Inductive fate := Open | Closed | Handed.

(** The connector and what it has set going. *)
Record World := mkWorld {
  con : Connector;
  queue : list functor;    (* queued in the loop *)
  timers : list Z;         (* armed timers that call startInLoop: delay in ms *)
  next_fd : Z;
  sockets : gmap Z fate;
  delays : list Z          (* ghost: the delays chosen since the last restart *)
}.
Definition initial : World := mkWorld make [] [] 3 ∅ [].

Definition set_con (c : Connector) (w : World) : World :=
  mkWorld c (queue w) (timers w) (next_fd w) (sockets w) (delays w).
Definition set_queue (q : list functor) (w : World) : World :=
  mkWorld (con w) q (timers w) (next_fd w) (sockets w) (delays w).
Definition set_timers (t : list Z) (w : World) : World :=
  mkWorld (con w) (queue w) t (next_fd w) (sockets w) (delays w).
Definition setState (s : States) (w : World) : World :=
  set_con (mkConnector (connect_ (con w)) s (channel_ (con w)) (retryDelayMs_ (con w))) w.
Definition set_connect (b : bool) (w : World) : World :=
  set_con (mkConnector b (state_ (con w)) (channel_ (con w)) (retryDelayMs_ (con w))) w.
Definition set_channel (c : option Channel.Channel) (w : World) : World :=
  set_con (mkConnector (connect_ (con w)) (state_ (con w)) c (retryDelayMs_ (con w))) w.
Definition queueInLoop (f : functor) (w : World) : World := set_queue (queue w ++ [f]) w.

(** [sockets::createNonblockingOrDie]. *)
Definition createSocket (w : World) : World * Z :=
  (mkWorld (con w) (queue w) (timers w) (next_fd w + 1) (<[next_fd w := Open]> (sockets w)) (delays w), next_fd w).
(** [sockets::close] and [newConnectionCallback_] end the ownership; a second
    end of the same socket would act on a stranger's descriptor. *)
Definition end_socket (f : fate) (sockfd : Z) (w : World) : result World :=
  match sockets w !! sockfd with
  | Some Open => Ok (mkWorld (con w) (queue w) (timers w) (next_fd w) (<[sockfd := f]> (sockets w)) (delays w))
  | _ => Fail OutOfRange
  end.

(** ** Operations *)

Definition retry (sockfd : Z) (w : World) : result World :=
  w ← end_socket Closed sockfd w;
  let w := setState kDisconnected w in
  if connect_ (con w) then
    let d := retryDelayMs_ (con w) in
    d2 ← sint 32 (d * 2);
    Ok (mkWorld (mkConnector (connect_ (con w)) (state_ (con w)) (channel_ (con w)) (Z.min d2 kMaxRetryDelayMs))
          (queue w) (timers w ++ [d]) (next_fd w) (sockets w) (delays w ++ [d]))
  else Ok w.

Definition connecting (sockfd : Z) (w : World) : result World :=
  let w := setState kConnecting w in
  _ ← check (bool_decide (channel_ (con w) = None));
  let c := Channel.setErrorCallback (Channel.setWriteCallback (Channel.make sockfd)) in
  Ok (set_channel (Some (Channel.with_added true (Channel.enableWriting c))) w).

Definition EPERM : Z := 1.
Definition EINTR : Z := 4.
Definition EBADF : Z := 9.
Definition EAGAIN : Z := 11.
Definition EACCES : Z := 13.
Definition EFAULT : Z := 14.
Definition ENOTSOCK : Z := 88.
Definition EAFNOSUPPORT : Z := 97.
Definition EADDRINUSE : Z := 98.
Definition EADDRNOTAVAIL : Z := 99.
Definition ENETUNREACH : Z := 101.
Definition EISCONN : Z := 106.
Definition ECONNREFUSED : Z := 111.
Definition EALREADY : Z := 114.
Definition EINPROGRESS : Z := 115.

(** [savedErrno]: 0 or the error of connect(2). *)
Definition connect (savedErrno : Z) (w : World) : result World :=
  let '(w, sockfd) := createSocket w in
  if bool_decide (savedErrno ∈ [0; EINPROGRESS; EINTR; EISCONN]) then connecting sockfd w
  else if bool_decide (savedErrno ∈ [EAGAIN; EADDRINUSE; EADDRNOTAVAIL; ECONNREFUSED; ENETUNREACH]) then retry sockfd w
  else end_socket Closed sockfd w.

Definition startInLoop (savedErrno : Z) (w : World) : result World :=
  _ ← check (bool_decide (state_ (con w) = kDisconnected));
  if connect_ (con w) then connect savedErrno w else Ok w.

(** [runInLoop]: at once in the loop's thread, else queued. *)
Definition start (inLoopThread : bool) (savedErrno : Z) (w : World) : result World :=
  let w := set_connect true w in
  if inLoopThread then startInLoop savedErrno w else Ok (queueInLoop StartInLoop w).

Definition stop (w : World) : World := queueInLoop StopInLoop (set_connect false w).

Definition restart (savedErrno : Z) (w : World) : result World :=
  let w := setState kDisconnected w in
  let w := mkWorld (mkConnector true (state_ (con w)) (channel_ (con w)) kInitRetryDelayMs)
             (queue w) (timers w) (next_fd w) (sockets w) [] in
  startInLoop savedErrno w.

(** [channel_->...] through a null pointer is undefined. *)
Definition removeAndResetChannel (w : World) : result (World * Z) :=
  match channel_ (con w) with
  | None => Fail OutOfRange
  | Some c =>
      let c := Channel.disableAll c in
      _ ← check (Channel.isNoneEvent c);
      let w := set_channel (Some (Channel.with_added false c)) w in
      Ok (queueInLoop ResetChannel w, Channel.fd_ c)
  end.
Definition resetChannel (w : World) : World := set_channel None w.

Definition stopInLoop (w : World) : result World :=
  if bool_decide (state_ (con w) = kConnecting) then
    let w := setState kDisconnected w in
    '(w, sockfd) ← removeAndResetChannel w;
    retry sockfd w
  else Ok w.

(** [err]: SO_ERROR of the socket; [self]: is it connected to itself? *)
Definition handleWrite (err : Z) (self : bool) (w : World) : result World :=
  if bool_decide (state_ (con w) = kConnecting) then
    '(w, sockfd) ← removeAndResetChannel w;
    if negb (err =? 0) then retry sockfd w
    else if self then retry sockfd w
    else
      let w := setState kConnected w in
      end_socket (if connect_ (con w) then Handed else Closed) sockfd w
  else
    _ ← check (bool_decide (state_ (con w) = kDisconnected));
    Ok w.

Definition handleError (w : World) : result World :=
  if bool_decide (state_ (con w) = kConnecting) then
    '(w, sockfd) ← removeAndResetChannel w;
    retry sockfd w
  else Ok w.

(** The destructor's assertion. *)
Definition destructor (w : World) : result unit := check (bool_decide (channel_ (con w) = None)).

(** ** Runs *)

Inductive event :=
  | Start (inLoopThread : bool) (savedErrno : Z)
  | Stop
  | Restart (savedErrno : Z)
  | RunFunctor (savedErrno : Z)           (* the first functor of the queue *)
  | TimerFires (n : nat) (savedErrno : Z)
  | Writable (err : Z) (self : bool)
  | ErrorEvent.

Definition do_event (e : event) (w : World) : result World :=
  match e with
  | Start b en => start b en w
  | Stop => Ok (stop w)
  | Restart en => restart en w
  | RunFunctor en =>
      match queue w with
      | [] => Ok w
      | f :: q =>
          let w := set_queue q w in
          match f with
          | StartInLoop => startInLoop en w
          | StopInLoop => stopInLoop w
          | ResetChannel => Ok (resetChannel w)
          end
      end
  | TimerFires n en =>
      match timers w !! n with
      | None => Ok w
      | Some _ => startInLoop en (set_timers (delete n (timers w)) w)
      end
  | Writable err self => match channel_ (con w) with Some _ => handleWrite err self w | None => Ok w end
  | ErrorEvent => match channel_ (con w) with Some _ => handleError w | None => Ok w end
  end.
Fixpoint do_events (es : list event) (w : World) : result World :=
  match es with [] => Ok w | e :: es => w ← do_event e w; do_events es w end.

(** The loop runs the functors queued while it handles events before it polls
    again, and a retry timer does not fire before that: a timer armed by [retry]
    finds the old channel gone, unless a callback of the same round takes longer
    than the delay (see [early_retry_aborts]). The poller reports no events of a
    removed channel, except within the dispatch of the event that removed it. The
    owner starts a connector that is at rest, and restarts one whose connection has
    come and gone. *)
Definition tokens (w : World) : Z := count (λ f, bool_decide (f = StartInLoop)) (queue w) + zlen (timers w).
Definition at_rest (w : World) : Prop := tokens w = 0 ∧ ResetChannel ∉ queue w ∧ StopInLoop ∉ queue w.
Definition legal (e : event) (w : World) : Prop :=
  match e with
  | Start _ _ => at_rest w ∧ state_ (con w) = kDisconnected
  | Restart _ => at_rest w ∧ state_ (con w) = kConnected
  | TimerFires _ _ => ResetChannel ∈ queue w → connect_ (con w) = false
  | Writable _ _ | ErrorEvent => state_ (con w) ≠ kConnected
  | _ => True
  end.
#[global] Instance legal_dec e w : Decision (legal e w).
Proof. destruct e; cbn; unfold at_rest; apply _. Defined.
Fixpoint legal_run (es : list event) (w : World) : Prop :=
  match es with
  | [] => True
  | e :: es => legal e w ∧ ∀ w', do_event e w = Ok w' → legal_run es w'
  end.

(** 500 ms, doubled after each failure, 30 s at most. *)
Definition backoff (k : nat) : Z := Z.min kMaxRetryDelayMs (kInitRetryDelayMs * 2 ^ Z.of_nat k).

(** ** Invariant *)

Definition cnt (f : functor) (w : World) : Z := count (λ g, bool_decide (g = f)) (queue w).

Record con_inv (w : World) : Prop := {
  ci_fds : ∀ fd, is_Some (sockets w !! fd) → fd < next_fd w;
  ci_open : ∀ fd, sockets w !! fd = Some Open ↔
    state_ (con w) = kConnecting ∧ ∃ c, channel_ (con w) = Some c ∧ Channel.fd_ c = fd;
  ci_channel : match channel_ (con w) with
    | None => state_ (con w) ≠ kConnecting ∧ cnt ResetChannel w = 0
    | Some c => if bool_decide (state_ (con w) = kConnecting)
                then Channel.addedToLoop_ c = true ∧ Channel.isWriting c = true ∧ cnt ResetChannel w = 0
                else Channel.addedToLoop_ c = false ∧ Channel.isNoneEvent c = true ∧ cnt ResetChannel w = 1
    end;
  ci_tokens : tokens w ≤ 1 ∧ (state_ (con w) ≠ kDisconnected → tokens w = 0);
  ci_start : 0 < cnt StartInLoop w → channel_ (con w) = None;
  ci_stop : 0 < cnt StopInLoop w → connect_ (con w) = false;
  ci_delay : retryDelayMs_ (con w) = backoff (length (delays w)) ∧ delays w = backoff <$> seq 0 (length (delays w))
}.

Lemma cnt_nonneg f w : 0 ≤ cnt f w.
Proof. apply count_nonneg. Qed.

Lemma cnt_elem f w : f ∈ queue w ↔ 0 < cnt f w.
Proof.
  unfold cnt. rewrite count_pos. split.
  - intros [i Hi]%list_elem_of_lookup. exists i, f. split; [done|]. by apply bool_decide_eq_true.
  - intros (i & x & Hi & Hx). apply bool_decide_eq_true in Hx as ->. by eapply list_elem_of_lookup_2.
Qed.

Lemma cnt_not_elem f w : f ∉ queue w ↔ cnt f w = 0.
Proof. rewrite cnt_elem. pose proof (cnt_nonneg f w). lia. Qed.

Lemma backoff_0 : backoff 0 = kInitRetryDelayMs.
Proof. reflexivity. Qed.

Lemma backoff_S k : Z.min (backoff k * 2) kMaxRetryDelayMs = backoff (S k).
Proof. unfold backoff, kMaxRetryDelayMs, kInitRetryDelayMs. rewrite Nat2Z.inj_succ, Z.pow_succ_r by lia. lia. Qed.

Lemma backoff_range k : kInitRetryDelayMs ≤ backoff k ≤ kMaxRetryDelayMs.
Proof. unfold backoff, kMaxRetryDelayMs, kInitRetryDelayMs. assert (0 < 2 ^ Z.of_nat k) by lia. lia. Qed.

Lemma con_initial : con_inv initial.
Proof.
  constructor; cbn; try done; try lia.
  - intros fd [? H]. by rewrite lookup_empty in H.
  - intros fd. rewrite lookup_empty. split; [done|]. by intros [? _].
Qed.

(** Closing the socket of an attempt, with or without a new attempt to come. *)
Lemma retry_inv fd w :
  sockets w !! fd = Some Open → (∀ fd', sockets w !! fd' = Some Open → fd' = fd) → (∀ i, is_Some (sockets w !! i) → i < next_fd w) →
  match channel_ (con w) with
  | None => cnt ResetChannel w = 0
  | Some c => Channel.addedToLoop_ c = false ∧ Channel.isNoneEvent c = true ∧ cnt ResetChannel w = 1
  end →
  tokens w ≤ 1 → (connect_ (con w) = true → tokens w = 0) → (0 < cnt StartInLoop w → channel_ (con w) = None) →
  (0 < cnt StopInLoop w → connect_ (con w) = false) →
  retryDelayMs_ (con w) = backoff (length (delays w)) ∧ delays w = backoff <$> seq 0 (length (delays w)) →
  ∃ w', retry fd w = Ok w' ∧ con_inv w' ∧ state_ (con w') = kDisconnected ∧ connect_ (con w') = connect_ (con w) ∧
    sockets w' = <[fd := Closed]> (sockets w).
Proof.
  intros Ho Huniq Hfds Hch Htok Htok0 Hst Hsp [Hd Hds]. unfold retry, end_socket. rewrite Ho, bind_Ok.
  assert (∀ fd', (<[fd:=Closed]> (sockets w)) !! fd' ≠ Some Open) as Hno.
  { intros fd' H. destruct (decide (fd = fd')) as [->|Hne]; [by rewrite lookup_insert_eq in H|].
    rewrite lookup_insert_ne in H by done. apply Hne. symmetry. by apply Huniq. }
  assert (∀ i, is_Some ((<[fd:=Closed]> (sockets w)) !! i) → i < next_fd w) as Hfds'.
  { intros i Hi. apply Hfds. destruct (decide (fd = i)) as [->|Hne]; [eauto|]. by rewrite lookup_insert_ne in Hi. }
  cbn [con setState set_con connect_ state_ channel_ retryDelayMs_ queue timers next_fd sockets delays].
  destruct (connect_ (con w)) eqn:Hc.
  - pose proof (backoff_range (length (delays w))) as Hb. unfold kInitRetryDelayMs, kMaxRetryDelayMs in Hb.
    rewrite Hd, sint_Ok, bind_Ok by (unfold in_s; lia). eexists. split; [done|]. split; [|done].
    constructor; cbn [con connect_ state_ channel_ retryDelayMs_ queue timers next_fd sockets delays].
    + exact Hfds'.
    + intros fd'. split; [by intros ?%Hno|by intros [? _]].
    + destruct (channel_ (con w)) eqn:Hcc; [exact Hch|]. split; [done|exact Hch].
    + unfold tokens in *. cbn [queue timers] in *. specialize (Htok0 eq_refl). rewrite zlen_app. change (zlen [_]) with 1.
      split; [lia|done].
    + exact Hst.
    + done.
    + rewrite length_app. cbn [length]. rewrite backoff_S, Nat.add_1_r. split; [done|].
      rewrite seq_S, fmap_app, <- Hds. done.
  - eexists. split; [done|]. split; [|by cbn]. constructor; cbn [con setState set_con connect_ state_ channel_ retryDelayMs_ queue timers next_fd sockets delays].
    + exact Hfds'.
    + intros fd'. split; [by intros ?%Hno|by intros [? _]].
    + destruct (channel_ (con w)) eqn:Hcc; [exact Hch|]. split; [done|exact Hch].
    + split; [exact Htok|done].
    + exact Hst.
    + done.
    + done.
Qed.

(** An attempt to connect. *)
Lemma startInLoop_inv en w :
  con_inv w → state_ (con w) = kDisconnected → tokens w = 0 → (connect_ (con w) = true → channel_ (con w) = None) →
  ∃ w', startInLoop en w = Ok w' ∧ con_inv w'.
Proof.
  intros [] Hs Ht Hc. unfold startInLoop. rewrite Hs, check_true, bind_Ok by done.
  destruct (connect_ (con w)) eqn:Hcon; [|exists w; by constructor]. specialize (Hc eq_refl).
  unfold connect, createSocket. set (fd := next_fd w).
  assert (sockets w !! fd = None) as Hfresh.
  { destruct (sockets w !! fd) eqn:E; [|done]. pose proof (ci_fds0 fd ltac:(eauto)). unfold fd in *. lia. }
  assert (∀ i, is_Some ((<[fd:=Open]> (sockets w)) !! i) → i < fd + 1) as Hfds.
  { intros i Hi. destruct (decide (fd = i)) as [->|Hne]; [lia|]. rewrite lookup_insert_ne in Hi by done.
    specialize (ci_fds0 i Hi). unfold fd. lia. }
  assert (∀ i, (<[fd:=Open]> (sockets w)) !! i = Some Open ↔ i = fd) as Hopen.
  { intros i. destruct (decide (fd = i)) as [->|Hne]; [by rewrite lookup_insert_eq|]. rewrite lookup_insert_ne by done.
    rewrite ci_open0, Hs. split; [by intros [? _]|by intros ->]. }
  rewrite Hc in *. destruct ci_channel0 as [_ Hr]. destruct (bool_decide (en ∈ [_; _; _; _])).
  - unfold connecting. cbn [con setState set_con channel_]. rewrite Hc, check_true, bind_Ok by (by apply bool_decide_true).
    eexists. split; [done|].
    constructor; cbn [con set_channel setState set_con connect_ state_ channel_ retryDelayMs_ queue timers next_fd sockets delays];
      try done.
    + intros i. rewrite Hopen. split; [intros ->; split; [done|by eexists]|]. by intros [_ (c & [= <-] & <-)].
    + unfold tokens in *. cbn [queue timers set_channel setState set_con con] in *. split; [lia|done].
    + intros Hq. change (0 < cnt StartInLoop w) in Hq. unfold tokens in Ht. pose proof (zlen_nonneg (timers w)).
      change (count (λ g, bool_decide (g = StartInLoop)) (queue w)) with (cnt StartInLoop w) in *. lia.
    + intros Hq. by specialize (ci_stop0 Hq).
  - destruct (bool_decide (en ∈ _)).
    + destruct (retry_inv fd (mkWorld (con w) (queue w) (timers w) (fd + 1) (<[fd:=Open]> (sockets w)) (delays w)))
        as (w' & E & Hi & _); cbn [con queue timers next_fd sockets delays]; try done.
      * by apply lookup_insert_eq.
      * intros i. apply Hopen.
      * by rewrite Hc.
      * unfold tokens in *. cbn [queue timers] in *. lia.
      * intros Hq. by specialize (ci_stop0 Hq).
      * exists w'. done.
    + unfold end_socket. cbn [sockets]. rewrite lookup_insert_eq. eexists. split; [done|]. rewrite insert_insert_eq.
      constructor; cbn [con queue timers next_fd sockets delays]; try done.
      * intros i Hi. destruct (decide (fd = i)) as [->|Hne]; [lia|]. rewrite lookup_insert_ne in Hi by done.
        specialize (ci_fds0 i Hi). unfold fd. lia.
      * intros i. rewrite Hs. split; [|by intros [? _]]. destruct (decide (fd = i)) as [->|Hne]; [by rewrite lookup_insert_eq|].
        rewrite lookup_insert_ne by done. rewrite ci_open0, Hs. by intros [? _].
      * rewrite Hc. split; [by rewrite Hs|done].
      * intros Hq. by specialize (ci_stop0 Hq).
Qed.

(** The channel of an attempt is taken out of the poller; it lives until
    [resetChannel] runs. *)
Definition detached (w w1 : World) (fd : Z) : Prop :=
  sockets w1 !! fd = Some Open ∧ (∀ fd', sockets w1 !! fd' = Some Open → fd' = fd) ∧
  (∀ i, is_Some (sockets w1 !! i) → i < next_fd w1) ∧
  (∃ c, channel_ (con w1) = Some c ∧ Channel.addedToLoop_ c = false ∧ Channel.isNoneEvent c = true) ∧ cnt ResetChannel w1 = 1 ∧
  tokens w1 = 0 ∧ cnt StartInLoop w1 = 0 ∧ (0 < cnt StopInLoop w1 → connect_ (con w1) = false) ∧
  (retryDelayMs_ (con w1) = backoff (length (delays w1)) ∧ delays w1 = backoff <$> seq 0 (length (delays w1))) ∧
  connect_ (con w1) = connect_ (con w) ∧ sockets w1 = sockets w.

Lemma removeAndReset_spec s w :
  con_inv w → state_ (con w) = kConnecting →
  ∃ w1 fd, removeAndResetChannel (setState s w) = Ok (w1, fd) ∧ state_ (con w1) = s ∧ detached w w1 fd.
Proof.
  intros [] Hs. unfold removeAndResetChannel. cbn [con setState set_con channel_].
  destruct (channel_ (con w)) as [c|] eqn:Hc; [|by destruct ci_channel0]. rewrite Hs in *.
  rewrite bool_decide_true in ci_channel0 by done. destruct ci_channel0 as (_ & _ & Hr).
  rewrite check_true, bind_Ok by done. destruct ci_tokens0 as [_ Ht]. specialize (Ht ltac:(done)).
  assert (∀ f, count (λ g, bool_decide (g = f)) (queue w ++ [ResetChannel]) = cnt f w + b2z (bool_decide (ResetChannel = f))) as Hcnt.
  { intros f. rewrite count_app. cbn [count]. unfold cnt. lia. }
  pose proof (zlen_nonneg (timers w)) as Hz. pose proof (cnt_nonneg StartInLoop w) as Hn.
  assert (cnt StartInLoop w = 0 ∧ zlen (timers w) = 0) as [Hst Hti].
  { unfold tokens in Ht. fold (cnt StartInLoop w) in Ht. lia. }
  eexists _, _. split; [done|]. split; [done|].
  unfold detached, tokens, cnt. cbn [queueInLoop set_queue set_channel setState set_con con queue timers next_fd sockets delays connect_ channel_ retryDelayMs_ state_].
  rewrite !Hcnt. split_and!; try done; try (by eexists).
  - apply ci_open0. split; [done|]. by eexists.
  - intros fd' Ho. apply ci_open0 in Ho as (_ & c' & [= <-] & <-). done.
  - rewrite Hr. done.
  - rewrite Hst, Hti. done.
  - rewrite Hst. done.
  - intros Hq. apply ci_stop0. change (b2z (bool_decide (ResetChannel = StopInLoop))) with 0 in Hq. lia.
  - apply ci_delay0.
  - apply ci_delay0.
Qed.

Lemma setState_same w : setState (state_ (con w)) w = w.
Proof. by destruct w as [[]]. Qed.

Lemma retry_detached w w1 fd :
  detached w w1 fd → ∃ w', retry fd w1 = Ok w' ∧ con_inv w' ∧ state_ (con w') = kDisconnected ∧
    connect_ (con w') = connect_ (con w) ∧ sockets w' = <[fd := Closed]> (sockets w).
Proof.
  intros (H1 & H2 & H3 & (c & Hc & H4) & H5 & H6 & H7 & H8 & H9 & H10 & <-). rewrite <- H10.
  apply retry_inv; try done; [rewrite Hc; tauto|lia|lia].
Qed.

Lemma stopInLoop_inv w : con_inv w → ∃ w', stopInLoop w = Ok w' ∧ con_inv w'.
Proof.
  intros Hi. unfold stopInLoop. destruct (decide (state_ (con w) = kConnecting)) as [Hs|Hs].
  - rewrite bool_decide_true by done. destruct (removeAndReset_spec kDisconnected w Hi Hs) as (w1 & fd & -> & _ & Hd).
    rewrite bind_Ok. destruct (retry_detached w w1 fd Hd) as (w' & ? & ? & _). eauto.
  - rewrite bool_decide_false by done. eauto.
Qed.

Lemma handleError_inv w : con_inv w → ∃ w', handleError w = Ok w' ∧ con_inv w'.
Proof.
  intros Hi. unfold handleError. destruct (decide (state_ (con w) = kConnecting)) as [Hs|Hs].
  - rewrite bool_decide_true by done. destruct (removeAndReset_spec (state_ (con w)) w Hi Hs) as (w1 & fd & E & _ & Hd).
    rewrite setState_same in E. rewrite E, bind_Ok. destruct (retry_detached w w1 fd Hd) as (w' & ? & ? & _). eauto.
  - rewrite bool_decide_false by done. eauto.
Qed.

(** A socket without error is handed over, unless the connector was stopped. *)
Lemma writable_inv err self w :
  con_inv w → state_ (con w) ≠ kConnected → ∃ w', handleWrite err self w = Ok w' ∧ con_inv w'.
Proof.
  intros Hi Hne. unfold handleWrite. destruct (decide (state_ (con w) = kConnecting)) as [Hs|Hs].
  - rewrite bool_decide_true by done. destruct (removeAndReset_spec (state_ (con w)) w Hi Hs) as (w1 & fd & E & _ & Hd).
    rewrite setState_same in E. rewrite E, bind_Ok. destruct (retry_detached w w1 fd Hd) as (w' & Er & Hi' & _).
    destruct (negb (err =? 0)); [eauto|]. destruct self; [eauto|]. clear Er Hi' w'.
    destruct Hd as (H1 & H2 & H3 & (c & Hc & H4) & H5 & H6 & H7 & H8 & H9 & H10 & H11).
    unfold end_socket. cbn [con setState set_con connect_ sockets]. rewrite H1. eexists. split; [done|].
    set (f := if connect_ (con w1) then Handed else Closed). assert (f ≠ Open) as Hf by (unfold f; by destruct (connect_ (con w1))).
    assert (∀ fd', (<[fd:=f]> (sockets w1)) !! fd' ≠ Some Open) as Hno.
    { intros fd' H. destruct (decide (fd = fd')) as [->|Hn]; [rewrite lookup_insert_eq in H; congruence|].
      rewrite lookup_insert_ne in H by done. apply Hn. symmetry. by apply H2. }
    constructor; cbn [con setState set_con connect_ state_ channel_ retryDelayMs_ queue timers next_fd sockets delays]; try done.
    + intros i Hx. apply H3. destruct (decide (fd = i)) as [->|Hn]; [eauto|]. by rewrite lookup_insert_ne in Hx.
    + intros fd'. split; [by intros ?%Hno|by intros [? _]].
    + rewrite Hc. rewrite bool_decide_false by done. destruct H4. done.
    + unfold tokens in *. cbn [queue timers setState set_con con] in *. lia.
    + unfold cnt in *. cbn [queue setState set_con con] in *. lia.
  - rewrite bool_decide_false, check_true, bind_Ok; [eauto| |done]. apply bool_decide_true. by destruct (state_ (con w)).
Qed.

Lemma pop_inv f q w :
  con_inv w → queue w = f :: q → f ≠ ResetChannel →
  con_inv (set_queue q w) ∧ tokens (set_queue q w) = tokens w - b2z (bool_decide (f = StartInLoop)).
Proof.
  intros [] Hq Hf. assert (∀ g, cnt g w = b2z (bool_decide (f = g)) + cnt g (set_queue q w)) as Hcnt.
  { intros g. unfold cnt. cbn [queue set_queue]. by rewrite Hq. }
  assert (tokens (set_queue q w) = tokens w - b2z (bool_decide (f = StartInLoop))) as Ht.
  { unfold tokens. fold (cnt StartInLoop w) (cnt StartInLoop (set_queue q w)). cbn [timers set_queue]. rewrite (Hcnt StartInLoop). lia. }
  split; [|done]. pose proof (Hcnt ResetChannel) as Hr. rewrite (bool_decide_false (f = ResetChannel)) in Hr by done. cbn [b2z] in Hr.
  assert (∀ b, 0 ≤ b2z b) as Hb by (intros []; cbn; lia).
  constructor; rewrite ?Ht; cbn [con set_queue next_fd sockets delays]; try done.
  - destruct (channel_ (con w)); [destruct (bool_decide _)|]; rewrite Hr in ci_channel0; done.
  - destruct ci_tokens0 as [? Htok]. split; [specialize (Hb (bool_decide (f = StartInLoop))); lia|].
    intros Hs. specialize (Htok Hs). unfold tokens in *. fold (cnt StartInLoop w) in *. pose proof (Hcnt StartInLoop) as Hc.
    pose proof (cnt_nonneg StartInLoop (set_queue q w)). pose proof (zlen_nonneg (timers w)).
    specialize (Hb (bool_decide (f = StartInLoop))). lia.
  - intros Hc. apply ci_start0. rewrite (Hcnt StartInLoop). specialize (Hb (bool_decide (f = StartInLoop))). lia.
  - intros Hc. apply ci_stop0. rewrite (Hcnt StopInLoop). specialize (Hb (bool_decide (f = StopInLoop))). lia.
Qed.

Lemma reset_inv q w : con_inv w → queue w = ResetChannel :: q → con_inv (resetChannel (set_queue q w)).
Proof.
  intros [] Hq. assert (∀ g, cnt g w = b2z (bool_decide (ResetChannel = g)) + cnt g (set_queue q w)) as Hcnt.
  { intros g. unfold cnt. cbn [queue set_queue]. by rewrite Hq. }
  pose proof (Hcnt ResetChannel) as Hr. rewrite bool_decide_true in Hr by done. cbn [b2z] in Hr.
  pose proof (cnt_nonneg ResetChannel (set_queue q w)) as Hnn.
  assert (state_ (con w) ≠ kConnecting ∧ cnt ResetChannel w = 1) as [Hs H1].
  { destruct (channel_ (con w)) as [c|]; [|lia]. destruct (decide (state_ (con w) = kConnecting)) as [E|E].
    - rewrite bool_decide_true in ci_channel0 by done. lia.
    - rewrite bool_decide_false in ci_channel0 by done. split; [done|]. apply ci_channel0. }
  constructor; cbn [con resetChannel set_channel set_con set_queue connect_ state_ channel_ retryDelayMs_ next_fd sockets delays]; try done.
  - intros fd. split; [intros [? _]%ci_open0; done|by intros [? _]].
  - split; [done|]. change (cnt ResetChannel (set_queue q w) = 0). lia.
  - change (tokens (set_queue q w) ≤ 1 ∧ (state_ (con w) ≠ kDisconnected → tokens (set_queue q w) = 0)).
    assert (tokens (set_queue q w) = tokens w) as ->; [|done].
    unfold tokens. fold (cnt StartInLoop w) (cnt StartInLoop (set_queue q w)). by rewrite (Hcnt StartInLoop).
  - intros Hc. apply ci_stop0. rewrite (Hcnt StopInLoop). exact Hc.
Qed.

Lemma set_connect_inv b w : con_inv w → (0 < cnt StopInLoop w → b = false) → con_inv (set_connect b w).
Proof. intros [] Hb. by constructor. Qed.

Lemma queue_inv f w :
  con_inv w → f ≠ ResetChannel → (f = StopInLoop → connect_ (con w) = false) →
  (f = StartInLoop → tokens w = 0 ∧ channel_ (con w) = None ∧ state_ (con w) = kDisconnected) →
  con_inv (queueInLoop f w).
Proof.
  intros [] Hf Hstop Hstart.
  assert (∀ g, cnt g (queueInLoop f w) = cnt g w + b2z (bool_decide (f = g))) as Hcnt.
  { intros g. unfold cnt. cbn [queue queueInLoop set_queue]. rewrite count_app. cbn [count]. lia. }
  assert (tokens (queueInLoop f w) = tokens w + b2z (bool_decide (f = StartInLoop))) as Ht.
  { unfold tokens. fold (cnt StartInLoop w) (cnt StartInLoop (queueInLoop f w)). rewrite Hcnt. cbn [timers queueInLoop set_queue]. lia. }
  constructor; rewrite ?Ht, ?Hcnt; cbn [con queueInLoop set_queue next_fd sockets delays]; try done.
  - rewrite (bool_decide_false (f = ResetChannel)) by done. cbn [b2z]. rewrite Z.add_0_r. done.
  - destruct (decide (f = StartInLoop)) as [E|E].
    + destruct (Hstart E) as (H0 & _ & Hs). rewrite bool_decide_true by done. cbn [b2z]. split; [lia|]. by rewrite Hs.
    + rewrite bool_decide_false by done. cbn [b2z]. rewrite Z.add_0_r. done.
  - destruct (decide (f = StartInLoop)) as [E|E]; [intros _; apply Hstart; done|].
    rewrite bool_decide_false by done. cbn [b2z]. rewrite Z.add_0_r. done.
  - destruct (decide (f = StopInLoop)) as [E|E]; [intros _; by apply Hstop|].
    rewrite bool_decide_false by done. cbn [b2z]. rewrite Z.add_0_r. done.
Qed.

Lemma at_rest_channel w : con_inv w → at_rest w → state_ (con w) ≠ kConnecting → channel_ (con w) = None.
Proof.
  intros [] (_ & Hr & _) Hs. apply cnt_not_elem in Hr. destruct (channel_ (con w)); [|done].
  rewrite bool_decide_false in ci_channel0 by done. lia.
Qed.

Lemma timer_inv n d w :
  con_inv w → timers w !! n = Some d →
  let w1 := set_timers (delete n (timers w)) w in con_inv w1 ∧ tokens w1 = 0 ∧ state_ (con w) = kDisconnected.
Proof.
  intros Hi Hn w1. pose proof Hi as []. pose proof (length_delete (timers w) n ltac:(eauto)) as Hl.
  apply lookup_lt_Some in Hn as Hlt. pose proof (cnt_nonneg StartInLoop w) as Hc.
  assert (tokens w1 = tokens w - 1) as Ht by (unfold tokens, w1, zlen; cbn [queue timers set_timers]; rewrite Hl; lia).
  assert (1 ≤ tokens w) as H1 by (unfold tokens, zlen; fold (cnt StartInLoop w); lia).
  assert (state_ (con w) = kDisconnected) as Hs.
  { destruct (decide (state_ (con w) = kDisconnected)) as [|Hne]; [done|]. destruct ci_tokens0 as [_ H0]. specialize (H0 Hne). lia. }
  destruct ci_tokens0 as [Hle _]. split_and!; [|lia|done].
  constructor; try done. rewrite Ht. split; [lia|]. intros _. lia.
Qed.

Lemma event_inv e w : con_inv w → legal e w → ∃ w', do_event e w = Ok w' ∧ con_inv w'.
Proof.
  intros Hi Hl. destruct e as [b en| |en|en|n en|err self| ]; cbn [do_event legal] in *.
  - destruct Hl as [Hrest Hs]. pose proof (at_rest_channel w Hi Hrest ltac:(by rewrite Hs)) as Hc.
    destruct Hrest as (Ht & _ & Hsp). apply cnt_not_elem in Hsp.
    assert (con_inv (set_connect true w)) as Hi1 by (apply set_connect_inv; [done|lia]). unfold start. destruct b.
    + by apply startInLoop_inv.
    + eexists. split; [done|]. by apply queue_inv.
  - eexists. split; [done|]. unfold stop. apply queue_inv; [by apply set_connect_inv|done..].
  - destruct Hl as [Hrest Hs]. pose proof (at_rest_channel w Hi Hrest ltac:(by rewrite Hs)) as Hc.
    destruct Hrest as (Ht & _ & Hsp). apply cnt_not_elem in Hsp. unfold restart. apply startInLoop_inv; [|done..].
    destruct Hi. rewrite Hc in *. destruct ci_channel0 as [_ Hr].
    constructor; cbn [con setState set_con connect_ state_ channel_ retryDelayMs_ queue timers next_fd sockets delays]; try done.
    + intros fd. rewrite ci_open0, Hs. split; by intros [? _].
    + rewrite Hc. done.
    + unfold tokens in *. cbn [queue timers setState set_con con] in *. split; [lia|done].
    + unfold cnt in *. cbn [queue setState set_con con] in *. lia.
  - destruct (queue w) as [|f q] eqn:Hq; [eauto|]. destruct f.
    + destruct (pop_inv _ _ w Hi Hq) as [Hi1 Ht]; [done|]. pose proof Hi as [].
      assert (0 < cnt StartInLoop w) as H0.
      { unfold cnt. rewrite Hq. cbn [count]. rewrite bool_decide_true by done. cbn [b2z]. pose proof (count_nonneg (λ g, bool_decide (g = StartInLoop)) q). lia. }
      pose proof (zlen_nonneg (timers w)). assert (1 ≤ tokens w) as H1 by (unfold tokens; fold (cnt StartInLoop w); lia).
      destruct ci_tokens0 as [Hle H3]. apply startInLoop_inv; [done| |rewrite Ht; rewrite bool_decide_true by done; cbn [b2z]; lia|].
      * destruct (decide (state_ (con w) = kDisconnected)) as [E|E]; [done|]. specialize (H3 E). lia.
      * intros _. by apply ci_start0.
    + apply stopInLoop_inv. by eapply (pop_inv StopInLoop).
    + eexists. split; [done|]. by apply reset_inv.
  - destruct (timers w !! n) as [d|] eqn:Hn; [|eauto]. destruct (timer_inv n d w Hi Hn) as (Hi1 & Ht & Hs).
    apply startInLoop_inv; [done|done|done|]. cbn [con set_timers]. intros Hc. pose proof Hi as [].
    destruct (channel_ (con w)) as [c|] eqn:Ec; [|done]. exfalso. rewrite Hs, bool_decide_false in ci_channel0 by done.
    assert (ResetChannel ∈ queue w) as Hq by (apply cnt_elem; lia). specialize (Hl Hq). congruence.
  - destruct (channel_ (con w)); [by apply writable_inv|eauto].
  - destruct (channel_ (con w)); [by apply handleError_inv|eauto].
Qed.

Lemma events_inv es : ∀ w, con_inv w → legal_run es w → ∃ w', do_events es w = Ok w' ∧ con_inv w'.
Proof.
  induction es as [|e es IH]; intros w Hi Hl; [eauto|]. destruct Hl as [He Hl]. cbn [do_events].
  destruct (event_inv e w Hi He) as (w1 & E & Hi1). rewrite E, bind_Ok. auto.
Qed.

(** C28: In every run that keeps to the rules of [legal] (a connector is started at
    rest and restarted after its connection has come and gone, and a retry timer
    fires after the channel of the failed attempt was reset) a connector tries one
    socket at a time: no assertion fails, no socket is closed or handed over twice,
    one is open exactly while the connector is connecting, and then its channel waits
    for writability. The k-th failure in a row is followed by a pause of 500 ms times
    2^k, 30 s at most. When no functor is queued and the state is not [kConnecting],
    the destructor's assertion holds; while an attempt is going on it fails
    ([destroy_while_connecting]). *)
Theorem connector_safe es :
  legal_run es initial →
  ∃ w, do_events es initial = Ok w ∧
    (∀ fd, sockets w !! fd = Some Open ↔
       state_ (con w) = kConnecting ∧ ∃ c, channel_ (con w) = Some c ∧ Channel.fd_ c = fd ∧ Channel.isWriting c = true) ∧
    delays w = backoff <$> seq 0 (length (delays w)) ∧
    (queue w = [] → state_ (con w) ≠ kConnecting → destructor w = Ok tt).
Proof.
  intros Hl. destruct (events_inv es initial con_initial Hl) as (w & E & []). exists w. split_and!; [done| |apply ci_delay0|].
  - intros fd. rewrite ci_open0. split.
    + intros (Hs & c & Hc & Hf). split; [done|]. exists c. rewrite Hc, Hs, bool_decide_true in ci_channel0 by done. tauto.
    + intros (Hs & c & Hc & Hf & _). eauto.
  - intros Hq Hs. unfold destructor. apply check_true, bool_decide_true. destruct (channel_ (con w)) as [c|]; [|done].
    rewrite bool_decide_false in ci_channel0 by done. unfold cnt in ci_channel0. rewrite Hq in ci_channel0. by destruct ci_channel0 as (_ & _ & ?).
Qed.

(** ** After [stop] *)

(** What a stopped connector does not do. *)
Definition quiet (w w' : World) : Prop :=
  connect_ (con w') = false ∧ next_fd w' = next_fd w ∧
  (∀ fd, sockets w' !! fd = Some Handed → sockets w !! fd = Some Handed) ∧
  (state_ (con w') = kConnecting → state_ (con w) = kConnecting ∧ (StopInLoop ∈ queue w → StopInLoop ∈ queue w')).

#[local] Instance quiet_pre : Transitive quiet.
Proof.
  intros w1 w2 w3 (H1 & H2 & H3 & H4) (K1 & K2 & K3 & K4). split_and!; [done|congruence|auto|].
  intros Hs. destruct (K4 Hs) as [Hs2 Hq2]. destruct (H4 Hs2) as [Hs1 Hq1]. auto.
Qed.

Lemma quiet_refl w : connect_ (con w) = false → quiet w w.
Proof. intros H. split_and!; done. Qed.

Lemma retry_quiet s fd w w1 w' :
  connect_ (con w) = false → removeAndResetChannel (setState s w) = Ok (w1, fd) → retry fd w1 = Ok w' → quiet w w'.
Proof.
  intros Hc. unfold removeAndResetChannel. cbn [con setState set_con channel_]. destruct (channel_ (con w)) as [c|]; [|done].
  intros E1 E2. inv_result. unfold retry, end_socket in E2. inv_result.
  cbn [queueInLoop set_queue set_channel set_con setState con sockets queue timers next_fd delays] in *.
  match goal with H : context [sockets w !! ?i] |- _ => destruct (sockets w !! i) as [[]|] eqn:Ho; try discriminate H end.
  inv_result. cbn [connect_ con setState set_con] in *. rewrite Hc in *. inv_result.
  split_and!; cbn; try done.
  intros fd. match goal with |- context [<[?i := Closed]> _] => destruct (decide (i = fd)) as [->|Hne] end.
  - by rewrite lookup_insert_eq.
  - by rewrite lookup_insert_ne.
Qed.

Lemma startInLoop_quiet en w w' : connect_ (con w) = false → startInLoop en w = Ok w' → w' = w.
Proof. unfold startInLoop. intros ->. intros E. by inv_result. Qed.

Definition no_start (e : event) : Prop := match e with Start _ _ | Restart _ => False | _ => True end.

Lemma event_quiet e w w' : connect_ (con w) = false → no_start e → do_event e w = Ok w' → quiet w w'.
Proof.
  intros Hc Hn. destruct e as [b en| |en|en|n en|err self| ]; try done; cbn [do_event].
  - intros [= <-]. split_and!; try done. intros Hs. split; [done|]. intros _. cbn. set_solver.
  - destruct (queue w) as [|f q] eqn:Hq; [by intros [= <-]; apply quiet_refl|]. destruct f.
    + intros ->%startInLoop_quiet; [|done]. split_and!; try done. intros Hs. split; [done|]. rewrite Hq. cbn. set_solver.
    + unfold stopInLoop. cbn [con set_queue]. destruct (decide (state_ (con w) = kConnecting)) as [Hs|Hs].
      * rewrite bool_decide_true by done. intros E. apply bind_Ok_inv in E as ([w1 fd] & E1 & E2).
        assert (quiet (set_queue q w) w') as (H1 & H2 & H3 & H4) by (by eapply retry_quiet).
        split_and!; try done. unfold retry in E2. apply bind_Ok_inv in E2 as (w2 & E2 & E3). intros Hs'.
        unfold end_socket in E2. destruct (sockets w1 !! fd) as [[]|]; try done. injection E2 as <-.
        cbn [setState set_con con connect_] in E3. destruct (connect_ (con w1)); inv_result; done.
      * rewrite bool_decide_false by done. intros [= <-]. split_and!; try done.
    + intros [= <-]. split_and!; try done. intros Hs. split; [done|]. rewrite Hq. cbn. set_solver.
  - destruct (timers w !! n); [|by intros [= <-]; apply quiet_refl]. intros ->%startInLoop_quiet; [|done]. done.
  - destruct (channel_ (con w)); [|by intros [= <-]; apply quiet_refl]. unfold handleWrite.
    destruct (decide (state_ (con w) = kConnecting)) as [Hs|Hs].
    + rewrite bool_decide_true by done. intros E. apply bind_Ok_inv in E as ([w1 fd] & E1 & E2).
      destruct (negb (err =? 0)); [by eapply (retry_quiet (state_ (con w))); [|rewrite setState_same|]|].
      destruct self; [by eapply (retry_quiet (state_ (con w))); [|rewrite setState_same|]|].
      unfold removeAndResetChannel in E1. destruct (channel_ (con w)); [|done]. inv_result.
      unfold end_socket in E2. cbn [setState set_con queueInLoop set_queue set_channel con connect_ sockets] in E2. rewrite Hc in E2.
      match type of E2 with context [sockets w !! ?i] => destruct (sockets w !! i) as [[]|] eqn:Ho; try discriminate E2 end.
      injection E2 as <-. split_and!; cbn; try done. intros fd.
      match goal with |- context [<[?i := Closed]> _] => destruct (decide (i = fd)) as [->|Hne] end.
      * by rewrite lookup_insert_eq.
      * by rewrite lookup_insert_ne.
    + rewrite bool_decide_false by done. intros E. inv_result. by apply quiet_refl.
  - destruct (channel_ (con w)); [|by intros [= <-]; apply quiet_refl]. unfold handleError.
    destruct (decide (state_ (con w) = kConnecting)) as [Hs|Hs].
    + rewrite bool_decide_true by done. intros E. apply bind_Ok_inv in E as ([w1 fd] & E1 & E2).
      by eapply (retry_quiet (state_ (con w))); [|rewrite setState_same|].
    + rewrite bool_decide_false by done. intros [= <-]. by apply quiet_refl.
Qed.

Lemma events_quiet es : ∀ w w',
  connect_ (con w) = false → Forall no_start es → do_events es w = Ok w' → quiet w w'.
Proof.
  induction es as [|e es IH]; intros w w' Hc Hn E; [injection E as <-; by apply quiet_refl|].
  apply Forall_cons in Hn as [He Hn]. cbn [do_events] in E. apply bind_Ok_inv in E as (w1 & E1 & E2).
  pose proof (event_quiet e w w1 Hc He E1) as Hq. etransitivity; [exact Hq|]. apply IH; [apply Hq|done|done].
Qed.

Lemma legal_run_app es1 es2 w w' :
  legal_run (es1 ++ es2) w → do_events es1 w = Ok w' → legal_run es1 w ∧ legal_run es2 w'.
Proof.
  revert w. induction es1 as [|e es1 IH]; intros w; cbn [app legal_run do_events]; [by intros ? [= <-]|].
  intros [He Hl] E. apply bind_Ok_inv in E as (w1 & E1 & E2). destruct (IH w1 (Hl w1 E1) E2) as [H1 H2].
  split; [|done]. split; [done|]. intros w2 E3. rewrite E1 in E3. by injection E3 as <-.
Qed.

(** After [stop], as long as nobody starts it again, a connector opens no
    socket and hands none over, whatever timers and events were on their way;
    once the functors queued have run, it holds no socket any more. *)
Theorem connector_stop es1 es2 w :
  legal_run (es1 ++ Stop :: es2) initial → Forall no_start es2 → do_events es1 initial = Ok w →
  ∃ w', do_events es2 (stop w) = Ok w' ∧ next_fd w' = next_fd w ∧
    (∀ fd, sockets w' !! fd = Some Handed → sockets w !! fd = Some Handed) ∧
    (queue w' = [] → ∀ fd, sockets w' !! fd ≠ Some Open).
Proof.
  intros Hl Hn E. destruct (legal_run_app es1 (Stop :: es2) initial w Hl E) as [H1 [_ H2]].
  destruct (events_inv es1 initial con_initial H1) as (w1 & E1 & Hi). rewrite E in E1. injection E1 as <-.
  destruct (event_inv Stop w Hi I) as (w1 & [= <-] & Hi1).
  destruct (events_inv es2 (stop w) Hi1 (H2 _ eq_refl)) as (w' & E' & []). exists w'.
  destruct (events_quiet es2 (stop w) w' eq_refl Hn E') as (_ & Hfd & Hha & Hst). split_and!; try done.
  intros Hq fd Ho. apply ci_open0 in Ho as [Hs _]. destruct (Hst Hs) as [_ Hin].
  assert (StopInLoop ∈ queue w') as Hx by (apply Hin; cbn; set_solver). rewrite Hq in Hx. set_solver.
Qed.

(** ** Examples *)
Fixpoint check_run (es : list event) (w : World) : bool :=
  match es with
  | [] => true
  | e :: es => bool_decide (legal e w) && match do_event e w with Ok w' => check_run es w' | Fail _ => true end
  end.
Lemma check_run_legal es : ∀ w, check_run es w = true → legal_run es w.
Proof.
  induction es as [|e es IH]; intros w; [done|]. cbn. intros [Hl Hr]%andb_true_iff.
  apply bool_decide_eq_true in Hl. split; [done|]. intros w' E. rewrite E in Hr. auto.
Qed.

(** Refused, tried again after 500 ms, in progress, connected. *)
Definition example_events : list event :=
  [Start true ECONNREFUSED; TimerFires 0 EINPROGRESS; Writable 0 false; RunFunctor 0].

Lemma connector_safe_witness :
  ∃ w, do_events example_events initial = Ok w ∧ delays w = [500] ∧ sockets w !! 4 = Some Handed ∧ destructor w = Ok tt.
Proof.
  destruct (connector_safe example_events) as (w & E & _ & _ & Hd); [apply check_run_legal; vm_compute; reflexivity|].
  exists w. split; [exact E|]. vm_compute in E. injection E as <-. split; [reflexivity|]. split; [reflexivity|].
  apply Hd; [reflexivity|discriminate].
Defined.

Definition stopped_events : list event := [Writable 0 false; RunFunctor 0; RunFunctor 0].
Definition example_world (es : list event) : World :=
  match do_events es initial with Ok w => w | Fail _ => initial end.
Lemma connector_stop_witness :
  ∃ w', do_events stopped_events (stop (example_world [Start true EINPROGRESS])) = Ok w' ∧ sockets w' !! 3 = Some Closed ∧
    (∀ fd, sockets w' !! fd ≠ Some Open).
Proof.
  destruct (connector_stop [Start true EINPROGRESS] stopped_events (example_world [Start true EINPROGRESS]))
    as (w' & E & _ & _ & Ho).
  - apply check_run_legal. vm_compute. reflexivity.
  - repeat constructor.
  - vm_compute. reflexivity.
  - exists w'. split; [exact E|]. split; [vm_compute in E; injection E as <-; reflexivity|].
    apply Ho. vm_compute in E. injection E as <-. reflexivity.
Defined.

(** Misuse the comments do not rule out: a timer left over from a stopped attempt
    meets a new one; [stop] and [start] queued together find the old channel; a
    connection that comes up after [stop] leaves the state [kConnected]. *)
Lemma stop_start_aborts :
  do_events [Start true ECONNREFUSED; Stop; RunFunctor 0; Start true EINPROGRESS; TimerFires 0 0] initial = Fail AssertFailed ∧
  do_events [Start true EINPROGRESS; Stop; Start false 0; RunFunctor 0; RunFunctor EINPROGRESS] initial = Fail AssertFailed ∧
  do_events [Start true EINPROGRESS; Stop; Writable 0 false; RunFunctor 0; RunFunctor 0; Start true EINPROGRESS] initial
    = Fail AssertFailed.
Proof. vm_compute. done. Qed.

(** A retry timer that fires before the queued [resetChannel] finds the old channel. *)
Lemma early_retry_aborts :
  do_events [Start true EINPROGRESS; Writable ECONNREFUSED false; TimerFires 0 EINPROGRESS] initial = Fail AssertFailed.
Proof. vm_compute. reflexivity. Qed.

(** The destructor's assertion fails during an attempt, also when nothing is queued. *)
Lemma destroy_while_connecting :
  ∃ w, do_events [Start true EINPROGRESS] initial = Ok w ∧ queue w = [] ∧ destructor w = Fail AssertFailed.
Proof. eexists. split; [vm_compute; reflexivity|]. split; reflexivity. Qed.

End Connector.
