(* ===== verification/InetAddress.v ===== *)
(** * Socket addresses ([net/InetAddress.cc], the address functions of [net/SocketsOps.cc])

    [InetAddress] is a union of [sockaddr_in] and [sockaddr_in6]: 28 bytes, with
    the family at offset 0 in host order and the port at offset 2 in network
    order in both. The text form of IPv4 addresses is computed as the C library
    does; that of IPv6 addresses is a parameter. *)

From S2P Require Import Prelude Endian Format Channel.
Import Endian Format.

Module InetAddress.

Definition AF_INET : Z := 2.
Definition AF_INET6 : Z := 10.
Definition INET_ADDRSTRLEN : Z := 16.
Definition INET6_ADDRSTRLEN : Z := 46.

Record InetAddress := mkAddress { addr6_ : bytes }.
Definition sizeof_in : Z := 16.
Definition sizeof_in6 : Z := 28.

(** ** Fields *)
Section inet.
Context `{Host}.

Definition get (off n : Z) (a : InetAddress) : result bytes := vec_read (addr6_ a) off n.
Definition put (off : Z) (d : bytes) (a : InetAddress) : result InetAddress :=
  v ← vec_write (addr6_ a) off d; Ok (mkAddress v).
Definition memZero (n : Z) (a : InetAddress) : result InetAddress := put 0 (zrep n "000"%char) a.

Definition family (a : InetAddress) : result Z := d ← get 0 2 a; Ok (obj_val d).
Definition portNetEndian (a : InetAddress) : result Z := d ← get 2 2 a; Ok (obj_val d).
Definition toPort (a : InetAddress) : result Z := p ← portNetEndian a; Ok (networkToHost16 p).
Definition ipNetEndian (a : InetAddress) : result Z :=
  f ← family a;
  _ ← check (f =? AF_INET);
  d ← get 4 4 a;
  Ok (obj_val d).

(** ** <arpa/inet.h> *)

(** [inet_ntop(AF_INET, ...)]: the four bytes in decimal. *)
Definition inet_ntop4 (a : bytes) : bytes :=
  match (λ c, dec (byte_val c)) <$> a with
  | [w; x; y; z] => w ++ ["."%char] ++ x ++ ["."%char] ++ y ++ ["."%char] ++ z
  | _ => []
  end.

(** [inet_pton(AF_INET, ...)]: exactly four numbers up to 255 without leading
    zeros. [octets]: the numbers read; [cur]: the one being read; [saw]: has it a digit? *)
Fixpoint inet_pton4_loop (s : bytes) (octets : list Z) (cur : Z) (saw : bool) : option (list Z) :=
  match s with
  | [] => if saw && (length octets =? 3)%nat then Some (octets ++ [cur]) else None
  | ch :: s =>
      if is_digit ch then
        let new := cur * 10 + digit_val ch in
        if saw && (cur =? 0) then None
        else if 255 <? new then None
        else if negb saw && (4 <=? length octets)%nat then None
        else inet_pton4_loop s octets new true
      else if bool_decide (ch = "."%char) && saw then
        if (length octets =? 3)%nat then None else inet_pton4_loop s (octets ++ [cur]) 0 false
      else None
  end.
Definition inet_pton4 (s : bytes) : option bytes :=
  match inet_pton4_loop s [] 0 false with Some l => Some (byte_of <$> l) | None => None end.

Section address.
(** The IPv6 conversions of the C library. *)
Context (inet_ntop6 : bytes → bytes) (inet_pton6 : bytes → option bytes).

Definition fromIpPort4 (ip : bytes) (port : Z) (a : InetAddress) : result InetAddress :=
  a ← put 0 (obj_bytes 2 AF_INET) a;
  a ← put 2 (obj_bytes 2 (hostToNetwork16 port)) a;
  match inet_pton4 ip with Some d => put 4 d a | None => Ok a end.
Definition fromIpPort6 (ip : bytes) (port : Z) (a : InetAddress) : result InetAddress :=
  a ← put 0 (obj_bytes 2 AF_INET6) a;
  a ← put 2 (obj_bytes 2 (hostToNetwork16 port)) a;
  match inet_pton6 ip with Some d => put 8 d a | None => Ok a end.

(** Constructors; [garbage] is what the memory held. *)
Definition in6addr_any : bytes := zrep 16 "000"%char.
Definition in6addr_loopback : bytes := zrep 15 "000"%char ++ ["001"%char].
Definition INADDR_ANY : Z := 0.
Definition INADDR_LOOPBACK : Z := 2130706433.

Definition make_port (port : Z) (loopbackOnly ipv6 : bool) (garbage : bytes) : result InetAddress :=
  let a := mkAddress garbage in
  if ipv6 then
    a ← memZero sizeof_in6 a;
    a ← put 0 (obj_bytes 2 AF_INET6) a;
    a ← put 8 (if loopbackOnly then in6addr_loopback else in6addr_any) a;
    put 2 (obj_bytes 2 (hostToNetwork16 port)) a
  else
    a ← memZero sizeof_in a;
    a ← put 0 (obj_bytes 2 AF_INET) a;
    a ← put 4 (obj_bytes 4 (hostToNetwork32 (if loopbackOnly then INADDR_LOOPBACK else INADDR_ANY))) a;
    put 2 (obj_bytes 2 (hostToNetwork16 port)) a.
Definition make_ip (ip : bytes) (port : Z) (ipv6 : bool) (garbage : bytes) : result InetAddress :=
  let a := mkAddress garbage in
  if ipv6 then a ← memZero sizeof_in6 a; fromIpPort6 ip port a
  else a ← memZero sizeof_in a; fromIpPort4 ip port a.
Definition setSockAddrInet6 (addr6 : bytes) (a : InetAddress) : InetAddress := mkAddress addr6.

(** Into a buffer of [size] bytes that holds the empty string. *)
Definition toIp (size : Z) (a : InetAddress) : result bytes :=
  f ← family a;
  if f =? AF_INET then
    _ ← check (INET_ADDRSTRLEN <=? size);
    d ← get 4 4 a;
    Ok (inet_ntop4 d)
  else if f =? AF_INET6 then
    _ ← check (INET6_ADDRSTRLEN <=? size);
    d ← get 8 16 a;
    Ok (inet_ntop6 d)
  else Ok [].
Definition toIpPort (size : Z) (a : InetAddress) : result bytes :=
  ip ← toIp size a;
  let end_ := zlen ip in
  p ← portNetEndian a;
  let port := networkToHost16 p in
  _ ← check (end_ <? size);
  Ok (ip ++ snprintf (size - end_) ([":"%char] ++ dec port)).

Definition setScopeId (scope_id : Z) (a : InetAddress) : result InetAddress :=
  f ← family a;
  if f =? AF_INET6 then put 24 (obj_bytes 4 scope_id) a else Ok a.

(** [gethostbyname_r]: its result, and the entry found: type, length, first address. *)
Definition resolve (ret : Z) (he : option (Z * Z * bytes)) (out : InetAddress) : result (bool * InetAddress) :=
  match he with
  | Some (addrtype, len, addr) =>
      if ret =? 0 then
        _ ← check ((addrtype =? AF_INET) && (len =? 4));
        out ← put 4 addr out;
        Ok (true, out)
      else Ok (false, out)
  | None => Ok (false, out)
  end.

(** [sockets::isSelfConnect], given the two ends of the socket. *)
Definition isSelfConnect (localaddr peeraddr : InetAddress) : result bool :=
  f ← family localaddr;
  if f =? AF_INET then
    lp ← portNetEndian localaddr; pp ← portNetEndian peeraddr;
    la ← get 4 4 localaddr; pa ← get 4 4 peeraddr;
    Ok ((lp =? pp) && bool_decide (la = pa))
  else if f =? AF_INET6 then
    lp ← portNetEndian localaddr; pp ← portNetEndian peeraddr;
    la ← get 8 16 localaddr; pa ← get 8 16 peeraddr;
    Ok ((lp =? pp) && bool_decide (la = pa))
  else Ok false.
End address.

(** ** The text of an IPv4 address *)

Lemma inet_pton4_octet b rest octets :
  0 ≤ b < 256 → (length octets < 4)%nat →
  inet_pton4_loop (dec b ++ rest) octets 0 false = inet_pton4_loop rest octets b true.
Proof.
  intros Hb Ho. assert (∃ k, (k < 256)%nat ∧ b = Z.of_nat k) as (k & Hk & ->) by (exists (Z.to_nat b); lia).
  clear Hb. destruct octets as [|o1 [|o2 [|o3 [|o4 octets]]]]; cbn in Ho; try lia;
    do 256 (destruct k as [|k]; [reflexivity|]); lia.
Qed.

Lemma inet_pton4_ntop4 a : length a = 4%nat → inet_pton4 (inet_ntop4 a) = Some a.
Proof.
  destruct a as [|a [|b [|c [|d [|]]]]]; try done. intros _. unfold inet_pton4, inet_ntop4. cbn [fmap list_fmap].
  pose proof (byte_val_range a). pose proof (byte_val_range b). pose proof (byte_val_range c). pose proof (byte_val_range d).
  rewrite inet_pton4_octet by (cbn; lia). cbn [app]. cbn [inet_pton4_loop].
  change (is_digit ".") with false. rewrite bool_decide_true by done. cbn [andb length Nat.eqb app].
  rewrite inet_pton4_octet by (cbn; lia). cbn [app inet_pton4_loop].
  change (is_digit ".") with false. rewrite bool_decide_true by done. cbn [andb length Nat.eqb app].
  rewrite inet_pton4_octet by (cbn; lia). cbn [app inet_pton4_loop].
  change (is_digit ".") with false. rewrite bool_decide_true by done. cbn [andb length Nat.eqb app].
  rewrite <- (app_nil_r (dec (byte_val d))). rewrite inet_pton4_octet by (cbn; lia). cbn. by rewrite !byte_of_val.
Qed.

Lemma dec_byte_length c : zlen (dec (byte_val c)) ≤ 3.
Proof.
  pose proof (byte_val_range c). unfold dec. rewrite (proj2 (Z.ltb_ge _ 0)) by lia.
  pose proof (digits_length (byte_val c) 3). lia.
Qed.

Lemma inet_ntop4_length a : zlen (inet_ntop4 a) ≤ 15.
Proof.
  unfold inet_ntop4. destruct a as [|a [|b [|c [|d [|]]]]]; cbn [fmap list_fmap]; try done.
  rewrite !zlen_app. change (zlen ["."%char]) with 1.
  pose proof (dec_byte_length a). pose proof (dec_byte_length b). pose proof (dec_byte_length c). pose proof (dec_byte_length d). lia.
Qed.

Lemma obj_family n : n = AF_INET ∨ n = AF_INET6 → obj_val (obj_bytes 2 n) = n.
Proof. intros [->| ->]; unfold obj_val, obj_bytes; by destruct host_big. Qed.

Section roundtrip.
Context (inet_ntop6 : bytes → bytes) (inet_pton6 : bytes → option bytes).

(** An IPv4 address in the union: family, port and address in network order. *)
Definition address4 (a4 : bytes) (port : Z) (garbage : bytes) : InetAddress :=
  mkAddress (obj_bytes 2 AF_INET ++ be_bytes 2 port ++ a4 ++ zrep 8 "000"%char ++ zdrop 16 garbage).

Lemma make_ip4 ip port garbage a4 :
  length garbage = 28%nat → length a4 = 4%nat → inet_pton4 ip = Some a4 →
  make_ip inet_pton6 ip port false garbage = Ok (address4 a4 port garbage).
Proof.
  intros Hg Ha Hp. unfold make_ip, fromIpPort4. unfold hostToNetwork16. rewrite obj_bytes_htobe, Hp. unfold address4.
  pose proof (length_obj_bytes 2 AF_INET) as Hf. pose proof (length_be_bytes 2 port) as Hb.
  destruct (obj_bytes 2 AF_INET) as [|x [|y [|]]]; try done. destruct (be_bytes 2 port) as [|p [|q [|]]]; try done.
  destruct a4 as [|a [|b [|c [|d [|]]]]]; try done.
  do 28 (destruct garbage as [|? garbage]; [done|]). destruct garbage; [|done]. reflexivity.
Qed.

Lemma address4_fields a4 port garbage :
  length garbage = 28%nat → length a4 = 4%nat → in_u 16 port →
  family (address4 a4 port garbage) = Ok AF_INET ∧ portNetEndian (address4 a4 port garbage) = Ok (obj_val (be_bytes 2 port)) ∧
  networkToHost16 (obj_val (be_bytes 2 port)) = port ∧ get 4 4 (address4 a4 port garbage) = Ok a4.
Proof.
  intros Hg Ha Hp. unfold networkToHost16. rewrite betoh_obj_val, be_val_bytes by apply length_be_bytes.
  change (256 ^ Z.of_nat 2) with (2 ^ 16). rewrite Z.mod_small by done.
  pose proof (obj_family AF_INET ltac:(by left)) as Hfam.
  unfold family, portNetEndian, get, address4. cbn [addr6_].
  pose proof (length_obj_bytes 2 AF_INET) as Hf. pose proof (length_be_bytes 2 port) as Hb.
  destruct (obj_bytes 2 AF_INET) as [|x [|y [|]]]; try done. destruct (be_bytes 2 port) as [|p [|q [|]]]; try done.
  destruct a4 as [|a [|b [|c [|d [|]]]]]; try done.
  do 28 (destruct garbage as [|? garbage]; [done|]). destruct garbage; [|done].
  split_and!; [rewrite <- Hfam; reflexivity|reflexivity|done|reflexivity].
Qed.

(** The text of an IPv4 address and its port determine it: [toIp] and [toPort]
    of any IPv4 address, given to the constructor, give the address back;
    [toIpPort] is the two with a colon between them, never cut off. *)
Theorem inet4_roundtrip a4 port garbage :
  length garbage = 28%nat → length a4 = 4%nat → in_u 16 port →
  let a := address4 a4 port garbage in
  ∃ ip, toIp inet_ntop6 64 a = Ok ip ∧ toPort a = Ok port ∧
    make_ip inet_pton6 ip port false garbage = Ok a ∧
    toIpPort inet_ntop6 64 a = Ok (ip ++ [":"%char] ++ dec port) ∧ zlen ip ≤ 15.
Proof.
  intros Hg Ha Hp a. destruct (address4_fields a4 port garbage Hg Ha Hp) as (Hf & Hpt & Hnet & Hget). fold a in Hf, Hpt, Hget.
  exists (inet_ntop4 a4). pose proof (inet_ntop4_length a4) as Hl. pose proof (zlen_nonneg (inet_ntop4 a4)).
  assert (toIp inet_ntop6 64 a = Ok (inet_ntop4 a4)) as Hip.
  { unfold toIp. rewrite Hf, bind_Ok. change (AF_INET =? AF_INET) with true. cbn iota.
    rewrite check_true, bind_Ok, Hget, bind_Ok by done. done. }
  split_and!; [done| |by apply make_ip4; [..|apply inet_pton4_ntop4]| |done].
  - unfold toPort. rewrite Hpt, bind_Ok, Hnet. done.
  - unfold toIpPort. rewrite Hip, bind_Ok, Hpt, bind_Ok, Hnet. rewrite check_true, bind_Ok by (apply Z.ltb_lt; lia).
    unfold snprintf. rewrite ztake_all; [done|]. rewrite zlen_app. change (zlen [":"%char]) with 1.
    unfold in_u in Hp. unfold dec. rewrite (proj2 (Z.ltb_ge port 0)) by lia. pose proof (digits_length port 5). lia.
Qed.

(** A malformed address is reported in the log only: the result is 0.0.0.0. *)
Lemma malformed_ip ip port garbage :
  length garbage = 28%nat → inet_pton4 ip = None →
  make_ip inet_pton6 ip port false garbage = Ok (address4 (zrep 4 "000"%char) port garbage).
Proof.
  intros Hg Hp. unfold make_ip, fromIpPort4, hostToNetwork16. rewrite obj_bytes_htobe, Hp. unfold address4.
  pose proof (length_obj_bytes 2 AF_INET) as Hf. pose proof (length_be_bytes 2 port) as Hb.
  destruct (obj_bytes 2 AF_INET) as [|x [|y [|]]]; try done. destruct (be_bytes 2 port) as [|p [|q [|]]]; try done.
  do 28 (destruct garbage as [|? garbage]; [done|]). destruct garbage; [|done]. reflexivity.
Qed.
End roundtrip.
End inet.

(** 192.168.1.254:8080 on a little-endian host. *)
Definition example_bytes : bytes := [byte_of 192; byte_of 168; byte_of 1; byte_of 254].
Lemma inet4_roundtrip_witness :
  let a := address4 (H := false) example_bytes 8080 (zrep 28 "?"%char) in
  toIpPort (H := false) (λ _, []) 64 a = Ok (Channel.str "192.168.1.254:8080") ∧
  make_ip (H := false) (λ _, None) (Channel.str "192.168.1.254") 8080 false (zrep 28 "?"%char) = Ok a.
Proof.
  intros a. destruct (inet4_roundtrip (H := false) (λ _, []) (λ _, None) example_bytes 8080 (zrep 28 "?"%char))
    as (ip & Hip & _ & Hm & Ht & _); [reflexivity|reflexivity|unfold in_u; lia|].
  fold a in Hip, Hm, Ht. vm_compute in Hip. injection Hip as <-. split; [exact Ht|exact Hm].
Defined.
End InetAddress.
