(* ===== verification/Server.v ===== *)
(** * Passive side ([net/Acceptor.cc], [net/TcpServer.cc])

    [Acceptor] takes connections off the listening socket and keeps a spare
    descriptor for the time when the process has no more; [TcpServer] gives each
    connection a name and a loop, and forgets it when it is closed. *)

From stdpp Require Import gmap.
From S2P Require Import Prelude Endian Format Channel Latch TcpConnection.
Import Format.

Module Acceptor.

(** The process's descriptors and the connections waiting in the kernel. *)
Record Kernel := mkKernel { descriptors : gset Z; limit : nat; backlog : list Z }.

(** A descriptor that is free. *)
Definition fresh_fd (k : Kernel) : Z := fresh (descriptors k).
Definition close (fd : Z) (k : Kernel) : Kernel := mkKernel (descriptors k ∖ {[fd]}) (limit k) (backlog k).
Definition open_null (k : Kernel) : Kernel * Z :=
  if decide (size (descriptors k) < limit k)%nat
  then (mkKernel ({[fresh_fd k]} ∪ descriptors k) (limit k) (backlog k), fresh_fd k) else (k, -1).

Definition EPERM : Z := 1.
Definition EINTR : Z := 4.
Definition EAGAIN : Z := 11.
Definition EMFILE : Z := 24.
Definition EPROTO : Z := 71.
Definition ECONNABORTED : Z := 103.

(** accept(2): the connection, or the error; [failure] is an error that comes from
    elsewhere, such as a signal or a lack of memory. *)
Definition sys_accept (failure : option Z) (k : Kernel) : Kernel * (Z * Z + Z) :=
  match failure, backlog k with
  | Some errno, _ => (k, inr errno)
  | None, [] => (k, inr EAGAIN)
  | None, peer :: rest =>
      if decide (size (descriptors k) < limit k)%nat
      then (mkKernel ({[fresh_fd k]} ∪ descriptors k) (limit k) rest, inl (fresh_fd k, peer))
      else (k, inr EMFILE)
  end.

(** [sockets::accept]: errors nobody expects are fatal. *)
Definition expected_errors : list Z := [EAGAIN; ECONNABORTED; EINTR; EPROTO; EPERM; EMFILE].
Definition accept (failure : option Z) (k : Kernel) : result (Kernel * (Z * Z + Z)) :=
  let '(k, r) := sys_accept failure k in
  match r with
  | inl c => Ok (k, inl c)
  | inr savedErrno =>
      if bool_decide (savedErrno ∈ expected_errors)
      then Ok (k, inr savedErrno) else Fail FatalLog
  end.

Record Acceptor := mkAcceptor {
  acceptSocket_ : Z;
  acceptChannel_ : Channel.Channel;
  listenning_ : bool;
  idleFd_ : Z;
  newConnectionCallback_ : bool     (* is it set? *)
}.

Definition make (sockfd : Z) (k : Kernel) : result (Acceptor * Kernel) :=
  let '(k, idleFd) := open_null k in
  _ ← check (0 <=? idleFd);
  Ok (mkAcceptor sockfd (Channel.setReadCallback (Channel.make sockfd)) false idleFd false, k).
Definition setNewConnectionCallback (a : Acceptor) : Acceptor :=
  mkAcceptor (acceptSocket_ a) (acceptChannel_ a) (listenning_ a) (idleFd_ a) true.
Definition destructor (a : Acceptor) (k : Kernel) : result Kernel :=
  let c := Channel.disableAll (acceptChannel_ a) in
  _ ← check (Channel.isNoneEvent c);
  Ok (close (acceptSocket_ a) (close (idleFd_ a) k)).
Definition listen (listen_ok : bool) (a : Acceptor) : result Acceptor :=
  if listen_ok
  then Ok (mkAcceptor (acceptSocket_ a) (Channel.with_added true (Channel.enableReading (acceptChannel_ a))) true
             (idleFd_ a) (newConnectionCallback_ a))
  else Fail FatalLog.

(** The connection passed to the callback, if any; [failure] and [failure2] are the
    errors of the two calls of accept(2). *)
Definition handleRead (failure failure2 : option Z) (a : Acceptor) (k : Kernel)
  : result (Acceptor * Kernel * option (Z * Z)) :=
  '(k, r) ← accept failure k;
  match r with
  | inl (connfd, peer) =>
      if newConnectionCallback_ a then Ok (a, k, Some (connfd, peer)) else Ok (a, close connfd k, None)
  | inr errno =>
      if errno =? EMFILE then
        let k := close (idleFd_ a) k in
        let '(k, r) := sys_accept failure2 k in
        let k := match r with inl (fd, _) => close fd k | inr _ => k end in
        let '(k, idleFd) := open_null k in
        Ok (mkAcceptor (acceptSocket_ a) (acceptChannel_ a) (listenning_ a) idleFd (newConnectionCallback_ a), k, None)
      else Ok (a, k, None)
  end.

Definition holds_spare (a : Acceptor) (k : Kernel) : Prop :=
  idleFd_ a ∈ descriptors k ∧ (size (descriptors k) ≤ limit k)%nat.

(** With no descriptor left, giving up the spare one makes room for exactly the
    connection that is refused, and the spare one is taken again. *)
Lemma spare_swap spare k peer rest :
  spare ∈ descriptors k → (size (descriptors k) ≤ limit k)%nat → backlog k = peer :: rest →
  ∃ k1 k2 fd, sys_accept None (close spare k) = (k1, inl (fd, peer)) ∧ open_null (close fd k1) = (k2, fresh_fd (close fd k1)) ∧
    fresh_fd (close fd k1) ∈ descriptors k2 ∧ limit k2 = limit k ∧ backlog k2 = rest ∧
    size (descriptors k2) = size (descriptors k).
Proof.
  intros Hin Hsz Hb. set (d := descriptors k ∖ {[spare]}).
  assert (size d = size (descriptors k) - 1)%nat as Hs1.
  { unfold d. rewrite size_difference; [by rewrite size_singleton|set_solver]. }
  assert (0 < size (descriptors k))%nat as Hpos.
  { destruct (size (descriptors k)) eqn:E; [|lia]. apply size_empty_inv in E. set_solver. }
  pose proof (is_fresh d) as Hfr. assert (({[fresh d]} ∪ d) ∖ {[fresh d]} = d) as Hd by set_solver.
  eexists _, _, (fresh d). split.
  - unfold sys_accept, close at 1. cbn [backlog]. rewrite Hb. unfold close. cbn [descriptors limit].
    fold d. rewrite decide_True by lia. done.
  - unfold open_null, close, fresh_fd. cbn [backlog descriptors limit]. fold d. rewrite Hd, decide_True by lia.
    split; [done|]. cbn [backlog descriptors limit]. split_and!; [set_solver|done|done|].
    rewrite size_union, size_singleton; [lia|set_solver].
Qed.

(** Each call takes one connection off the backlog, also when no descriptor is
    left, and keeps the spare descriptor. *)
Lemma handleRead_progress a k :
  newConnectionCallback_ a = true → holds_spare a k →
  ∃ a' k' c, handleRead None None a k = Ok (a', k', c) ∧ holds_spare a' k' ∧ backlog k' = tail (backlog k) ∧ limit k' = limit k ∧
    newConnectionCallback_ a' = true ∧
    if decide (size (descriptors k) < limit k)%nat
    then snd <$> c = head (backlog k) ∧ (∀ fd peer, c = Some (fd, peer) → fd ∉ descriptors k ∧ descriptors k' = {[fd]} ∪ descriptors k)
    else c = None ∧ size (descriptors k') = size (descriptors k).
Proof.
  intros Hcb [Hin Hsz]. unfold handleRead, accept. destruct (backlog k) as [|peer rest] eqn:Hb.
  - assert (sys_accept None k = (k, inr EAGAIN)) as -> by (unfold sys_accept; by rewrite Hb).
    rewrite bool_decide_true by (unfold expected_errors; set_solver). rewrite bind_Ok.
    change (EAGAIN =? EMFILE) with false. exists a, k, None. rewrite Hb. split_and!; try done. destruct (decide _); by split.
  - destruct (decide (size (descriptors k) < limit k)%nat) as [Hlt|Hfull].
    + assert (sys_accept None k = (mkKernel ({[fresh_fd k]} ∪ descriptors k) (limit k) rest, inl (fresh_fd k, peer))) as ->
        by (unfold sys_accept; by rewrite Hb, decide_True).
      rewrite bind_Ok, Hcb. pose proof (is_fresh (descriptors k)) as Hfr. fold (fresh_fd k) in Hfr.
      eexists _, _, _. split; [done|]. cbn [backlog limit descriptors tail head]. split_and!; try done.
      * split; cbn; [set_solver|]. rewrite size_union, size_singleton; [lia|]. set_solver.
      * intros fd p [= <- <-]. done.
    + assert (sys_accept None k = (k, inr EMFILE)) as -> by (unfold sys_accept; by rewrite Hb, decide_False).
      rewrite bool_decide_true by (unfold expected_errors; set_solver). rewrite bind_Ok.
      change (EMFILE =? EMFILE) with true. destruct (spare_swap (idleFd_ a) k peer rest) as (k1 & k2 & fd & -> & E & Hc & Hl & Hbk & Hsz2); try done.
      cbn iota. rewrite E. eexists _, _, None. split; [done|]. cbn [tail]. split_and!; try done.
      split; [by cbn|]. lia.
Qed.

(** An error of accept(2) leaves everything as it was when it is one of the
    expected ones, and ends the program otherwise. *)
Lemma handleRead_failure errno again a k :
  errno ≠ EMFILE →
  handleRead (Some errno) again a k = if bool_decide (errno ∈ expected_errors) then Ok (a, k, None) else Fail FatalLog.
Proof.
  intros Hne. unfold handleRead, accept. cbn [sys_accept]. destruct (bool_decide _); [|done].
  rewrite bind_Ok, (proj2 (Z.eqb_neq _ _)); done.
Qed.

End Acceptor.

Module TcpServer.
Import TcpConnection(StateE, kDisconnected, kConnecting, kConnected, kDisconnecting).

(** A connection as the server deals with it: its state, and whether its channel
    is in its loop's poller. *)
Record Connection := mkConnection {
  conn_name : bytes;
  conn_loop : Z;
  conn_fd : Z;
  conn_state : StateE;
  conn_polled : bool
}.

(** The functors the server leaves in loops; connections are numbered in the order of
    their creation. *)
Inductive task :=
  | ConnectEstablished (c : nat)
  | RemoveConnectionInLoop (c : nat)
  | ConnectDestroyed (c : nat).
Definition task_conn (t : task) : nat :=
  match t with ConnectEstablished c | RemoveConnectionInLoop c | ConnectDestroyed c => c end.

Record Server := mkServer {
  loop_ : Z;
  ipPort_ : bytes;
  name_ : bytes;
  threadPool_ : EventLoopThreadPool.pool;
  started_ : bool;
  listenning : bool;
  nextConnId_ : Z;
  connections_ : gmap bytes nat
}.

Definition with_connections (m : gmap bytes nat) (s : Server) : Server :=
  mkServer (loop_ s) (ipPort_ s) (name_ s) (threadPool_ s) (started_ s) (listenning s) (nextConnId_ s) m.

(** [queues]: the functors waiting in all loops, each with its loop, in the order they
    were queued. *)
Record World := mkWorld { server : Server; objects : list Connection; queues : list (Z * task) }.

Definition make (loop : Z) (ipPort nameArg : bytes) : Server :=
  mkServer loop ipPort nameArg (EventLoopThreadPool.make loop nameArg) false false 1 ∅.

Definition setThreadNum (numThreads : Z) (s : Server) : result Server :=
  _ ← check (0 <=? numThreads);
  Ok (mkServer (loop_ s) (ipPort_ s) (name_ s) (EventLoopThreadPool.setThreadNum numThreads (threadPool_ s))
        (started_ s) (listenning s) (nextConnId_ s) (connections_ s)).

(** Called in the acceptor loop's thread: [Acceptor::listen] runs at once. *)
Definition start (startLoop : Z → Z) (s : Server) : result Server :=
  if started_ s then Ok s else
    p ← EventLoopThreadPool.start true startLoop (threadPool_ s);
    _ ← check (negb (listenning s));
    Ok (mkServer (loop_ s) (ipPort_ s) (name_ s) p true true (nextConnId_ s) (connections_ s)).

Definition connName (s : Server) : bytes :=
  name_ s ++ snprintf 64 ("-"%char :: ipPort_ s ++ "#"%char :: dec (nextConnId_ s)).

Definition with_object (c : nat) (f : Connection → result Connection) (w : World) : result World :=
  match objects w !! c with
  | Some o => o ← f o; Ok (mkWorld (server w) (<[c := o]> (objects w)) (queues w))
  | None => Fail OutOfRange
  end.
Definition queueInLoop (l : Z) (t : task) (w : World) : World :=
  mkWorld (server w) (objects w) (queues w ++ [(l, t)]).

(** What [TcpConnection::connectEstablished] and [connectDestroyed] do to the state
    and the channel. *)
Definition established (o : Connection) : result Connection :=
  _ ← check (bool_decide (conn_state o = kConnecting));
  Ok (mkConnection (conn_name o) (conn_loop o) (conn_fd o) kConnected true).
Definition destroyed (o : Connection) : result Connection :=
  let st := if bool_decide (conn_state o = kConnected) then kDisconnected else conn_state o in
  _ ← check (conn_polled o);
  Ok (mkConnection (conn_name o) (conn_loop o) (conn_fd o) st false).

Definition removeConnectionInLoop (c : nat) (w : World) : result World :=
  match objects w !! c with
  | None => Fail OutOfRange
  | Some o =>
      let s := server w in
      _ ← check (bool_decide (is_Some (connections_ s !! conn_name o)));
      let s := with_connections (delete (conn_name o) (connections_ s)) s in
      Ok (queueInLoop (conn_loop o) (ConnectDestroyed c) (mkWorld s (objects w) (queues w)))
  end.

Definition run_task (t : task) (w : World) : result World :=
  match t with
  | ConnectEstablished c => with_object c established w
  | RemoveConnectionInLoop c => removeConnectionInLoop c w
  | ConnectDestroyed c => with_object c destroyed w
  end.

(** [EventLoop::runInLoop], called in the thread of the loop [here]. *)
Definition runInLoop (here l : Z) (t : task) (w : World) : result World :=
  if here =? l then run_task t w else Ok (queueInLoop l t w).

Definition newConnection (sockfd : Z) (w : World) : result World :=
  let s := server w in
  '(ioLoop, p) ← EventLoopThreadPool.getNextLoop true (threadPool_ s);
  let name := connName s in
  if nextConnId_ s <? 2 ^ 31 - 1 then
    let c := length (objects w) in
    let s := mkServer (loop_ s) (ipPort_ s) (name_ s) p (started_ s) (listenning s) (nextConnId_ s + 1)
               (<[name := c]> (connections_ s)) in
    runInLoop (loop_ s) ioLoop (ConnectEstablished c)
      (mkWorld s (objects w ++ [mkConnection name ioLoop sockfd kConnecting false]) (queues w))
  else Fail SignedOverflow.

Definition removeConnection (here : Z) (c : nat) (w : World) : result World :=
  runInLoop here (loop_ (server w)) (RemoveConnectionInLoop c) w.

(** The connection is closed, in its loop's thread: [TcpConnection::handleClose] and
    its close callback. *)
Definition handleClose (c : nat) (w : World) : result World :=
  match objects w !! c with
  | None => Fail OutOfRange
  | Some o =>
      _ ← check (bool_decide (conn_state o = kConnected) || bool_decide (conn_state o = kDisconnecting));
      w ← with_object c (λ o, Ok (mkConnection (conn_name o) (conn_loop o) (conn_fd o) kDisconnected (conn_polled o))) w;
      removeConnection (conn_loop o) c w
  end.

Definition shutdown (c : nat) (w : World) : result World :=
  with_object c (λ o, Ok (if bool_decide (conn_state o = kConnected)
                          then mkConnection (conn_name o) (conn_loop o) (conn_fd o) kDisconnecting (conn_polled o)
                          else o)) w.

(** [~TcpServer], in the acceptor loop's thread. *)
Fixpoint destroy_all (cs : list nat) (w : World) : result World :=
  match cs with
  | [] => Ok w
  | c :: cs =>
      match objects w !! c with
      | None => Fail OutOfRange
      | Some o => w ← runInLoop (loop_ (server w)) (conn_loop o) (ConnectDestroyed c) w; destroy_all cs w
      end
  end.
Definition destructor (w : World) : result World :=
  destroy_all ((map_to_list (connections_ (server w))).*2) w.

(** The head of a loop's queue. *)
Definition next_task (l : Z) (q : list (Z * task)) (t : task) (q' : list (Z * task)) : Prop :=
  ∃ q1 q2, q = q1 ++ (l, t) :: q2 ∧ q' = q1 ++ q2 ∧ Forall (λ e, e.1 ≠ l) q1.

(** What can happen while the server exists: the calls of [start], an accepted
    connection, the close of an open connection, [shutdown] by the user, and a loop
    that runs its next functor. *)
Inductive server_step (startLoop : Z → Z) (w : World) : result World → Prop :=
  | Start : server_step startLoop w (s ← start startLoop (server w); Ok (mkWorld s (objects w) (queues w)))
  | Accepted sockfd : started_ (server w) = true → server_step startLoop w (newConnection sockfd w)
  | Closed c o : objects w !! c = Some o → conn_state o = kConnected ∨ conn_state o = kDisconnecting →
      server_step startLoop w (handleClose c w)
  | Shutdown c o : objects w !! c = Some o → server_step startLoop w (shutdown c w)
  | RunTask l t q : next_task l (queues w) t q →
      server_step startLoop w (run_task t (mkWorld (server w) (objects w) q)).

Inductive reachable (startLoop : Z → Z) (s0 : Server) : World → Prop :=
  | Initial : reachable startLoop s0 (mkWorld s0 [] [])
  | Next w w' : reachable startLoop s0 w → server_step startLoop w (Ok w') → reachable startLoop s0 w'.

(** ** Names *)

Lemma digits_inj i j : 0 ≤ i → 0 ≤ j → digits i = digits j → i = j.
Proof. intros Hi Hj E. rewrite <- (digits_read i), <- (digits_read j) by done. by rewrite E. Qed.

Definition id_name (name ipPort : bytes) (id : Z) : bytes := name ++ "-"%char :: ipPort ++ "#"%char :: dec id.

Lemma dec_digits z : 0 ≤ z → dec z = digits z.
Proof. intros. unfold dec. destruct (Z.ltb_spec z 0); [lia|done]. Qed.

Lemma id_name_inj name ipPort i j : 0 ≤ i → 0 ≤ j → id_name name ipPort i = id_name name ipPort j → i = j.
Proof.
  intros Hi Hj E. unfold id_name in E. apply app_inv_head in E. injection E as E. apply app_inv_head in E.
  injection E as E. rewrite !dec_digits in E by done. by apply digits_inj.
Qed.

(** The 64 bytes of [buf] hold the longest address and the longest number. *)
Lemma connName_exact s :
  zlen (ipPort_ s) ≤ 51 → 1 ≤ nextConnId_ s < 2 ^ 31 → connName s = id_name (name_ s) (ipPort_ s) (nextConnId_ s).
Proof.
  intros Hip Hid. unfold connName, id_name, snprintf. f_equal. apply ztake_all.
  rewrite dec_digits by lia. pose proof (digits_length (nextConnId_ s) 10) as Hd.
  rewrite zlen_cons, zlen_app, zlen_cons. change (10 ^ Z.of_nat 10) with 10000000000 in Hd. lia.
Qed.

(** ** The functors of one connection *)

Definition conn_tasks (i : nat) (q : list (Z * task)) : list (Z * task) := filter (λ e, task_conn e.2 = i) q.

#[local] Arguments conn_tasks : simpl never.

Lemma conn_tasks_snoc_eq i q l t : task_conn t = i → conn_tasks i (q ++ [(l, t)]) = conn_tasks i q ++ [(l, t)].
Proof. intros E. unfold conn_tasks. by rewrite filter_app, filter_cons_True, filter_nil. Qed.
Lemma conn_tasks_snoc_ne i q l t : task_conn t ≠ i → conn_tasks i (q ++ [(l, t)]) = conn_tasks i q.
Proof. intros E. unfold conn_tasks. by rewrite filter_app, filter_cons_False, filter_nil, app_nil_r. Qed.

Lemma next_task_conn l q t q' i :
  next_task l q t q' →
  if decide (task_conn t = i)
  then ∃ pre post, conn_tasks i q = pre ++ (l, t) :: post ∧ conn_tasks i q' = pre ++ post
  else conn_tasks i q' = conn_tasks i q.
Proof.
  intros (q1 & q2 & -> & -> & _). unfold conn_tasks. destruct (decide (task_conn t = i)) as [E|E].
  - exists (filter (λ e, task_conn e.2 = i) q1), (filter (λ e, task_conn e.2 = i) q2).
    by rewrite !filter_app, filter_cons_True.
  - by rewrite !filter_app, filter_cons_False.
Qed.

Lemma next_task_Forall (P : Z * task → Prop) l q t q' : next_task l q t q' → Forall P q → P (l, t) ∧ Forall P q'.
Proof.
  intros (q1 & q2 & -> & -> & _) H. apply Forall_app in H as [H1 H2]. apply Forall_cons_1 in H2 as [H2 H3].
  split; [done|]. by apply Forall_app.
Qed.

(** ** Threads *)

Section Fleet.
Context (startLoop : Z → Z) (base n : Z) (name ipPort : bytes).

(** The loop of the k-th connection. *)
Definition loop_for (k : Z) : Z := if n =? 0 then base else startLoop (k mod n).
Definition pool_at (k : Z) : EventLoopThreadPool.pool :=
  EventLoopThreadPool.mkPool base name true n (if n =? 0 then 0 else k mod n)
    ((λ i, startLoop (Z.of_nat i)) <$> seq 0 (Z.to_nat n)).

Lemma getNextLoop_at k : 0 ≤ n → 0 ≤ k → EventLoopThreadPool.getNextLoop true (pool_at k) = Ok (loop_for k, pool_at (k + 1)).
Proof.
  intros Hn Hk. unfold EventLoopThreadPool.getNextLoop, pool_at, loop_for. cbn [EventLoopThreadPool.loops_ EventLoopThreadPool.started_ EventLoopThreadPool.next_ EventLoopThreadPool.baseLoop_ EventLoopThreadPool.name_ EventLoopThreadPool.numThreads_].
  rewrite check_true, bind_Ok by done. destruct (Z.eqb_spec n 0) as [->|Hnz]; [done|].
  set (loops := (λ i, startLoop (Z.of_nat i)) <$> seq 0 (Z.to_nat n)).
  assert (zlen loops = n) as Hlen by (unfold zlen, loops; rewrite length_fmap, length_seq; lia).
  pose proof (Z.mod_pos_bound k n ltac:(lia)) as Hm.
  assert (loops !! Z.to_nat (k mod n) = Some (startLoop (k mod n))) as Hl.
  { unfold loops. rewrite list_lookup_fmap, lookup_seq_lt by lia. cbn [fmap option_fmap option_map]. do 2 f_equal. lia. }
  destruct loops as [|x ls] eqn:El; [done|]. rewrite <- El in *. rewrite Hl, Hlen. do 3 f_equal.
  rewrite <- (Zplus_mod_idemp_l k 1 n). destruct (Z.leb_spec n (k mod n + 1)).
  - replace (k mod n + 1) with n by lia. by rewrite Z.mod_same by lia.
  - by rewrite (Z.mod_small (k mod n + 1)) by lia.
Qed.

(** ** Invariant *)

Definition conn_ok (w : World) (i : nat) (o : Connection) : Prop :=
  let ts := conn_tasks i (queues w) in
  let tracked := connections_ (server w) !! conn_name o in
  match conn_state o with
  | kConnecting => conn_polled o = false ∧ ts = [(conn_loop o, ConnectEstablished i)] ∧ tracked = Some i
  | kConnected | kDisconnecting => conn_polled o = true ∧ ts = [] ∧ tracked = Some i
  | kDisconnected =>
      (conn_polled o = true ∧ ts = [(base, RemoveConnectionInLoop i)] ∧ tracked = Some i) ∨
      (conn_polled o = true ∧ ts = [(conn_loop o, ConnectDestroyed i)] ∧ tracked = None) ∨
      (conn_polled o = false ∧ ts = [] ∧ tracked = None)
  end.

Record srv_inv (w : World) : Prop := {
  inv_const : loop_ (server w) = base ∧ ipPort_ (server w) = ipPort ∧ name_ (server w) = name;
  inv_next : nextConnId_ (server w) = zlen (objects w) + 1 ∧ nextConnId_ (server w) < 2 ^ 31;
  inv_pool : if started_ (server w) then threadPool_ (server w) = pool_at (zlen (objects w))
             else threadPool_ (server w) = EventLoopThreadPool.setThreadNum n (EventLoopThreadPool.make base name) ∧
               objects w = [] ∧ listenning (server w) = false;
  inv_object : ∀ i o, objects w !! i = Some o →
    conn_name o = id_name name ipPort (Z.of_nat i + 1) ∧ conn_loop o = loop_for (Z.of_nat i) ∧ conn_ok w i o;
  inv_map : ∀ k i, connections_ (server w) !! k = Some i → ∃ o, objects w !! i = Some o ∧ conn_name o = k;
  inv_queue : Forall (λ e, (task_conn e.2 < length (objects w))%nat) (queues w)
}.

Lemma inv_names w i j o o' :
  srv_inv w → objects w !! i = Some o → objects w !! j = Some o' → conn_name o = conn_name o' → i = j.
Proof.
  intros H Hi Hj E. destruct (inv_object _ H _ _ Hi) as [E1 _]. destruct (inv_object _ H _ _ Hj) as [E2 _].
  rewrite E1, E2 in E. apply id_name_inj in E; lia.
Qed.

(** One connection changes: its record, its functors, perhaps its entry in the map. *)
Lemma update_conn_inv w i o o' m q :
  srv_inv w → objects w !! i = Some o → conn_name o' = conn_name o → conn_loop o' = conn_loop o →
  m = connections_ (server w) ∨ m = delete (conn_name o) (connections_ (server w)) →
  (∀ j, j ≠ i → conn_tasks j q = conn_tasks j (queues w)) →
  Forall (λ e, (task_conn e.2 < length (objects w))%nat) q →
  let w' := mkWorld (with_connections m (server w)) (<[i := o']> (objects w)) q in
  conn_ok w' i o' → srv_inv w'.
Proof.
  intros H Hi Hn Hl Hm Hq Hf w' Hok. pose proof (lookup_lt_Some _ _ _ Hi) as Hlt.
  assert (∀ k j, k ≠ conn_name o → m !! k = Some j ↔ connections_ (server w) !! k = Some j) as Hlk.
  { intros k j Hk. destruct Hm as [->| ->]; [done|]. by rewrite lookup_delete_ne. }
  split; cbn [w' server objects queues with_connections loop_ ipPort_ name_ nextConnId_ started_ threadPool_ listenning connections_].
  - apply H.
  - unfold zlen. rewrite length_insert. apply H.
  - pose proof (inv_pool _ H) as Hp. unfold zlen. rewrite length_insert. destruct (started_ _); [done|].
    destruct Hp as (_ & E & _). by rewrite E in Hi.
  - intros j oj Hj. destruct (decide (j = i)) as [->|Hne].
    + rewrite list_lookup_insert_eq in Hj by done. injection Hj as <-. rewrite Hn, Hl.
      destruct (inv_object _ H _ _ Hi) as (? & ? & _). done.
    + rewrite list_lookup_insert_ne in Hj by done. destruct (inv_object _ H _ _ Hj) as (E1 & E2 & Hj2).
      split_and!; [done..|]. unfold conn_ok, w' in *. cbn [server objects queues connections_ with_connections] in *.
      rewrite (Hq j Hne). replace (m !! conn_name oj) with (connections_ (server w) !! conn_name oj); [done|].
      destruct Hm as [->| ->]; [done|]. rewrite lookup_delete_ne; [done|]. intros E. apply Hne.
      by eapply inv_names.
  - intros k j Hk. assert (connections_ (server w) !! k = Some j) as Hk'.
    { destruct Hm as [->| ->]; [done|]. by apply lookup_delete_Some in Hk as [_ Hk]. }
    destruct (inv_map _ H _ _ Hk') as (oj & Hj & E). destruct (decide (j = i)) as [->|Hne].
    + exists o'. rewrite list_lookup_insert_eq by done. split; [done|]. rewrite Hn. congruence.
    + exists oj. by rewrite list_lookup_insert_ne by done.
  - eapply Forall_impl; [exact Hf|]. intros e. by rewrite length_insert.
Qed.

Lemma with_connections_id s : with_connections (connections_ s) s = s.
Proof. by destruct s. Qed.

Lemma with_object_Some c o f o' w :
  objects w !! c = Some o → f o = Ok o' → with_object c f w = Ok (mkWorld (server w) (<[c := o']> (objects w)) (queues w)).
Proof. intros Hc E. unfold with_object. by rewrite Hc, E. Qed.

(** Only the record of a connection changes. *)
Lemma update_object_inv w i o o' q :
  srv_inv w → objects w !! i = Some o → conn_name o' = conn_name o → conn_loop o' = conn_loop o →
  (∀ j, j ≠ i → conn_tasks j q = conn_tasks j (queues w)) →
  Forall (λ e, (task_conn e.2 < length (objects w))%nat) q →
  let w' := mkWorld (server w) (<[i := o']> (objects w)) q in
  conn_ok w' i o' → srv_inv w'.
Proof.
  intros H Hi Hn Hl Hq Hf. rewrite <- (with_connections_id (server w)). intros Hok.
  eapply update_conn_inv; eauto.
Qed.

Lemma queue_snoc w l t :
  srv_inv w → (task_conn t < length (objects w))%nat →
  Forall (λ e, (task_conn e.2 < length (objects w))%nat) (queues w ++ [(l, t)]).
Proof. intros H Ht. apply Forall_app. split; [apply H|]. by apply Forall_singleton. Qed.

Lemma close_server_inv w c o :
  srv_inv w → objects w !! c = Some o → conn_state o = kConnected ∨ conn_state o = kDisconnecting →
  ∃ w', handleClose c w = Ok w' ∧ srv_inv w'.
Proof.
  intros H Hc Hs. pose proof (lookup_lt_Some _ _ _ Hc) as Hlt.
  assert (conn_polled o = true ∧ conn_tasks c (queues w) = [] ∧ connections_ (server w) !! conn_name o = Some c) as (Hp & Ht & Hm).
  { destruct (inv_object _ H _ _ Hc) as (_ & _ & Hk). unfold conn_ok in Hk. by destruct Hs as [E|E]; rewrite E in Hk. }
  unfold handleClose. rewrite Hc, check_true, bind_Ok by (destruct Hs as [->| ->]; done).
  erewrite with_object_Some by done. rewrite bind_Ok. unfold removeConnection, runInLoop. cbn [server].
  destruct (inv_const _ H) as [-> _]. set (o' := mkConnection _ _ _ _ _). destruct (Z.eqb_spec (conn_loop o) base) as [E|E].
  - cbn [run_task]. unfold removeConnectionInLoop. cbn [objects server queues]. rewrite list_lookup_insert_eq by done.
    cbn [conn_name conn_loop o']. rewrite check_true, bind_Ok by (apply bool_decide_eq_true; by rewrite Hm).
    eexists. split; [done|]. unfold queueInLoop. cbn [server objects queues]. eapply update_conn_inv; eauto.
    + intros j Hj. apply conn_tasks_snoc_ne. by cbn.
    + by apply queue_snoc.
    + unfold conn_ok. cbn. rewrite conn_tasks_snoc_eq, Ht, lookup_delete_eq by done. auto.
  - eexists. split; [done|]. unfold queueInLoop. cbn [server objects queues]. eapply update_object_inv; eauto.
    + intros j Hj. apply conn_tasks_snoc_ne. by cbn.
    + by apply queue_snoc.
    + unfold conn_ok. cbn. rewrite conn_tasks_snoc_eq, Ht by done. auto.
Qed.

Lemma shutdown_server_inv w c o :
  srv_inv w → objects w !! c = Some o → ∃ w', shutdown c w = Ok w' ∧ srv_inv w'.
Proof.
  intros H Hc. unfold shutdown. erewrite with_object_Some by done. eexists. split; [done|].
  destruct (inv_object _ H _ _ Hc) as (_ & _ & Hk). eapply update_object_inv; eauto.
  - by case_bool_decide.
  - by case_bool_decide.
  - apply H.
  - unfold conn_ok in *. cbn [server queues]. case_bool_decide as E; [|done]. rewrite E in Hk. by cbn.
Qed.

Lemma run_task_inv w l t q :
  srv_inv w → next_task l (queues w) t q →
  ∃ w', run_task t (mkWorld (server w) (objects w) q) = Ok w' ∧ srv_inv w'.
Proof.
  intros H Hn. destruct (next_task_Forall _ _ _ _ _ Hn (inv_queue _ H)) as [Hlt Hf]. cbn in Hlt.
  destruct (lookup_lt_is_Some_2 _ _ Hlt) as [o Ho]. destruct (inv_object _ H _ _ Ho) as (_ & _ & Hk).
  assert (∀ j, j ≠ task_conn t → conn_tasks j q = conn_tasks j (queues w)) as Hoth.
  { intros j Hj. pose proof (next_task_conn _ _ _ _ j Hn) as E. by rewrite decide_False in E by done. }
  assert (conn_tasks (task_conn t) (queues w) ≠ [] ∧
    ∀ e, conn_tasks (task_conn t) (queues w) = [e] → e = (l, t) ∧ conn_tasks (task_conn t) q = []) as [Hne Hone].
  { pose proof (next_task_conn _ _ _ _ (task_conn t) Hn) as E. rewrite decide_True in E by done.
    destruct E as (pre & post & E1 & E2). rewrite E1, E2. split; [by destruct pre|].
    intros e E. destruct pre as [|? [|]], post; try discriminate E. by injection E as <-. }
  unfold conn_ok in Hk. destruct t as [c|c|c]; cbn [task_conn run_task] in *.
  - destruct (conn_state o) eqn:Es; try (destruct Hk as (_ & E & _); congruence).
    { destruct Hk as [(_ & E & _)|[(_ & E & _)|(_ & E & _)]]; apply Hone in E || congruence; destruct E; congruence. }
    destruct Hk as (Hp & E & Hm). destruct (Hone _ E) as [_ Eq].
    erewrite with_object_Some; [|done|unfold established; by rewrite check_true by (by apply bool_decide_eq_true)].
    eexists. split; [done|]. cbn [server objects queues]. eapply (update_object_inv w); eauto. unfold conn_ok. cbn. by rewrite Eq.
  - destruct (conn_state o) eqn:Es; try (destruct Hk as (_ & E & _); (apply Hone in E; destruct E; congruence) || congruence).
    destruct Hk as [(Hp & E & Hm)|[(_ & E & _)|(_ & E & _)]]; [|apply Hone in E; destruct E; congruence|congruence].
    destruct (Hone _ E) as [_ Eq]. unfold removeConnectionInLoop. cbn [objects server queues]. rewrite Ho.
    rewrite check_true, bind_Ok by (apply bool_decide_eq_true; by rewrite Hm).
    eexists. split; [done|]. unfold queueInLoop. cbn [server objects queues].
    rewrite <- (list_insert_id (objects w) c o) at 1 by done. eapply (update_conn_inv w); eauto.
    + intros j Hj. rewrite conn_tasks_snoc_ne by (by cbn). by apply Hoth.
    + apply Forall_app. split; [done|]. by apply Forall_singleton.
    + unfold conn_ok. cbn. rewrite Es, conn_tasks_snoc_eq, Eq, lookup_delete_eq by done. auto.
  - destruct (conn_state o) eqn:Es; try (destruct Hk as (_ & E & _); (apply Hone in E; destruct E; congruence) || congruence).
    destruct Hk as [(_ & E & _)|[(Hp & E & Hm)|(_ & E & _)]]; [apply Hone in E; destruct E; congruence| |congruence].
    destruct (Hone _ E) as [_ Eq].
    erewrite with_object_Some; [|done|unfold destroyed; by rewrite check_true by done].
    eexists. split; [done|]. cbn [server objects queues]. rewrite Es, bool_decide_false by done. eapply (update_object_inv w); eauto. unfold conn_ok. cbn. rewrite Eq. auto.
Qed.

Hypothesis Hip : zlen ipPort ≤ 51.
Hypothesis Hthreads : 0 ≤ n.

(** A connection is added: the others keep their entries, functors and loops. *)
Lemma inv_extend w o p q m :
  srv_inv w → started_ (server w) = true → nextConnId_ (server w) < 2 ^ 31 - 1 →
  let i := length (objects w) in
  conn_name o = id_name name ipPort (Z.of_nat i + 1) → conn_loop o = loop_for (Z.of_nat i) →
  p = pool_at (zlen (objects w) + 1) → m = <[conn_name o := i]> (connections_ (server w)) →
  (∀ j, j ≠ i → conn_tasks j q = conn_tasks j (queues w)) →
  Forall (λ e, (task_conn e.2 < S i)%nat) q →
  let s := server w in
  let w' := mkWorld (mkServer (loop_ s) (ipPort_ s) (name_ s) p (started_ s) (listenning s) (nextConnId_ s + 1) m)
              (objects w ++ [o]) q in
  conn_ok w' i o → srv_inv w'.
Proof.
  intros H Hst Hid i Hn Hl -> -> Hq Hf s w' Hok. destruct (inv_next _ H) as [En Hlt].
  assert (∀ j oj, objects w !! j = Some oj → conn_name oj ≠ conn_name o) as Hfresh.
  { intros j oj Hj E. destruct (inv_object _ H _ _ Hj) as [E1 _]. rewrite E1, Hn in E. apply id_name_inj in E; [|lia..].
    apply lookup_lt_Some in Hj. unfold i in E. lia. }
  split; cbn [w' server objects queues loop_ ipPort_ name_ nextConnId_ started_ threadPool_ listenning connections_].
  - apply H.
  - rewrite zlen_app, zlen_cons, zlen_nil. unfold s. lia.
  - unfold s. rewrite Hst, zlen_app. done.
  - intros j oj Hj. apply lookup_app_Some in Hj as [Hj|[Hge Hj]].
    + destruct (inv_object _ H _ _ Hj) as (E1 & E2 & Hk). split_and!; [done..|]. unfold conn_ok, w' in *.
      cbn [server queues connections_] in *. rewrite Hq by (apply lookup_lt_Some in Hj; unfold i; lia).
      by rewrite lookup_insert_ne by (apply not_eq_sym; eapply Hfresh; done).
    + apply list_lookup_singleton_Some in Hj as [Ej <-]. assert (j = i) as -> by (unfold i; lia). done.
  - intros k j Hk. apply lookup_insert_Some in Hk as [[<- <-]|[Hne Hk]].
    + exists o. split; [|done]. by rewrite lookup_app_r, Nat.sub_diag by done.
    + destruct (inv_map _ H _ _ Hk) as (oj & Hj & E). exists oj. by rewrite (lookup_app_l_Some _ _ _ _ Hj).
  - eapply Forall_impl; [exact Hf|]. intros e. rewrite length_app. cbn. fold i. lia.
Qed.

Lemma newConnection_inv w sockfd :
  srv_inv w → started_ (server w) = true → nextConnId_ (server w) < 2 ^ 31 - 1 →
  ∃ w', newConnection sockfd w = Ok w' ∧ srv_inv w'.
Proof.
  intros H Hst Hid. destruct (inv_next _ H) as [En _]. pose proof (inv_pool _ H) as Hp. rewrite Hst in Hp.
  destruct (inv_const _ H) as (Eb & Ei & Ename). pose proof (zlen_nonneg (objects w)) as Hpos.
  unfold newConnection. rewrite Hp, getNextLoop_at, bind_Ok by done.
  rewrite (proj2 (Z.ltb_lt _ _)) by done. 
  assert (connName (server w) = id_name name ipPort (zlen (objects w) + 1)) as Hname.
  { rewrite connName_exact by (rewrite ?Ei; lia). by rewrite Ename, Ei, En. }
  set (i := length (objects w)). assert (conn_tasks i (queues w) = []) as Hnone.
  { unfold conn_tasks. pose proof (inv_queue _ H) as Hq. induction Hq as [|e q He _ IH]; [done|].
    rewrite filter_cons_False; [done|]. fold i in He. lia. }
  assert (Forall (λ e, (task_conn e.2 < S i)%nat) (queues w)) as Hq.
  { eapply Forall_impl; [apply H|]. intros e. fold i. cbn. lia. }
  unfold runInLoop. cbn [loop_]. destruct (Z.eqb_spec (loop_ (server w)) (loop_for (zlen (objects w)))) as [El|El].
  - cbn [run_task]. erewrite with_object_Some.
    2:{ cbn [objects]. by rewrite lookup_app_r, Nat.sub_diag by done. }
    2:{ unfold established. by rewrite check_true by done. }
    eexists. split; [done|]. cbn [server objects queues conn_name conn_loop conn_fd].
    rewrite insert_app_r_alt, Nat.sub_diag by done. cbn [list_insert insert].
    eapply inv_extend; eauto. fold i. unfold conn_ok. cbn. by rewrite Hnone, lookup_insert_eq.
  - eexists. split; [done|]. unfold queueInLoop. cbn [server objects queues]. eapply inv_extend; eauto; fold i.
    + intros j Hj. apply conn_tasks_snoc_ne. by cbn.
    + apply Forall_app. split; [done|]. apply Forall_singleton. cbn. lia.
    + unfold conn_ok. cbn. by rewrite conn_tasks_snoc_eq, Hnone, lookup_insert_eq.
Qed.

Lemma start_inv w :
  srv_inv w → ∃ s, start startLoop (server w) = Ok s ∧ srv_inv (mkWorld s (objects w) (queues w)).
Proof.
  intros H. unfold start. destruct (started_ (server w)) eqn:Hst.
  { exists (server w). split; [done|]. by destruct w. }
  pose proof (inv_pool _ H) as Hp. rewrite Hst in Hp. destruct Hp as (-> & Ho & ->).
  unfold EventLoopThreadPool.start. cbn. eexists. split; [done|]. destruct H as [H1 H2 _ H4 H5 H6].
  split; cbn; try done. rewrite Ho. unfold pool_at. f_equal. destruct (Z.eqb_spec n 0); [done|].
  by rewrite Zmod_0_l.
Qed.

Lemma server_step_inv w r :
  srv_inv w → server_step startLoop w r →
  (r = Fail SignedOverflow ∧ ¬ nextConnId_ (server w) < 2 ^ 31 - 1) ∨ ∃ w', r = Ok w' ∧ srv_inv w'.
Proof.
  intros H Hs. destruct Hs as [|sockfd Hst|c o Hc Ho|c o Hc|l t q Hn].
  - right. destruct (start_inv w H) as (s & -> & Hi). rewrite bind_Ok. eauto.
  - destruct (decide (nextConnId_ (server w) < 2 ^ 31 - 1)) as [Hlt|Hge]; [right; by apply newConnection_inv|].
    left. split; [|done]. pose proof (inv_pool _ H) as Hp. rewrite Hst in Hp. pose proof (zlen_nonneg (objects w)).
    unfold newConnection. rewrite Hp, getNextLoop_at, bind_Ok by done. by rewrite (proj2 (Z.ltb_ge _ _)) by lia.
  - right. by eapply close_server_inv.
  - right. by eapply shutdown_server_inv.
  - right. by eapply run_task_inv.
Qed.

Lemma reachable_inv s0 w :
  setThreadNum n (make base ipPort name) = Ok s0 → reachable startLoop s0 w → srv_inv w.
Proof.
  intros E Hr. unfold setThreadNum in E. rewrite check_true, bind_Ok in E by (by apply Z.leb_le). injection E as <-.
  induction Hr as [|w w' Hr IH Hs].
  - split; cbn; try done.
  - destruct (server_step_inv _ _ IH Hs) as [[E _]|(w2 & [= <-] & Hi)]; done.
Qed.

(** The map holds the connections that are not closed, and those whose removal is on
    its way. *)
Lemma tracked_iff w k i :
  srv_inv w →
  connections_ (server w) !! k = Some i ↔
  ∃ o, objects w !! i = Some o ∧ conn_name o = k ∧
    (conn_state o ≠ kDisconnected ∨ (base, RemoveConnectionInLoop i) ∈ queues w).
Proof.
  intros H. split.
  - intros Hk. destruct (inv_map _ H _ _ Hk) as (o & Ho & <-). exists o. split_and!; [done..|].
    destruct (inv_object _ H _ _ Ho) as (_ & _ & Hok). unfold conn_ok in Hok.
    destruct (conn_state o); try (by left). right. rewrite Hk in Hok.
    destruct Hok as [(_ & E & _)|[(_ & _ & E)|(_ & _ & E)]]; [|done..].
    apply (list_elem_of_filter (λ e, task_conn e.2 = i)). fold (conn_tasks i (queues w)). rewrite E. apply list_elem_of_singleton. done.
  - intros (o & Ho & <- & Hc). destruct (inv_object _ H _ _ Ho) as (_ & _ & Hok). unfold conn_ok in Hok.
    destruct (conn_state o); try (by destruct Hok as (_ & _ & ?)). destruct Hc as [Hc|Hc]; [done|].
    assert ((base, RemoveConnectionInLoop i) ∈ conn_tasks i (queues w)) as Hin by (by apply list_elem_of_filter).
    destruct Hok as [(_ & _ & ?)|[(_ & E & _)|(_ & E & _)]]; [done|rewrite E in Hin; set_solver..].
Qed.

End Fleet.

(** C18: Whatever the order in which connections are accepted, closed and shut down and in
    which the loops run their functors, none of the server's assertions and none
    of the connections' fails. [connections_] maps a name to a connection exactly when
    the connection has that name and is open or its removal is still queued in the
    acceptor's loop; the names are distinct and are never cut by [snprintf]; the i-th
    connection belongs to the loop of thread [i mod n]; and when no functor is waiting
    every closed connection has been taken out of its poller, once. The number of
    connections is bounded only by the [int] that numbers them. *)
Theorem server_tracks startLoop base n ipPort name s0 w :
  zlen ipPort ≤ 51 → 0 ≤ n → setThreadNum n (make base ipPort name) = Ok s0 → reachable startLoop s0 w →
  (∀ k i, connections_ (server w) !! k = Some i ↔
     ∃ o, objects w !! i = Some o ∧ conn_name o = k ∧
       (conn_state o ≠ kDisconnected ∨ (base, RemoveConnectionInLoop i) ∈ queues w)) ∧
  (∀ i o, objects w !! i = Some o →
     conn_name o = name ++ "-"%char :: ipPort ++ "#"%char :: dec (Z.of_nat i + 1) ∧
     conn_loop o = (if n =? 0 then base else startLoop (Z.of_nat i mod n)) ∧
     (queues w = [] → conn_polled o = bool_decide (conn_state o ≠ kDisconnected))) ∧
  (∀ r, server_step startLoop w r → nextConnId_ (server w) < 2 ^ 31 - 1 → ∃ w', r = Ok w').
Proof.
  intros Hip Hn E Hr. pose proof (reachable_inv startLoop base n name ipPort Hip Hn s0 w E Hr) as H. split_and!.
  - intros k i. by eapply tracked_iff.
  - intros i o Ho. destruct (inv_object _ _ _ _ _ _ H _ _ Ho) as (E1 & E2 & Hok). split_and!; [done..|].
    intros Hq. unfold conn_ok in Hok. rewrite Hq in Hok.
    destruct (conn_state o); cbn in Hok; [destruct Hok as [(_ & ? & _)|[(_ & ? & _)|(-> & _)]]|destruct Hok as (_ & ? & _)|destruct Hok as (-> & _)..]; done.
  - intros r Hs Hid. destruct (server_step_inv _ _ _ _ _ Hip Hn _ _ H Hs) as [[_ ?]|(w' & -> & _)]; [done|eauto].
Qed.

Lemma reach_step startLoop s0 w r w' : reachable startLoop s0 w → server_step startLoop w r → r = Ok w' → reachable startLoop s0 w'.
Proof. intros Hr Hs ->. by eapply Next. Qed.

(** A server with one thread accepts a connection, which its peer closes: the removal
    waits in the acceptor's loop. *)
Definition example_server : Server :=
  mkServer 7 [] [] (EventLoopThreadPool.setThreadNum 1 (EventLoopThreadPool.make 7 [])) false false 1 ∅.
Definition example_name : bytes := ["-"; "#"; "1"]%char.
Definition example_closed : World :=
  mkWorld (mkServer 7 [] [] (pool_at (λ i, 100 + i) 7 1 [] 1) true true 2 {[example_name := 0%nat]})
    [mkConnection example_name 100 5 kDisconnected true] [(7, RemoveConnectionInLoop 0)].

Lemma example_reachable : reachable (λ i, 100 + i) example_server example_closed.
Proof.
  eapply reach_step.
  { eapply reach_step.
    { eapply reach_step.
      { eapply reach_step; [apply Initial|apply Start|vm_compute; reflexivity]. }
      { by apply (Accepted _ _ 5). } { vm_compute. reflexivity. } }
    { apply (RunTask _ _ 100 (ConnectEstablished 0) []). by exists [], []. } { vm_compute. reflexivity. } }
  { by eapply (Closed _ _ 0); [vm_compute; reflexivity|left]. } { vm_compute. reflexivity. }
Qed.

Lemma server_tracks_witness :
  connections_ (server example_closed) !! example_name = Some 0%nat ↔
     ∃ o, objects example_closed !! 0%nat = Some o ∧ conn_name o = example_name ∧
       (conn_state o ≠ kDisconnected ∨ (7, RemoveConnectionInLoop 0) ∈ queues example_closed).
Proof.
  apply (server_tracks (λ i, 100 + i) 7 1 [] [] example_server example_closed).
  - by vm_compute.
  - lia.
  - reflexivity.
  - exact example_reachable.
Defined.

(** If the server is destroyed at that moment, the functor that holds a pointer to it
    stays in the queue: the loop will run it on an object that is gone. *)
Lemma destructor_leaves_removal :
  ∃ w, destructor example_closed = Ok w ∧ (7, RemoveConnectionInLoop 0) ∈ queues w ∧
    (100, ConnectDestroyed 0) ∈ queues w.
Proof. eexists. split; [vm_compute; reflexivity|]. cbn [queues]. set_solver. Qed.

End TcpServer.
