(* ===== verification/TcpClient.v ===== *)
(** * TcpClient ([net/TcpClient.h], [net/TcpClient.cc])

    A client owns a connector and at most one connection. Its model runs the
    connector's own, so that the rules the connector expects of its owner are
    obligations here. All calls are made in the loop's thread, except
    [Connector::start] and [stop], which queue their work. *)

From stdpp Require Import gmap.
From S2P Require Import Prelude Endian Format Channel TcpConnection Connector Server.
Import Format.

(** ** What the owner of a connector relies on *)
Module ConnectorFrame.
Import Connector.

(** [k'] hands over the sockets [k] does and those in [P], keeps [connect_], and queues
    nothing but the reset of the channel. *)
Record frame (P : Z → Prop) (k k' : World) : Prop := {
  fr_queue : ∀ f, f ∈ queue k' → f ∈ queue k ∨ f = ResetChannel;
  fr_handed : ∀ fd, sockets k' !! fd = Some Handed ↔ sockets k !! fd = Some Handed ∨ P fd;
  fr_connect : connect_ (con k') = connect_ (con k)
}.
Definition none (fd : Z) : Prop := False.

Lemma frame_refl k : frame none k k.
Proof. split; try done; [auto|]. unfold none. tauto. Qed.
Lemma frame_trans P k1 k2 k3 : frame none k1 k2 → frame P k2 k3 → frame P k1 k3.
Proof.
  intros [Q1 H1 C1] [Q2 H2 C2]. split; [|intros fd; rewrite H2, H1; unfold none; tauto|congruence].
  intros f Hf. destruct (Q2 f Hf) as [| ->]; auto.
Qed.
Lemma frame_con P k c :
  connect_ c = connect_ (con k) → ∀ k', frame P (set_con c k) k' → frame P k k'.
Proof. intros Hc k' [Q1 H1 C1]. split; [done|done|]. by rewrite C1. Qed.

Lemma end_socket_frame f fd k k' :
  end_socket f fd k = Ok k' → f ≠ Open → frame (λ x, f = Handed ∧ x = fd) k k' ∧ con k' = con k ∧ sockets k !! fd = Some Open.
Proof.
  unfold end_socket. destruct (sockets k !! fd) as [[]|] eqn:Ho; try done. intros [= <-] Hf. split_and!; try done.
  split; cbn; try done; [auto|]. intros x. destruct (decide (fd = x)) as [<-|Hne].
  - rewrite lookup_insert_eq, Ho. destruct f; naive_solver.
  - rewrite lookup_insert_ne by done. naive_solver.
Qed.

Lemma end_closed_frame fd k k' : end_socket Closed fd k = Ok k' → frame none k k' ∧ con k' = con k.
Proof.
  intros E. destruct (end_socket_frame _ _ _ _ E) as ([Q1 H1 C1] & Hc & _); [done|]. split; [|done].
  split; [done| |done]. intros x. rewrite H1. unfold none. naive_solver.
Qed.

Lemma retry_frame fd k k' : retry fd k = Ok k' → frame none k k'.
Proof.
  unfold retry. intros E. apply bind_Ok_inv in E as (k1 & E1 & E). apply end_closed_frame in E1 as [Hf _].
  eapply frame_trans; [exact Hf|]. cbn [setState set_con con connect_ retryDelayMs_] in E.
  destruct (connect_ (con k1)) eqn:Hc.
  - apply bind_Ok_inv in E as (d & _ & E). injection E as <-. split; cbn; try done; [auto|]. unfold none. tauto.
  - injection E as <-. split; cbn; try done; [auto|]. unfold none. tauto.
Qed.

Lemma startInLoop_frame en k k' :
  (∀ fd, is_Some (sockets k !! fd) → fd < next_fd k) → startInLoop en k = Ok k' → frame none k k'.
Proof.
  intros Hi. unfold startInLoop. intros E. apply bind_Ok_inv in E as ([] & _ & E).
  destruct (connect_ (con k)) eqn:Hc; [|injection E as <-; apply frame_refl].
  unfold connect, createSocket in E. set (k1 := mkWorld _ _ _ _ _ _) in E.
  assert (frame none k k1) as H1.
  { split; cbn; try done; [auto|]. intros fd. unfold none. destruct (decide (next_fd k = fd)) as [<-|Hne].
    - rewrite lookup_insert_eq. split; [done|]. intros [Hh|[]]. assert (is_Some (sockets k !! next_fd k)) as Hs by (by rewrite Hh).
      apply Hi in Hs. lia.
    - rewrite lookup_insert_ne by done. tauto. }
  eapply frame_trans; [exact H1|]. case_bool_decide.
  - unfold connecting in E. apply bind_Ok_inv in E as ([] & _ & E). injection E as <-.
    split; cbn; try done; [auto|]. unfold none. tauto.
  - case_bool_decide; [by eapply retry_frame|]. by eapply end_closed_frame.
Qed.

Lemma removeAndReset_frame s k k1 fd :
  removeAndResetChannel (setState s k) = Ok (k1, fd) →
  frame none k k1 ∧ ∃ c, channel_ (con k) = Some c ∧ Channel.fd_ c = fd ∧ sockets k1 = sockets k.
Proof.
  unfold removeAndResetChannel. cbn [con setState set_con channel_]. destruct (channel_ (con k)) as [c|] eqn:Hc; [|done].
  intros E. apply bind_Ok_inv in E as ([] & _ & E). injection E as <- <-. split; [|by exists c].
  split; cbn; try done; [set_solver|]. unfold none. tauto.
Qed.
Lemma detach_retry_frame s k k1 fd k' :
  removeAndResetChannel (setState s k) = Ok (k1, fd) → retry fd k1 = Ok k' → frame none k k'.
Proof. intros [H1 _]%removeAndReset_frame H2%retry_frame. by eapply frame_trans. Qed.

(** The socket the connector hands over in an event. *)
Definition handed_over (k k' : World) : option Z :=
  match channel_ (con k) with
  | None => None
  | Some c =>
      match sockets k !! Channel.fd_ c, sockets k' !! Channel.fd_ c with
      | Some Open, Some Handed => Some (Channel.fd_ c)
      | _, _ => None
      end
  end.

(** The events of the loop, as opposed to the calls of the owner. *)
Definition loop_event (e : event) : Prop :=
  match e with Start _ _ | Stop | Restart _ => False | _ => True end.
#[global] Instance loop_event_dec e : Decision (loop_event e).
Proof. destruct e; apply _. Defined.

Lemma frame_none k k' : frame none k k' → frame (λ fd, handed_over k k' = Some fd) k k' ∧ handed_over k k' = None.
Proof.
  intros [Q H C]. assert (handed_over k k' = None) as E.
  { unfold handed_over. destruct (channel_ (con k)) as [c|]; [|done].
    destruct (sockets k !! Channel.fd_ c) as [[]|] eqn:Eo; try done.
    destruct (sockets k' !! Channel.fd_ c) as [[]|] eqn:Eo'; try done. apply H in Eo' as [?|[]]. congruence. }
  split; [|done]. split; try done. intros fd. rewrite H, E. unfold none. naive_solver.
Qed.

Lemma handleWrite_frame err self k k' :
  handleWrite err self k = Ok k' →
  frame none k k' ∨
  ∃ fd, handed_over k k' = Some fd ∧ frame (λ x, x = fd) k k' ∧ state_ (con k) = kConnecting ∧
    state_ (con k') = kConnected ∧ connect_ (con k) = true.
Proof.
  unfold handleWrite. case_bool_decide as Hs; [|intros E; apply bind_Ok_inv in E as ([] & _ & [= <-]); left; apply frame_refl].
  intros E. apply bind_Ok_inv in E as ([k1 fd] & E1 & E2). rewrite <- (setState_same k) in E1.
  destruct (negb _); [left; by eapply detach_retry_frame|]. destruct self; [left; by eapply detach_retry_frame|].
  apply removeAndReset_frame in E1 as (H1 & c & Hc & Hfd & Hso).
  apply end_socket_frame in E2 as (H2 & Hcon & Ho); [|by destruct (connect_ _)].
  change (sockets (setState kConnected k1)) with (sockets k1) in Ho. cbn [setState set_con con connect_] in H2, Hcon. rewrite (fr_connect _ _ _ H1) in H2, Hcon.
  apply frame_con in H2; [|done]. pose proof (frame_trans _ _ _ _ H1 H2) as [Q H C].
  destruct (connect_ (con k)) eqn:Hb.
  - right. exists fd. split_and!; try done; [|split; try done; [intros x; rewrite H; naive_solver|congruence]|by rewrite Hcon].
    unfold handed_over. rewrite Hc, Hfd, <- Hso, Ho. assert (sockets k' !! fd = Some Handed) as -> by (apply H; auto). done.
  - left. split; try done; [|congruence]. intros x. rewrite H. unfold none. naive_solver.
Qed.

(** What an event of the loop does for the owner: at most one socket is handed over,
    and only by a connector that was connecting and was told to connect. *)
Lemma loop_event_frame e k k' :
  con_inv k → loop_event e → do_event e k = Ok k' →
  frame (λ fd, handed_over k k' = Some fd) k k' ∧
  ∀ fd, handed_over k k' = Some fd → state_ (con k) = kConnecting ∧ state_ (con k') = kConnected ∧ connect_ (con k) = true.
Proof.
  intros Hi He E. assert (frame none k k' ∨ ∃ fd, handed_over k k' = Some fd ∧ frame (λ x, x = fd) k k' ∧
    state_ (con k) = kConnecting ∧ state_ (con k') = kConnected ∧ connect_ (con k) = true) as [H|(fd & Hh & [Q H C] & Hr)].
  2:{ destruct (frame_none _ _ H) as [H1 H2]. split; [done|]. rewrite H2. done. }
  2:{ split; [|intros; done]. split; [done| |done]. intros x. rewrite H, Hh. naive_solver. }
  destruct e as [| | |en|n en|err self| ]; try done; cbn [do_event] in E.
  - left. destruct (queue k) as [|f q] eqn:Hq; [injection E as <-; apply frame_refl|].
    assert (frame none k (set_queue q k)) as H1.
    { split; cbn; try done; [rewrite Hq; set_solver|]. unfold none. tauto. }
    eapply frame_trans; [exact H1|]. pose proof (pop_inv f q k) as Hp. destruct f.
    + eapply startInLoop_frame; [|exact E]. by apply Hp.
    + clear Hp. unfold stopInLoop in E. case_bool_decide; [|injection E as <-; apply frame_refl].
      apply bind_Ok_inv in E as ([k1 fd] & E1 & E2). by eapply detach_retry_frame.
    + injection E as <-. split; cbn; try done; [auto|]. unfold none. tauto.
  - left. destruct (timers k !! n) as [d|] eqn:Hn; [|injection E as <-; apply frame_refl].
    assert (frame none k (set_timers (delete n (timers k)) k)) as H1.
    { split; cbn; try done; [auto|]. unfold none. tauto. }
    eapply frame_trans; [exact H1|]. eapply startInLoop_frame; [|exact E]. apply (timer_inv n d k Hi Hn).
  - destruct (channel_ (con k)); [|injection E as <-; left; apply frame_refl]. by eapply handleWrite_frame.
  - left. destruct (channel_ (con k)); [|injection E as <-; apply frame_refl]. unfold handleError in E.
    case_bool_decide; [|injection E as <-; apply frame_refl]. apply bind_Ok_inv in E as ([k1 fd] & E1 & E2).
    rewrite <- (setState_same k) in E1. by eapply detach_retry_frame.
Qed.

(** A connector that has handed over its socket waits for its owner. *)
Lemma connected_stays e k k' :
  con_inv k → legal e k → loop_event e → state_ (con k) = kConnected → do_event e k = Ok k' → state_ (con k') = kConnected.
Proof.
  intros Hi Hl He Hs E. destruct (ci_tokens _ Hi) as [_ Ht]. rewrite Hs in Ht. specialize (Ht ltac:(done)).
  unfold tokens in Ht. pose proof (count_nonneg (λ f, bool_decide (f = StartInLoop)) (queue k)) as Hn.
  pose proof (zlen_nonneg (timers k)) as Hz. destruct e as [| | |en|n en|err self| ]; try done; cbn [do_event] in E.
  - destruct (queue k) as [|f q] eqn:Hq; [by injection E as <-|]. destruct f; [..|by injection E as <-].
    + cbn [count] in Ht. rewrite bool_decide_true in Ht by done. cbn [b2z] in Ht.
      pose proof (count_nonneg (λ f, bool_decide (f = StartInLoop)) q). lia.
    + unfold stopInLoop in E. cbn [con set_queue] in E. rewrite bool_decide_false in E by congruence. by injection E as <-.
  - destruct (timers k) as [|d ts]; [by injection E as <-|]. rewrite zlen_cons in *. pose proof (zlen_nonneg ts). lia.
Qed.

(** The calls of the owner hand nothing over. *)
Lemma start_frame b en k k' :
  con_inv k → start b en k = Ok k' →
  (∀ fd, sockets k' !! fd = Some Handed ↔ sockets k !! fd = Some Handed) ∧
  (∀ f, f ∈ queue k' → f ∈ queue k ∨ f = ResetChannel ∨ f = StartInLoop).
Proof.
  intros Hi. unfold start. destruct b.
  - intros [Q H _]%startInLoop_frame; [|apply Hi]. split; [|intros f Hf; destruct (Q f Hf); auto].
    intros fd. rewrite H. unfold none. tauto.
  - intros [= <-]. split; [done|]. cbn. set_solver.
Qed.
Lemma restart_frame en k k' :
  con_inv k → restart en k = Ok k' →
  (∀ fd, sockets k' !! fd = Some Handed ↔ sockets k !! fd = Some Handed) ∧
  (∀ f, f ∈ queue k' → f ∈ queue k ∨ f = ResetChannel).
Proof.
  intros Hi. unfold restart. intros [Q H _]%startInLoop_frame; [|apply Hi]. split; [|done].
  intros fd. rewrite H. unfold none. tauto.
Qed.

(** [k] is the outcome of a run that obeys the rules. *)
Definition obeyed (k : World) : Prop := ∃ es, legal_run es initial ∧ do_events es initial = Ok k.

Lemma legal_run_snoc es e : ∀ k k',
  legal_run es k → do_events es k = Ok k' → legal e k' → legal_run (es ++ [e]) k.
Proof.
  induction es as [|e1 es IH]; intros k k' Hr E Hl; [by injection E as <-|].
  destruct Hr as [H1 Hr]. split; [done|]. intros k1 E1. cbn [do_events] in E. rewrite E1 in E. by eapply IH; eauto.
Qed.
Lemma do_events_snoc es e : ∀ k k' k'',
  do_events es k = Ok k' → do_event e k' = Ok k'' → do_events (es ++ [e]) k = Ok k''.
Proof.
  induction es as [|e1 es IH]; intros k k' k'' E E'.
  - injection E as <-. cbn [app do_events]. by rewrite E'.
  - cbn [app do_events] in *. apply bind_Ok_inv in E as (k1 & E1 & E). rewrite E1, bind_Ok. by eapply IH.
Qed.
Lemma obeyed_inv k : obeyed k → con_inv k.
Proof.
  intros (es & Hr & E). destruct (events_inv es initial con_initial Hr) as (k' & E' & Hi). congruence.
Qed.
Lemma obeyed_step e k : obeyed k → legal e k → ∃ k', do_event e k = Ok k' ∧ obeyed k'.
Proof.
  intros Ho Hl. destruct (event_inv e k (obeyed_inv k Ho) Hl) as (k' & E & _). exists k'. split; [done|].
  destruct Ho as (es & Hr & Es). exists (es ++ [e]). split; [by eapply legal_run_snoc|by eapply do_events_snoc].
Qed.

(** A connector that nothing but its retry timers will call any more, and that
    will not answer them. *)
Definition idle (k : World) : Prop :=
  queue k = [] ∧ channel_ (con k) = None ∧ (connect_ (con k) = false ∨ timers k = []).

Lemma idle_event k k' e :
  con_inv k → idle k → loop_event e → do_event e k = Ok k' →
  idle k' ∧ con k' = con k ∧ (timers k = [] → timers k' = []).
Proof.
  intros Hi (Hq & Hc & Ht) He E. destruct e as [| | |en|n en|err self| ]; try done; cbn [do_event] in E;
    rewrite ?Hq, ?Hc in E; try (injection E as <-; done).
  destruct (timers k !! n) as [d|] eqn:Hn; [|by injection E as <-].
  destruct Ht as [Ht|Ht]; [|by rewrite Ht in Hn]. apply startInLoop_quiet in E as ->; [|done].
  split; [by unfold idle; split_and!; [..|left]|]. split; [done|]. intros E. by rewrite E in Hn.
Qed.

Lemma no_channel k : con_inv k → queue k = [] → state_ (con k) ≠ kConnecting → channel_ (con k) = None.
Proof.
  intros Hi Hq Hs. pose proof (ci_channel _ Hi) as Hc. destruct (channel_ (con k)); [|done].
  rewrite bool_decide_false in Hc by done. unfold cnt in Hc. rewrite Hq in Hc. by destruct Hc as (_ & _ & ?).
Qed.

Lemma connected_idle k : con_inv k → state_ (con k) = kConnected → queue k = [] → idle k.
Proof.
  intros Hi Hs Hq. split; [done|]. split; [apply no_channel; congruence|]. right.
  destruct (ci_tokens _ Hi) as [_ Ht]. rewrite Hs in Ht. specialize (Ht ltac:(done)). unfold tokens in Ht.
  pose proof (count_nonneg (λ f, bool_decide (f = StartInLoop)) (queue k)).
  pose proof (zlen_nonneg (timers k)). apply zlen_zero_inv. lia.
Qed.

Lemma stopped_idle k :
  con_inv k → connect_ (con k) = false → queue k = [] → state_ (con k) ≠ kConnecting → idle k.
Proof. intros Hi Hc Hq Hs. split; [done|]. split; [by apply no_channel|by left]. Qed.

End ConnectorFrame.

Module TcpClient.
Import ConnectorFrame(frame, handed_over, loop_event, obeyed).
Import TcpConnection(StateE, kDisconnected, kConnecting, kConnected, kDisconnecting).
Import TcpServer(Connection, mkConnection, conn_name, conn_loop, conn_fd, conn_state, conn_polled).

Record Client := mkClient {
  name_ : bytes;
  retry_ : bool;
  connect_ : bool;
  nextConnId_ : Z;
  connection_ : option nat
}.

(** [objects]: the connections in the order of their creation; [tasks]: those whose
    [connectDestroyed] is queued; [gone]: the client is destroyed, and the close
    callback of its connection replaced. *)
Record World := mkWorld {
  client : Client;
  connector_ : Connector.World;
  objects : list Connection;
  tasks : list nat;
  gone : bool
}.

Definition make (nameArg : bytes) : World :=
  mkWorld (mkClient nameArg false true 1 None) Connector.initial [] [] false.

Definition set_client (c : Client) (w : World) : World := mkWorld c (connector_ w) (objects w) (tasks w) (gone w).
Definition set_connector (k : Connector.World) (w : World) : World := mkWorld (client w) k (objects w) (tasks w) (gone w).
Definition set_connect (b : bool) (w : World) : World :=
  let c := client w in set_client (mkClient (name_ c) (retry_ c) b (nextConnId_ c) (connection_ c)) w.
Definition enableRetry (w : World) : World :=
  let c := client w in set_client (mkClient (name_ c) true (connect_ c) (nextConnId_ c) (connection_ c)) w.

Definition with_object (c : nat) (f : Connection → result Connection) (w : World) : result World :=
  match objects w !! c with
  | Some o => o ← f o; Ok (mkWorld (client w) (connector_ w) (<[c := o]> (objects w)) (tasks w) (gone w))
  | None => Fail OutOfRange
  end.
Definition set_state (st : StateE) (o : Connection) : Connection :=
  mkConnection (conn_name o) (conn_loop o) (conn_fd o) st (conn_polled o).
(** [TcpConnection::shutdown], as far as the state goes. *)
Definition shutdown_state (o : Connection) : Connection :=
  if bool_decide (conn_state o = kConnected) then set_state kDisconnecting o else o.

Definition connect (inLoop : bool) (savedErrno : Z) (w : World) : result World :=
  let w := set_connect true w in
  k ← Connector.start inLoop savedErrno (connector_ w);
  Ok (set_connector k w).

Definition disconnect (w : World) : result World :=
  let w := set_connect false w in
  match connection_ (client w) with
  | Some c => with_object c (λ o, Ok (shutdown_state o)) w
  | None => Ok w
  end.

Definition stop (w : World) : World :=
  let w := set_connect false w in
  set_connector (Connector.stop (connector_ w)) w.

Definition connName (peer : bytes) (c : Client) : bytes :=
  name_ c ++ snprintf 32 (":"%char :: peer ++ "#"%char :: dec (nextConnId_ c)).

(** [peer]: the text of [getPeerAddr(sockfd)]. *)
Definition newConnection (sockfd : Z) (peer : bytes) (w : World) : result World :=
  let c := client w in
  if nextConnId_ c <? 2 ^ 31 - 1 then
    let i := length (objects w) in
    o ← TcpServer.established (mkConnection (connName peer c) 0 sockfd kConnecting false);
    Ok (mkWorld (mkClient (name_ c) (retry_ c) (connect_ c) (nextConnId_ c + 1) (Some i)) (connector_ w)
          (objects w ++ [o]) (tasks w) (gone w))
  else Fail SignedOverflow.

(** [savedErrno]: of connect(2), if the connector is restarted. *)
Definition removeConnection (i : nat) (savedErrno : Z) (w : World) : result World :=
  let c := client w in
  _ ← check (bool_decide (connection_ c = Some i));
  let w := mkWorld (mkClient (name_ c) (retry_ c) (connect_ c) (nextConnId_ c) None) (connector_ w)
             (objects w) (tasks w ++ [i]) (gone w) in
  if retry_ c && connect_ c then
    k ← Connector.restart savedErrno (connector_ w);
    Ok (set_connector k w)
  else Ok w.

(** [detail::removeConnection], the close callback once the client is gone. *)
Definition detail_removeConnection (i : nat) (w : World) : World :=
  mkWorld (client w) (connector_ w) (objects w) (tasks w ++ [i]) (gone w).

(** The body of [~TcpClient]; [unique]: nobody else holds the connection, and
    [forceClose] makes it [kDisconnecting] and has it closed. The destruction of
    the member [connector_] is below, in [destroy]. *)
Definition destructor (unique : bool) (w : World) : result World :=
  let w := mkWorld (client w) (connector_ w) (objects w) (tasks w) true in
  match connection_ (client w) with
  | Some c => if unique then with_object c (λ o, Ok (shutdown_state o)) w else Ok w
  | None => Ok (set_connector (Connector.stop (connector_ w)) w)
  end.

Inductive event :=
  | Connect (inLoop : bool) (savedErrno : Z)
  | Disconnect
  | Stop
  | EnableRetry
  | LoopEvent (e : Connector.event) (peer : bytes)   (* an event of the connector *)
  | Closed (i : nat) (savedErrno : Z)                (* TcpConnection::handleClose *)
  | RunDestroyed                                     (* the first connectDestroyed *)
  | Destroy (unique : bool).

(** A socket handed to a client that is gone would be a call through a dangling
    pointer. *)
Definition do_event (e : event) (w : World) : result World :=
  match e with
  | Connect b en => connect b en w
  | Disconnect => disconnect w
  | Stop => Ok (stop w)
  | EnableRetry => Ok (enableRetry w)
  | LoopEvent e peer =>
      k ← Connector.do_event e (connector_ w);
      match handed_over (connector_ w) k with
      | Some fd => if gone w then Fail OutOfRange else newConnection fd peer (set_connector k w)
      | None => Ok (set_connector k w)
      end
  | Closed i en =>
      w ← with_object i (λ o, Ok (set_state kDisconnected o)) w;
      if gone w then Ok (detail_removeConnection i w) else removeConnection i en w
  | RunDestroyed =>
      match tasks w with
      | [] => Ok w
      | i :: q => with_object i TcpServer.destroyed (mkWorld (client w) (connector_ w) (objects w) q (gone w))
      end
  | Destroy unique => destructor unique w
  end.

(** *** The lifetime of the connector

    [connector_] is a shared pointer. Its other holders are the retry timers, which
    bind [shared_from_this()], and the one-second timer of [~TcpClient], here
    [keeper]. The last one to go destroys the connector. The functors and the
    channel of a connector hold raw pointers to it. *)
Record System := mkSystem { world : World; keeper : bool; dead : bool }.

Definition referenced (s : System) : bool :=
  negb (gone (world s)) || keeper s || negb (bool_decide (Connector.timers (connector_ (world s)) = [])).
Definition release (s : System) : result System :=
  if dead s || referenced s then Ok s
  else _ ← Connector.destructor (connector_ (world s)); Ok (mkSystem (world s) (keeper s) true).

(** [~TcpClient] with the destruction of its members. *)
Definition destroy (unique : bool) (s : System) : result System :=
  w ← destructor unique (world s);
  release (mkSystem w (bool_decide (connection_ (client (world s)) = None)) (dead s)).

(** [detail::removeConnector], which does nothing but hold the pointer. *)
Definition removeConnector (s : System) : result System := release (mkSystem (world s) false (dead s)).

(** Does the event call into the connector? *)
Definition touches (e : Connector.event) (k : Connector.World) : bool :=
  match e with
  | Connector.RunFunctor _ => negb (bool_decide (Connector.queue k = []))
  | Connector.TimerFires n _ => negb (bool_decide (Connector.timers k !! n = None))
  | Connector.Writable _ _ | Connector.ErrorEvent =>
      match Connector.channel_ (Connector.con k) with Some _ => true | None => false end
  | _ => true
  end.

Inductive sys_event := ClientEvent (e : event) | KeeperFires.

Definition sys_do (e : sys_event) (s : System) : result System :=
  match e with
  | ClientEvent (Destroy unique) => destroy unique s
  | ClientEvent (LoopEvent e peer) =>
      if dead s && touches e (connector_ (world s)) then Fail OutOfRange
      else w ← do_event (LoopEvent e peer) (world s); release (mkSystem w (keeper s) (dead s))
  | ClientEvent e => w ← do_event e (world s); Ok (mkSystem w (keeper s) (dead s))
  | KeeperFires => removeConnector s
  end.
Fixpoint sys_run (es : list sys_event) (s : System) : result System :=
  match es with [] => Ok s | e :: es => s ← sys_do e s; sys_run es s end.

Definition initial (name : bytes) : System := mkSystem (make name) false false.

Definition is_open (o : Connection) : Prop := conn_state o = kConnected ∨ conn_state o = kDisconnecting.
#[global] Instance is_open_dec o : Decision (is_open o).
Proof. apply _. Defined.

(** The rules: [connect] is called when the connector is idle and its last attempt,
    if any, did not succeed; nobody uses a client that is gone; the loop's events obey
    the connector's rules; an open connection may be closed at any time, but not before
    the loop has run the functors queued when it came up. *)
Definition legal (e : event) (w : World) : Prop :=
  match e with
  | Connect b en => gone w = false ∧ Connector.legal (Connector.Start b en) (connector_ w)
  | Disconnect | Stop | EnableRetry | Destroy _ => gone w = false
  | LoopEvent e _ => loop_event e ∧ Connector.legal e (connector_ w)
  | Closed i _ => Connector.ResetChannel ∉ Connector.queue (connector_ w) ∧ match objects w !! i with Some o => is_open o | None => False end
  | RunDestroyed => True
  end.
#[global] Instance client_legal_dec e w : Decision (legal e w).
Proof. destruct e as [| | | | |i en| |]; cbn; try apply _. destruct (objects w !! i); apply _. Defined.

(** The rules for the connector's lifetime: a client that has a connection is
    destroyed when none of the connector's functors is queued (see
    [destroy_too_early]); those queued by [~TcpClient] run before its one-second
    timer fires. *)
Definition sys_legal (e : sys_event) (s : System) : Prop :=
  match e with
  | ClientEvent (Destroy u) =>
      legal (Destroy u) (world s) ∧
      (connection_ (client (world s)) ≠ None → Connector.queue (connector_ (world s)) = [])
  | ClientEvent e => legal e (world s)
  | KeeperFires => keeper s = true ∧ Connector.queue (connector_ (world s)) = []
  end.
#[global] Instance sys_legal_dec e s : Decision (sys_legal e s).
Proof. destruct e as [[]|]; cbn [sys_legal]; apply _. Defined.
Fixpoint legal_run (es : list sys_event) (s : System) : Prop :=
  match es with
  | [] => True
  | e :: es => sys_legal e s ∧ ∀ s', sys_do e s = Ok s' → legal_run es s'
  end.

(** ** Invariant *)

Definition conn_ok (w : World) (i : nat) (o : Connection) : Prop :=
  if decide (is_open o)
  then conn_polled o = true ∧ i ∉ tasks w ∧ Connector.state_ (Connector.con (connector_ w)) = Connector.kConnected
  else conn_state o = kDisconnected ∧ conn_polled o = bool_decide (i ∈ tasks w).

Record cl_inv (w : World) : Prop := {
  cl_con : obeyed (connector_ w);
  cl_next : nextConnId_ (client w) = zlen (objects w) + 1;
  cl_conn : ∀ i o, objects w !! i = Some o → conn_ok w i o;
  cl_one : ∀ i j o o', objects w !! i = Some o → objects w !! j = Some o' → is_open o → is_open o' → i = j;
  cl_cur : gone w = false → ∀ i, connection_ (client w) = Some i ↔ ∃ o, objects w !! i = Some o ∧ is_open o;
  cl_tasks : NoDup (tasks w) ∧ Forall (λ i, (i < length (objects w))%nat) (tasks w);
  cl_stop : connect_ (client w) = true → gone w = false → Connector.StopInLoop ∉ Connector.queue (connector_ w);
  cl_gone : gone w = true → Connector.connect_ (Connector.con (connector_ w)) = false ∨
    Connector.state_ (Connector.con (connector_ w)) = Connector.kConnected;
  cl_fds : NoDup (conn_fd <$> objects w) ∧
    ∀ fd, Connector.sockets (connector_ w) !! fd = Some Connector.Handed ↔ fd ∈ conn_fd <$> objects w
}.

Lemma client_initial name : cl_inv (make name).
Proof.
  split; cbn; try done.
  - by exists [].
  - intros _ i. split; [done|]. by intros (o & ? & _).
  - split; constructor.
  - intros _ _. set_solver.
  - split; [constructor|]. intros fd. set_solver.
Qed.

(** The connector moves on; no connection is open unless it stays connected. *)
Lemma connector_moves w c k :
  cl_inv w → obeyed k → nextConnId_ c = nextConnId_ (client w) → connection_ c = connection_ (client w) →
  (∀ fd, Connector.sockets k !! fd = Some Connector.Handed ↔ Connector.sockets (connector_ w) !! fd = Some Connector.Handed) →
  (Connector.state_ (Connector.con (connector_ w)) = Connector.kConnected →
   Connector.state_ (Connector.con k) = Connector.kConnected) →
  (connect_ c = true → gone w = false → Connector.StopInLoop ∉ Connector.queue k) →
  (gone w = true → Connector.connect_ (Connector.con (connector_ w)) = false → Connector.connect_ (Connector.con k) = false) →
  cl_inv (mkWorld c k (objects w) (tasks w) (gone w)).
Proof.
  intros [] Ho En Ec Hf Hs Hq Hg. split; cbn; try done; [congruence|..].
  - intros i o Hi. specialize (cl_conn0 i o Hi). unfold conn_ok in *. cbn. destruct (decide (is_open o)); [|done].
    destruct cl_conn0 as (? & ? & ?). auto.
  - by rewrite Ec.
  - intros Hgo. destruct (cl_gone0 Hgo) as [?|?]; auto.
  - split; [apply cl_fds0|]. intros fd. rewrite Hf. apply cl_fds0.
Qed.

(** One connection changes. *)
Lemma object_changes w i o o' c q g :
  cl_inv w → objects w !! i = Some o → conn_fd o' = conn_fd o → nextConnId_ c = nextConnId_ (client w) →
  (is_open o' → is_open o) → (∀ j, j ≠ i → j ∈ q ↔ j ∈ tasks w) → NoDup q →
  Forall (λ i, (i < length (objects w))%nat) q →
  let w' := mkWorld c (connector_ w) (<[i := o']> (objects w)) q g in
  (g = false → ∀ j, connection_ c = Some j ↔ ∃ oj, objects w' !! j = Some oj ∧ is_open oj) →
  (connect_ c = true → g = false → Connector.StopInLoop ∉ Connector.queue (connector_ w)) →
  (g = true → Connector.connect_ (Connector.con (connector_ w)) = false ∨
    Connector.state_ (Connector.con (connector_ w)) = Connector.kConnected) →
  conn_ok w' i o' → cl_inv w'.
Proof.
  intros [] Hi Hfd En Hop Hq Hnd Hlt w' Hcur Hst Hg Hok. pose proof (lookup_lt_Some _ _ _ Hi) as Hlen.
  assert (∀ j oj, objects w' !! j = Some oj → j = i ∧ oj = o' ∨ j ≠ i ∧ objects w !! j = Some oj) as Hlk.
  { intros j oj Hj. apply list_lookup_insert_Some in Hj as [(-> & -> & _)|[? ?]]; auto. }
  assert (∀ j oj, objects w' !! j = Some oj → is_open oj → ∃ o1, objects w !! j = Some o1 ∧ is_open o1) as Hback.
  { intros j oj Hj Hoj. destruct (Hlk j oj Hj) as [[-> ->]|[_ Hj']]; eauto. }
  split; try done.
  - cbn. unfold zlen. rewrite length_insert, En. apply cl_next0.
  - intros j oj Hj. destruct (Hlk j oj Hj) as [[-> ->]|[Hne Hj']]; [done|]. specialize (cl_conn0 j oj Hj').
    unfold conn_ok in *. cbn in *. destruct (decide (is_open oj)); [by rewrite Hq|].
    destruct cl_conn0 as [? ->]. split; [done|]. apply bool_decide_ext. by rewrite Hq.
  - intros j1 j2 o1 o2 H1 H2 O1 O2. destruct (Hback _ _ H1 O1) as (? & ? & ?), (Hback _ _ H2 O2) as (? & ? & ?). eauto.
  - split; [done|]. eapply Forall_impl; [exact Hlt|]. intros j. cbn. by rewrite length_insert.
  - cbn. rewrite list_fmap_insert, Hfd, list_insert_id; [done|]. by rewrite list_lookup_fmap, Hi.
Qed.

(** [shutdown] and [forceClose] keep an open connection open. *)
Lemma shutdown_keeps w i o c g :
  cl_inv w → objects w !! i = Some o → nextConnId_ c = nextConnId_ (client w) → connection_ c = connection_ (client w) →
  (g = false → gone w = false) →
  (connect_ c = true → g = false → Connector.StopInLoop ∉ Connector.queue (connector_ w)) →
  (g = true → Connector.connect_ (Connector.con (connector_ w)) = false ∨
    Connector.state_ (Connector.con (connector_ w)) = Connector.kConnected) →
  cl_inv (mkWorld c (connector_ w) (<[i := shutdown_state o]> (objects w)) (tasks w) g).
Proof.
  intros H Hi En Ec Hg Hs Hg2. assert (is_open (shutdown_state o) ↔ is_open o) as Ho.
  { unfold shutdown_state, is_open. case_bool_decide as E; [|done]. cbn. rewrite E. naive_solver. }
  pose proof (lookup_lt_Some _ _ _ Hi) as Hlen.
  eapply (object_changes w i o); eauto; try solve [apply H]; try done.
  - unfold shutdown_state. by case_bool_decide.
  - apply Ho.
  - intros Hgo j. rewrite Ec, (cl_cur _ H (Hg Hgo)). cbn. destruct (decide (i = j)) as [<-|Hne].
    + rewrite list_lookup_insert_eq by done. rewrite Hi. naive_solver.
    + by rewrite list_lookup_insert_ne.
  - pose proof (cl_conn _ H i o Hi) as Hok. unfold conn_ok in *. cbn [tasks connector_]. destruct (decide (is_open o)) as [Hop|Hop].
    + rewrite decide_True by (by apply Ho). unfold shutdown_state. by case_bool_decide.
    + rewrite decide_False by (by rewrite Ho). unfold shutdown_state. rewrite bool_decide_false; [done|]. by destruct Hok as [-> _].
Qed.

(** The open connection was the only one. *)
Lemma closed_none_open w i o :
  cl_inv w → objects w !! i = Some o → is_open o →
  ∀ j oj, <[i := set_state kDisconnected o]> (objects w) !! j = Some oj → ¬ is_open oj.
Proof.
  intros H Hi Ho j oj Hj Hoj. apply list_lookup_insert_Some in Hj as [(-> & <- & _)|[Hne Hj]]; [by destruct Hoj|].
  by destruct (Hne (cl_one _ H _ _ _ _ Hi Hj Ho Hoj)).
Qed.

(** The close of an open connection, before its callback. *)
Lemma closed_object w i o c :
  cl_inv w → objects w !! i = Some o → is_open o → nextConnId_ c = nextConnId_ (client w) → connection_ c = None →
  connect_ c = connect_ (client w) →
  cl_inv (mkWorld c (connector_ w) (<[i := set_state kDisconnected o]> (objects w)) (tasks w ++ [i]) (gone w)).
Proof.
  intros H Hi Ho En Ec Eb. pose proof (lookup_lt_Some _ _ _ Hi) as Hlen.
  pose proof (cl_conn _ H i o Hi) as Hok. unfold conn_ok in Hok. rewrite decide_True in Hok by done. destruct Hok as (Hp & Hnt & Hs).
  eapply (object_changes w i o); eauto; try solve [apply H]; try done.
  - intros j Hj. set_solver.
  - apply NoDup_app. split_and!; [apply H|set_solver|apply NoDup_singleton].
  - apply Forall_app. split; [apply H|]. by apply Forall_singleton.
  - intros _ j. rewrite Ec. split; [done|]. intros (oj & Hj & Hoj). by destruct (closed_none_open w i o H Hi Ho j oj Hj Hoj).
  - intros Hc Hg. rewrite Eb in Hc. by apply (cl_stop _ H).
  - unfold conn_ok. rewrite decide_False by (by intros [?|?]). cbn. split; [done|]. rewrite Hp. symmetry. apply bool_decide_eq_true. set_solver.
Qed.

(** No connection is open while the connector is not done. *)
Lemma none_open w i o :
  cl_inv w → Connector.state_ (Connector.con (connector_ w)) ≠ Connector.kConnected → objects w !! i = Some o →
  ¬ is_open o ∧ conn_state o = kDisconnected ∧ conn_polled o = bool_decide (i ∈ tasks w).
Proof.
  intros H Hs Hi. pose proof (cl_conn _ H i o Hi) as Hok. unfold conn_ok in Hok.
  destruct (decide (is_open o)); [by destruct Hok as (_ & _ & ?)|]. done.
Qed.

Lemma client_connection_inv w k fd peer :
  cl_inv w → obeyed k → gone w = false → nextConnId_ (client w) < 2 ^ 31 - 1 →
  Connector.state_ (Connector.con (connector_ w)) = Connector.kConnecting →
  Connector.state_ (Connector.con k) = Connector.kConnected →
  Connector.sockets (connector_ w) !! fd ≠ Some Connector.Handed →
  (∀ f, f ∈ Connector.queue k → f ∈ Connector.queue (connector_ w) ∨ f = Connector.ResetChannel) →
  (∀ x, Connector.sockets k !! x = Some Connector.Handed ↔ Connector.sockets (connector_ w) !! x = Some Connector.Handed ∨ x = fd) →
  ∃ w', newConnection fd peer (set_connector k w) = Ok w' ∧ cl_inv w' ∧ nextConnId_ (client w') = nextConnId_ (client w) + 1.
Proof.
  intros H Hk Hg Hid Hs Hs' Hfd Hq Hh. unfold newConnection. cbn [client set_connector objects tasks gone connector_].
  rewrite (proj2 (Z.ltb_lt _ _)) by done. unfold TcpServer.established. rewrite check_true, bind_Ok, bind_Ok by done.
  eexists. split; [done|]. split; [|done]. set (i := length (objects w)).
  assert (∀ j oj, objects w !! j = Some oj → ¬ is_open oj ∧ conn_state oj = kDisconnected ∧ conn_polled oj = bool_decide (j ∈ tasks w)) as Hno.
  { intros j oj. by apply none_open; [|congruence]. }
  assert (i ∉ tasks w) as Hni.
  { intros Hin. destruct (cl_tasks _ H) as [_ Ht]. rewrite Forall_forall in Ht. specialize (Ht i Hin). cbn in Ht. unfold i in Ht. lia. }
  cbn [conn_name conn_loop conn_fd]. set (o := mkConnection _ _ _ _ _). assert (is_open o) as Ho by (by left).
  assert (∀ j oj, (objects w ++ [o]) !! j = Some oj → j = i ∧ oj = o ∨ objects w !! j = Some oj) as Hlk.
  { intros j oj [?|[Hge Hj]]%lookup_app_Some; [auto|]. apply list_lookup_singleton_Some in Hj as [? <-]. left. split; [unfold i; lia|done]. }
  assert ((objects w ++ [o]) !! i = Some o) as Hnew by (by rewrite lookup_app_r, Nat.sub_diag).
  split; cbn [client connector_ objects tasks gone nextConnId_ connection_ connect_]; try done.
  - rewrite (cl_next _ H), zlen_app. done.
  - intros j oj Hj. unfold conn_ok. cbn [tasks connector_]. destruct (Hlk j oj Hj) as [[-> ->]|Hj'].
    + by rewrite decide_True.
    + destruct (Hno _ _ Hj') as (? & ? & ?). by rewrite decide_False.
  - intros j1 j2 o1 o2 H1 H2 O1 O2. destruct (Hlk _ _ H1) as [[-> ->]|H1']; [|by destruct (Hno _ _ H1')].
    destruct (Hlk _ _ H2) as [[-> ->]|H2']; [done|by destruct (Hno _ _ H2')].
  - intros _ j. split; [intros [= <-]; by exists o|]. intros (oj & Hj & Hoj).
    destruct (Hlk _ _ Hj) as [[-> ->]|Hj']; [done|by destruct (Hno _ _ Hj')].
  - split; [apply H|]. eapply Forall_impl; [apply H|]. intros j. cbn. rewrite length_app. cbn. lia.
  - intros Hc _ Hin. destruct (Hq _ Hin) as [Hin'|]; [|done]. by apply (cl_stop _ H).
  - intros _. by right.
  - destruct (cl_fds _ H) as [Hnd Hf]. rewrite fmap_app. cbn [fmap list_fmap conn_fd o]. split.
    + apply NoDup_app. split_and!; [done| |apply NoDup_singleton]. intros x Hx%Hf Hx2. apply list_elem_of_singleton in Hx2 as ->. done.
    + intros x. rewrite Hh, Hf, elem_of_app, list_elem_of_singleton. done.
Qed.

Lemma closed_inv w i o en :
  cl_inv w → objects w !! i = Some o → is_open o → Connector.ResetChannel ∉ Connector.queue (connector_ w) →
  ∃ w', do_event (Closed i en) w = Ok w' ∧ cl_inv w' ∧ nextConnId_ (client w') = nextConnId_ (client w).
Proof.
  intros H Hi Ho Hr. cbn [do_event]. unfold with_object. rewrite Hi, bind_Ok, bind_Ok. cbn [gone].
  pose proof (closed_object w i o) as Hc. destruct (gone w) eqn:Hg.
  - eexists. split; [done|]. split; [|done]. specialize (Hc (mkClient (name_ (client w)) (retry_ (client w)) (connect_ (client w)) (nextConnId_ (client w)) None) H Hi Ho eq_refl eq_refl eq_refl).
    destruct Hc. split; cbn in *; try done; congruence.
  - unfold removeConnection. cbn [client connector_ objects tasks gone].
    rewrite check_true, bind_Ok by (apply bool_decide_eq_true; apply (cl_cur _ H Hg); eauto).
    specialize (Hc (mkClient (name_ (client w)) (retry_ (client w)) (connect_ (client w)) (nextConnId_ (client w)) None) H Hi Ho eq_refl eq_refl eq_refl).
    destruct (retry_ (client w) && connect_ (client w)) eqn:Hb; [|by eexists].
    apply andb_true_iff in Hb as [_ Hcon]. pose proof (cl_conn _ H i o Hi) as Hok. unfold conn_ok in Hok.
    rewrite decide_True in Hok by done. destruct Hok as (_ & _ & Hs).
    pose proof (ConnectorFrame.obeyed_inv _ (cl_con _ H)) as Hinv.
    destruct (ConnectorFrame.obeyed_step (Connector.Restart en) (connector_ w) (cl_con _ H)) as (k & E & Hk).
    { cbn. split; [|done]. split_and!; [apply (Connector.ci_tokens _ Hinv); congruence|done|by apply (cl_stop _ H)]. }
    cbn [Connector.do_event] in E. rewrite E, bind_Ok. eexists. split; [done|]. split; [|done].
    destruct (ConnectorFrame.restart_frame _ _ _ Hinv E) as [Hh Hq].
    assert (∀ f, f ∈ Connector.queue k → f ≠ Connector.StopInLoop) as Hns.
    { intros f Hf ->. destruct (Hq _ Hf) as [Hf'|]; [|done]. by apply (cl_stop _ H). }
    pose proof (closed_none_open w i o H Hi Ho) as Hnone.
    destruct Hc. unfold set_connector. split; cbn in *; try done.
    + intros j oj Hj. pose proof (Hnone j oj Hj). specialize (cl_conn0 j oj Hj). unfold conn_ok in *.
      by rewrite decide_False in * by done.
    + intros _ _ Hin. by eapply Hns.
    + split; [apply cl_fds0|]. intros fd. rewrite Hh. apply cl_fds0.
Qed.

Lemma loop_event_inv w e peer :
  cl_inv w → loop_event e → Connector.legal e (connector_ w) → nextConnId_ (client w) < 2 ^ 31 - 1 →
  ∃ w', do_event (LoopEvent e peer) w = Ok w' ∧ cl_inv w' ∧ nextConnId_ (client w') ≤ nextConnId_ (client w) + 1.
Proof.
  intros H He Hl Hid. pose proof (ConnectorFrame.obeyed_inv _ (cl_con _ H)) as Hinv.
  destruct (ConnectorFrame.obeyed_step e (connector_ w) (cl_con _ H) Hl) as (k & E & Hk). cbn [do_event]. rewrite E, bind_Ok.
  destruct (ConnectorFrame.loop_event_frame e _ _ Hinv He E) as [[Q Hf C] Hh].
  destruct (handed_over (connector_ w) k) as [fd|] eqn:Eh.
  - destruct (Hh fd eq_refl) as (Hs & Hs' & Hc). destruct (gone w) eqn:Hg; [destruct (cl_gone _ H Hg); congruence|].
    destruct (client_connection_inv w k fd peer) as (w' & -> & Hw & En); try done.
    + unfold handed_over in Eh. destruct (Connector.channel_ _) as [c|]; [|done].
      destruct (Connector.sockets (connector_ w) !! Channel.fd_ c) as [[]|] eqn:Eo; try done.
      destruct (Connector.sockets k !! Channel.fd_ c) as [[]|]; try done. injection Eh as <-. by rewrite Eo.
    + intros x. rewrite Hf. naive_solver.
    + exists w'. split_and!; [done..|lia].
  - eexists. split; [done|]. split; [|cbn; lia]. apply connector_moves; try done.
    + intros fd. rewrite Hf. naive_solver.
    + intros Hs. by eapply ConnectorFrame.connected_stays.
    + intros Hc Hg Hin. destruct (Q _ Hin) as [Hin'|]; [|done]. by apply (cl_stop _ H).
    + intros _ Hc. by rewrite C.
Qed.

Lemma connect_inv w b en :
  cl_inv w → gone w = false → Connector.legal (Connector.Start b en) (connector_ w) →
  ∃ w', connect b en w = Ok w' ∧ cl_inv w' ∧ nextConnId_ (client w') = nextConnId_ (client w).
Proof.
  intros H Hg Hl. pose proof (ConnectorFrame.obeyed_inv _ (cl_con _ H)) as Hinv.
  destruct (ConnectorFrame.obeyed_step _ (connector_ w) (cl_con _ H) Hl) as (k & E & Hk). cbn [Connector.do_event] in E.
  destruct (ConnectorFrame.start_frame _ _ _ _ Hinv E) as [Hh Hq]. destruct Hl as [(_ & _ & Hns) Hs].
  unfold connect. cbn [connector_ set_connect set_client]. rewrite E, bind_Ok. eexists. split; [done|]. split; [|done].
  unfold set_connector, set_connect, set_client. cbn [client connector_ objects tasks gone].
  apply connector_moves; try done; [congruence| |congruence].
  intros _ _ Hin. destruct (Hq _ Hin) as [?|[?|?]]; done.
Qed.

Lemma runDestroyed_inv w :
  cl_inv w → ∃ w', do_event RunDestroyed w = Ok w' ∧ cl_inv w' ∧ nextConnId_ (client w') = nextConnId_ (client w).
Proof.
  intros H. cbn [do_event]. destruct (tasks w) as [|i q] eqn:Hq; [by exists w|].
  destruct (cl_tasks _ H) as [Hnd Hlt]. rewrite Hq in Hnd, Hlt. apply NoDup_cons in Hnd as [Hni Hnd].
  apply Forall_cons_1 in Hlt as [Hi Hlt]. destruct (lookup_lt_is_Some_2 _ _ Hi) as [o Ho].
  pose proof (cl_conn _ H i o Ho) as Hok. unfold conn_ok in Hok. rewrite Hq in Hok.
  destruct (decide (is_open o)) as [Hop|Hop]; [destruct Hok as (_ & Hn & _); set_solver|]. destruct Hok as [Hs Hp].
  rewrite bool_decide_true in Hp by set_solver. unfold with_object. cbn [objects]. rewrite Ho. unfold TcpServer.destroyed.
  rewrite check_true, bind_Ok, bind_Ok, Hs, bool_decide_false by done. eexists. split; [done|]. split; [|done].
  cbn [client connector_ objects tasks gone]. eapply (object_changes w i o); eauto; try solve [apply H]; try done.
  - by intros [?|?].
  - intros j Hj. rewrite Hq. set_solver.
  - intros Hg j. rewrite (cl_cur _ H Hg). cbn [objects]. destruct (decide (i = j)) as [<-|Hne].
    + rewrite list_lookup_insert_eq by done. rewrite Ho. split; intros (o1 & [= <-] & Hx); [done|by destruct Hx].
    + by rewrite list_lookup_insert_ne.
  - unfold conn_ok. rewrite decide_False by (by intros [?|?]). cbn [conn_state conn_polled tasks]. split; [done|].
    by rewrite bool_decide_false.
Qed.

Lemma destructor_inv w unique :
  cl_inv w → gone w = false →
  ∃ w', destructor unique w = Ok w' ∧ cl_inv w' ∧ nextConnId_ (client w') = nextConnId_ (client w).
Proof.
  intros H Hg. unfold destructor. cbn [client]. destruct (connection_ (client w)) as [i|] eqn:Hc.
  - apply (cl_cur _ H Hg) in Hc as (o & Hi & Ho). pose proof (cl_conn _ H i o Hi) as Hok. unfold conn_ok in Hok.
    rewrite decide_True in Hok by done. destruct Hok as (_ & _ & Hs). destruct unique.
    + unfold with_object. cbn [objects]. rewrite Hi, bind_Ok. eexists. split; [done|]. split; [|done].
      cbn [client connector_ tasks gone]. apply shutdown_keeps; auto; done.
    + eexists. split; [done|]. split; [|done]. destruct H. split; try done. intros _. by right.
  - destruct (ConnectorFrame.obeyed_step Connector.Stop (connector_ w) (cl_con _ H) I) as (k & [= <-] & Hk).
    eexists. split; [done|]. split; [|done]. destruct H. split; try done. intros _. by left.
Qed.

Lemma client_event_inv e w :
  cl_inv w → legal e w → nextConnId_ (client w) < 2 ^ 31 - 1 →
  ∃ w', do_event e w = Ok w' ∧ cl_inv w' ∧ nextConnId_ (client w') ≤ nextConnId_ (client w) + 1.
Proof.
  intros H Hl Hid. assert (∀ r, (∃ w', r = Ok w' ∧ cl_inv w' ∧ nextConnId_ (client w') = nextConnId_ (client w)) →
    ∃ w', r = Ok w' ∧ cl_inv w' ∧ nextConnId_ (client w') ≤ nextConnId_ (client w) + 1) as Hle.
  { intros r (w' & ? & ? & ?). exists w'. split_and!; [done..|lia]. }
  destruct e as [b en| | | |e peer|i en| |unique]; cbn [legal] in Hl.
  - apply Hle. destruct Hl. by apply connect_inv.
  - apply Hle. cbn [do_event]. unfold disconnect. cbn [client set_connect set_client connection_].
    destruct (connection_ (client w)) as [i|] eqn:Hc.
    + apply (cl_cur _ H Hl) in Hc as (o & Hi & Ho). unfold with_object. cbn [objects set_connect set_client]. rewrite Hi, bind_Ok.
      eexists. split; [done|]. split; [|done]. apply (shutdown_keeps w i o); try done; cbn; congruence.
    + eexists. split; [done|]. split; [|done]. by apply (connector_moves w); try apply H.
  - apply Hle. eexists. split; [done|]. split; [|done].
    destruct (ConnectorFrame.obeyed_step Connector.Stop (connector_ w) (cl_con _ H) I) as (k & [= <-] & Hk).
    by apply (connector_moves w).
  - apply Hle. eexists. split; [done|]. split; [|done]. by apply (connector_moves w); try apply H.
  - destruct Hl as [He Hl]. by apply loop_event_inv.
  - apply Hle. destruct Hl as [Hr Ho]. destruct (objects w !! i) as [o|] eqn:Hi; [|done]. by eapply closed_inv.
  - apply Hle. by apply runDestroyed_inv.
  - apply Hle. by apply destructor_inv.
Qed.

(** *** The connector outlives what refers to it *)

Record sys_inv (s : System) : Prop := {
  si_client : cl_inv (world s);
  si_alive : gone (world s) = false → keeper s = false ∧ dead s = false;
  si_keeper : keeper s = true → dead s = false ∧
    Connector.connect_ (Connector.con (connector_ (world s))) = false ∧
    (Connector.state_ (Connector.con (connector_ (world s))) = Connector.kConnecting →
     Connector.StopInLoop ∈ Connector.queue (connector_ (world s)));
  si_idle : gone (world s) = true → keeper s = false →
    ConnectorFrame.idle (connector_ (world s)) ∧
    dead s = bool_decide (Connector.timers (connector_ (world s)) = [])
}.

Lemma loop_event_connector e peer w w' :
  do_event (LoopEvent e peer) w = Ok w' →
  Connector.do_event e (connector_ w) = Ok (connector_ w') ∧ gone w' = gone w.
Proof.
  cbn [do_event]. intros E. apply bind_Ok_inv in E as (k & -> & E).
  destruct (handed_over _ _); [|by injection E as <-]. destruct (gone w) eqn:Hg; [done|].
  unfold newConnection in E. cbn [client set_connector objects tasks gone connector_] in E.
  destruct (_ <? _); [|done]. apply bind_Ok_inv in E as (o & _ & E). injection E as <-. by cbn.
Qed.

(** Only [~TcpClient] changes [gone]; closing a connection and destroying it leave
    the connector of a client that is gone alone. *)
Lemma event_gone e w w' :
  do_event e w = Ok w' →
  match e with Destroy _ => True | _ => gone w' = gone w end ∧
  match e with Closed _ _ | RunDestroyed => gone w = true → connector_ w' = connector_ w | _ => True end.
Proof.
  intros E. destruct e as [b en| | | |e peer|i en| |u]; cbn [do_event] in E.
  - unfold connect in E. apply bind_Ok_inv in E as (k & _ & E). by injection E as <-.
  - unfold disconnect in E. destruct (connection_ _); [|by injection E as <-]. unfold with_object in E.
    destruct (_ !! _); [|done]. rewrite bind_Ok in E. by injection E as <-.
  - by injection E as <-.
  - by injection E as <-.
  - split; [|done]. by eapply (loop_event_connector e peer).
  - unfold with_object in E. destruct (objects w !! i); [|done]. rewrite !bind_Ok in E. cbn [gone] in E.
    destruct (gone w) eqn:Hg; [by injection E as <-|]. unfold removeConnection in E. apply bind_Ok_inv in E as ([] & _ & E).
    cbn [client connector_ objects tasks gone] in E. destruct (_ && _); [|by injection E as <-].
    apply bind_Ok_inv in E as (k & _ & E). by injection E as <-.
  - destruct (tasks w); [by injection E as <-|]. unfold with_object in E. cbn [objects] in E. destruct (_ !! _); [|done].
    apply bind_Ok_inv in E as (o & _ & E). by injection E as <-.
  - done.
Qed.

(** The last holder of an idle connector goes. *)
Lemma release_idle w d :
  cl_inv w → gone w = true → ConnectorFrame.idle (connector_ w) →
  (d = true → Connector.timers (connector_ w) = []) →
  ∃ s', release (mkSystem w false d) = Ok s' ∧ sys_inv s' ∧ world s' = w.
Proof.
  intros H Hg Hi Hd. unfold release, referenced. cbn [dead world keeper]. rewrite Hg. cbn [negb orb].
  destruct d; cbn [orb].
  - eexists. split; [done|]. split; [|done]. split; cbn; try done; [congruence|]. intros _ _.
    split; [done|]. by rewrite bool_decide_true by auto.
  - destruct (decide (Connector.timers (connector_ w) = [])) as [E|E].
    + rewrite bool_decide_true by done. cbn [negb]. unfold Connector.destructor.
      rewrite check_true, bind_Ok by (apply bool_decide_eq_true; apply Hi). eexists. split; [done|]. split; [|done].
      split; cbn; try done; [congruence|]. intros _ _. split; [done|]. by rewrite bool_decide_true.
    + rewrite bool_decide_false by done. cbn [negb]. eexists. split; [done|]. split; [|done].
      split; cbn; try done. intros _ _. split; [done|]. by rewrite bool_decide_false.
Qed.

Lemma loop_event_sys e peer s w' :
  sys_inv s → loop_event e → do_event (LoopEvent e peer) (world s) = Ok w' → cl_inv w' →
  ∃ s', sys_do (ClientEvent (LoopEvent e peer)) s = Ok s' ∧ sys_inv s' ∧ world s' = w'.
Proof.
  intros Hs He E Hw'. destruct (loop_event_connector _ _ _ _ E) as [Ek Eg]. destruct s as [w k d].
  destruct Hs as [H Ha Hk Hi]. cbn [world keeper dead] in *. cbn [sys_do world keeper dead].
  destruct (gone w) eqn:Hg; [|destruct (Ha eq_refl) as [-> ->]; rewrite E, bind_Ok; unfold release, referenced;
    cbn [dead world keeper orb]; rewrite Eg; cbn; eexists; (split; [done|]); (split; [|done]); split; cbn; try done; congruence].
  destruct k.
  - destruct (Hk eq_refl) as (-> & Hc & Hst). rewrite E, bind_Ok. unfold release, referenced. cbn [dead world keeper orb].
    rewrite orb_true_r. cbn [orb]. eexists. split; [done|]. split; [|done].
    assert (Connector.quiet (connector_ w) (connector_ w')) as (Q1 & _ & _ & Q2).
    { eapply Connector.event_quiet; [done| |exact Ek]. by destruct e. }
    split; cbn; try done; [congruence|]. intros _. split; [done|]. split; [done|]. intros Hs.
    destruct (Q2 Hs) as [? ?]. auto.
  - destruct (Hi eq_refl eq_refl) as [Hid Hd].
    destruct (ConnectorFrame.idle_event _ _ _ (ConnectorFrame.obeyed_inv _ (cl_con _ H)) Hid He Ek) as (Hid' & Ht & Hm).
    assert (d && touches e (connector_ w) = false) as ->.
    { rewrite Hd. case_bool_decide as Et; [|done]. destruct Hid as (Hq & Hch & _). cbn [andb].
      destruct e; try done; cbn; rewrite ?Hq, ?Et, ?Hch; done. }
    rewrite E, bind_Ok. apply release_idle; try done. intros ->. apply Hm. symmetry in Hd. by apply bool_decide_eq_true in Hd.
Qed.

Lemma destroy_sys unique s :
  sys_inv s → sys_legal (ClientEvent (Destroy unique)) s →
  ∃ s', destroy unique s = Ok s' ∧ sys_inv s' ∧ nextConnId_ (client (world s')) = nextConnId_ (client (world s)).
Proof.
  intros [H Ha Hk Hi] [Hg Hq]. destruct s as [w k d]. cbn [world keeper dead legal] in *. destruct (Ha Hg) as [-> ->].
  unfold destroy. cbn [world dead]. destruct (destructor_inv w unique H Hg) as (w' & E & H' & En). rewrite E, bind_Ok.
  pose proof (ConnectorFrame.obeyed_inv _ (cl_con _ H)) as Hinv.
  unfold destructor in E. cbn [client] in E. destruct (connection_ (client w)) as [i|] eqn:Ec.
  - assert (connector_ w' = connector_ w ∧ gone w' = true) as [Ek Eg].
    { destruct unique; [|by injection E as <-]. unfold with_object in E. cbn [objects] in E.
      destruct (objects w !! i); [|done]. rewrite bind_Ok in E. by injection E as <-. }
    rewrite (bool_decide_false (Some i = None)) by done. apply (cl_cur _ H Hg) in Ec as (o & Hio & Ho).
    pose proof (cl_conn _ H i o Hio) as Hok. unfold conn_ok in Hok. rewrite decide_True in Hok by done.
    destruct Hok as (_ & _ & Hs). specialize (Hq ltac:(done)).
    destruct (release_idle w' false) as (s' & -> & Hs' & Ew); try done.
    + rewrite Ek. by apply ConnectorFrame.connected_idle.
    + exists s'. rewrite Ew. done.
  - rewrite (bool_decide_true (None = None)) by done. injection E as <-. unfold release, referenced. cbn [dead world keeper orb].
    rewrite orb_true_r. cbn [orb]. eexists. split; [done|]. split; [|done]. split; cbn; try done.
    intros _. split; [done|]. split; [done|]. intros _. set_solver.
Qed.

Lemma sys_step e s :
  sys_inv s → sys_legal e s → nextConnId_ (client (world s)) < 2 ^ 31 - 1 →
  ∃ s', sys_do e s = Ok s' ∧ sys_inv s' ∧
    nextConnId_ (client (world s')) ≤ nextConnId_ (client (world s)) + 1.
Proof.
  intros Hs Hl Hid. destruct e as [e|].
  2:{ destruct Hl as [Hk Hq]. pose proof Hs as [H Ha Hkk _]. destruct s as [w k d]. cbn [keeper world dead] in *. subst k.
      destruct (Hkk eq_refl) as (-> & Hc & Hst).
      assert (gone w = true) as Hg by (destruct (gone w); [done|by destruct (Ha eq_refl)]).
      destruct (release_idle w false) as (s' & E & Hs' & Ew); try done.
      - apply ConnectorFrame.stopped_idle; [by apply ConnectorFrame.obeyed_inv, H|done|done|].
        intros Hcon. specialize (Hst Hcon). rewrite Hq in Hst. set_solver.
      - exists s'. split; [exact E|]. rewrite Ew. split; [done|lia]. }
  assert (legal e (world s)) as Hl' by (destruct e; cbn [sys_legal] in Hl; tauto).
  destruct e as [b en| | | |e peer|i en| |unique].
  8:{ destruct (destroy_sys unique s Hs Hl) as (s' & E & H' & En). exists s'. split_and!; [done..|lia]. }
  5:{ destruct (client_event_inv (LoopEvent e peer) (world s) (si_client _ Hs) Hl' Hid) as (w' & E & H' & En).
      destruct (loop_event_sys e peer s w' Hs) as (s' & E' & Hs' & <-); [apply Hl'|done..|]. by exists s'. }
  all: match goal with |- ∃ _, sys_do (ClientEvent ?e) _ = _ ∧ _ =>
         destruct (client_event_inv e (world s) (si_client _ Hs) Hl' Hid) as (w' & E & H' & En) end.
  all: cbn [sys_do]; rewrite E, bind_Ok; eexists; (split; [done|]); (split; [|done]).
  all: destruct Hs as [H Ha Hk Hi], s as [w k d]; cbn [world keeper dead legal] in *.
  all: destruct (event_gone _ _ _ E) as [Eg Ek].
  (* the client is alive *)
  1-4: assert (gone w = false) as Hg by tauto; destruct (Ha Hg) as [-> ->]; split; cbn; try done; congruence.
  (* the connector is not involved unless the client is alive *)
  all: split; cbn; try done; rewrite ?Eg; try done.
  all: destruct (gone w) eqn:Hg; [rewrite Ek by done; done|destruct (Ha eq_refl) as [-> ->]; done].
Qed.

Lemma sys_initial name : sys_inv (initial name).
Proof. split; cbn; try done. apply client_initial. Qed.

Lemma sys_run_inv es : ∀ s,
  sys_inv s → legal_run es s → nextConnId_ (client (world s)) + zlen es < 2 ^ 31 → ∃ s', sys_run es s = Ok s' ∧ sys_inv s'.
Proof.
  induction es as [|e es IH]; intros s H Hl Hn; [by exists s|]. destruct Hl as [He Hl]. rewrite zlen_cons in Hn.
  pose proof (zlen_nonneg es). destruct (sys_step e s H He) as (s1 & E & H1 & Hn1); [lia|].
  cbn [sys_run]. rewrite E, bind_Ok. apply IH; [done|by apply Hl|lia].
Qed.


Fixpoint check_run (es : list sys_event) (s : System) : bool :=
  match es with
  | [] => true
  | e :: es => bool_decide (sys_legal e s) && match sys_do e s with Ok s' => check_run es s' | Fail _ => true end
  end.
Lemma check_client_run es : ∀ s, check_run es s = true → legal_run es s.
Proof.
  induction es as [|e es IH]; intros s; [done|]. cbn [check_run]. intros [Hl Hr]%andb_true_iff.
  apply bool_decide_eq_true in Hl. split; [done|]. intros s' E. rewrite E in Hr. auto.
Qed.

(** A connection comes up, is closed by the peer and is made again; then the client is
    destroyed. *)
Definition example_run : list sys_event :=
  ClientEvent <$>
  [EnableRetry; Connect true Connector.EINPROGRESS; LoopEvent (Connector.Writable 0 false) []; LoopEvent (Connector.RunFunctor 0) [];
   Closed 0 Connector.EINPROGRESS; RunDestroyed; LoopEvent (Connector.Writable 0 false) []; LoopEvent (Connector.RunFunctor 0) [];
   Destroy true; Closed 1 0; RunDestroyed].
(** A client is destroyed while its connector tries to connect. *)
Definition unconnected_run : list sys_event :=
  (ClientEvent <$>
   [Connect true Connector.EINPROGRESS; Destroy false; LoopEvent (Connector.RunFunctor 0) [];
    LoopEvent (Connector.RunFunctor 0) []]) ++ [KeeperFires].


(** What the rules exclude. A client destroyed in the loop iteration in which its
    connection came up: [channel_] is to be reset by a queued functor, and
    [~Connector] finds it. A functor of [stop] that is still queued runs on the
    destroyed connector. *)
Lemma destroy_too_early :
  sys_run (ClientEvent <$> [Connect true Connector.EINPROGRESS; LoopEvent (Connector.Writable 0 false) []; Destroy true])
    (initial []) = Fail AssertFailed ∧
  sys_run (ClientEvent <$> [Connect true Connector.EINPROGRESS; LoopEvent (Connector.Writable 0 false) [];
    LoopEvent (Connector.RunFunctor 0) []; Stop; Destroy true; LoopEvent (Connector.RunFunctor 0) []])
    (initial []) = Fail OutOfRange.
Proof. split; vm_compute; reflexivity. Qed.

(** [connect] is not checked: after a connection that was closed without a retry, the
    connector is still [kConnected], and [connect] fails its assertion. *)
Lemma reconnect_aborts :
  sys_run (ClientEvent <$> [Connect true Connector.EINPROGRESS; LoopEvent (Connector.Writable 0 false) []; LoopEvent (Connector.RunFunctor 0) [];
             Closed 0 0; RunDestroyed; Connect true Connector.EINPROGRESS]) (initial []) = Fail AssertFailed.
Proof. vm_compute. reflexivity. Qed.

(** The 32 bytes of [buf] do not hold the text of a long IPv6 address: the number is
    cut off, and all connections of the client have the same name. *)
Lemma long_peer_name c peer id :
  30 ≤ zlen peer →
  connName peer (mkClient (name_ c) (retry_ c) (connect_ c) id (connection_ c)) = name_ c ++ ":"%char :: ztake 30 peer.
Proof.
  intros Hp. unfold connName, snprintf. cbn [name_ nextConnId_]. f_equal. change (32 - 1) with 31.
  change (":"%char :: peer ++ "#"%char :: dec id) with ([":"%char] ++ (peer ++ "#"%char :: dec id)).
  rewrite ztake_app_ge by (by vm_compute). change (zlen [":"%char]) with 1. cbn [app]. f_equal. by apply ztake_app_le.
Qed.

End TcpClient.
