(* ===== verification/Mutex.v ===== *)
(** * Mutexes and condition variables ([base/Mutex.h], [base/Condition.h], [base/Condition.cc])

    [MutexLock] adds the number of the owning thread to a pthread mutex, for
    assertions. The calls are sequences of atomic instructions on the pthread objects
    and on [holder_]; threads that call them interleave instruction by instruction,
    so the moments between taking the mutex and writing [holder_] are visible. *)

From stdpp Require Import sets relations.
From S2P Require Import Prelude Timestamp.

Module MutexLock.

Inductive instr :=
  | PthreadLock | PthreadUnlock
  | AssignHolder | UnassignHolder
  | CondWait (timed : bool) | CondSignal | CondBroadcast
  | AssertLocked.

(** ** The functions *)

Definition assignHolder : list instr := [AssignHolder].
Definition unassignHolder : list instr := [UnassignHolder].
Definition lock : list instr := PthreadLock :: assignHolder.
Definition unlock : list instr := unassignHolder ++ [PthreadUnlock].
Definition assertLocked : list instr := [AssertLocked].

(** [UnassignGuard] and [MutexLockGuard]: constructor, scope, destructor. *)
Definition UnassignGuard (scope : list instr) : list instr := unassignHolder ++ scope ++ assignHolder.
Definition MutexLockGuard (scope : list instr) : list instr := lock ++ scope ++ unlock.

(** [Condition]. *)
Definition wait : list instr := UnassignGuard [CondWait false].
Definition waitForSeconds : list instr := UnassignGuard [CondWait true].
Definition notify : list instr := [CondSignal].
Definition notifyAll : list instr := [CondBroadcast].

(** ** Threads *)

Inductive status := Running | Waiting | Woken.
Record thread := mkThread { tid : Z; code : list instr; st : status }.

(** [owner]: the thread that has the pthread mutex. *)
Record state := mkState { owner : option nat; holder_ : Z; threads : list thread }.

Definition isLockedByThisThread (th : thread) (s : state) : bool := holder_ s =? tid th.

Definition set_thread (i : nat) (th : thread) (s : state) : state :=
  mkState (owner s) (holder_ s) (<[i := th]> (threads s)).
Definition wake (th : thread) : thread :=
  match st th with Waiting => mkThread (tid th) (code th) Woken | _ => th end.

(** What an instruction of thread [i] does; using the pthread mutex of another thread
    is an error. [PthreadLock] is executed when the mutex is free. *)
Definition exec (i : nat) (th : thread) (c : instr) (rest : list instr) (s : state) : result state :=
  let th' := mkThread (tid th) rest Running in
  match c with
  | PthreadLock => Ok (mkState (Some i) (holder_ s) (<[i := th']> (threads s)))
  | PthreadUnlock =>
      _ ← check (bool_decide (owner s = Some i));
      Ok (mkState None (holder_ s) (<[i := th']> (threads s)))
  | AssignHolder => Ok (mkState (owner s) (tid th) (<[i := th']> (threads s)))
  | UnassignHolder => Ok (mkState (owner s) 0 (<[i := th']> (threads s)))
  | CondWait b =>
      _ ← check (bool_decide (owner s = Some i));
      Ok (mkState None (holder_ s) (<[i := mkThread (tid th) (CondWait b :: rest) Waiting]> (threads s)))
  | CondSignal => Ok (set_thread i th' s)
  | CondBroadcast => Ok (mkState (owner s) (holder_ s) (wake <$> <[i := th']> (threads s)))
  | AssertLocked =>
      _ ← check (isLockedByThisThread th s);
      Ok (set_thread i th' s)
  end.

Inductive mutex_step (s : state) : result state → Prop :=
  | Exec i th c rest : threads s !! i = Some th → st th = Running → code th = c :: rest →
      (c = PthreadLock → owner s = None) → mutex_step s (exec i th c rest s)
  | Signal i th rest j thj : threads s !! i = Some th → st th = Running → code th = CondSignal :: rest →
      threads s !! j = Some thj → st thj = Waiting →
      mutex_step s (Ok (set_thread j (wake thj) (set_thread i (mkThread (tid th) rest Running) s)))
  | Reacquire i th b rest : threads s !! i = Some th → st th = Woken → code th = CondWait b :: rest → owner s = None →
      mutex_step s (Ok (mkState (Some i) (holder_ s) (<[i := mkThread (tid th) rest Running]> (threads s)))).

(** A wait may also end by itself, because the time is over or for no reason. *)
Inductive wakeup_step (s : state) : result state → Prop :=
  | Spurious i th : threads s !! i = Some th → st th = Waiting →
      wakeup_step s (Ok (set_thread i (wake th) s)).

(** [~MutexLock]. *)
Definition destructor (s : state) : result unit := check (holder_ s =? 0).

(** ** Programs *)

Inductive call := Lock | Unlock | Wait | WaitForSeconds | Notify | NotifyAll | Assert.
Definition code_of_call (c : call) : list instr :=
  match c with
  | Lock => lock | Unlock => unlock | Wait => wait | WaitForSeconds => waitForSeconds
  | Notify => notify | NotifyAll => notifyAll | Assert => assertLocked
  end.
Definition program (cs : list call) : list instr := cs ≫= code_of_call.

(** Calls in the right order: the thread is in the critical section iff [locked]. *)
Fixpoint disciplined (locked : bool) (cs : list call) : bool :=
  match cs with
  | [] => negb locked
  | Lock :: cs => negb locked && disciplined true cs
  | Unlock :: cs => locked && disciplined false cs
  | Wait :: cs | WaitForSeconds :: cs | Assert :: cs => locked && disciplined true cs
  | Notify :: cs | NotifyAll :: cs => disciplined locked cs
  end.

Definition initial (ps : list (Z * list call)) : state :=
  mkState None 0 ((λ p, mkThread p.1 (program p.2) Running) <$> ps).

Inductive reachable (ps : list (Z * list call)) : state → Prop :=
  | Initial : reachable ps (initial ps)
  | Step s s' : reachable ps s → mutex_step s (Ok s') → reachable ps s'
  | Wakeup s s' : reachable ps s → wakeup_step s (Ok s') → reachable ps s'.

(** ** Invariant *)

(** Where a thread is in its calls. *)
Inductive phase := Out | Got | In | Leaving | Entering | InWait.
Definition owns (p : phase) : bool := match p with Out | InWait => false | _ => true end.
Definition fits (p : phase) (cs : list call) (th : thread) : Prop :=
  match p with
  | Out => st th = Running ∧ code th = program cs ∧ disciplined false cs
  | Got => st th = Running ∧ code th = AssignHolder :: program cs ∧ disciplined true cs
  | In => st th = Running ∧ code th = program cs ∧ disciplined true cs
  | Leaving => st th = Running ∧ code th = PthreadUnlock :: program cs ∧ disciplined false cs
  | Entering => st th = Running ∧ ∃ b, code th = CondWait b :: AssignHolder :: program cs ∧ disciplined true cs
  | InWait => st th ≠ Running ∧ ∃ b, code th = CondWait b :: AssignHolder :: program cs ∧ disciplined true cs
  end.

Definition thread_ok (s : state) (i : nat) (th : thread) : Prop :=
  ∃ p cs, fits p cs th ∧ (owner s = Some i ↔ owns p) ∧ (owns p → holder_ s = match p with In => tid th | _ => 0 end).

Record mutex_inv (s : state) : Prop := {
  mi_threads : ∀ i th, threads s !! i = Some th → thread_ok s i th;
  mi_owner : ∀ i, owner s = Some i → is_Some (threads s !! i);
  mi_free : owner s = None → holder_ s = 0;
  mi_tids : Forall (λ th, 0 < tid th) (threads s)
}.

(** One thread moves; the mutex changes hands only with it. *)
Lemma inv_moves s i th th' o h :
  mutex_inv s → threads s !! i = Some th → tid th' = tid th →
  (∀ j, j ≠ i → o = Some j ↔ owner s = Some j) → (∀ j, j ≠ i → owner s = Some j → h = holder_ s) → (o = None → h = 0) →
  let s' := mkState o h (<[i := th']> (threads s)) in thread_ok s' i th' → mutex_inv s'.
Proof.
  intros [Ht Ho Hf Hp] Hi Etid Hoth Hh Hfree s' Hok. pose proof (lookup_lt_Some _ _ _ Hi) as Hlt. split.
  - intros j thj Hj. apply list_lookup_insert_Some in Hj as [(-> & -> & _)|[Hne Hj]]; [done|].
    destruct (Ht j thj Hj) as (p & cs & Hfit & Hown & Hhold). exists p, cs. split; [done|]. cbn. rewrite Hoth by done.
    split; [done|]. intros Hp'. rewrite (Hh j); [auto|done|]. by apply Hown.
  - intros j Hj. cbn. destruct (decide (j = i)) as [->|Hne]; [by rewrite list_lookup_insert_eq|].
    rewrite list_lookup_insert_ne by done. apply Ho. by apply Hoth.
  - done.
  - apply Forall_insert; [done|]. rewrite Etid. by eapply (Forall_lookup_1 _ _ _ _ Hp Hi).
Qed.

Lemma fits_wake p cs th : fits p cs th → fits p cs (wake th).
Proof. unfold wake. destruct (st th) eqn:E; [done| |done]. destruct p; cbn; try (intros [? _]; congruence). intros [_ ?]. by split. Qed.
Lemma wake_tid th : tid (wake th) = tid th.
Proof. unfold wake. by destruct (st th). Qed.

Lemma ok_wake s s' i th :
  owner s' = owner s → holder_ s' = holder_ s → thread_ok s i th → thread_ok s' i (wake th).
Proof.
  intros Eo Eh (p & cs & Hf & Ho & Hh). exists p, cs. rewrite Eo, Eh. split_and!; [by apply fits_wake|done|].
  intros Hp. specialize (Hh Hp). destruct p; try done. by rewrite wake_tid.
Qed.

Lemma mutex_inv_wake s j th : mutex_inv s → threads s !! j = Some th → mutex_inv (set_thread j (wake th) s).
Proof.
  intros H Hj. apply (inv_moves s j th); try done; [apply wake_tid|by apply H|]. eapply (ok_wake s); try done. by apply H.
Qed.

Lemma inv_wake_all s : mutex_inv s → mutex_inv (mkState (owner s) (holder_ s) (wake <$> threads s)).
Proof.
  intros [Ht Ho Hf Hp]. split; cbn; try done.
  - intros i th Hi. apply list_lookup_fmap_Some in Hi as (th0 & -> & Hi). eapply (ok_wake s); try done. by apply Ht.
  - intros i Hi. rewrite list_lookup_fmap, fmap_is_Some. auto.
  - apply Forall_fmap. eapply Forall_impl; [exact Hp|]. intros th. cbn. by rewrite wake_tid.
Qed.

(** The next instruction of a thread that is not in the middle of a call. *)
Lemma program_head locked cs c rest :
  disciplined locked cs → program cs = c :: rest →
  ∃ cs', match c with
    | PthreadLock => locked = false ∧ rest = AssignHolder :: program cs' ∧ disciplined true cs'
    | UnassignHolder => locked = true ∧
        (rest = PthreadUnlock :: program cs' ∧ disciplined false cs' ∨
         ∃ b, rest = CondWait b :: AssignHolder :: program cs' ∧ disciplined true cs')
    | AssertLocked => locked = true ∧ rest = program cs' ∧ disciplined true cs'
    | CondSignal | CondBroadcast => rest = program cs' ∧ disciplined locked cs'
    | _ => False
    end.
Proof.
  destruct cs as [|k cs]; [done|]. intros Hd E. exists cs. unfold program in *. rewrite bind_cons in E.
  destruct k; cbn in E, Hd; injection E as <- <-; repeat (apply andb_True in Hd as [? Hd]); destruct locked; try done;
    try (split; [done|]); eauto.
Qed.

(** A thread moves from phase to phase. *)
Lemma moves_to s i th o h p cs rest stt :
  mutex_inv s → threads s !! i = Some th →
  (∀ j, j ≠ i → o = Some j ↔ owner s = Some j) → (∀ j, j ≠ i → owner s = Some j → h = holder_ s) → (o = None → h = 0) →
  fits p cs (mkThread (tid th) rest stt) → (o = Some i ↔ owns p) → (owns p → h = match p with In => tid th | _ => 0 end) →
  mutex_inv (mkState o h (<[i := mkThread (tid th) rest stt]> (threads s))).
Proof. intros H Hi H1 H2 H3 Hf Ho Hh. apply (inv_moves s i th); try done. by exists p, cs. Qed.

Lemma exec_ok s i th c rest :
  mutex_inv s → threads s !! i = Some th → st th = Running → code th = c :: rest → (c = PthreadLock → owner s = None) →
  ∃ s', exec i th c rest s = Ok s' ∧ mutex_inv s'.
Proof.
  intros H Hi Hst Hc Hlock. destruct (mi_threads _ H i th Hi) as (p & cs & Hfit & Hown & Hhold).
  pose proof (mi_free _ H) as Hfree.
  destruct p; cbn [fits] in Hfit; destruct Hfit as [Hst' Hfit]; [..|done].
  - destruct Hfit as [Ec Hd]. rewrite Hc in Ec. destruct (program_head _ _ _ _ Hd (eq_sym Ec)) as [cs' Hh].
    destruct c; try done; try (by destruct Hh); cbn [exec].
    + eexists. split; [done|]. specialize (Hlock eq_refl). destruct Hh as (_ & -> & Hd').
      apply (moves_to s i th _ _ Got cs'); try done; rewrite ?Hlock; try done; intros; [split; congruence|auto].
    + eexists. split; [done|]. destruct Hh as [-> Hd']. by apply (moves_to s i th _ _ Out cs').
    + eexists. split; [done|]. destruct Hh as [-> Hd']. apply (inv_wake_all (set_thread i _ s)). by apply (moves_to s i th _ _ Out cs').
  - destruct Hfit as [Ec Hd]. rewrite Hc in Ec. injection Ec as -> ->. eexists. split; [done|].
    assert (owner s = Some i) as Ho by (by apply Hown). apply (moves_to s i th _ _ In cs); try done; congruence.
  - destruct Hfit as [Ec Hd]. rewrite Hc in Ec. destruct (program_head _ _ _ _ Hd (eq_sym Ec)) as [cs' Hh].
    assert (owner s = Some i) as Ho by (by apply Hown).
    destruct c; try done; try (by destruct Hh); cbn [exec].
    + eexists. split; [done|]. destruct Hh as (_ & [[-> Hd']|(b & -> & Hd')]).
      * apply (moves_to s i th _ _ Leaving cs'); try done; congruence.
      * apply (moves_to s i th _ _ Entering cs'); try done; [congruence|split; [done|eauto]].
    + eexists. split; [done|]. destruct Hh as [-> Hd']. by apply (moves_to s i th _ _ In cs').
    + eexists. split; [done|]. destruct Hh as [-> Hd']. apply (inv_wake_all (set_thread i _ s)). by apply (moves_to s i th _ _ In cs').
    + destruct Hh as (_ & -> & Hd'). rewrite check_true by (apply Z.eqb_eq; by apply Hhold). eexists. split; [done|].
      by apply (moves_to s i th _ _ In cs').
  - destruct Hfit as [Ec Hd]. rewrite Hc in Ec. injection Ec as -> ->. cbn [exec].
    assert (owner s = Some i) as Ho by (by apply Hown). rewrite check_true by (by apply bool_decide_eq_true).
    eexists. split; [done|]. apply (moves_to s i th _ _ Out cs); try done; rewrite ?Ho; try (by intros; split; congruence).
    intros _. by apply Hhold.
  - destruct Hfit as (b & Ec & Hd). rewrite Hc in Ec. injection Ec as -> ->. cbn [exec].
    assert (owner s = Some i) as Ho by (by apply Hown). rewrite check_true by (by apply bool_decide_eq_true).
    eexists. split; [done|]. apply (moves_to s i th _ _ InWait cs); try done; rewrite ?Ho; try (by intros; split; congruence).
    + intros _. by apply Hhold.
    + split; [done|eauto].
Qed.

Lemma mutex_step_ok s r : mutex_inv s → mutex_step s r → ∃ s', r = Ok s' ∧ mutex_inv s'.
Proof.
  intros H Hs. destruct Hs as [i th c rest Hi Hst Hc Hl|i th rest j thj Hi Hst Hc Hj Hw|i th b rest Hi Hst Hc Hfree].
  - by apply exec_ok.
  - destruct (exec_ok s i th CondSignal rest H Hi Hst Hc) as (s' & [= <-] & H'); [done|]. eexists. split; [done|].
    apply mutex_inv_wake; [done|]. cbn. rewrite list_lookup_insert_ne; [done|]. intros <-. congruence.
  - destruct (mi_threads _ H i th Hi) as (p & cs & Hfit & Hown & Hhold). eexists. split; [done|].
    destruct p; cbn [fits] in Hfit; destruct Hfit as [Hst' Hfit]; try congruence. destruct Hfit as (b' & Ec & Hd).
    rewrite Hc in Ec. injection Ec as -> ->. apply (moves_to s i th _ _ Got cs); try done.
    + intros j Hj. split; congruence.
    + intros _. by apply (mi_free _ H).
Qed.

Lemma reachable_mutex_inv ps s :
  Forall (λ p, 0 < p.1 ∧ disciplined false p.2) ps → reachable ps s → mutex_inv s.
Proof.
  intros Hps Hr. induction Hr as [|s s' _ IH Hs|s s' _ IH Hs].
  - split; cbn; try done.
    + intros i th Hi. apply list_lookup_fmap_Some in Hi as ([t cs] & -> & Hi). exists Out, cs.
      rewrite Forall_lookup in Hps. destruct (Hps i _ Hi) as [_ Hd]. done.
    + apply Forall_fmap. eapply Forall_impl; [exact Hps|]. by intros ? [? _].
  - destruct (mutex_step_ok s _ IH Hs) as (s2 & [= <-] & H2). done.
  - inversion Hs as [i th Hi Hw]; subst. by apply mutex_inv_wake.
Qed.

(** A mutex in use leads to a step: no deadlock but by waiting for a signal. *)
Lemma mutex_runs s i th :
  mutex_inv s → threads s !! i = Some th → code th ≠ [] → st th ≠ Waiting → ∃ r, mutex_step s r.
Proof.
  intros H Hi Hc Hst. destruct (owner s) as [k|] eqn:Ho.
  - destruct (mi_owner _ H k Ho) as [thk Hk]. destruct (mi_threads _ H k thk Hk) as (p & cs & Hfit & Hown & _).
    assert (owns p) as Hp by (by apply Hown). assert (st thk = Running ∧ ∃ c rest, code thk = c :: rest ∧ c ≠ PthreadLock) as (Hr & c & rest & Ec & Hne).
    { destruct p; try done; cbn [fits] in Hfit; destruct Hfit as [Hr Hfit]; (split; [done|]).
      - destruct Hfit as [-> _]. eauto.
      - destruct Hfit as [-> Hd]. destruct (program cs) as [|c rest] eqn:E.
        { by destruct cs as [|[] cs]. }
        exists c, rest. split; [done|]. destruct (program_head _ _ _ _ Hd E) as [cs' Hh]. intros ->. by destruct Hh.
      - destruct Hfit as [-> _]. eauto.
      - destruct Hfit as (b & -> & _). eauto. }
    eexists. by eapply (Exec s k thk c rest).
  - destruct (code th) as [|c rest] eqn:Ec; [done|]. destruct (st th) eqn:Es; [|done|].
    + eexists. by eapply (Exec s i th c rest).
    + destruct (mi_threads _ H i th Hi) as (p & cs & Hfit & _). destruct p; cbn [fits] in Hfit; destruct Hfit as [Hr Hfit]; try congruence.
      destruct Hfit as (b & E & _). eexists. by eapply (Reacquire s i th b).
Qed.

(** Threads keep their numbers. *)
Lemma insert_tids (i : nat) th th' (l : list thread) :
  l !! i = Some th → tid th' = tid th → tid <$> <[i := th']> l = tid <$> l.
Proof. intros Hi E. rewrite list_fmap_insert, E, list_insert_id; [done|]. by rewrite list_lookup_fmap, Hi. Qed.
Lemma wake_tids (l : list thread) : tid <$> (wake <$> l) = tid <$> l.
Proof. rewrite <- list_fmap_compose. apply list_fmap_ext. intros. apply wake_tid. Qed.

Lemma mutex_step_tids s r s' : mutex_step s r → r = Ok s' → tid <$> threads s' = tid <$> threads s.
Proof.
  intros Hs. destruct Hs as [i th c rest Hi Hst Hc Hl|i th rest j thj Hi Hst Hc Hj Hw|i th b rest Hi Hst Hc Hfree]; intros E.
  - destruct c; cbn [exec] in E; inv_result; cbn [threads set_thread]; rewrite ?wake_tids; by eapply insert_tids.
  - injection E as <-. cbn [threads set_thread]. assert (i ≠ j) by congruence.
    rewrite (insert_tids j thj); [by eapply insert_tids| |apply wake_tid]. by rewrite list_lookup_insert_ne.
  - injection E as <-. by eapply insert_tids.
Qed.

Lemma reachable_tids ps s : reachable ps s → tid <$> threads s = ps.*1.
Proof.
  intros Hr. induction Hr as [|s s' _ IH Hs|s s' _ IH Hs].
  - cbn. rewrite <- list_fmap_compose. by apply list_fmap_ext.
  - rewrite <- IH. by eapply mutex_step_tids.
  - rewrite <- IH. inversion Hs as [i th Hi Hw]; subst. eapply insert_tids; [done|apply wake_tid].
Qed.

(** C27: For threads that lock and unlock, wait and assert in the right order, in every
    interleaving: no assertion fails and no pthread call is an error; the number in
    [holder_] is that of the thread that has the mutex, so [isLockedByThisThread] is
    never wrong to say yes, also when it is read without the mutex; a thread that is
    neither done nor waiting for a signal never leaves the program stuck; and when all
    threads are done the mutex can be destroyed. *)
Theorem mutex_holder ps s :
  Forall (λ p, 0 < p.1 ∧ disciplined false p.2) ps → NoDup ps.*1 → reachable ps s →
  (∀ r, mutex_step s r → ∃ s', r = Ok s') ∧
  (∀ i th, threads s !! i = Some th → isLockedByThisThread th s = true → owner s = Some i) ∧
  (∀ i th, threads s !! i = Some th → code th ≠ [] → st th ≠ Waiting → ∃ r, mutex_step s r) ∧
  (Forall (λ th, code th = []) (threads s) → destructor s = Ok tt).
Proof.
  intros Hps Hnd Hr. pose proof (reachable_mutex_inv ps s Hps Hr) as H. rewrite <- (reachable_tids ps s Hr) in Hnd. split_and!.
  - intros r Hs. destruct (mutex_step_ok s r H Hs) as (s' & -> & _). eauto.
  - intros i th Hi E. apply Z.eqb_eq in E. destruct (owner s) as [k|] eqn:Ho.
    + destruct (mi_owner _ H k Ho) as [thk Hk]. destruct (mi_threads _ H k thk Hk) as (p & cs & _ & Hown & Hhold).
      specialize (Hhold (proj1 Hown Ho)). pose proof (Forall_lookup_1 _ _ _ _ (mi_tids _ H) Hi) as Hp.
      cbn in Hp. destruct p; try lia. f_equal. apply (NoDup_lookup _ k i (tid th) Hnd); rewrite list_lookup_fmap.
      * rewrite Hk. cbn. by rewrite <- Hhold, E.
      * by rewrite Hi.
    + rewrite (mi_free _ H Ho) in E. pose proof (Forall_lookup_1 _ _ _ _ (mi_tids _ H) Hi) as Hp. cbn in Hp. lia.
  - intros i th Hi. by apply (mutex_runs s i th).
  - intros Hdone. apply check_true, Z.eqb_eq, H. destruct (owner s) as [k|] eqn:Ho; [|done].
    destruct (mi_owner _ H k Ho) as [thk Hk]. pose proof (Forall_lookup_1 _ _ _ _ Hdone Hk) as Hcode. cbn in Hcode.
    destruct (mi_threads _ H k thk Hk) as (p & cs & Hfit & Hown & _).
    specialize (proj1 Hown Ho) as Hp. destruct p; try done; cbn in Hfit; rewrite Hcode in Hfit; destruct Hfit as [_ Hfit];
      try (by destruct Hfit); [destruct Hfit as [E Hd]; by destruct cs as [|[] cs]|by destruct Hfit as (? & ? & _)].
Qed.

(** Thread 11 waits for a signal that thread 12 gives. *)
Definition example_threads : list (Z * list call) :=
  [(11, [Lock; Wait; Assert; Unlock]); (12, [Lock; Notify; Unlock])].
Definition example_waiting : state :=
  mkState None 0 [mkThread 11 (CondWait false :: AssignHolder :: program [Assert; Unlock]) Waiting;
                  mkThread 12 (program [Lock; Notify; Unlock]) Running].

Lemma example_waits : reachable example_threads example_waiting.
Proof.
  assert (∀ s th c rest s', reachable example_threads s → threads s !! 0%nat = Some th → st th = Running → code th = c :: rest →
    (c = PthreadLock → owner s = None) → exec 0 th c rest s = Ok s' → reachable example_threads s') as Hx.
  { intros s th c rest s' Hr H1 H2 H3 H4 E. eapply Step; [exact Hr|]. rewrite <- E. by apply Exec. }
  pose proof (Hx _ _ _ _ _ (Initial _) eq_refl eq_refl eq_refl (λ _, eq_refl) eq_refl) as S1.
  pose proof (Hx _ _ _ _ _ S1 eq_refl eq_refl eq_refl ltac:(discriminate) eq_refl) as S2.
  pose proof (Hx _ _ _ _ _ S2 eq_refl eq_refl eq_refl ltac:(discriminate) eq_refl) as S3.
  exact (Hx _ _ _ _ _ S3 eq_refl eq_refl eq_refl ltac:(discriminate) eq_refl).
Qed.

Lemma mutex_holder_witness :
  ∃ r, mutex_step example_waiting r ∧ ∃ s', r = Ok s'.
Proof.
  destruct (mutex_holder example_threads example_waiting) as (H1 & _ & H3 & _).
  - repeat apply Forall_cons_2; try apply Forall_nil_2; split; try reflexivity; vm_compute; exact I.
  - apply (bool_decide_unpack _). vm_compute. exact I.
  - exact example_waits.
  - destruct (H3 1%nat _ eq_refl) as [r Hr]; [discriminate|discriminate|]. exists r. split; [exact Hr|]. exact (H1 r Hr).
Defined.

End MutexLock.

Module Condition.

Definition kNanoSecondsPerSecond : Z := 1000000000.

(** The absolute time [waitForSeconds] waits for, from what clock_gettime(2) returned. *)
Definition abstime (tv_sec tv_nsec : Z) (seconds : Timestamp.double) : result (Z * Z) :=
  nanoseconds ← Timestamp.int64_of_double (Timestamp.dmul seconds (Timestamp.double_of_Z kNanoSecondsPerSecond));
  total ← sint 64 (tv_nsec + nanoseconds);
  sec ← sint 64 (tv_sec + Z.quot total kNanoSecondsPerSecond);
  Ok (sec, Z.rem total kNanoSecondsPerSecond).

(** The deadline is the given number of nanoseconds from now, in the normal form the
    system call requires. *)
Lemma abstime_normal tv_sec tv_nsec seconds ns :
  0 ≤ tv_nsec < kNanoSecondsPerSecond → 0 ≤ tv_sec < 2 ^ 62 → 0 ≤ ns < 2 ^ 62 →
  Timestamp.int64_of_double (Timestamp.dmul seconds (Timestamp.double_of_Z kNanoSecondsPerSecond)) = Ok ns →
  ∃ sec nsec, abstime tv_sec tv_nsec seconds = Ok (sec, nsec) ∧ 0 ≤ nsec < kNanoSecondsPerSecond ∧
    sec * kNanoSecondsPerSecond + nsec = tv_sec * kNanoSecondsPerSecond + tv_nsec + ns.
Proof.
  unfold kNanoSecondsPerSecond. intros Hn Hs Hns E. unfold abstime, kNanoSecondsPerSecond. rewrite E, bind_Ok.
  rewrite sint_Ok, bind_Ok by (unfold in_s; lia). rewrite Z.quot_div_nonneg, Z.rem_mod_nonneg by lia.
  pose proof (Z.div_mod (tv_nsec + ns) 1000000000 ltac:(lia)) as Hd. pose proof (Z.mod_pos_bound (tv_nsec + ns) 1000000000 ltac:(lia)).
  assert (0 ≤ (tv_nsec + ns) / 1000000000 < 2 ^ 62) by lia.
  rewrite sint_Ok, bind_Ok by (unfold in_s; lia). eexists _, _. split; [done|]. lia.
Qed.

(** A negative time gives a negative [tv_nsec], which pthread_cond_timedwait(3) refuses
    with EINVAL: the function then says that the time is not over. *)
Lemma abstime_negative : abstime 100 0 (Timestamp.double_of_Z (-1)) = Ok (99, 0) ∧
  abstime 100 0 (Timestamp.ddiv (Timestamp.double_of_Z (-1)) (Timestamp.double_of_Z 2)) = Ok (100, -500000000).
Proof. vm_compute. done. Qed.

End Condition.
