(* ===== verification/Thread.v ===== *)
(** * Threads ([base/Thread.h], [base/Thread.cc], [base/CurrentThread.cc], [base/Singleton.h],
    [base/ThreadLocal.h], [base/ThreadLocalSingleton.h])

    [Module Thread]: the thread object and the new thread, which writes to the object
    through pointers until it has counted down the latch, as interleaved steps.
    [Module CurrentThreadText]: sleeping and the text of a stack trace. [Module Singleton] and [Module
    ThreadLocal]: objects created on first use, once or once per thread. *)

From stdpp Require Import gmap relations.
From S2P Require Import Prelude Endian Format Latch Rpc Logging.
Import Format.

Module Thread.

Record Thread := mkThread {
  started_ : bool;
  joined_ : bool;
  tid_ : Z;
  name_ : bytes
}.

Definition text (s : String.string) : bytes := String.list_ascii_of_string s.

Definition setDefaultName (numCreated_ : Z) (t : Thread) : result (Z * Thread) :=
  '(numCreated_, num) ← Atomic.incrementAndGet 32 numCreated_;
  let name := match name_ t with [] => snprintf 32 (text "Thread" ++ dec num) | n => n end in
  Ok (numCreated_, mkThread (started_ t) (joined_ t) (tid_ t) name).
Definition make (n : bytes) (numCreated_ : Z) : result (Z * Thread) :=
  setDefaultName numCreated_ (mkThread false false 0 n).

(** The pthread, as its creator may still refer to it. *)
Inductive handle := NoThread | Joinable | Detached | Reaped.
(** Who is where: in [start()], in [startThread]. *)
Inductive parent := NotStarted | Starting | Started | Gone.
Inductive child := NotCreated | Created | TidStored | Counted | Running | Done.

(** [alive]: the [Thread] object exists; [runs]: how often [func_] was called;
    [t_threadName] is that of the new thread. *)
Record World := mkWorld {
  alive : bool;
  thr : Thread;
  latch_ : CountDownLatch.state;
  pthread : handle;
  par : parent;
  chi : child;
  runs : Z;
  t_threadName : bytes
}.

Definition initial (t : Thread) : World :=
  mkWorld true t (CountDownLatch.initial 1 1) NoThread NotStarted NotCreated 0 (text "unknown").

(** [create_ok]: pthread_create(3) succeeds. *)
Definition start (create_ok : bool) (w : World) : result World :=
  let t := thr w in
  _ ← check (negb (started_ t));
  if create_ok
  then Ok (mkWorld (alive w) (mkThread true (joined_ t) (tid_ t) (name_ t)) (latch_ w) Joinable Starting Created (runs w) (t_threadName w))
  else Fail FatalLog.
(** The end of [start()], when [latch_.wait()] has returned. *)
Definition start_returns (w : World) : result World :=
  _ ← check (0 <? tid_ (thr w));
  Ok (mkWorld (alive w) (thr w) (latch_ w) (pthread w) Started (chi w) (runs w) (t_threadName w)).

(** pthread_join(3) and pthread_detach(3) want a thread that is neither joined nor
    detached. *)
Definition join (w : World) : result World :=
  let t := thr w in
  _ ← check (started_ t);
  _ ← check (negb (joined_ t));
  match pthread w with
  | Joinable => Ok (mkWorld (alive w) (mkThread (started_ t) true (tid_ t) (name_ t)) (latch_ w) Reaped (par w) (chi w) (runs w) (t_threadName w))
  | _ => Fail OutOfRange
  end.
Definition destructor (w : World) : result World :=
  let t := thr w in
  if started_ t && negb (joined_ t)
  then match pthread w with
       | Joinable => Ok (mkWorld false t (latch_ w) Detached Gone (chi w) (runs w) (t_threadName w))
       | _ => Fail OutOfRange
       end
  else Ok (mkWorld false t (latch_ w) (pthread w) Gone (chi w) (runs w) (t_threadName w)).

(** [ThreadData::runInThread], in four parts: [*tid_ = tid()], [latch_->countDown()] (both
    through pointers into the object), the name, and [func_()], which returns or
    throws. *)
Definition store_tid (tid : Z) (w : World) : result World :=
  if alive w
  then let t := thr w in
       Ok (mkWorld (alive w) (mkThread (started_ t) (joined_ t) tid (name_ t)) (latch_ w) (pthread w) (par w) TidStored (runs w) (t_threadName w))
  else Fail OutOfRange.
Definition count_down (w : World) : result World :=
  if alive w
  then Ok (mkWorld (alive w) (thr w) (CountDownLatch.countDown (latch_ w)) (pthread w) (par w) Counted (runs w) (t_threadName w))
  else Fail OutOfRange.
(** [name_] is the copy in [ThreadData]. *)
Definition set_name (name : bytes) (w : World) : World :=
  mkWorld (alive w) (thr w) (latch_ w) (pthread w) (par w) Running (runs w)
    (match name with [] => text "muduoThread" | n => n end).
Definition run_func (throws : bool) (w : World) : result World :=
  if throws then Fail FatalLog
  else Ok (mkWorld (alive w) (thr w) (latch_ w) (pthread w) (par w) Done (runs w + 1) (text "finished")).

(** The owner starts the thread at most once, joins it at most once (which ends when
    the thread has) and destroys the object when it is in none of its calls. *)
Inductive thread_step (tid : Z) (name : bytes) (w : World) : result World → Prop :=
  | Start : par w = NotStarted → thread_step tid name w (start true w)
  | LatchWait l : par w = Starting → CountDownLatch.latch_step (latch_ w) l → CountDownLatch.downs l = CountDownLatch.downs (latch_ w) →
      thread_step tid name w (Ok (mkWorld (alive w) (thr w) l (pthread w) (par w) (chi w) (runs w) (t_threadName w)))
  | StartReturns : par w = Starting → CountDownLatch.threads (latch_ w) !! 0%nat = Some CountDownLatch.Returned →
      thread_step tid name w (start_returns w)
  | Join : par w = Started → joined_ (thr w) = false → chi w = Done → thread_step tid name w (join w)
  | Destroy : par w = NotStarted ∨ par w = Started → thread_step tid name w (destructor w)
  | StoreTid : chi w = Created → thread_step tid name w (store_tid tid w)
  | CountDown : chi w = TidStored → thread_step tid name w (count_down w)
  | SetName : chi w = Counted → thread_step tid name w (Ok (set_name name w))
  | RunFunc : chi w = Running → thread_step tid name w (run_func false w).

Inductive reachable (tid : Z) (t : Thread) : World → Prop :=
  | Initial : reachable tid t (initial t)
  | Step w w' : reachable tid t w → thread_step tid (name_ t) w (Ok w') → reachable tid t w'.

(** ** Invariant *)

(** [downs]: how often the latch was counted down. *)
Definition parent_ok (p : parent) (alive : bool) (c : child) (h : handle) (started joined : bool) (downs : Z) : Prop :=
  match p with
  | NotStarted => alive = true ∧ c = NotCreated ∧ h = NoThread ∧ started = false ∧ joined = false
  | Starting => alive = true ∧ c ≠ NotCreated ∧ h = Joinable ∧ started = true ∧ joined = false
  | Started => alive = true ∧ 1 ≤ downs ∧ started = true ∧ h = (if joined then Reaped else Joinable)
  | Gone => alive = false ∧ (h = NoThread ∧ c = NotCreated ∨ 1 ≤ downs ∧ (h = Detached ∨ h = Reaped))
  end.

Lemma child_moves p a c h st j d c' d' :
  parent_ok p a c h st j d → c ≠ NotCreated → c' ≠ NotCreated → d ≤ d' → parent_ok p a c' h st j d'.
Proof.
  destruct p; cbn; [by intros (_ & -> & _)|tauto| |].
  - intros (? & ? & ?) _ _ Hd. split_and!; [done|lia|tauto|tauto].
  - intros [? [[_ ->]|[? ?]]] Hc _ Hd; [done|]. split; [done|]. right. split; [lia|done].
Qed.
(** The object is there as long as the latch was not counted down. *)
Lemma object_alive p a c h st j d : parent_ok p a c h st j d → c ≠ NotCreated → d < 1 → a = true.
Proof. destruct p; cbn; [tauto..|]. intros [_ [[_ ?]|[? _]]] Hc Hd; [done|lia]. Qed.

Record thread_inv (tid : Z) (t : Thread) (w : World) : Prop := {
  ti_latch : CountDownLatch.inv 1 (latch_ w) ∧ length (CountDownLatch.threads (latch_ w)) = 1%nat;
  ti_downs : CountDownLatch.downs (latch_ w) = match chi w with NotCreated | Created | TidStored => 0 | _ => 1 end;
  ti_parent : parent_ok (par w) (alive w) (chi w) (pthread w) (started_ (thr w)) (joined_ (thr w)) (CountDownLatch.downs (latch_ w));
  ti_tid : match chi w with NotCreated | Created => True | _ => tid_ (thr w) = tid end;
  ti_runs : runs w = match chi w with Done => 1 | _ => 0 end;
  ti_reaped : pthread w = Reaped → chi w = Done
}.

Lemma thread_step_inv tid t w r :
  0 < tid → thread_inv tid t w → thread_step tid (name_ t) w r → ∃ w', r = Ok w' ∧ thread_inv tid t w'.
Proof.
  intros Htid [[Hl Hlen] Hd Hp Ht Hr Hre] Hs.
  destruct Hs as [Hpar|l Hpar Hls Hld|Hpar Hret|Hpar Hj Hdone|Hpar|Hc|Hc|Hc|Hc].
  - rewrite Hpar in Hp. destruct Hp as (Ha & Hc & Hpt & Hst & Hj). unfold start. rewrite Hst. cbn. eexists. split; [done|].
    rewrite Hc in *. split; cbn; try done.
  - rewrite Hpar in Hp. eexists. split; [done|]. split; cbn; try done; [|by rewrite Hld|by rewrite Hpar].
    split; [by eapply CountDownLatch.latch_inv_step|]. inversion Hls; subst; cbn in *; rewrite ?length_insert; try done. lia.
  - rewrite Hpar in Hp. destruct Hp as (Ha & Hc & Hpt & Hst & Hj).
    assert (1 ≤ CountDownLatch.downs (latch_ w)) as Hdn.
    { destruct (decide (0 < CountDownLatch.count_ (latch_ w))) as [Hpos|]; [by destruct (CountDownLatch.inv_closed _ _ Hl Hpos 0%nat)|].
      pose proof (CountDownLatch.inv_count _ _ Hl). lia. }
    unfold start_returns. rewrite check_true.
    2:{ apply Z.ltb_lt. rewrite Hd in Hdn. destruct (chi w); lia. }
    eexists. split; [done|]. split; cbn; try done. by rewrite Hj.
  - rewrite Hpar in Hp. destruct Hp as (Ha & Hdn & Hst & Hpt). rewrite Hj in Hpt. unfold join. rewrite Hst, Hj. cbn. rewrite Hpt.
    eexists. split; [done|]. split; cbn; try done. by rewrite Hpar.
  - unfold destructor. destruct Hpar as [Hpar|Hpar]; rewrite Hpar in Hp.
    + destruct Hp as (Ha & Hc & Hpt & Hst & Hj). rewrite Hst. eexists. split; [done|]. split; cbn; try done. auto.
    + destruct Hp as (Ha & Hdn & Hst & Hpt). rewrite Hst. destruct (joined_ (thr w)) eqn:Hj; cbn [andb negb].
      * eexists. split; [done|]. split; cbn; try done. auto.
      * rewrite Hpt. eexists. split; [done|]. split; cbn; try done. auto.
  - rewrite Hc in *. assert (alive w = true) as Ha by (eapply object_alive; [exact Hp|done|lia]).
    unfold store_tid. rewrite Ha in *. eexists. split; [done|]. split; cbn; try done; [|by intros ?%Hre].
    by eapply child_moves; [exact Hp|..].
  - rewrite Hc in *. assert (alive w = true) as Ha by (eapply object_alive; [exact Hp|done|lia]).
    unfold count_down. rewrite Ha in *. eexists. split; [done|]. split; cbn; try done; [..|by intros ?%Hre].
    + split; [|destruct (_ =? 0); rewrite ?length_fmap; done].
      eapply CountDownLatch.latch_inv_step; [|exact Hl]. apply CountDownLatch.CountDown. pose proof (CountDownLatch.inv_count _ _ Hl). lia.
    + lia.
    + eapply child_moves; [exact Hp|done|done|lia].
  - rewrite Hc in *. eexists. split; [done|]. split; cbn; try done; [|by intros ?%Hre]. by eapply child_moves; [exact Hp|..].
  - rewrite Hc in *. eexists. split; [done|]. split; cbn; try done; [|lia]. by eapply child_moves; [exact Hp|..].
Qed.

Lemma thread_reachable_inv tid t w :
  0 < tid → started_ t = false → joined_ t = false → reachable tid t w → thread_inv tid t w.
Proof.
  intros Htid Hs Hj Hr. induction Hr as [|w w' _ IH Hst].
  - split; cbn; try done. split; [|done]. by apply (CountDownLatch.latch_reachable_inv 1 1), rtc_refl.
  - destruct (thread_step_inv tid t w _ Htid IH Hst) as (w2 & [= <-] & H2). done.
Qed.

(** C31: The new thread uses the [Thread] object through its pointers only while the object
    exists, however early the owner destroys it; no assertion fails; when [start()] has
    returned, [tid_] is the number of the new thread; the function is called once;
    and an object that is gone has left no thread that is neither joined nor detached,
    and has joined it only after it ended. *)
Theorem thread_lifetime tid n num num' t w :
  0 < tid → make n num = Ok (num', t) → reachable tid t w →
  (∀ r, thread_step tid (name_ t) w r → ∃ w', r = Ok w') ∧
  (par w = Started → tid_ (thr w) = tid) ∧
  runs w = match chi w with Done => 1 | _ => 0 end ∧
  (alive w = false → pthread w = NoThread ∧ runs w = 0 ∨ pthread w = Detached ∨ pthread w = Reaped ∧ runs w = 1).
Proof.
  intros Htid Hm Hr. assert (started_ t = false ∧ joined_ t = false) as [Hs Hj].
  { unfold make, setDefaultName in Hm. apply bind_Ok_inv in Hm as ([a b] & _ & [= _ <-]). done. }
  pose proof (thread_reachable_inv tid t w Htid Hs Hj Hr) as H. pose proof H as [[Hl _] Hd Hp Ht Hru Hre]. split_and!.
  - intros r Hst. destruct (thread_step_inv tid t w r Htid H Hst) as (w' & -> & _). eauto.
  - intros E. rewrite E in Hp. destruct Hp as (_ & Hdn & _). destruct (chi w); try done; lia.
  - done.
  - intros Ha. destruct (par w); cbn in Hp; try (destruct Hp; congruence).
    destruct Hp as [_ [[Hp Hc]|[_ [Hp|Hp]]]]; [rewrite Hc in Hru|..]; auto. rewrite (Hre Hp) in Hru. auto.
Qed.

(** The owner destroys the object as soon as [start()] returns, before the function
    has run. *)
Definition example_thread : Thread := mkThread false false 0 (text "Thread1").
Definition example_early : World :=
  mkWorld false (mkThread true false 77 (text "Thread1")) (CountDownLatch.mkState 0 [CountDownLatch.Returned] 1) Detached Gone Counted 0
    (text "unknown").

Lemma step_to tid t w r w' : reachable tid t w → thread_step tid (name_ t) w r → r = Ok w' → reachable tid t w'.
Proof. intros Hr Hs ->. by eapply Step. Qed.

Lemma example_early_reachable : reachable 77 example_thread example_early.
Proof.
  set (W := λ tid l p c, mkWorld true (mkThread true false tid (text "Thread1")) l Joinable p c 0 (text "unknown")).
  set (L := CountDownLatch.mkState).
  eapply (step_to _ _ (W 77 (L 0 [CountDownLatch.Returned] 1) Started Counted) _); [|eapply Destroy; by right|done].
  eapply (step_to _ _ (W 77 (L 0 [CountDownLatch.Returned] 1) Starting Counted) _); [|by apply StartReturns|done].
  eapply (Step _ _ (W 77 (L 0 [CountDownLatch.Entering] 1) Starting Counted)).
  2:{ eapply (LatchWait _ _ (W 77 _ _ _) (L 0 [CountDownLatch.Returned] 1)); [done|by apply (CountDownLatch.Return (L 0 [CountDownLatch.Entering] 1) 0)|done]. }
  eapply (step_to _ _ (W 77 (L 1 [CountDownLatch.Entering] 0) Starting TidStored) _); [|by apply CountDown|done].
  eapply (step_to _ _ (W 0 (L 1 [CountDownLatch.Entering] 0) Starting Created) _); [|by apply StoreTid|done].
  eapply (Step _ _ (W 0 (L 1 [CountDownLatch.Outside] 0) Starting Created)).
  2:{ eapply (LatchWait _ _ (W 0 _ _ _) (L 1 [CountDownLatch.Entering] 0)); [done|by apply (CountDownLatch.Wait (L 1 [CountDownLatch.Outside] 0) 0)|done]. }
  eapply (step_to _ _ (initial example_thread) _); [apply Initial|by apply Start|done].
Qed.

Lemma thread_lifetime_witness :
  make [] 0 = Ok (1, example_thread) ∧
  ∀ r, thread_step 77 (name_ example_thread) example_early r → ∃ w', r = Ok w'.
Proof.
  split; [vm_compute; reflexivity|].
  apply (thread_lifetime 77 [] 0 1 example_thread example_early); [lia|vm_compute; reflexivity|exact example_early_reachable].
Defined.

End Thread.

Module CurrentThreadText.
Import Thread(text).

(** [nanosleep]'s argument. *)
Definition sleepUsec (usec : Z) : Z * Z := (Z.quot usec 1000000, Z.rem usec 1000000 * 1000).

Lemma sleepUsec_normal usec :
  0 ≤ usec → let '(sec, nsec) := sleepUsec usec in 0 ≤ nsec < 1000000000 ∧ sec * 1000000000 + nsec = usec * 1000.
Proof.
  intros H. unfold sleepUsec. rewrite Z.quot_div_nonneg, Z.rem_mod_nonneg by lia.
  pose proof (Z.div_mod usec 1000000 ltac:(lia)). pose proof (Z.mod_pos_bound usec 1000000 ltac:(lia)). lia.
Qed.

(** The loop that remembers the last parenthesis and the last plus sign. *)
Fixpoint scan (l : bytes) (i : Z) (left_par plus : option Z) : option Z * option Z :=
  match l with
  | [] => (left_par, plus)
  | c :: l =>
      if bool_decide (c = "("%char) then scan l (i + 1) (Some i) plus
      else if bool_decide (c = "+"%char) then scan l (i + 1) left_par (Some i)
      else scan l (i + 1) left_par plus
  end.

Section trace.
(** abi::__cxa_demangle: [None] when its status is not 0. *)
Context (cxa_demangle : bytes → option bytes).

(** The C string that starts at [left_par + 1] while the plus sign is a NUL. *)
Definition mangled (symbol : bytes) (left_par plus : Z) : bytes :=
  if left_par <? plus then ztake (plus - left_par - 1) (zdrop (left_par + 1) symbol) else zdrop (left_par + 1) symbol.

Definition trace_line (demangle : bool) (symbol : bytes) : bytes :=
  let fallback := symbol ++ ["010"%char] in
  if demangle then
    match scan symbol 0 None None with
    | (Some left_par, Some plus) =>
        match cxa_demangle (mangled symbol left_par plus) with
        | Some demangled => ztake (left_par + 1) symbol ++ demangled ++ zdrop plus symbol ++ ["010"%char]
        | None => fallback
        end
    | _ => fallback
    end
  else fallback.

(** [strings]: what backtrace_symbols(3) returned, without NUL bytes; the first is
    [stackTrace] itself. *)
Definition stackTrace (demangle : bool) (strings : option (list bytes)) : bytes :=
  match strings with
  | Some l => tail l ≫= trace_line demangle
  | None => []
  end.

Definition plain (c : ascii) : Prop := c ≠ "("%char ∧ c ≠ "+"%char.
Lemma scan_plain l : ∀ i lp pl, Forall plain l → scan l i lp pl = (lp, pl).
Proof.
  induction l as [|c l IH]; intros i lp pl H; [done|]. apply Forall_cons in H as [[H1 H2] H]. cbn.
  rewrite !bool_decide_false by done. by apply IH.
Qed.
Lemma scan_app l1 l2 : ∀ i lp pl, scan (l1 ++ l2) i lp pl = let '(lp', pl') := scan l1 i lp pl in scan l2 (i + zlen l1) lp' pl'.
Proof.
  induction l1 as [|c l1 IH]; intros i lp pl; cbn [app scan]; [by rewrite zlen_nil, Z.add_0_r|].
  rewrite zlen_cons. replace (i + (1 + zlen l1)) with (i + 1 + zlen l1) by lia. case_bool_decide; [apply IH|].
  case_bool_decide; apply IH.
Qed.

(** A symbol as glibc prints it, [file(function+offset) address]: exactly the function
    name is replaced, whatever the file is called. *)
Lemma trace_line_demangles file fn offset demangled :
  Forall plain fn → Forall plain offset → cxa_demangle fn = Some demangled →
  trace_line true (file ++ "("%char :: fn ++ "+"%char :: offset) = file ++ "("%char :: demangled ++ "+"%char :: offset ++ ["010"%char].
Proof.
  intros Hfn Hoff Hd. unfold trace_line. rewrite scan_app. destruct (scan file 0 None None) as [lp pl].
  cbn [scan]. rewrite bool_decide_true by done. rewrite scan_app, scan_plain by done. cbn [scan].
  rewrite bool_decide_false, bool_decide_true by done. rewrite scan_plain by done. cbn iota.
  rewrite Z.add_0_l. set (n := zlen file).
  assert (file ++ "("%char :: fn ++ "+"%char :: offset = (file ++ ["("%char]) ++ fn ++ "+"%char :: offset) as -> by (by rewrite <- app_assoc).
  assert (zlen (file ++ ["("%char]) = n + 1) as Hn by (by rewrite zlen_app). set (head := file ++ ["("%char]) in *.
  pose proof (zlen_nonneg fn). unfold mangled. rewrite (proj2 (Z.ltb_lt _ _)) by lia. rewrite zdrop_app_exact by done.
  rewrite ztake_app_exact by lia. rewrite Hd, ztake_app_exact by done.
  replace (n + 1 + zlen fn) with (zlen (head ++ fn)) by (rewrite zlen_app; lia). rewrite (app_assoc head fn).
  rewrite zdrop_app_exact by done. unfold head. by rewrite <- !app_assoc.
Qed.
End trace.

End CurrentThreadText.

Module Singleton.

(** pthread_once(3) lets one thread run [init] and makes the others wait for it. *)
Inductive once := Fresh | InProgress | Complete.
Inductive thread := Outside | Calling | InInit | AfterOnce | Returned (value : Z).

Record state := mkState {
  ponce_ : once;
  value_ : option Z;
  created : Z;               (* how many objects were made *)
  at_exit : Z;               (* how often [destroy] was registered *)
  threads : list thread
}.
Definition initial (n : nat) : state := mkState Fresh None 0 0 (replicate n Outside).

(** [obj]: the address [new T()] returns. *)
Definition init (no_destroy : bool) (obj : Z) (s : state) : state :=
  mkState Complete (Some obj) (created s + 1) (if no_destroy then at_exit s else at_exit s + 1) (threads s).
(** The end of [instance()]. *)
Definition instance_returns (i : nat) (s : state) : result state :=
  match value_ s with
  | Some v => Ok (mkState (ponce_ s) (value_ s) (created s) (at_exit s) (<[i := Returned v]> (threads s)))
  | None => Fail AssertFailed
  end.
Definition destroy (s : state) : state := mkState (ponce_ s) None (created s) (at_exit s) (threads s).

Definition goes (i : nat) (t : thread) (s : state) : state :=
  mkState (ponce_ s) (value_ s) (created s) (at_exit s) (<[i := t]> (threads s)).
Inductive singleton_step (no_destroy : bool) (s : state) : result state → Prop :=
  | Call i t : threads s !! i = Some t → t = Outside ∨ (∃ v, t = Returned v) → singleton_step no_destroy s (Ok (goes i Calling s))
  | Enter i : threads s !! i = Some Calling → ponce_ s = Fresh →
      singleton_step no_destroy s (Ok (mkState InProgress (value_ s) (created s) (at_exit s) (<[i := InInit]> (threads s))))
  | Init i obj : threads s !! i = Some InInit → singleton_step no_destroy s (Ok (init no_destroy obj (goes i AfterOnce s)))
  | Pass i : threads s !! i = Some Calling → ponce_ s = Complete → singleton_step no_destroy s (Ok (goes i AfterOnce s))
  | Return i : threads s !! i = Some AfterOnce → singleton_step no_destroy s (instance_returns i s).

Inductive reachable (no_destroy : bool) (n : nat) : state → Prop :=
  | Initial : reachable no_destroy n (initial n)
  | Step s s' : reachable no_destroy n s → singleton_step no_destroy s (Ok s') → reachable no_destroy n s'.

(** What a thread may be doing, given how far the initialization is. *)
Definition may (o : once) (v : option Z) (t : thread) : Prop :=
  match t with
  | Outside | Calling => True
  | InInit => o = InProgress
  | AfterOnce => o = Complete
  | Returned x => o = Complete ∧ v = Some x
  end.
Record sing_inv (no_destroy : bool) (s : state) : Prop := {
  si_once : match ponce_ s with
    | Complete => is_Some (value_ s) ∧ created s = 1 ∧ at_exit s = (if no_destroy then 0 else 1)
    | _ => value_ s = None ∧ created s = 0 ∧ at_exit s = 0
    end;
  si_threads : ∀ i t, threads s !! i = Some t → may (ponce_ s) (value_ s) t;
  si_one : ∀ i j, threads s !! i = Some InInit → threads s !! j = Some InInit → i = j
}.

Lemma thread_goes nd s i t :
  sing_inv nd s → may (ponce_ s) (value_ s) t → t ≠ InInit → sing_inv nd (goes i t s).
Proof.
  intros [H1 H2 H3] Hm Hn. split; cbn; [done|..].
  - intros j u Hj. apply list_lookup_insert_Some in Hj as [(_ & -> & _)|[_ Hj]]; eauto.
  - intros j k Hj Hk. apply list_lookup_insert_Some in Hj as [(_ & E & _)|[_ Hj]]; [done|].
    apply list_lookup_insert_Some in Hk as [(_ & E & _)|[_ Hk]]; [done|]. eauto.
Qed.

Lemma singleton_step_inv nd s r : sing_inv nd s → singleton_step nd s r → ∃ s', r = Ok s' ∧ sing_inv nd s'.
Proof.
  intros H Hs. pose proof H as [H1 H2 H3]. destruct Hs as [i t Hi Ht|i Hi Ho|i obj Hi|i Hi Ho|i Hi].
  - eexists. split; [done|]. by apply thread_goes.
  - eexists. split; [done|]. rewrite Ho in *. destruct H1 as (Hv & Hc & Ha).
    assert (∀ j u, threads s !! j = Some u → u = Outside ∨ u = Calling) as Hfew.
    { intros j u Hj. specialize (H2 j u Hj). destruct u; cbn in H2; auto; try done. by destruct H2. }
    split; cbn; [done|..].
    + intros j u Hj. apply list_lookup_insert_Some in Hj as [(_ & <- & _)|[_ Hj]]; [done|].
      by destruct (Hfew j u Hj) as [->| ->].
    + intros j k Hj Hk. apply list_lookup_insert_Some in Hj as [(<- & _)|[_ Hj]]; [|by destruct (Hfew _ _ Hj)].
      apply list_lookup_insert_Some in Hk as [(<- & _)|[_ Hk]]; [done|by destruct (Hfew _ _ Hk)].
  - eexists. split; [done|]. pose proof (H2 _ _ Hi) as Ho. cbn in Ho. rewrite Ho in *. destruct H1 as (Hv & Hc & Ha). split; cbn.
    + rewrite Hc, Ha. by destruct nd.
    + intros j u Hj. apply list_lookup_insert_Some in Hj as [(_ & <- & _)|[Hne Hj]]; [done|]. specialize (H2 j u Hj).
      destruct u; cbn in *; try done; [|by destruct H2]. by destruct (Hne (H3 _ _ Hi Hj)).
    + intros j k Hj Hk. apply list_lookup_insert_Some in Hj as [(_ & E & _)|[Hne Hj]]; [done|]. by destruct (Hne (H3 _ _ Hi Hj)).
  - eexists. split; [done|]. by apply thread_goes.
  - pose proof (H2 _ _ Hi) as Ho. cbn in Ho. rewrite Ho in H1. destruct H1 as ([v Hv] & _). unfold instance_returns. rewrite Hv.
    eexists. split; [done|]. rewrite <- Hv. apply (thread_goes nd s i (Returned v)); done.
Qed.

(** [instance()] creates the object once, however many threads call it at a time;
    every call returns this object, and its assertion holds. *)
Theorem singleton_once nd n s :
  reachable nd n s →
  created s ≤ 1 ∧ at_exit s ≤ created s ∧ (∀ r, singleton_step nd s r → ∃ s', r = Ok s') ∧
  ∀ i j v v', threads s !! i = Some (Returned v) → threads s !! j = Some (Returned v') → v = v' ∧ created s = 1.
Proof.
  intros Hr. assert (sing_inv nd s) as H.
  { induction Hr as [|s s' _ IH Hs].
    - split; cbn; [done|..].
      + intros i t Hi. by apply lookup_replicate in Hi as [-> _].
      + intros i j Hi. by apply lookup_replicate in Hi as [? _].
    - destruct (singleton_step_inv nd s _ IH Hs) as (s2 & [= <-] & H2). done. }
  pose proof H as [H1 H2 _]. split_and!.
  - destruct (ponce_ s); destruct H1 as (_ & ? & _); lia.
  - destruct (ponce_ s); destruct H1 as (_ & ? & ?); try lia. destruct nd; lia.
  - intros r Hs. destruct (singleton_step_inv nd s r H Hs) as (s' & -> & _). eauto.
  - intros i j v v' Hi Hj. destruct (H2 _ _ Hi) as [Ho Hv], (H2 _ _ Hj) as [_ Hv']. rewrite Ho in H1. split; [congruence|tauto].
Qed.

End Singleton.

Module ThreadLocal.

(** [specific]: what pthread_getspecific(3) returns in each thread; [live]: the objects
    that exist. *)
Record state := mkState { specific : gmap nat Z; live : gset Z }.

(** [ThreadLocal::value] in thread [i]; [obj]: the address a new object has. *)
Definition value (i : nat) (obj : Z) (s : state) : state * Z :=
  match specific s !! i with
  | Some v => (s, v)
  | None => (mkState (<[i := obj]> (specific s)) ({[obj]} ∪ live s), obj)
  end.
Definition delete_obj (obj : Z) (s : state) : result state :=
  if decide (obj ∈ live s) then Ok (mkState (specific s) (live s ∖ {[obj]})) else Fail OutOfRange.
(** Thread [i] ends: the system clears the value and calls [destructor] with it. *)
Definition thread_exits (i : nat) (s : state) : result state :=
  match specific s !! i with
  | Some v => delete_obj v (mkState (delete i (specific s)) (live s))
  | None => Ok s
  end.

(** Every thread has its own object, and these are the objects that exist. *)
Definition own_objects (s : state) : Prop :=
  (∀ i j v, specific s !! i = Some v → specific s !! j = Some v → i = j) ∧
  ∀ v, v ∈ live s ↔ ∃ i, specific s !! i = Some v.

Lemma value_own i obj s :
  own_objects s → obj ∉ live s →
  own_objects (value i obj s).1 ∧ specific (value i obj s).1 !! i = Some (value i obj s).2 ∧
  ∀ j, j ≠ i → specific (value i obj s).1 !! j = specific s !! j.
Proof.
  intros [Hinj Hlive] Hfresh. unfold value. destruct (specific s !! i) as [v|] eqn:Hi; [done|]. cbn.
  assert (∀ j, specific s !! j ≠ Some obj) as Hno by (intros j Hj; apply Hfresh, Hlive; eauto). split_and!.
  - split; cbn.
    + intros j k v Hj Hk. apply lookup_insert_Some in Hj as [[<- <-]|[_ Hj]]; apply lookup_insert_Some in Hk as [[<- E]|[_ Hk]]; eauto; naive_solver.
    + intros v. rewrite elem_of_union, elem_of_singleton, Hlive. split.
      * intros [->|[j Hj]]; [exists i; by rewrite lookup_insert_eq|]. exists j. rewrite lookup_insert_ne; [done|]. congruence.
      * intros [j Hj]. apply lookup_insert_Some in Hj as [[_ <-]|[_ Hj]]; eauto.
  - by rewrite lookup_insert_eq.
  - intros j Hj. by rewrite lookup_insert_ne.
Qed.

(** The object of a thread that ends is deleted, once, and no other. *)
Lemma thread_exits_own i s :
  own_objects s → ∃ s', thread_exits i s = Ok s' ∧ own_objects s' ∧ specific s' = delete i (specific s) ∧
    ∀ v, v ∈ live s' ↔ v ∈ live s ∧ specific s !! i ≠ Some v.
Proof.
  intros [Hinj Hlive]. unfold thread_exits. destruct (specific s !! i) as [v|] eqn:Hi.
  - unfold delete_obj. cbn [live]. assert (v ∈ live s) as Hv by (apply Hlive; eauto). rewrite decide_True by done.
    eexists. split; [done|]. cbn [specific live]. split_and!; [|done|set_solver]. split; cbn [specific live].
    + intros j k x Hj Hk. apply lookup_delete_Some in Hj as [_ Hj]. apply lookup_delete_Some in Hk as [_ Hk]. eauto.
    + intros x. rewrite elem_of_difference, elem_of_singleton, Hlive. split.
      * intros [[j Hj] Hne]. exists j. apply lookup_delete_Some. split; [|done]. congruence.
      * intros [j Hj]. apply lookup_delete_Some in Hj as [Hne Hj]. split; [eauto|]. intros ->. eauto.
  - exists s. split_and!; try done; [by rewrite delete_id|]. intros v. split; [done|]. by intros [? _].
Qed.

End ThreadLocal.

Module ThreadLocalSingleton.
Import ThreadLocal(state, mkState, specific, live, delete_obj, own_objects).

(** [t_value_] of each thread, beside the key's values. *)
Record tls := mkTls { t_value_ : gmap nat Z; store : state }.

Definition instance (i : nat) (obj : Z) (s : tls) : result (tls * Z) :=
  match t_value_ s !! i with
  | Some v => Ok (s, v)
  | None =>
      _ ← check (bool_decide (specific (store s) !! i = None));
      Ok (mkTls (<[i := obj]> (t_value_ s)) (mkState (<[i := obj]> (specific (store s))) ({[obj]} ∪ live (store s))), obj)
  end.
Definition pointer (i : nat) (s : tls) : option Z := t_value_ s !! i.
(** [destructor], called by the system when thread [i] ends. *)
Definition destructor (i : nat) (obj : Z) (s : tls) : result tls :=
  _ ← check (bool_decide (t_value_ s !! i = Some obj));
  st ← delete_obj obj (store s);
  Ok (mkTls (delete i (t_value_ s)) st).
Definition thread_exits (i : nat) (s : tls) : result tls :=
  match specific (store s) !! i with
  | Some v => destructor i v (mkTls (t_value_ s) (mkState (delete i (specific (store s))) (live (store s))))
  | None => Ok s
  end.

Definition tls_ok (s : tls) : Prop := t_value_ s = specific (store s) ∧ own_objects (store s).

(** The two copies of the pointer agree: neither [Deleter::set] nor [destructor] finds
    its assertion false, and the behaviour is that of [ThreadLocal]. *)
Lemma instance_as_value i obj s :
  tls_ok s → obj ∉ live (store s) →
  ∃ s' v, instance i obj s = Ok (s', v) ∧ ThreadLocal.value i obj (store s) = (store s', v) ∧ tls_ok s'.
Proof.
  intros [Heq Hown] Hf. destruct (ThreadLocal.value_own i obj (store s) Hown Hf) as (Ho & _ & _).
  unfold instance, ThreadLocal.value in *. rewrite Heq in *. destruct (specific (store s) !! i) as [v|] eqn:Hi.
  - by exists s, v.
  - rewrite check_true by (by apply bool_decide_eq_true). eexists _, _. split; [done|]. split; [done|]. split; [|done]. cbn. by rewrite ?Heq.
Qed.
Lemma exit_as_thread_local i s :
  tls_ok s → ∃ s', thread_exits i s = Ok s' ∧ ThreadLocal.thread_exits i (store s) = Ok (store s') ∧ tls_ok s'.
Proof.
  intros [Heq Hown]. destruct (ThreadLocal.thread_exits_own i (store s) Hown) as (st & E & Ho & Hsp & _).
  unfold thread_exits, ThreadLocal.thread_exits in *. destruct (specific (store s) !! i) as [v|] eqn:Hi.
  - unfold destructor. cbn [t_value_ store]. rewrite Heq, Hi. rewrite check_true by (by apply bool_decide_eq_true). rewrite bind_Ok, E, bind_Ok.
    eexists. split; [done|]. split; [done|]. split; [|done]. cbn. by rewrite Hsp.
  - exists s. injection E as <-. done.
Qed.

End ThreadLocalSingleton.
