(* ===== verification/Inspector.v ===== *)
(** * Inspector ([net/inspect/Inspector.h], [net/inspect/Inspector.cc])

    A registry of commands behind an HTTP server: the path of a request is split into
    a module, a command and arguments. Callbacks are functions; [MutexLock] is held
    by every operation, so each is one step. *)

From stdpp Require Import sets sorting.
From S2P Require Import Prelude Endian Format StringPiece NetBuffer Channel TcpConnection Http.
Import Endian.

(** [std::map<string, A>]: pairs sorted by key. *)
Module StdMap.
Section map.
Context {A : Type}.
Definition t := list (bytes * A).

Fixpoint find (k : bytes) (m : t) : option A :=
  match m with
  | [] => None
  | (k', v) :: m => if bool_decide (k = k') then Some v else find k m
  end.
(** [m[k] = v] *)
Fixpoint set (k : bytes) (v : A) (m : t) : t :=
  match m with
  | [] => [(k, v)]
  | (k', v') :: m' =>
      if bool_decide (k = k') then (k, v) :: m'
      else if StringMap.ltb k k' then (k, v) :: m else (k', v') :: set k v m'
  end.
Fixpoint erase (k : bytes) (m : t) : t :=
  match m with
  | [] => []
  | (k', v) :: m => if bool_decide (k = k') then m else (k', v) :: erase k m
  end.

(** Strictly ascending keys. *)
Fixpoint sorted (m : t) : Prop :=
  match m with
  | [] => True
  | (k, _) :: m => Forall (λ p, StringMap.ltb k p.1 = true) m ∧ sorted m
  end.
End map.
Arguments t A : clear implicits.

(** The order of keys. *)
Lemma ltb_irrefl k : StringMap.ltb k k = false.
Proof. induction k as [|c k IH]; cbn; [done|]. by rewrite Z.ltb_irrefl, bool_decide_true, IH. Qed.
Lemma ltb_trans k1 : ∀ k2 k3, StringMap.ltb k1 k2 = true → StringMap.ltb k2 k3 = true → StringMap.ltb k1 k3 = true.
Proof.
  induction k1 as [|a k1 IH]; intros [|b k2] [|c k3]; try done. cbn.
  rewrite !orb_true_iff, !andb_true_iff, !Z.ltb_lt, !bool_decide_eq_true. intros [H1|[-> H1]] [H2|[-> H2]]; eauto; left; lia.
Qed.
Lemma ltb_total k1 : ∀ k2, k1 ≠ k2 → StringMap.ltb k1 k2 = false → StringMap.ltb k2 k1 = true.
Proof.
  induction k1 as [|a k1 IH]; intros [|b k2] Hne; try done. cbn.
  rewrite orb_false_iff, andb_false_iff, Z.ltb_ge, bool_decide_eq_false, orb_true_iff, andb_true_iff, Z.ltb_lt, bool_decide_eq_true.
  intros [H1 H2]. destruct (decide (byte_val b < byte_val a)) as [|Hge]; [by left|]. right.
  assert (a = b) as -> by (rewrite <- (byte_of_val a), <- (byte_of_val b); f_equal; lia).
  split; [done|]. destruct H2 as [|H2]; [done|]. apply IH; congruence.
Qed.

Lemma find_set {A} k v (m : t A) k' : find k' (set k v m) = if bool_decide (k' = k) then Some v else find k' m.
Proof.
  induction m as [|[k1 v1] m IH]; cbn; [by repeat case_bool_decide|].
  repeat (case_bool_decide || case_match); simplify_eq; cbn; repeat case_bool_decide; simplify_eq; try done.
Qed.
Lemma find_above {A} k (m : t A) : Forall (λ p, StringMap.ltb k p.1 = true) m → find k m = None.
Proof.
  induction 1 as [|[k' v] m Hk _ IH]; [done|]. cbn in *. rewrite bool_decide_false; [done|]. intros ->. by rewrite ltb_irrefl in Hk.
Qed.
Lemma find_erase {A} k (m : t A) k' : sorted m → find k' (erase k m) = if bool_decide (k' = k) then None else find k' m.
Proof.
  induction m as [|[k1 v1] m IH]; cbn; [by case_bool_decide|]. intros [Hk Hs]. destruct (decide (k = k1)) as [->|Hne].
  - rewrite (bool_decide_true (k1 = k1)) by done. case_bool_decide as E; [|done]. subst k'. by apply find_above.
  - rewrite (bool_decide_false (k = k1)) by done. cbn. rewrite IH by done. repeat case_bool_decide; simplify_eq; done.
Qed.
Lemma set_Forall {A} (P : bytes → Prop) k v (m : t A) : P k → Forall (λ p, P p.1) m → Forall (λ p, P p.1) (set k v m).
Proof.
  intros Hk. induction 1 as [|[k1 v1] m H1 Hm IH]; cbn; [by repeat constructor|]. case_bool_decide; [by constructor|].
  case_match; by repeat constructor.
Qed.
Lemma sorted_set {A} k v (m : t A) : sorted m → sorted (set k v m).
Proof.
  induction m as [|[k1 v1] m IH]; cbn; [done|]. intros [H1 Hs]. case_bool_decide as E; [by subst|]. case_match eqn:El; cbn.
  - split; [|done]. constructor; [done|]. eapply Forall_impl; [exact H1|]. intros p Hp. by eapply ltb_trans.
  - split; [|by apply IH]. apply (set_Forall (λ x, StringMap.ltb k1 x = true)); [by apply ltb_total|done].
Qed.
Lemma erase_Forall {A} (P : bytes * A → Prop) k (m : t A) : Forall P m → Forall P (erase k m).
Proof. induction 1 as [|[k1 v1] m H1 Hm IH]; cbn; [constructor|]. case_bool_decide; [done|by constructor]. Qed.
Lemma sorted_erase {A} k (m : t A) : sorted m → sorted (erase k m).
Proof.
  induction m as [|[k1 v1] m IH]; cbn; [done|]. intros [H1 Hs]. case_bool_decide as E; [done|]. split; [by apply erase_Forall|by apply IH].
Qed.
End StdMap.

Module Inspector.
Import HttpRequest(Method, HttpRequest) HttpResponse(HttpResponse).

(** [str.find('/', start)] *)
Fixpoint find_slash (l : bytes) : option Z :=
  match l with
  | [] => None
  | c :: l => if bool_decide (c = "/"%char) then Some 0 else Z.succ <$> find_slash l
  end.
Definition find_from (str : bytes) (start : Z) : option Z := Z.add start <$> find_slash (zdrop start str).

Fixpoint split_loop (fuel : nat) (str : bytes) (result : list bytes) (start : Z) (pos : option Z) : option (list bytes * Z) :=
  match pos with
  | None => Some (result, start)
  | Some pos =>
      match fuel with
      | O => None
      | S fuel =>
          let result := if start <? pos then result ++ [ztake (pos - start) (zdrop start str)] else result in
          let start := pos + 1 in
          split_loop fuel str result start (find_from str start)
      end
  end.
Definition split (str : bytes) : option (list bytes) :=
  match split_loop (S (length str)) str [] 0 (find_from str 0) with
  | None => None
  | Some (result, start) => Some (if start <? zlen str then result ++ [zdrop start str] else result)
  end.

Definition favicon : bytes := byte_of <$> [
   137; 80; 78; 71; 13; 10; 26; 10; 0; 0; 0; 13; 73; 72; 68; 82; 0; 0; 0; 16; 0; 0; 0; 16; 8; 6; 0; 0; 0; 31;
   243; 255; 97; 0; 0; 0; 4; 115; 66; 73; 84; 8; 8; 8; 8; 124; 8; 100; 136; 0; 0; 0; 9; 112; 72; 89; 115; 0; 0; 11;
   18; 0; 0; 11; 18; 1; 210; 221; 126; 252; 0; 0; 0; 28; 116; 69; 88; 116; 83; 111; 102; 116; 119; 97; 114; 101; 0; 65; 100; 111;
   98; 101; 32; 70; 105; 114; 101; 119; 111; 114; 107; 115; 32; 67; 83; 51; 152; 214; 70; 3; 0; 0; 0; 21; 116; 69; 88; 116; 67; 114;
   101; 97; 116; 105; 111; 110; 32; 84; 105; 109; 101; 0; 50; 47; 49; 55; 47; 48; 56; 32; 156; 170; 88; 0; 0; 4; 17; 116; 69; 88;
   116; 88; 77; 76; 58; 99; 111; 109; 46; 97; 100; 111; 98; 101; 46; 120; 109; 112; 0; 60; 63; 120; 112; 97; 99; 107; 101; 116; 32; 98;
   101; 103; 105; 110; 61; 34; 32; 32; 32; 34; 32; 105; 100; 61; 34; 87; 53; 77; 48; 77; 112; 67; 101; 104; 105; 72; 122; 114; 101; 83;
   122; 78; 84; 99; 122; 107; 99; 57; 100; 34; 63; 62; 10; 60; 120; 58; 120; 109; 112; 109; 101; 116; 97; 32; 120; 109; 108; 110; 115; 58;
   120; 61; 34; 97; 100; 111; 98; 101; 58; 110; 115; 58; 109; 101; 116; 97; 47; 34; 32; 120; 58; 120; 109; 112; 116; 107; 61; 34; 65; 100;
   111; 98; 101; 32; 88; 77; 80; 32; 67; 111; 114; 101; 32; 52; 46; 49; 45; 99; 48; 51; 52; 32; 52; 54; 46; 50; 55; 50; 57; 55;
   54; 44; 32; 83; 97; 116; 32; 74; 97; 110; 32; 50; 55; 32; 50; 48; 48; 55; 32; 50; 50; 58; 49; 49; 58; 52; 49; 32; 32; 32;
   32; 32; 32; 32; 32; 34; 62; 10; 32; 32; 32; 60; 114; 100; 102; 58; 82; 68; 70; 32; 120; 109; 108; 110; 115; 58; 114; 100; 102; 61;
   34; 104; 116; 116; 112; 58; 47; 47; 119; 119; 119; 46; 119; 51; 46; 111; 114; 103; 47; 49; 57; 57; 57; 47; 48; 50; 47; 50; 50; 45;
   114; 100; 102; 45; 115; 121; 110; 116; 97; 120; 45; 110; 115; 35; 34; 62; 10; 32; 32; 32; 32; 32; 32; 60; 114; 100; 102; 58; 68; 101;
   115; 99; 114; 105; 112; 116; 105; 111; 110; 32; 114; 100; 102; 58; 97; 98; 111; 117; 116; 61; 34; 34; 10; 32; 32; 32; 32; 32; 32; 32;
   32; 32; 32; 32; 32; 120; 109; 108; 110; 115; 58; 120; 97; 112; 61; 34; 104; 116; 116; 112; 58; 47; 47; 110; 115; 46; 97; 100; 111; 98;
   101; 46; 99; 111; 109; 47; 120; 97; 112; 47; 49; 46; 48; 47; 34; 62; 10; 32; 32; 32; 32; 32; 32; 32; 32; 32; 60; 120; 97; 112;
   58; 67; 114; 101; 97; 116; 111; 114; 84; 111; 111; 108; 62; 65; 100; 111; 98; 101; 32; 70; 105; 114; 101; 119; 111; 114; 107; 115; 32; 67;
   83; 51; 60; 47; 120; 97; 112; 58; 67; 114; 101; 97; 116; 111; 114; 84; 111; 111; 108; 62; 10; 32; 32; 32; 32; 32; 32; 32; 32; 32;
   60; 120; 97; 112; 58; 67; 114; 101; 97; 116; 101; 68; 97; 116; 101; 62; 50; 48; 48; 56; 45; 48; 50; 45; 49; 55; 84; 48; 50; 58;
   51; 54; 58; 52; 53; 90; 60; 47; 120; 97; 112; 58; 67; 114; 101; 97; 116; 101; 68; 97; 116; 101; 62; 10; 32; 32; 32; 32; 32; 32;
   32; 32; 32; 60; 120; 97; 112; 58; 77; 111; 100; 105; 102; 121; 68; 97; 116; 101; 62; 50; 48; 48; 56; 45; 48; 51; 45; 50; 52; 84;
   49; 57; 58; 48; 48; 58; 52; 50; 90; 60; 47; 120; 97; 112; 58; 77; 111; 100; 105; 102; 121; 68; 97; 116; 101; 62; 10; 32; 32; 32;
   32; 32; 32; 60; 47; 114; 100; 102; 58; 68; 101; 115; 99; 114; 105; 112; 116; 105; 111; 110; 62; 10; 32; 32; 32; 32; 32; 32; 60; 114;
   100; 102; 58; 68; 101; 115; 99; 114; 105; 112; 116; 105; 111; 110; 32; 114; 100; 102; 58; 97; 98; 111; 117; 116; 61; 34; 34; 10; 32; 32;
   32; 32; 32; 32; 32; 32; 32; 32; 32; 32; 120; 109; 108; 110; 115; 58; 100; 99; 61; 34; 104; 116; 116; 112; 58; 47; 47; 112; 117; 114;
   108; 46; 111; 114; 103; 47; 100; 99; 47; 101; 108; 101; 109; 101; 110; 116; 115; 47; 49; 46; 49; 47; 34; 62; 10; 32; 32; 32; 32; 32;
   32; 32; 32; 32; 60; 100; 99; 58; 102; 111; 114; 109; 97; 116; 62; 105; 109; 97; 103; 101; 47; 112; 110; 103; 60; 47; 100; 99; 58; 102;
   111; 114; 109; 97; 116; 62; 10; 32; 32; 32; 32; 32; 32; 60; 47; 114; 100; 102; 58; 68; 101; 115; 99; 114; 105; 112; 116; 105; 111; 110;
   62; 10; 32; 32; 32; 60; 47; 114; 100; 102; 58; 82; 68; 70; 62; 10; 60; 47; 120; 58; 120; 109; 112; 109; 101; 116; 97; 62; 10; 32;
   32; 32; 32; 32; 32; 32; 32; 32; 32; 32; 32; 32; 32; 32; 32; 32; 32; 32; 32; 32; 32; 32; 32; 32; 32; 32; 32; 32; 32; 32;
   32; 32; 32; 32; 32; 32; 32; 32; 32; 32; 32; 32; 32; 32; 32; 32; 32; 32; 32; 32; 32; 32; 32; 32; 32; 32; 32; 32; 32; 32;
   32; 32; 32; 32; 32; 32; 32; 32; 32; 32; 32; 32; 32; 32; 32; 32; 32; 32; 32; 32; 32; 32; 32; 32; 32; 32; 32; 32; 32; 32;
   32; 32; 32; 32; 32; 32; 32; 32; 32; 10; 32; 32; 32; 32; 32; 32; 32; 32; 32; 32; 32; 32; 32; 32; 32; 32; 32; 32; 32; 32;
   32; 32; 32; 32; 32; 32; 32; 32; 32; 32; 32; 32; 32; 32; 32; 32; 32; 32; 32; 32; 32; 32; 32; 32; 32; 32; 32; 32; 32; 32;
   32; 32; 32; 32; 32; 32; 32; 32; 32; 32; 32; 32; 32; 32; 32; 32; 32; 32; 32; 32; 32; 32; 32; 32; 32; 32; 32; 32; 32; 32;
   32; 32; 32; 32; 32; 32; 32; 32; 32; 32; 32; 32; 32; 32; 32; 32; 32; 32; 32; 32; 10; 32; 32; 32; 32; 32; 32; 32; 32; 32;
   32; 32; 32; 32; 32; 32; 32; 32; 32; 32; 32; 32; 32; 32; 32; 32; 32; 32; 32; 32; 32; 32; 32; 32; 32; 32; 32; 32; 32; 32;
   32; 32; 32; 32; 32; 32; 32; 32; 32; 32; 32; 32; 32; 32; 32; 32; 32; 32; 32; 32; 32; 32; 32; 32; 32; 32; 32; 32; 32; 32;
   32; 32; 32; 32; 32; 32; 32; 32; 32; 32; 32; 32; 32; 32; 32; 32; 32; 32; 32; 32; 32; 32; 53; 29; 82; 100; 0; 0; 2; 11;
   73; 68; 65; 84; 56; 141; 165; 147; 65; 107; 26; 65; 24; 134; 159; 137; 6; 35; 46; 116; 245; 32; 74; 14; 107; 32; 228; 226; 165; 120;
   200; 161; 120; 137; 130; 23; 133; 130; 130; 61; 38; 98; 88; 114; 205; 79; 241; 24; 75; 27; 47; 165; 50; 224; 181; 158; 53; 26; 88; 47;
   233; 15; 232; 101; 109; 132; 162; 132; 44; 10; 107; 88; 98; 167; 135; 104; 104; 19; 161; 165; 121; 225; 59; 12; 195; 251; 204; 55; 239; 124;
   35; 148; 82; 188; 68; 126; 0; 33; 4; 0; 173; 86; 203; 24; 143; 199; 13; 219; 182; 211; 142; 227; 248; 131; 193; 160; 138; 199; 227; 63;
   18; 137; 68; 185; 92; 46; 247; 86; 166; 223; 15; 21; 74; 41; 132; 16; 52; 155; 205; 119; 150; 101; 125; 54; 12; 67; 228; 114; 57; 226;
   241; 56; 183; 183; 183; 244; 251; 125; 6; 131; 1; 169; 84; 234; 67; 165; 82; 57; 126; 10; 64; 41; 69; 171; 213; 50; 78; 79; 79; 127;
   74; 41; 213; 221; 221; 221; 179; 234; 245; 122; 234; 228; 228; 68; 73; 41; 211; 43; 207; 170; 54; 0; 198; 227; 113; 99; 103; 103; 71; 228;
   243; 121; 0; 60; 207; 163; 80; 40; 224; 186; 46; 158; 231; 145; 74; 165; 216; 219; 219; 99; 52; 26; 125; 124; 154; 193; 6; 128; 109; 219;
   233; 108; 54; 139; 207; 231; 195; 243; 60; 92; 215; 5; 96; 54; 155; 225; 186; 46; 139; 197; 130; 76; 38; 131; 109; 219; 187; 107; 67; 116;
   28; 199; 31; 139; 197; 0; 40; 22; 139; 143; 155; 213; 106; 21; 0; 41; 37; 154; 166; 49; 159; 207; 197; 90; 192; 214; 214; 150; 154; 76;
   38; 34; 20; 10; 33; 165; 100; 54; 155; 81; 173; 86; 169; 213; 106; 104; 154; 6; 192; 245; 245; 53; 186; 174; 223; 175; 189; 130; 97; 24;
   223; 44; 203; 122; 32; 250; 253; 4; 2; 1; 0; 52; 77; 35; 16; 8; 176; 88; 44; 232; 118; 187; 36; 18; 137; 139; 181; 29; 108; 111;
   111; 31; 117; 58; 157; 126; 56; 28; 38; 151; 203; 33; 132; 64; 74; 9; 192; 230; 230; 38; 237; 118; 155; 201; 100; 162; 166; 211; 233; 39;
   120; 152; 155; 213; 83; 62; 206; 193; 249; 249; 249; 251; 193; 96; 112; 156; 76; 38; 217; 223; 223; 39; 18; 137; 48; 28; 14; 185; 188; 188;
   228; 230; 230; 70; 249; 124; 190; 47; 211; 233; 52; 15; 52; 234; 245; 122; 229; 25; 96; 25; 214; 155; 209; 104; 212; 24; 14; 135; 187; 243;
   249; 92; 232; 186; 126; 111; 24; 198; 69; 52; 26; 61; 44; 149; 74; 223; 77; 211; 188; 2; 94; 3; 95; 129; 131; 179; 179; 51; 231; 15;
   192; 223; 100; 154; 166; 177; 52; 235; 128; 3; 28; 108; 252; 147; 115; 169; 122; 189; 110; 3; 71; 203; 165; 14; 188; 226; 127; 126; 163; 105;
   154; 135; 166; 105; 190; 85; 74; 61; 100; 240; 18; 253; 2; 13; 83; 6; 36; 136; 63; 225; 105; 0; 0; 0; 0; 73; 69; 78; 68; 174;
   66; 96; 130].

Definition Callback : Type := Method → list bytes → bytes.

(** A callback may be empty, as a [std::function] may. *)
Record Inspector := mkInspector {
  modules_ : StdMap.t (StdMap.t (option Callback));
  helps_ : StdMap.t (StdMap.t bytes)
}.
Definition empty : Inspector := mkInspector [] [].

(** [m[k1][k2] = v] *)
Definition set2 {A} (k1 k2 : bytes) (v : A) (m : StdMap.t (StdMap.t A)) : StdMap.t (StdMap.t A) :=
  StdMap.set k1 (StdMap.set k2 v (default [] (StdMap.find k1 m))) m.

Definition add (module command : bytes) (cb : option Callback) (help : bytes) (i : Inspector) : Inspector :=
  mkInspector (set2 module command cb (modules_ i)) (set2 module command help (helps_ i)).

Definition remove (module command : bytes) (i : Inspector) : Inspector :=
  match StdMap.find module (modules_ i) with
  | None => i
  | Some commands =>
      mkInspector (StdMap.set module (StdMap.erase command commands) (modules_ i))
        (StdMap.set module (StdMap.erase command (default [] (StdMap.find module (helps_ i)))) (helps_ i))
  end.

(** ** Requests *)

Definition help_line (module command help : bytes) : bytes :=
  let len := zlen module + zlen command in
  "/"%char :: module ++ "/"%char :: command ++ zrep (if 25 <=? len then 1 else 25 - len) " "%char ++ help ++ ["010"%char].
Definition help_page (helps : StdMap.t (StdMap.t bytes)) : bytes :=
  helps ≫= λ '(module, list), list ≫= λ '(command, help), help_line module command help.

Definition ok_response (contentType body : bytes) (resp : HttpResponse) : HttpResponse :=
  HttpResponse.setBody body (HttpResponse.setContentType contentType
    (HttpResponse.setStatusMessage (Channel.str "OK") (HttpResponse.setStatusCode HttpResponse.k200Ok resp))).
Definition not_found (resp : HttpResponse) : HttpResponse :=
  HttpResponse.setStatusMessage (Channel.str "Not Found") (HttpResponse.setStatusCode HttpResponse.k404NotFound resp).

Definition onRequest (i : Inspector) (req : HttpRequest) (resp : HttpResponse) : option HttpResponse :=
  if bool_decide (HttpRequest.path_ req = ["/"%char]) then
    Some (ok_response (Channel.str "text/plain") (help_page (helps_ i)) resp)
  else
    result ← split (HttpRequest.path_ req);
    Some match result with
    | [] => not_found resp
    | [module] =>
        if bool_decide (module = Channel.str "favicon.ico") then ok_response (Channel.str "image/png") favicon resp
        else not_found resp
    | module :: command :: args =>
        match StdMap.find module (modules_ i) with
        | None => not_found resp
        | Some commList =>
            match StdMap.find command commList with
            | Some (Some cb) => ok_response (Channel.str "text/plain") (cb (HttpRequest.method_ req) args) resp
            | _ => not_found resp
            end
        end
    end.

(** ** Splitting a path *)

(** The parts between slashes, and those of them that are not empty. *)
Fixpoint pieces (l : bytes) : list bytes :=
  match l with
  | [] => [[]]
  | c :: l =>
      if bool_decide (c = "/"%char) then [] :: pieces l
      else match pieces l with p :: ps => (c :: p) :: ps | [] => [[c]] end
  end.
Definition segments (l : bytes) : list bytes := filter (λ p, p ≠ []) (pieces l).

Lemma find_slash_Some l k :
  find_slash l = Some k → ∃ a b, l = a ++ "/"%char :: b ∧ zlen a = k ∧ pieces l = a :: pieces b.
Proof.
  revert k. induction l as [|c l IH]; intros k; [done|]. cbn [find_slash pieces]. case_bool_decide as Hc.
  - intros [= <-]. exists [], l. by subst c.
  - destruct (find_slash l) as [j|] eqn:E; [|done]. intros [= <-]. destruct (IH j eq_refl) as (a & b & -> & <- & ->).
    exists (c :: a), b. rewrite zlen_cons. split_and!; [done|lia|done].
Qed.
Lemma find_slash_None l : find_slash l = None → pieces l = [l].
Proof.
  induction l as [|c l IH]; [done|]. cbn [find_slash pieces]. case_bool_decide; [done|].
  destruct (find_slash l) as [j|] eqn:E; [done|]. intros _. by rewrite IH.
Qed.

Lemma split_loop_spec fuel : ∀ pre l result,
  (length l < fuel)%nat →
  ∃ r s, split_loop fuel (pre ++ l) result (zlen pre) (find_from (pre ++ l) (zlen pre)) = Some (r, s) ∧
    0 ≤ s ∧ (if s <? zlen (pre ++ l) then r ++ [zdrop s (pre ++ l)] else r) = result ++ segments l.
Proof.
  induction fuel as [|fuel IH]; intros pre l result Hf; [lia|]. unfold find_from. rewrite zdrop_app_exact by done.
  destruct (find_slash l) as [k|] eqn:E; cbn [split_loop fmap option_fmap option_map].
  - destruct (find_slash_Some l k E) as (a & b & -> & Ha & Hp). pose proof (zlen_nonneg a) as Hpos.
    rewrite zdrop_app_exact by done. replace (zlen pre + k - zlen pre) with (zlen a) by lia. rewrite ztake_app_exact by done.
    assert (pre ++ a ++ "/"%char :: b = (pre ++ a ++ ["/"%char]) ++ b) as Eapp by (by rewrite <- !app_assoc). rewrite Eapp.
    replace (zlen pre + k + 1) with (zlen (pre ++ a ++ ["/"%char])) by (rewrite !zlen_app; change (zlen ["/"%char]) with 1; lia).
    destruct (IH (pre ++ a ++ ["/"%char]) b (if zlen pre <? zlen pre + k then result ++ [a] else result)) as (r & s & Er & Hs & Hres).
    { rewrite length_app in Hf. cbn in Hf. lia. }
    exists r, s. split; [exact Er|]. split; [done|]. rewrite Hres. unfold segments. rewrite Hp.
    destruct a as [|c a].
    + change (zlen []) with 0 in Ha. subst k. rewrite (proj2 (Z.ltb_ge _ _)) by lia. by rewrite filter_cons_False by (by intros []).
    + rewrite zlen_cons in Ha. pose proof (zlen_nonneg a). rewrite (proj2 (Z.ltb_lt _ _)) by lia.
      rewrite filter_cons_True by done. by rewrite <- app_assoc.
  - exists result, (zlen pre). split; [done|]. split; [apply zlen_nonneg|]. unfold segments. rewrite (find_slash_None l E), zdrop_app_exact by done.
    rewrite zlen_app. destruct l as [|c l].
    + rewrite zlen_nil, (proj2 (Z.ltb_ge _ _)) by lia. rewrite filter_cons_False by (by intros []). by rewrite filter_nil, app_nil_r.
    + rewrite zlen_cons. pose proof (zlen_nonneg l). rewrite (proj2 (Z.ltb_lt _ _)) by lia. by rewrite filter_cons_True, filter_nil by done.
Qed.

Lemma split_segments str : split str = Some (segments str).
Proof.
  unfold split. destruct (split_loop_spec (S (length str)) [] str []) as (r & s & E & _ & Hres); [lia|].
  cbn [app] in E, Hres. change (zlen []) with 0 in E. by rewrite E, Hres.
Qed.

(** A path made of segments is split into them. *)
Definition segment (s : bytes) : Prop := s ≠ [] ∧ "/"%char ∉ s.
Definition path_of (segs : list bytes) : bytes := segs ≫= λ s, "/"%char :: s.
Lemma pieces_app s l : "/"%char ∉ s → pieces (s ++ l) = match pieces l with p :: ps => (s ++ p) :: ps | [] => [s] end.
Proof.
  induction s as [|c s IH]; intros Hs; cbn [app pieces]; [destruct l; cbn; [done|]; repeat case_match; done|].
  rewrite bool_decide_false by set_solver. rewrite IH by set_solver. by destruct (pieces l).
Qed.
Lemma segments_path segs : Forall segment segs → segments (path_of segs) = segs.
Proof.
  intros H. unfold segments. cut (∃ p, pieces (path_of segs) = p ∧ filter (λ p, p ≠ []) p = segs ∧ ∃ q, p = [] :: q).
  { by intros (p & -> & ? & _). }
  induction H as [|s segs [Hne Hs] _ IH]; [exists [[]]; by eauto|].
  destruct IH as (p & Hp & Hf & q & ->). unfold path_of in *. rewrite bind_cons. cbn [app pieces].
  rewrite bool_decide_true by done. rewrite pieces_app, Hp by done. eexists. split; [done|]. split; [|eauto].
  rewrite app_nil_r, filter_cons_False by (by intros []). rewrite filter_cons_True by done. f_equal.
  by rewrite filter_cons_False in Hf by (by intros []).
Qed.

(** ** The registry *)

Inductive op :=
  | Add (module command : bytes) (cb : option Callback) (help : bytes)
  | Remove (module command : bytes).
Definition apply_op (i : Inspector) (o : op) : Inspector :=
  match o with Add m c cb h => add m c cb h i | Remove m c => remove m c i end.

(** What the two maps stand for: per command, its callback and its help text. *)
Definition registry : Type := bytes → bytes → option (option Callback * bytes).
Definition register (R : registry) (o : op) : registry :=
  match o with
  | Add m c cb h => λ m' c', if bool_decide (m' = m ∧ c' = c) then Some (cb, h) else R m' c'
  | Remove m c => λ m' c', if bool_decide (m' = m ∧ c' = c) then None else R m' c'
  end.

Definition find2 {A} (m : StdMap.t (StdMap.t A)) (k1 k2 : bytes) : option A := l ← StdMap.find k1 m; StdMap.find k2 l.
Definition sorted2 {A} (m : StdMap.t (StdMap.t A)) : Prop := StdMap.sorted m ∧ ∀ k l, StdMap.find k m = Some l → StdMap.sorted l.

Lemma find2_set {A} (m : StdMap.t (StdMap.t A)) k l a b :
  find2 (StdMap.set k l m) a b = if bool_decide (a = k) then StdMap.find b l else find2 m a b.
Proof. unfold find2. rewrite StdMap.find_set. by case_bool_decide. Qed.
Lemma find_default {A} (m : StdMap.t (StdMap.t A)) k b : StdMap.find b (default [] (StdMap.find k m)) = find2 m k b.
Proof. unfold find2. by destruct (StdMap.find k m). Qed.
Lemma sorted2_set {A} (m : StdMap.t (StdMap.t A)) k l : sorted2 m → StdMap.sorted l → sorted2 (StdMap.set k l m).
Proof.
  intros [H1 H2] Hl. split; [by apply StdMap.sorted_set|]. intros k' l'. rewrite StdMap.find_set. case_bool_decide; [congruence|eauto].
Qed.
Lemma sorted_default {A} (m : StdMap.t (StdMap.t A)) k : sorted2 m → StdMap.sorted (default [] (StdMap.find k m)).
Proof. intros [_ H]. destruct (StdMap.find k m) eqn:E; [eauto|done]. Qed.

Record reg_inv (R : registry) (i : Inspector) : Prop := {
  ri_modules : sorted2 (modules_ i);
  ri_helps : sorted2 (helps_ i);
  ri_cb : ∀ m c, find2 (modules_ i) m c = fst <$> R m c;
  ri_help : ∀ m c, find2 (helps_ i) m c = snd <$> R m c
}.

Lemma apply_op_inv R i o : reg_inv R i → reg_inv (register R o) (apply_op i o).
Proof.
  intros [H1 H2 H3 H4]. destruct o as [m c cb h|m c]; cbn [apply_op register].
  - unfold add, set2. split; cbn [modules_ helps_].
    1,2: apply sorted2_set; [done|]; apply StdMap.sorted_set; by apply sorted_default.
    all: intros m' c'; rewrite find2_set, StdMap.find_set, find_default, ?H3, ?H4; repeat case_bool_decide; naive_solver.
  - unfold remove. destruct (StdMap.find m (modules_ i)) as [l|] eqn:E.
    + assert (StdMap.sorted l) as Hl by (by eapply H1). split; cbn [modules_ helps_].
      * apply sorted2_set; [done|]. by apply StdMap.sorted_erase.
      * apply sorted2_set; [done|]. apply StdMap.sorted_erase. by apply sorted_default.
      * intros m' c'. rewrite find2_set, StdMap.find_erase, H3 by done.
        assert (StdMap.find c' l = fst <$> R m c') as -> by (rewrite <- H3; unfold find2; by rewrite E).
        repeat case_bool_decide; naive_solver.
      * intros m' c'. rewrite find2_set, StdMap.find_erase, find_default, !H4 by (by apply sorted_default).
        repeat case_bool_decide; naive_solver.
    + assert (∀ c', R m c' = None) as Hn.
      { intros c'. specialize (H3 m c'). unfold find2 in H3. rewrite E in H3. by destruct (R m c'). }
      split; try done; intros m' c'; rewrite ?H3, ?H4; case_bool_decide as Ec; try done; destruct Ec as [-> ->]; by rewrite Hn.
Qed.

Definition registered (os : list op) : registry := fold_left register os (λ _ _, None).
Definition after (os : list op) : Inspector := fold_left apply_op os empty.
Lemma registry_inv os : reg_inv (registered os) (after os).
Proof.
  unfold registered, after. assert (reg_inv (λ _ _, None) empty) as H by (by split).
  revert H. generalize empty as i. generalize (λ _ _ : bytes, @None (option Callback * bytes)) as R.
  induction os as [|o os IH]; intros R i H; [done|]. cbn. apply IH. by apply apply_op_inv.
Qed.

(** ** The help page *)

Definition help_entries (helps : StdMap.t (StdMap.t bytes)) : list (bytes * bytes * bytes) :=
  helps ≫= λ '(m, l), (λ '(c, h), (m, c, h)) <$> l.
Lemma help_page_entries helps : help_page helps = help_entries helps ≫= λ '(m, c, h), help_line m c h.
Proof.
  unfold help_page, help_entries. induction helps as [|[m l] helps IH]; [done|]. rewrite !bind_cons, bind_app, <- IH. f_equal.
  clear. induction l as [|[c h] l IH]; [done|]. cbn [fmap list_fmap]. by rewrite !bind_cons, IH.
Qed.

Lemma elem_find {A} (m : StdMap.t A) k v : StdMap.sorted m → (k, v) ∈ m ↔ StdMap.find k m = Some v.
Proof.
  induction m as [|[k1 v1] m IH]; cbn; [set_solver|]. intros [H1 Hs]. rewrite elem_of_cons, IH by done. case_bool_decide as E.
  - subst k1. rewrite StdMap.find_above by done. naive_solver.
  - naive_solver.
Qed.

Definition entry_lt (x y : bytes * bytes * bytes) : Prop :=
  StringMap.ltb x.1.1 y.1.1 = true ∨ x.1.1 = y.1.1 ∧ StringMap.ltb x.1.2 y.1.2 = true.

Lemma inner_sorted m (l : StdMap.t bytes) : StdMap.sorted l → StronglySorted entry_lt ((λ '(c, h), (m, c, h)) <$> l).
Proof.
  induction l as [|[c h] l IH]; cbn; [constructor|]. intros [H1 Hs]. constructor; [by apply IH|].
  apply Forall_fmap. eapply Forall_impl; [exact H1|]. intros [c' h'] Hc. right. done.
Qed.

Lemma help_entries_sorted helps : sorted2 helps → StronglySorted entry_lt (help_entries helps).
Proof.
  intros [H1 H2]. assert (∀ k l, (k, l) ∈ helps → StdMap.sorted l) as Hin by (intros k l Hkl; apply (H2 k), elem_find; done).
  clear H2. induction helps as [|[m l] helps IH]; [constructor|]. unfold help_entries. rewrite bind_cons. destruct H1 as [Hm Hs].
  apply StronglySorted_app. split_and!.
  - intros x y Hx Hy. left. apply list_elem_of_fmap in Hx as ([c h] & -> & _).
    apply list_elem_of_bind in Hy as ([m' l'] & Hy & Hl'). apply list_elem_of_fmap in Hy as ([c' h'] & -> & _). cbn.
    rewrite Forall_forall in Hm. exact (Hm _ Hl').
  - apply inner_sorted. apply (Hin m), elem_of_cons. by left.
  - apply IH; [done|]. intros k l' Hk. apply (Hin k), elem_of_cons. by right.
Qed.
Lemma help_entries_elem helps m c h : sorted2 helps → (m, c, h) ∈ help_entries helps ↔ find2 helps m c = Some h.
Proof.
  intros [H1 H2]. unfold help_entries, find2. rewrite list_elem_of_bind. split.
  - intros ([m' l] & Hx & Hl). apply list_elem_of_fmap in Hx as ([c' h'] & [= <- <- <-] & Hc).
    apply (elem_find (A := StdMap.t bytes)) in Hl; [|done]. rewrite Hl. cbn. apply elem_find; [by eapply H2|done].
  - destruct (StdMap.find m helps) as [l|] eqn:E; [|done]. cbn. intros Hc. exists (m, l). split.
    + apply list_elem_of_fmap. exists (c, h). split; [done|]. apply elem_find; [by eapply H2|done].
    + by apply elem_find.
Qed.

(** C33: After any calls of [add] and [remove], a request is answered as the registry says:
    the root with the help texts of the registered commands, sorted; a path of two or
    more segments with the callback's text for the further segments, if the command is
    registered and not empty; [/favicon.ico] with the icon; everything else with
    404. Empty segments do not count. *)
Theorem inspector_routes os req resp :
  let R := registered os in
  let path := HttpRequest.path_ req in
  if bool_decide (path = ["/"%char])
  then ∃ L, StronglySorted entry_lt L ∧ (∀ m c h, (m, c, h) ∈ L ↔ snd <$> R m c = Some h) ∧
    onRequest (after os) req resp =
      Some (ok_response (Channel.str "text/plain") (L ≫= λ '(m, c, h), help_line m c h) resp)
  else onRequest (after os) req resp = Some
    match segments path with
    | [s] => if bool_decide (s = Channel.str "favicon.ico") then ok_response (Channel.str "image/png") favicon resp
             else not_found resp
    | m :: c :: args =>
        match R m c with
        | Some (Some cb, _) => ok_response (Channel.str "text/plain") (cb (HttpRequest.method_ req) args) resp
        | _ => not_found resp
        end
    | [] => not_found resp
    end.
Proof.
  cbv zeta. pose proof (registry_inv os) as H. unfold onRequest. case_bool_decide.
  - exists (help_entries (helps_ (after os))). split_and!.
    + apply help_entries_sorted, H.
    + intros m c h. rewrite help_entries_elem by apply H. by rewrite (ri_help _ _ H).
    + by rewrite help_page_entries.
  - rewrite split_segments. cbn [mbind option_bind]. f_equal. destruct (segments _) as [|m [|c args]]; [done..|].
    pose proof (ri_cb _ _ H m c) as Hf. unfold find2 in Hf. destruct (StdMap.find m (modules_ (after os))) as [l|]; cbn in Hf.
    + rewrite Hf. destruct (registered os m c) as [[[cb|] h]|]; done.
    + destruct (registered os m c) as [[[cb|] h]|]; done.
Qed.

(** ** Through the HTTP server *)

Definition httpCallback (i : Inspector) (req : HttpRequest) (resp : HttpResponse) : HttpResponse :=
  default resp (onRequest i req resp).

Lemma command_response os m c cb h args req resp :
  registered os m c = Some (Some cb, h) → Forall segment (m :: c :: args) → HttpRequest.path_ req = path_of (m :: c :: args) →
  httpCallback (after os) req resp = ok_response (Channel.str "text/plain") (cb (HttpRequest.method_ req) args) resp.
Proof.
  intros Hr Hs Hp. unfold httpCallback, onRequest. rewrite Hp. rewrite bool_decide_false.
  2:{ unfold path_of. rewrite bind_cons. intros [= E]. apply Forall_cons in Hs as [[Hne _] _]. by destruct m. }
  rewrite split_segments, segments_path by done. cbn [mbind option_bind default].
  pose proof (ri_cb _ _ (registry_inv os) m c) as Hf. rewrite Hr in Hf. unfold find2 in Hf.
  destruct (StdMap.find m (modules_ (after os))) as [l|]; [|done]. cbn in Hf. by rewrite Hf.
Qed.

Lemma ok_response_ok body close :
  zlen body < 10 ^ 13 → HttpFacts.response_ok (ok_response (Channel.str "text/plain") body (HttpResponse.make close)).
Proof.
  intros H. split_and!; try done.
  - vm_compute. set_solver.
  - apply Forall_singleton. split_and!; try (apply HttpFacts.small_message; by vm_compute); vm_compute; set_solver.
Qed.

(** A request for a registered command, sent as HTTP text in pieces cut anywhere, is
    answered once, by a response with status 200 whose body is the callback's text
    for the arguments in the path; the connection is then shut down if the request
    asked for it. *)
Theorem inspector_serves os m c cb h args r hs pieces b :
  registered os m c = Some (Some cb, h) → Forall segment (m :: c :: args) →
  HttpRequest.path_ r = path_of (m :: c :: args) → HttpFacts.line_ok r → Forall HttpFacts.header_ok hs →
  HttpFacts.pieces_ok pieces → HttpFacts.all_bytes pieces = HttpFacts.request_text r hs →
  Buffer.wf b → Buffer.content b = [] →
  let close := HttpServer.wants_close (HttpFacts.parsed 0 r hs) in
  let resp := ok_response (Channel.str "text/plain") (cb (HttpRequest.method_ r) args) (HttpResponse.make close) in
  zlen (cb (HttpRequest.method_ r) args) < 10 ^ 13 →
  HttpServer.onRequest (httpCallback (after os)) (HttpFacts.parsed 0 r hs) ≠ Fail LengthError →
  ends_well (λ '(ctx, b', acts), ctx = HttpContext.make ∧ Buffer.content b' = [] ∧
      ∃ buf, Buffer.content buf = HttpFacts.response_text resp ∧
        acts = TcpConnection.SendBuffer buf :: (if close then [TcpConnection.Shutdown] else []))
    (HttpFacts.serve (httpCallback (after os)) pieces HttpContext.make b).
Proof.
  intros Hr Hs Hp Hl Hh Hpk Hall Hb Hc close resp Hsize Hfit.
  assert (HttpFacts.response_ok resp) as Hok by (by apply ok_response_ok).
  assert (∀ t, HttpServer.onRequest (httpCallback (after os)) (HttpFacts.parsed t r hs) =
               HttpServer.onRequest (httpCallback (after os)) (HttpFacts.parsed 0 r hs)) as Htime.
  { intros t. unfold HttpServer.onRequest. rewrite !(command_response os m c cb h args) by done. done. }
  assert (∃ buf, HttpServer.onRequest (httpCallback (after os)) (HttpFacts.parsed 0 r hs) =
      Ok (TcpConnection.SendBuffer buf :: (if close then [TcpConnection.Shutdown] else [])) ∧
      Buffer.content buf = HttpFacts.response_text resp) as (buf & Ea & Hbuf).
  { unfold HttpServer.onRequest in *. rewrite (command_response os m c cb h args) in * by done.
    fold close in Hfit |- *. change (HttpRequest.method_ (HttpFacts.parsed 0 r hs)) with (HttpRequest.method_ r) in *. fold resp in Hfit |- *.
    destruct (Buffer.make_ok Buffer.kInitialSize) as (b0 & Eb & Hw0 & Hc0 & _); [done|by vm_compute|]. rewrite Eb in *.
    rewrite bind_Ok in *. pose proof (HttpFacts.appendToBuffer_safe resp b0 Hw0 Hok) as Hsafe.
    destruct (HttpResponse.appendToBuffer resp b0) as [buf|f]; [|cbn in Hsafe; by rewrite Hsafe in Hfit]. destruct Hsafe as [_ Hct]. rewrite Hc0 in Hct.
    exists buf. split; [|done]. done. }
  pose proof (HttpFacts.serve_rest (httpCallback (after os)) r hs (λ _, TcpConnection.SendBuffer buf :: (if close then [TcpConnection.Shutdown] else []))
    ltac:(intros t; by rewrite Htime) pieces (snd <$> pieces) HttpContext.make b Hb) as Hserve.
  assert (HttpFacts.promises r hs pieces.*2 HttpContext.make (Buffer.content b ++ HttpFacts.all_bytes pieces)) as Hpr.
  { right. intros t. rewrite Hc, Hall. pose proof (HttpFacts.request_parses t r hs [] Hl Hh) as Hx. by rewrite app_nil_r in Hx. }
  specialize (Hserve ltac:(rewrite Hc; by split; [left|]) Hpr Hpk ltac:(done)).
  destruct (HttpFacts.serve _ pieces HttpContext.make b) as [[[[ctx b'] acts]|f]|]; [|done|done].
  destruct Hserve as (-> & ? & t & _ & ->). split_and!; [done|done|]. by exists buf.
Qed.

(** The command [/proc/echo] returns its arguments. *)
Definition example_echo : Callback := λ _ args, concat args.
Definition example_ops : list op :=
  [Add (Channel.str "proc") (Channel.str "echo") (Some example_echo) (Channel.str "print arguments");
   Add (Channel.str "proc") (Channel.str "gone") None []; Remove (Channel.str "proc") (Channel.str "gone")].
Definition example_request : HttpRequest :=
  HttpRequest.mkHttpRequest HttpRequest.kGet HttpRequest.kHttp11 (Channel.str "/proc/echo/ab/c") [] 0 [].
Definition example_text : bytes := HttpFacts.request_text example_request [].

Lemma inspector_serves_witness :
  ends_well (λ '(ctx, b', acts), ctx = HttpContext.make ∧ Buffer.content b' = [] ∧
      ∃ buf, Buffer.content buf = HttpFacts.response_text
          (ok_response (Channel.str "text/plain") (Channel.str "abc") (HttpResponse.make false)) ∧
        acts = [TcpConnection.SendBuffer buf])
    (HttpFacts.serve (httpCallback (after example_ops)) [(ztake 7 example_text, 1); (zdrop 7 example_text, 2)]
       HttpContext.make HttpFacts.example_buffer).
Proof.
  apply (inspector_serves example_ops (Channel.str "proc") (Channel.str "echo") example_echo (Channel.str "print arguments")
    [Channel.str "ab"; Channel.str "c"] example_request []).
  - vm_compute. reflexivity.
  - repeat apply Forall_cons_2; try apply Forall_nil_2; (split; [discriminate|apply (bool_decide_unpack _); vm_compute; exact I]).
  - vm_compute. reflexivity.
  - split_and!; try discriminate; try (by left); apply (bool_decide_unpack _); vm_compute; exact I.
  - apply Forall_nil_2.
  - repeat constructor; vm_compute; discriminate.
  - vm_compute. reflexivity.
  - vm_compute. intuition discriminate.
  - vm_compute. reflexivity.
  - reflexivity.
  - vm_compute. discriminate.
Defined.

End Inspector.
