(* ===== verification/ProcInfo.v ===== *)
(** * Process information ([base/ProcessInfo.cc], [net/inspect/ProcessInspector.cc],
    [net/inspect/SystemInspector.cc])

    What the inspector's commands print: numbers cut out of the text of files under
    [/proc]. The contents of the files and the answers of the system are inputs. *)

From stdpp Require Import sets sorting.
From S2P Require Import Prelude Endian Format Timestamp LogStream Units Channel Http Inspector.
Import Format Endian.

(** ** Strings of C and C++ *)
Module CString.

Definition npos {A} : option A := None.
(** [s.find(key)] *)
Fixpoint find (key s : bytes) : option Z :=
  if bool_decide (key `prefix_of` s) then Some 0
  else match s with [] => None | _ :: s => Z.succ <$> find key s end.
(** [s.rfind(c)] *)
Fixpoint rfind (c : ascii) (s : bytes) : option Z :=
  match s with
  | [] => None
  | a :: s => match rfind c s with
              | Some k => Some (Z.succ k)
              | None => if bool_decide (a = c) then Some 0 else None
              end
  end.
(** The characters of a C string: up to the first NUL. *)
Fixpoint cstr (l : bytes) : bytes :=
  match l with [] => [] | c :: l => if bool_decide (c = "000"%char) then [] else c :: cstr l end.

Fixpoint take_digits (l : bytes) : bytes :=
  match l with [] => [] | c :: l => if is_digit c then c :: take_digits l else [] end.
(** strtol(3) in base 10, at the width of [long]. *)
Definition strtol (s : bytes) : Z :=
  let s := HttpRequest.skip_spaces s in
  let '(neg, s) := match s with
    | c :: r => if bool_decide (c = "-"%char) then (true, r) else if bool_decide (c = "+"%char) then (false, r) else (false, s)
    | [] => (false, s)
    end in
  let v := dec_read (take_digits s) in
  Z.max (- 2 ^ 63) (Z.min (2 ^ 63 - 1) (if neg : bool then - v else v)).
Definition atol (s : bytes) : Z := strtol s.
Definition atoi (s : bytes) : Z := s32 (strtol s).

(** [%<w>...] and [%-<w>s] *)
Definition pad_left (w : Z) (s : bytes) : bytes := zrep (w - zlen s) " "%char ++ s.
Definition pad_right (w : Z) (s : bytes) : bytes := s ++ zrep (w - zlen s) " "%char.

End CString.

Module ProcessInfo.
Import CString.

(** [StringPiece] into [stat]: offset and length; [None] is the empty piece without an
    address. *)
Definition procname (stat : bytes) : option (Z * Z) :=
  match find ["("%char] stat, rfind ")"%char stat with
  | Some lp, Some rp => if lp <? rp then Some (lp + 1, s32 (rp - lp - 1)) else None
  | _, _ => None
  end.
Definition procname_string (stat : bytes) : bytes :=
  match procname stat with Some (off, len) => ztake len (zdrop off stat) | None => [] end.

Definition starts_with_digit (d_name : bytes) : bool := match d_name with c :: _ => is_digit c | [] => false end.
(** The two filters of [scanDir] over the names in a directory. *)
Definition fdDirFilter (d_name : bytes) (t_numOpenedFiles : Z) : Z :=
  if starts_with_digit d_name then t_numOpenedFiles + 1 else t_numOpenedFiles.
Definition taskDirFilter (d_name : bytes) (t_pids : list Z) : list Z :=
  if starts_with_digit d_name then t_pids ++ [atoi d_name] else t_pids.
Definition scanDir {A} (names : list bytes) (filter : bytes → A → A) (a : A) : A := fold_left (λ a d, filter d a) names a.

Definition openedFiles (fd_names : list bytes) : Z := scanDir fd_names fdDirFilter 0.
(** [rlim_cur]: of getrlimit(2), if it succeeds; converted to [int]. *)
Definition maxOpenFiles (rlim_cur : option Z) (fd_names : list bytes) : Z :=
  match rlim_cur with None => openedFiles fd_names | Some r => s32 r end.
Definition threads (task_names : list bytes) : list Z := merge_sort Z.le (scanDir task_names taskDirFilter []).

Definition pidString (pid : Z) : bytes := snprintf 32 (dec pid).
(** [result]: the name getpwuid_r(3) found. *)
Definition username (result : option bytes) : bytes := match result with Some n => n | None => Channel.str "unknownuser" end.
(** [buf]: what gethostname(2) left in the 256 bytes, if it succeeds. *)
Definition hostname (buf : option bytes) : bytes :=
  match buf with Some b => cstr (ztake 255 b) | None => Channel.str "unknownhost" end.
(** [link]: what readlink(2) returned. *)
Definition exePath (link : option bytes) : bytes := match link with Some l => ztake 1024 l | None => [] end.

Record CpuTime := mkCpuTime { userSeconds : Units.dbl; systemSeconds : Units.dbl }.
(** [static_cast<double>(ticks) / hz], [hz] positive. *)
Definition seconds_of (ticks hz : Z) : Units.dbl :=
  if 0 <=? ticks then Units.ddiv (Units.of_int ticks) (Units.of_int hz)
  else let '(a, b) := Units.ddiv (Units.of_int (- ticks)) (Units.of_int hz) in (- a, b).
Definition cpuTime (clockTicks : Z) (tms : option (Z * Z)) : CpuTime :=
  match tms with
  | Some (utime, stime) => mkCpuTime (seconds_of utime clockTicks) (seconds_of stime clockTicks)
  | None => mkCpuTime (0, 1) (0, 1)
  end.

Definition numThreads (status : bytes) : Z :=
  match find (Channel.str "Threads:") status with
  | Some pos => atoi (zdrop (pos + 8) status)
  | None => 0
  end.

(** [readFile]: what [FileUtil::readFile] returns for a path and leaves of at most 65536 bytes. *)
Definition procStatus (readFile : bytes → Z * bytes) : bytes := (readFile (Channel.str "/proc/self/status")).2.
Definition procStat (readFile : bytes → Z * bytes) : bytes := (readFile (Channel.str "/proc/self/stat")).2.
Definition threadStat (readFile : bytes → Z * bytes) (tid : Z) : bytes :=
  (readFile (snprintf 64 (Channel.str "/proc/self/task/" ++ dec tid ++ Channel.str "/stat"))).2.

End ProcessInfo.

Module ProcessInspector.
Import CString ProcessInfo.

Definition uptime (now start : Timestamp.Timestamp) (showMicroseconds : bool) : result bytes :=
  age ← sint 64 (Timestamp.microSecondsSinceEpoch now - Timestamp.microSecondsSinceEpoch start);
  let seconds := s32 (Z.quot age Timestamp.kMicroSecondsPerSecond) in
  let days := Z.quot seconds 86400 in
  let hours := Z.quot (Z.rem seconds 86400) 3600 in
  let minutes := Z.quot (Z.rem seconds 3600) 60 in
  let text := dec days ++ Channel.str " days " ++ dec_pad0 2 hours ++ ":"%char :: dec_pad0 2 minutes ++ ":"%char :: dec_pad0 2 (Z.rem seconds 60) in
  Ok (snprintf 256
    (if showMicroseconds then text ++ "."%char :: dec_pad0 6 (Z.rem age Timestamp.kMicroSecondsPerSecond) else text)).

Definition getLong (procStatus key : bytes) : Z :=
  match find key procStatus with
  | Some pos => atol (zdrop (pos + zlen key) procStatus)
  | None => 0
  end.

(** [procStatus[pos]] is the terminating NUL at the end, and undefined beyond. *)
Fixpoint skip_tabs (s : bytes) : bytes :=
  match s with c :: r => if bool_decide (c = "009"%char) then skip_tabs r else s | [] => [] end.
Fixpoint until_eol (s : bytes) : result bytes :=
  match s with
  | [] => Fail OutOfRange
  | c :: s => if bool_decide (c = "010"%char) then Ok [] else r ← until_eol s; Ok (c :: r)
  end.
Definition getProcessName (procStatus : bytes) : result bytes :=
  match find (Channel.str "Name:") procStatus with
  | Some pos => until_eol (skip_tabs (zdrop (pos + 5) procStatus))
  | None => Ok []
  end.

(** A [StringPiece] that ends where the string does, as the text from its start. *)
Definition next (data : bytes) : bytes :=
  match find [" "%char] data with Some k => zdrop (k + 1) data | None => [] end.
Definition getCpuTime (clockTicks : Z) (data : bytes) : CpuTime :=
  let data := Nat.iter 10 next data in
  let utime := strtol data in
  let data := next data in
  let stime := strtol data in
  mkCpuTime (seconds_of utime clockTicks) (seconds_of stime clockTicks).

(** [stringPrintf]: what is appended is cut to 255 bytes. *)
Definition stringPrintf (out text : bytes) : bytes := out ++ snprintf 256 text.

(** What the process knows about itself when a page is made. *)
Record Process := mkProcess {
  now : Timestamp.Timestamp;
  startTime : Timestamp.Timestamp;
  pid_ : Z;
  exe : option bytes;
  user : option bytes;
  host : option bytes;
  debug_build : bool;
  fd_names : list bytes;
  task_names : list bytes;
  rlim_cur : option Z;
  tms : option (Z * Z);
  clockTicks : Z;
  readFile : bytes → Z * bytes
}.

Definition LF : ascii := "010"%char.
(** [%.3f] *)
Definition fixed3 (x : Units.dbl) : bytes := if x.1 <? 0 then "-"%char :: Units.fixed 3 (- x.1, x.2) else Units.fixed 3 x.

Definition overview (p : Process) : result bytes :=
  generated ← Timestamp.toFormattedString (now p) true;
  started ← Timestamp.toFormattedString (startTime p) true;
  up ← uptime (now p) (startTime p) true;
  let procStatus := ProcessInfo.procStatus (readFile p) in
  name ← getProcessName procStatus;
  let result := Channel.str "Page generated at " ++ generated ++ Channel.str " (UTC)" ++ LF :: Channel.str "Started at " ++
    started ++ Channel.str " (UTC), up for " ++ up ++ [LF] in
  let result := result ++ name ++ Channel.str " (" ++ exePath (exe p) ++ Channel.str ") running as " ++ username (user p) ++
    Channel.str " on " ++ hostname (host p) ++ [LF] in
  let result := if debug_build p then result ++ Channel.str "WARNING: debug build!" ++ [LF] else result in
  let result := stringPrintf result (Channel.str "pid " ++ dec (pid_ p) ++ Channel.str ", num of threads " ++
    dec (getLong procStatus (Channel.str "Threads:")) ++ Channel.str ", bits " ++ dec 64 ++ [LF]) in
  let result := result ++ Channel.str "Virtual memory: " in
  let result := stringPrintf result (fixed3 (seconds_of (getLong procStatus (Channel.str "VmSize:")) 1024) ++ Channel.str " MiB, ") in
  let result := result ++ Channel.str "RSS memory: " in
  let result := stringPrintf result (fixed3 (seconds_of (getLong procStatus (Channel.str "VmRSS:")) 1024) ++ Channel.str " MiB" ++ [LF]) in
  let result := stringPrintf result (Channel.str "Opened files: " ++ dec (openedFiles (fd_names p)) ++ Channel.str ", limit: " ++
    dec (maxOpenFiles (rlim_cur p) (fd_names p)) ++ [LF]) in
  let t := cpuTime (clockTicks p) (tms p) in
  Ok (stringPrintf result (Channel.str "User time: " ++ pad_left 12 (fixed3 (userSeconds t)) ++ "s"%char :: LF ::
    Channel.str "Sys time:  " ++ pad_left 12 (fixed3 (systemSeconds t)) ++ ["s"%char; LF])).

Definition pid (p : Process) : bytes := snprintf 32 (dec (pid_ p)).
Definition procStatus (p : Process) : bytes := ProcessInfo.procStatus (readFile p).
Definition openedFiles_page (p : Process) : bytes := snprintf 32 (dec (openedFiles (fd_names p))).

Definition row_text (tid : Z) (name : bytes) (state : ascii) (t : CpuTime) : bytes :=
  pad_left 5 (dec tid) ++ " "%char :: pad_right 16 (cstr name) ++ " "%char :: state :: " "%char ::
  pad_left 12 (fixed3 (userSeconds t)) ++ " "%char :: pad_left 12 (fixed3 (systemSeconds t)) ++ [LF].

(** One row: [rp] is where the closing parenthesis is; a piece without an address is
    dereferenced. *)
Definition thread_row (clockTicks tid : Z) (stat : bytes) : result bytes :=
  match procname stat with
  | None => Fail OutOfRange
  | Some (off, len) =>
      let rp := off + len in
      c ← from_option Ok (Fail OutOfRange) (stat !! Z.to_nat rp);
      _ ← check (bool_decide (c = ")"%char));
      let state := rp + 2 in
      st ← from_option Ok (Fail OutOfRange) (stat !! Z.to_nat state);
      if zlen stat <? state + 2 then Fail OutOfRange
      else
        let t := getCpuTime clockTicks (zdrop (state + 2) stat) in
        Ok (cstr (snprintf 256 (row_text tid (ztake len (zdrop off stat)) st t)))
  end.

(** [snprintf(buf, sizeof buf, "/proc/%d/task/%d/stat", ...)] with [char buf[256]] *)
Definition task_stat_path (p : Process) (tid : Z) : bytes :=
  snprintf 256 (Channel.str "/proc/" ++ dec (pid_ p) ++ Channel.str "/task/" ++ dec tid ++ Channel.str "/stat").
Fixpoint thread_rows (p : Process) (tids : list Z) (result : bytes) : Prelude.result bytes :=
  match tids with
  | [] => Ok result
  | tid :: tids =>
      let '(err, stat) := readFile p (task_stat_path p tid) in
      if err =? 0 then row ← thread_row (clockTicks p) tid stat; thread_rows p tids (result ++ row)
      else thread_rows p tids result
  end.
Definition threads_page (p : Process) : Prelude.result bytes :=
  thread_rows p (threads (task_names p)) (Channel.str "  TID NAME             S    User Time  System Time" ++ [LF]).

(** ** Reading what the kernel wrote *)

Lemma find_char c a b : c ∉ a → find [c] (a ++ c :: b) = Some (zlen a).
Proof.
  induction a as [|x a IH]; intros Ha; cbn [app find].
  - rewrite bool_decide_true; [done|]. by apply prefix_cons, prefix_nil.
  - rewrite bool_decide_false by (intros ->%prefix_cons_inv_1; set_solver).
    rewrite IH by set_solver. rewrite zlen_cons. cbn. f_equal. lia.
Qed.
Lemma rfind_None c b : c ∉ b → rfind c b = None.
Proof. induction b as [|x b IH]; intros Hb; [done|]. cbn. rewrite IH by set_solver. rewrite bool_decide_false; [done|set_solver]. Qed.
Lemma rfind_char c a b : c ∉ b → rfind c (a ++ c :: b) = Some (zlen a).
Proof.
  intros Hb. induction a as [|x a IH]; cbn [app rfind].
  - by rewrite rfind_None, bool_decide_true.
  - rewrite IH, zlen_cons. f_equal. lia.
Qed.

(** Whatever the name contains, parentheses included, it is found whole. *)
Lemma procname_whole pre name rest :
  "("%char ∉ pre → ")"%char ∉ rest → zlen name < 2 ^ 31 →
  procname (pre ++ "("%char :: name ++ ")"%char :: rest) = Some (zlen pre + 1, zlen name).
Proof.
  intros Hp Hr Hn. unfold procname. rewrite find_char by done.
  assert (pre ++ "("%char :: name ++ ")"%char :: rest = (pre ++ "("%char :: name) ++ ")"%char :: rest) as -> by (by rewrite <- app_assoc).
  rewrite rfind_char by done. rewrite zlen_app, zlen_cons. pose proof (zlen_nonneg name).
  rewrite (proj2 (Z.ltb_lt _ _)) by lia. do 2 f_equal. replace (zlen pre + (1 + zlen name) - zlen pre - 1) with (zlen name) by lia.
  apply wraps_small; [lia|]. unfold in_s. lia.
Qed.

Definition fields_text (fs : list bytes) : bytes := fs ≫= λ f, f ++ [" "%char].
Lemma next_field f r : " "%char ∉ f → next (f ++ " "%char :: r) = r.
Proof.
  intros Hf. unfold next. rewrite find_char by done.
  change (f ++ " "%char :: r) with (f ++ [" "%char] ++ r). rewrite app_assoc. apply zdrop_app_exact. by rewrite zlen_app.
Qed.
Lemma next_fields n fs rest :
  Forall (λ f, " "%char ∉ f) fs → (n ≤ length fs)%nat → Nat.iter n next (fields_text fs ++ rest) = fields_text (drop n fs) ++ rest.
Proof.
  intros Hf. induction n as [|n IH]; intros Hn; [by rewrite drop_0|]. cbn [Nat.iter nat_rect]. change (nat_rect _ _ _ n) with (Nat.iter n next (fields_text fs ++ rest)).
  rewrite IH by lia. destruct (lookup_lt_is_Some_2 fs n) as [f Hl]; [lia|]. rewrite (drop_S fs f n) by done.
  unfold fields_text at 1. rewrite bind_cons, <- !app_assoc. cbn [app]. apply next_field. by eapply (Forall_lookup_1 _ _ _ _ Hf Hl).
Qed.

Lemma take_digits_all l r : Forall (λ c, is_digit c = true) l → match r with [] => True | c :: _ => is_digit c = false end → take_digits (l ++ r) = l.
Proof.
  intros Hl Hr. induction Hl as [|c l Hc _ IH]; cbn; [destruct r as [|c r]; cbn; [done|by rewrite Hr]|]. by rewrite Hc, IH.
Qed.
Lemma strtol_dec u r :
  0 ≤ u < 2 ^ 63 → match r with [] => True | c :: _ => is_digit c = false end → strtol (dec u ++ r) = u.
Proof.
  intros Hu Hr. assert (dec u = digits u) as -> by (unfold dec; destruct (Z.ltb_spec u 0); [lia|done]).
  pose proof (digits_all u ltac:(lia)) as Hd. pose proof (digits_read u ltac:(lia)) as Hv.
  pose proof (digits_length u 19 ltac:(lia) ltac:(lia)) as Hlen. unfold strtol.
  destruct (digits u) as [|c l] eqn:E; [rewrite zlen_nil in Hlen; lia|]. apply Forall_cons in Hd as [Hc Hd].
  assert (HttpRequest.isspace c = false ∧ c ≠ "-"%char ∧ c ≠ "+"%char) as (Hs & Hm & Hp).
  { unfold is_digit in Hc. apply andb_true_iff in Hc as [H1 H2]. apply Z.leb_le in H1, H2. split_and!; [|intros ->; by vm_compute in H1..].
    unfold HttpRequest.isspace. apply orb_false_iff. split; [apply Z.eqb_neq; lia|]. apply andb_false_iff. right. apply Z.leb_gt. lia. }
  cbn [app HttpRequest.skip_spaces]. rewrite Hs, !bool_decide_false by done.
  change (c :: l ++ r) with ((c :: l) ++ r). rewrite take_digits_all by (done || by constructor). rewrite Hv. lia.
Qed.

(** A line of [/proc/<pid>/task/<tid>/stat]. *)
Record TaskStat := mkTaskStat {
  ts_number : bytes; ts_name : bytes; ts_state : ascii; ts_fields : list bytes; ts_rest : bytes; ts_utime : Z; ts_stime : Z
}.
Definition stat_text (s : TaskStat) : bytes :=
  ts_number s ++ "("%char :: ts_name s ++ ")"%char :: " "%char :: ts_state s :: " "%char :: fields_text (ts_fields s) ++ ts_rest s.
(** Fields are counted from the parent's number, the fourth: user and system time are
    fields 14 and 15 of proc(5). *)
Definition stat_ok (s : TaskStat) : Prop :=
  "("%char ∉ ts_number s ∧ ")"%char ∉ ts_state s :: fields_text (ts_fields s) ++ ts_rest s ∧ zlen (ts_name s) < 2 ^ 31 ∧
  Forall (λ f, " "%char ∉ f) (ts_fields s) ∧
  ts_fields s !! (14 - 4)%nat = Some (dec (ts_utime s)) ∧ ts_fields s !! (15 - 4)%nat = Some (dec (ts_stime s)) ∧
  0 ≤ ts_utime s < 2 ^ 63 ∧ 0 ≤ ts_stime s < 2 ^ 63.

Definition thread_line (hz tid : Z) (s : TaskStat) : bytes :=
  cstr (snprintf 256 (row_text tid (ts_name s) (ts_state s) (mkCpuTime (seconds_of (ts_utime s) hz) (seconds_of (ts_stime s) hz)))).

Lemma getCpuTime_fields hz fs rest u s :
  Forall (λ f, " "%char ∉ f) fs → fs !! 10%nat = Some (dec u) → fs !! 11%nat = Some (dec s) →
  0 ≤ u < 2 ^ 63 → 0 ≤ s < 2 ^ 63 → getCpuTime hz (fields_text fs ++ rest) = mkCpuTime (seconds_of u hz) (seconds_of s hz).
Proof.
  intros Hf Hu Hs Hur Hsr. pose proof (lookup_lt_Some _ _ _ Hs) as Hlen. unfold getCpuTime.
  rewrite next_fields by (done || lia). assert (" "%char ∉ dec u) as Hnu by exact (Forall_lookup_1 _ _ _ _ Hf Hu).
  rewrite (drop_S fs (dec u) 10), (drop_S fs (dec s) 11) by done. unfold fields_text. rewrite !bind_cons, <- !app_assoc. cbn [app].
  rewrite strtol_dec by done. rewrite next_field by done. by rewrite strtol_dec.
Qed.

Lemma thread_row_line hz tid s : stat_ok s → thread_row hz tid (stat_text s) = Ok (thread_line hz tid s).
Proof.
  intros (Hn & Hr & Hl & Hf & Hu & Hs & Hur & Hsr). unfold thread_row. unfold stat_text at 1. rewrite procname_whole by (done || set_solver).
  set (tail := " "%char :: ts_state s :: " "%char :: fields_text (ts_fields s) ++ ts_rest s).
  pose proof (zlen_nonneg (ts_number s)) as H1. pose proof (zlen_nonneg (ts_name s)) as H2.
  set (head := ts_number s ++ "("%char :: ts_name s). assert (zlen head = zlen (ts_number s) + 1 + zlen (ts_name s)) as Hh.
  { unfold head. rewrite zlen_app, zlen_cons. lia. }
  assert (stat_text s = head ++ ")"%char :: tail) as E by (unfold stat_text, head; by rewrite <- app_assoc). rewrite E, <- Hh.
  assert (∀ k, 0 ≤ k → (head ++ ")"%char :: tail) !! Z.to_nat (zlen head + k) = (")"%char :: tail) !! Z.to_nat k) as Hat.
  { intros k Hk. rewrite lookup_app_r by (unfold zlen; lia). f_equal. unfold zlen. lia. }
  rewrite <- (Z.add_0_r (zlen head)) at 1. rewrite (Hat 0) by lia. change ((")"%char :: tail) !! Z.to_nat 0) with (Some ")"%char).
  cbn [from_option]. rewrite bind_Ok, check_true, bind_Ok by done. rewrite Hat by lia. change ((")"%char :: tail) !! Z.to_nat 2) with (Some (ts_state s)). cbn [from_option]. rewrite bind_Ok.
  rewrite (proj2 (Z.ltb_ge _ _)).
  2:{ unfold tail. rewrite zlen_app, !zlen_cons. pose proof (zlen_nonneg (fields_text (ts_fields s) ++ ts_rest s)). lia. }
  replace (zlen head + 2 + 2) with (zlen (head ++ [")"; " "; ts_state s; " "]%char)) by (rewrite zlen_app; change (zlen [")"; " "; ts_state s; " "]%char) with 4; lia).
  assert (head ++ ")"%char :: tail = (head ++ [")"; " "; ts_state s; " "]%char) ++ fields_text (ts_fields s) ++ ts_rest s) as E2
    by (unfold tail; by rewrite <- app_assoc).
  rewrite E2 at 2. rewrite (zdrop_app_exact (zlen (head ++ _))) by done. rewrite (getCpuTime_fields hz _ _ (ts_utime s) (ts_stime s)) by done.
  unfold thread_line. do 3 f_equal. unfold head.
  assert ((ts_number s ++ "("%char :: ts_name s) ++ ")"%char :: tail = (ts_number s ++ ["("%char]) ++ ts_name s ++ ")"%char :: tail) as -> by (by rewrite <- !app_assoc).
  rewrite zdrop_app_exact by (by rewrite zlen_app). by rewrite ztake_app_exact.
Qed.

(** ** The list of threads *)

Lemma strtol_dec_end u : 0 ≤ u < 2 ^ 63 → strtol (dec u) = u.
Proof. intros Hu. rewrite <- (app_nil_r (dec u)). by apply strtol_dec. Qed.
Lemma atoi_dec u : 0 ≤ u < 2 ^ 31 → atoi (dec u) = u.
Proof. intros Hu. unfold atoi. rewrite strtol_dec_end by lia. apply wraps_small; [lia|]. unfold in_s. lia. Qed.
Lemma scanDir_tasks names pids :
  scanDir names taskDirFilter pids = pids ++ (atoi <$> filter (λ d, starts_with_digit d = true) names).
Proof.
  unfold scanDir. revert pids. induction names as [|d names IH]; intros pids; cbn [fold_left]; [by rewrite app_nil_r|].
  rewrite IH. unfold taskDirFilter. destruct (starts_with_digit d) eqn:E; [rewrite filter_cons_True by done|by rewrite filter_cons_False by congruence].
  by rewrite <- app_assoc.
Qed.
Lemma openedFiles_count names : openedFiles names = zlen (filter (λ d, starts_with_digit d = true) names).
Proof.
  unfold openedFiles, scanDir. rewrite <- (Z.add_0_l (zlen _)). generalize 0. induction names as [|d names IH]; intros n; cbn [fold_left]; [rewrite zlen_nil; lia|].
  rewrite IH. unfold fdDirFilter. destruct (starts_with_digit d) eqn:E; [rewrite filter_cons_True, zlen_cons by done; lia|by rewrite filter_cons_False by congruence].
Qed.
Lemma threads_sorted names tids :
  filter (λ d, starts_with_digit d = true) names = dec <$> tids → Forall (λ t, 0 ≤ t < 2 ^ 31) tids →
  threads names ≡ₚ tids ∧ StronglySorted Z.le (threads names).
Proof.
  intros Hn Ht. unfold threads. split; [|apply StronglySorted_merge_sort; apply _].
  rewrite merge_sort_Permutation, scanDir_tasks, Hn. cbn [app]. clear Hn. induction Ht as [|t tids Ht _ IH]; [done|].
  rewrite !fmap_cons, atoi_dec by done. by constructor.
Qed.

(** What is known about a thread: its line, or nothing when it is gone already. *)
Definition task_seen (p : Process) (info : Z → option TaskStat) (tid : Z) : Prop :=
  match info tid with
  | Some s => stat_ok s ∧ readFile p (task_stat_path p tid) = (0, stat_text s)
  | None => (readFile p (task_stat_path p tid)).1 ≠ 0
  end.
Definition thread_lines (hz : Z) (info : Z → option TaskStat) (tids : list Z) : bytes :=
  tids ≫= λ tid, match info tid with Some s => thread_line hz tid s | None => [] end.
Lemma thread_rows_lines p info tids out :
  Forall (task_seen p info) tids → thread_rows p tids out = Ok (out ++ thread_lines (clockTicks p) info tids).
Proof.
  intros Ht. revert out. induction Ht as [|tid tids Hs _ IH]; intros out; cbn [thread_rows]; [by rewrite app_nil_r|].
  unfold task_seen in Hs. unfold thread_lines. rewrite bind_cons. destruct (info tid) as [s|].
  - destruct Hs as [Hok ->]. cbn [fst snd]. rewrite Z.eqb_refl, thread_row_line, bind_Ok, IH by done. by rewrite <- app_assoc.
  - destruct (readFile p _) as [err stat]. cbn in Hs. rewrite (proj2 (Z.eqb_neq err 0)) by done. by rewrite IH.
Qed.

(** The threads page has, below its heading, one line for each thread whose file could be
    read, in the order of the numbers whatever order the directory has; a line shows the
    thread's whole name, parentheses and blanks included, its state, and the times of fields 14 and
    15 divided by the clock's rate. No assertion fails and nothing outside the text is read. *)
Theorem threads_page_rows p tids info :
  filter (λ d, starts_with_digit d = true) (task_names p) = dec <$> tids → Forall (λ t, 0 ≤ t < 2 ^ 31) tids →
  Forall (task_seen p info) tids →
  ∃ order, order ≡ₚ tids ∧ StronglySorted Z.le order ∧
    threads_page p = Ok (Channel.str "  TID NAME             S    User Time  System Time" ++ LF :: thread_lines (clockTicks p) info order).
Proof.
  intros Hn Ht Hs. destruct (threads_sorted _ _ Hn Ht) as [Hp Hsort]. exists (threads (task_names p)). split_and!; [done..|].
  unfold threads_page. rewrite (thread_rows_lines p info); [by rewrite <- app_assoc|]. by rewrite Hp.
Qed.

(** ** Other values *)

Lemma div_mod_part s m k n : 0 < k → m = k * n → 0 < n → s / k = n * (s / m) + s mod m / k ∧ 0 ≤ s mod m / k < n.
Proof.
  intros Hk -> Hn. pose proof (Z.mod_pos_bound s (k * n) ltac:(nia)). split.
  - rewrite (Z.div_mod s (k * n)) at 1 by nia. replace (k * n * (s / (k * n)) + s mod (k * n)) with (s mod (k * n) + n * (s / (k * n)) * k) by lia.
    rewrite Z.div_add by lia. lia.
  - split; [apply Z.div_pos; lia|apply Z.div_lt_upper_bound; lia].
Qed.
(** The parts of a time span up to 68 years add up to it, each within its range. *)
Lemma uptime_parts now start :
  let age := Timestamp.microSecondsSinceEpoch now - Timestamp.microSecondsSinceEpoch start in
  0 ≤ age < 2 ^ 31 * 10 ^ 6 →
  ∃ days hours minutes seconds us,
    age = (((days * 24 + hours) * 60 + minutes) * 60 + seconds) * 10 ^ 6 + us ∧
    0 ≤ days ∧ 0 ≤ hours < 24 ∧ 0 ≤ minutes < 60 ∧ 0 ≤ seconds < 60 ∧ 0 ≤ us < 10 ^ 6 ∧
    ∀ micro, uptime now start micro = Ok (dec days ++ Channel.str " days " ++ dec_pad0 2 hours ++ ":"%char ::
      dec_pad0 2 minutes ++ ":"%char :: dec_pad0 2 seconds ++ if micro : bool then "."%char :: dec_pad0 6 us else []).
Proof.
  intros age Hage. remember (age / 10 ^ 6) as s eqn:Es.
  assert (0 ≤ s < 2 ^ 31) as Hs by (rewrite Es; split; [apply Z.div_pos; lia|apply Z.div_lt_upper_bound; lia]).
  exists (s / 86400), (s mod 86400 / 3600), (s mod 3600 / 60), (s mod 60), (age mod 10 ^ 6).
  pose proof (Z.div_mod s 86400 ltac:(lia)). pose proof (Z.mod_pos_bound s 86400 ltac:(lia)).
  pose proof (Z.div_mod s 60 ltac:(lia)). pose proof (Z.mod_pos_bound s 60 ltac:(lia)).
  pose proof (Z.div_mod age (10 ^ 6) ltac:(lia)). pose proof (Z.mod_pos_bound age (10 ^ 6) ltac:(lia)).
  pose proof (div_mod_part s 86400 3600 24 ltac:(lia) eq_refl ltac:(lia)). pose proof (div_mod_part s 3600 60 60 ltac:(lia) eq_refl ltac:(lia)).
  split_and!; try lia.
  intros micro. unfold uptime. fold age. rewrite sint_Ok by (unfold in_s; lia). rewrite bind_Ok.
  assert (Z.quot age Timestamp.kMicroSecondsPerSecond = s) as ->.
  { rewrite Es. apply Z.quot_div_nonneg; unfold Timestamp.kMicroSecondsPerSecond; lia. }
  assert (s32 s = s) as -> by (apply wraps_small; [lia|]; unfold in_s; lia).
  rewrite !Z.rem_mod_nonneg by (unfold Timestamp.kMicroSecondsPerSecond; lia). rewrite !Z.quot_div_nonneg by (try apply Z.mod_pos_bound; lia).
  change Timestamp.kMicroSecondsPerSecond with (10 ^ 6).
  assert (zlen (dec (s / 86400)) ≤ 10) as Hd.
  { unfold dec. destruct (Z.ltb_spec (s / 86400) 0); [lia|]. apply (digits_length _ 10); lia. }
  f_equal. unfold snprintf. rewrite ztake_all.
  - destruct micro; rewrite <- ?app_assoc; cbn [app]; rewrite <- ?app_assoc; cbn [app]; by rewrite ?app_nil_r.
  - destruct micro; repeat (rewrite zlen_app || rewrite zlen_cons); rewrite !(dec_pad0_length 2) by lia;
      rewrite ?(dec_pad0_length 6) by lia; change (zlen (Channel.str " days ")) with 6; lia.
Qed.

Lemma find_key key pre r :
  (∀ k, (k < length pre)%nat → ¬ key `prefix_of` drop k (pre ++ key ++ r)) → find key (pre ++ key ++ r) = Some (zlen pre).
Proof.
  induction pre as [|c pre IH]; intros H; cbn [app].
  - destruct (key ++ r) as [|x l] eqn:E; cbn [find]; rewrite bool_decide_true by (rewrite <- E; by apply prefix_app_r); done.
  - cbn [find]. rewrite bool_decide_false by (exact (H 0%nat ltac:(cbn; lia))). rewrite IH.
    + rewrite zlen_cons. cbn. f_equal. lia.
    + intros k Hk. exact (H (S k) ltac:(cbn; lia)).
Qed.
Lemma strtol_blanks sp s : Forall (λ c, HttpRequest.isspace c = true) sp → strtol (sp ++ s) = strtol s.
Proof.
  intros Hsp. unfold strtol. assert (HttpRequest.skip_spaces (sp ++ s) = HttpRequest.skip_spaces s) as ->; [|done].
  induction Hsp as [|c sp Hc _ IH]; [done|]. cbn. by rewrite Hc.
Qed.
(** The number behind the first occurrence of the key. *)
Lemma getLong_reads pre key sp v r :
  (∀ k, (k < length pre)%nat → ¬ key `prefix_of` drop k (pre ++ key ++ sp ++ dec v ++ r)) →
  Forall (λ c, HttpRequest.isspace c = true) sp → 0 ≤ v < 2 ^ 63 → match r with [] => True | c :: _ => is_digit c = false end →
  getLong (pre ++ key ++ sp ++ dec v ++ r) key = v.
Proof.
  intros Hk Hsp Hv Hr. unfold getLong. rewrite find_key by done. rewrite app_assoc, zdrop_app_exact by (by rewrite zlen_app).
  unfold atol. rewrite strtol_blanks by done. by apply strtol_dec.
Qed.
Lemma until_eol_name name r : LF ∉ name → until_eol (name ++ LF :: r) = Ok name.
Proof.
  intros Hn. induction name as [|c name IH]; cbn; [done|]. rewrite bool_decide_false by set_solver.
  rewrite IH by set_solver. done.
Qed.
Lemma until_eol_none s : LF ∉ s → until_eol s = Fail OutOfRange.
Proof. intros Hn. induction s as [|c s IH]; cbn; [done|]. rewrite bool_decide_false by set_solver. by rewrite IH by set_solver. Qed.
Lemma skip_tabs_app n s : match s with c :: _ => c ≠ "009"%char | [] => True end → skip_tabs (replicate n "009"%char ++ s) = s.
Proof.
  intros Hs. induction n as [|n IH]; cbn; [|by rewrite IH]. destruct s as [|c s]; [done|]. cbn. by rewrite bool_decide_false.
Qed.
(** The name is the line behind the key without the tabs before it. *)
Lemma getProcessName_reads n name r :
  LF ∉ name → match name with c :: _ => c ≠ "009"%char | [] => True end →
  getProcessName (Channel.str "Name:" ++ replicate n "009"%char ++ name ++ LF :: r) = Ok name.
Proof.
  intros Hn Ht. unfold getProcessName. pose proof (find_key (Channel.str "Name:") [] (replicate n "009"%char ++ name ++ LF :: r)) as Hf.
  cbn [app] in Hf. rewrite Hf by (cbn; lia). rewrite zlen_nil, Z.add_0_l. rewrite zdrop_app_exact by done. rewrite skip_tabs_app; [by apply until_eol_name|].
  by destruct name.
Qed.

(** A process with two threads; the directory lists the later one first, and a third
    one is gone when its file is read. *)
Definition example_stat (number name : string) (utime stime : Z) : TaskStat :=
  mkTaskStat (Channel.str number ++ [" "%char]) (Channel.str name) "S"%char
    (map Channel.str ["1"; "99"; "99"; "0"; "-1"; "4194304"; "85"; "0"; "0"; "0"] ++ [dec utime; dec stime; Channel.str "0"])
    (Channel.str "20 0 2" ++ [LF]) utime stime.
Definition example_info (tid : Z) : option TaskStat :=
  if tid =? 99 then Some (example_stat "99" "(main) x" 1234 56) else if tid =? 101 then Some (example_stat "101" "worker" 7 200) else None.
Definition example_process : Process :=
  mkProcess (Timestamp.mkTimestamp 5000000) (Timestamp.mkTimestamp 0) 99 None None None true []
    (map Channel.str ["."; ".."; "101"; "102"; "99"]) None None 100
    (λ path, if bool_decide (path = Channel.str "/proc/99/task/99/stat") then (0, stat_text (example_stat "99" "(main) x" 1234 56))
             else if bool_decide (path = Channel.str "/proc/99/task/101/stat") then (0, stat_text (example_stat "101" "worker" 7 200))
             else (2, [])).

Example threads_page_example :
  threads_page example_process = Ok (Channel.str "  TID NAME             S    User Time  System Time" ++ LF ::
    Channel.str "   99 (main) x         S       12.340        0.560" ++ LF ::
    Channel.str "  101 worker           S        0.070        2.000" ++ [LF]).
Proof. by vm_compute. Qed.

#[local] Instance stat_ok_dec s : Decision (stat_ok s).
Proof. unfold stat_ok. apply _. Defined.
#[local] Instance task_seen_dec p info tid : Decision (task_seen p info tid).
Proof. unfold task_seen. destruct (info tid); apply _. Defined.

Lemma threads_page_rows_witness :
  filter (λ d, starts_with_digit d = true) (task_names example_process) = dec <$> [101; 102; 99] ∧
  Forall (λ t, 0 ≤ t < 2 ^ 31) [101; 102; 99] ∧ Forall (task_seen example_process example_info) [101; 102; 99] ∧
  ∃ order, order ≡ₚ [101; 102; 99] ∧ StronglySorted Z.le order ∧
    threads_page example_process =
      Ok (Channel.str "  TID NAME             S    User Time  System Time" ++ LF :: thread_lines 100 example_info order).
Proof.
  assert (filter (λ d, starts_with_digit d = true) (task_names example_process) = dec <$> [101; 102; 99]) as H1 by by vm_compute.
  assert (Forall (λ t, 0 ≤ t < 2 ^ 31) [101; 102; 99]) as H2 by (repeat apply Forall_cons_2; try apply Forall_nil_2; lia).
  assert (Forall (task_seen example_process example_info) [101; 102; 99]) as H3 by (apply (bool_decide_unpack _); by vm_compute).
  split_and!; [exact H1|exact H2|exact H3|]. exact (threads_page_rows example_process [101; 102; 99] example_info H1 H2 H3).
Defined.

End ProcessInspector.

Module SystemInspector.
Import CString ProcessInspector.

(** [struct utsname] *)
Record utsname := mkUtsname { sysname : bytes; nodename : bytes; release : bytes; version_ : bytes; machine : bytes }.

Definition file (readFile : bytes → Z * bytes) (path : string) : bytes := (readFile (Channel.str path)).2.
Definition loadavg (readFile : bytes → Z * bytes) : bytes := file readFile "/proc/loadavg".
Definition version (readFile : bytes → Z * bytes) : bytes := file readFile "/proc/version".
Definition cpuinfo (readFile : bytes → Z * bytes) : bytes := file readFile "/proc/cpuinfo".
Definition meminfo (readFile : bytes → Z * bytes) : bytes := file readFile "/proc/meminfo".
Definition stat (readFile : bytes → Z * bytes) : bytes := file readFile "/proc/stat".

(** [stringPrintf(&result, "<title>%6ld MiB\n", kb / 1024)] *)
Definition memory_line (title : string) (kb : Z) (result : bytes) : bytes :=
  stringPrintf result (Channel.str title ++ pad_left 6 (dec (Z.quot kb 1024)) ++ Channel.str " MiB" ++ [LF]).

(** [un]: what uname(2) filled in, if it succeeds. *)
Definition overview (now : Timestamp.Timestamp) (un : option utsname) (readFile : bytes → Z * bytes) : result bytes :=
  generated ← Timestamp.toFormattedString now true;
  let result := Channel.str "Page generated at " ++ generated ++ Channel.str " (UTC)" ++ [LF] in
  let result := match un with
    | Some un =>
        let result := stringPrintf result (Channel.str "Hostname: " ++ cstr (nodename un) ++ [LF]) in
        let result := stringPrintf result (Channel.str "Machine: " ++ cstr (machine un) ++ [LF]) in
        stringPrintf result (Channel.str "OS: " ++ cstr (sysname un) ++ " "%char :: cstr (release un) ++ " "%char :: cstr (version_ un) ++ [LF])
    | None => result
    end in
  let stat := file readFile "/proc/stat" in
  boot ← sint 64 (Timestamp.kMicroSecondsPerSecond * getLong stat (Channel.str "btime "));
  let bootTime := Timestamp.mkTimestamp boot in
  boot_text ← Timestamp.toFormattedString bootTime false;
  let result := result ++ Channel.str "Boot time: " ++ boot_text ++ Channel.str " (UTC)" ++ [LF] in
  up ← uptime now bootTime false;
  let result := result ++ Channel.str "Up time: " ++ up ++ [LF] in
  let loadavg := file readFile "/proc/loadavg" in
  let result := stringPrintf result (Channel.str "Processes created: " ++ dec (getLong stat (Channel.str "processes ")) ++ [LF]) in
  let result := stringPrintf result (Channel.str "Loadavg: " ++ cstr loadavg ++ [LF]) in
  let meminfo := file readFile "/proc/meminfo" in
  let total_kb := getLong meminfo (Channel.str "MemTotal:") in
  let free_kb := getLong meminfo (Channel.str "MemFree:") in
  let buffers_kb := getLong meminfo (Channel.str "Buffers:") in
  let cached_kb := getLong meminfo (Channel.str "Cached:") in
  let result := memory_line "Total Memory: " total_kb result in
  let result := memory_line "Free Memory:  " free_kb result in
  let result := memory_line "Buffers:      " buffers_kb result in
  let result := memory_line "Cached:       " cached_kb result in
  used ← sint 64 (total_kb - free_kb); used ← sint 64 (used - buffers_kb); used ← sint 64 (used - cached_kb);
  let result := memory_line "Real Used:    " used result in
  free ← sint 64 (free_kb + buffers_kb); free ← sint 64 (free + cached_kb);
  Ok (memory_line "Real Free:    " free result).

End SystemInspector.

(** ** The constructor of the inspector *)
Module InspectorSetup.
Import Inspector.

Definition command (module command : string) (cb : Callback) (help : string) : Inspector → Inspector :=
  add (Channel.str module) (Channel.str command) (Some cb) (Channel.str help).

(** [ProcessInspector::registerCommands] *)
Definition register_process (overview pid procStatus threads : Callback) (ins : Inspector) : Inspector :=
  let ins := command "proc" "overview" overview "print basic overview" ins in
  let ins := command "proc" "pid" pid "print pid" ins in
  let ins := command "proc" "status" procStatus "print /proc/self/status" ins in
  command "proc" "threads" threads "list /proc/self/task" ins.

(** [SystemInspector::registerCommands] *)
Definition register_system (overview loadavg version cpuinfo meminfo stat : Callback) (ins : Inspector) : Inspector :=
  let ins := command "sys" "overview" overview "print system overview" ins in
  let ins := command "sys" "loadavg" loadavg "print /proc/loadavg" ins in
  let ins := command "sys" "version" version "print /proc/version" ins in
  let ins := command "sys" "cpuinfo" cpuinfo "print /proc/cpuinfo" ins in
  let ins := command "sys" "meminfo" meminfo "print /proc/meminfo" ins in
  command "sys" "stat" stat "print /proc/stat" ins.

(** [g_globalInspector]: the inspector of this name, if there is one; [performance]: the
    commands of the profiler, if the program is built with tcmalloc. *)
Definition make (isMainThread : bool) (g_globalInspector : option Z) (this : Z)
    (process system : Inspector → Inspector) (performance : option (Inspector → Inspector)) :
    result (Inspector * option Z) :=
  _ ← check isMainThread;
  _ ← check (bool_decide (g_globalInspector = None));
  let ins := system (process empty) in
  Ok (match performance with Some registerCommands => registerCommands ins | None => ins end, Some this).
Definition destructor (isMainThread : bool) (g_globalInspector : option Z) : result (option Z) :=
  _ ← check isMainThread;
  Ok None.

(** A process has one inspector at a time, made by the main thread. *)
Lemma make_once isMain g this process system performance i g' :
  make isMain g this process system performance = Ok (i, g') →
  isMain = true ∧ g = None ∧ g' = Some this ∧
  make true g' this process system performance = Fail AssertFailed ∧
  destructor true g' = Ok None.
Proof.
  unfold make, destructor. destruct isMain; cbn; [|done]. destruct g; cbn; [done|]. intros [= <- <-]. done.
Qed.

(** The commands of a new inspector, as a list of additions to an empty one. *)
Lemma make_registered ov pid st th sov la ver cpu mem stat this :
  let ops := [Add (Channel.str "proc") (Channel.str "overview") (Some ov) (Channel.str "print basic overview");
    Add (Channel.str "proc") (Channel.str "pid") (Some pid) (Channel.str "print pid");
    Add (Channel.str "proc") (Channel.str "status") (Some st) (Channel.str "print /proc/self/status");
    Add (Channel.str "proc") (Channel.str "threads") (Some th) (Channel.str "list /proc/self/task");
    Add (Channel.str "sys") (Channel.str "overview") (Some sov) (Channel.str "print system overview");
    Add (Channel.str "sys") (Channel.str "loadavg") (Some la) (Channel.str "print /proc/loadavg");
    Add (Channel.str "sys") (Channel.str "version") (Some ver) (Channel.str "print /proc/version");
    Add (Channel.str "sys") (Channel.str "cpuinfo") (Some cpu) (Channel.str "print /proc/cpuinfo");
    Add (Channel.str "sys") (Channel.str "meminfo") (Some mem) (Channel.str "print /proc/meminfo");
    Add (Channel.str "sys") (Channel.str "stat") (Some stat) (Channel.str "print /proc/stat")] in
  make true None this (register_process ov pid st th) (register_system sov la ver cpu mem stat) None =
    Ok (after ops, Some this).
Proof. done. Qed.

End InspectorSetup.
