(* ===== verification/Streams.v ===== *)
(** * Streams into a buffer ([net/ZlibStream.h], [net/protobuf/BufferStream.h])

    [ZlibOutputStream] compresses what is written to it into a [Buffer];
    [BufferOutputStream] hands out the writable part of a [Buffer] piece by piece.
    zlib is a class: its functions and what its manual says about them. *)

From S2P Require Import Prelude StringPiece NetBuffer.
Import Buffer.

(** ** How far a buffer grows *)

Lemma ensureWritableBytes_size b len b' :
  wf b → 0 ≤ len → writerIndex_ b + len ≤ vec_max_size → ensureWritableBytes b len = Ok b' →
  size b' ≤ Z.max (size b) (writerIndex_ b + len) ∧ readerIndex_ b' ≤ Z.max (readerIndex_ b) kCheapPrepend.
Proof.
  intros Hb Hl Hm H. pose proof (writable_wf b Hb) as Hw. unfold ensureWritableBytes in H. destruct (Z.ltb_spec (writableBytes b) len).
  2:{ rewrite bind_Ok in H. apply bind_Ok_inv in H as (? & _ & [= ->]). lia. }
  apply bind_Ok_inv in H as (b1 & H1 & H). apply bind_Ok_inv in H as (? & _ & [= ->]). unfold makeSpace in H1.
  destruct (_ <? _).
  - rewrite wrapu_small, vec_resize_grow, bind_Ok in H1 by (buf; zlia). injection H1 as <-. buf. rewrite zlen_app, zlen_zrep by lia. lia.
  - apply bind_Ok_inv in H1 as (? & _ & H1). apply bind_Ok_inv in H1 as (d & _ & H1). apply bind_Ok_inv in H1 as (v & Hv & H1).
    cbv zeta in H1. apply bind_Ok_inv in H1 as (? & _ & [= <-]). unfold vec_write in Hv. case_bool_decide as Hd; [|done].
    injection Hv as <-. cbn [readerIndex_]. split; [|lia]. unfold size at 1. cbn [buffer_]. rewrite zlen_vec_write by (unfold kCheapPrepend in *; lia). unfold size. lia.
Qed.

(** Room for [len] bytes and how much memory it took. *)
Lemma ensureWritableBytes_grow b len :
  wf b → 0 ≤ len → writerIndex_ b + len ≤ vec_max_size →
  ∃ b', ensureWritableBytes b len = Ok b' ∧ wf b' ∧ content b' = content b ∧ len ≤ writableBytes b' ∧
        size b' ≤ Z.max (size b) (writerIndex_ b + len) ∧ readerIndex_ b' ≤ Z.max (readerIndex_ b) kCheapPrepend.
Proof.
  intros Hb Hl Hm. destruct (ensureWritableBytes_ok b len) as (b' & E & Hb' & Hc & Hw & _); [done|by left|].
  pose proof (ensureWritableBytes_size _ _ _ Hb Hl Hm E). exists b'. split_and!; tauto.
Qed.
Lemma writer_content b : wf b → writerIndex_ b = readerIndex_ b + zlen (content b).
Proof. intros Hb. rewrite zlen_content, readable_wf by done. lia. Qed.

Module BufferStream.

(** The buffer the stream writes to and its length when the stream was made. *)
Record BufferOutputStream := mkStream { buffer_ : Buffer; originalSize_ : Z }.
Definition make (buf : Buffer) : BufferOutputStream := mkStream buf (readableBytes buf).

(** The piece handed out: offset in the buffer's memory, and size. *)
Definition Next (s : BufferOutputStream) : result (BufferOutputStream * (Z * Z)) :=
  b ← ensureWritableBytes (buffer_ s) 4096;
  let data := beginWrite b in
  let size := s32 (writableBytes b) in
  b ← hasWritten b (u64 size);
  Ok (mkStream b (originalSize_ s), (data, size)).
Definition BackUp (count : Z) (s : BufferOutputStream) : result BufferOutputStream :=
  b ← unwrite (buffer_ s) (u64 count);
  Ok (mkStream b (originalSize_ s)).
Definition ByteCount (s : BufferOutputStream) : Z := s64 (u64 (readableBytes (buffer_ s) - originalSize_ s)).

(** A client that writes [data]: it fills piece after piece and gives back what it does
    not need of the last one. *)
Definition fill (off : Z) (d : bytes) (s : BufferOutputStream) : result BufferOutputStream :=
  v ← vec_write (Buffer.buffer_ (buffer_ s)) off d;
  Ok (mkStream (mkBuffer v (readerIndex_ (buffer_ s)) (writerIndex_ (buffer_ s))) (originalSize_ s)).
Fixpoint serialize (fuel : nat) (data : bytes) (s : BufferOutputStream) : option (result BufferOutputStream) :=
  match data, fuel with
  | [], _ => Some (Ok s)
  | _, O => None
  | _, S fuel =>
      match Next s with
      | Fail f => Some (Fail f)
      | Ok (s, (off, size)) =>
          match fill off (ztake size data) s with
          | Fail f => Some (Fail f)
          | Ok s =>
              if size <? zlen data then serialize fuel (zdrop size data) s
              else Some (BackUp (size - zlen data) s)
          end
      end
  end.

(** Memory the stream may need: what is there already and one step more. *)
Definition fits (M : Z) (b : Buffer) (n : Z) : Prop :=
  wf b ∧ size b ≤ M ∧ Z.max (readerIndex_ b) kCheapPrepend + zlen (content b) + n + 4096 ≤ M.

(** One piece: as long as the rest of the memory, or what the client fills of it. *)
Lemma piece_spec M s n data :
  fits M (buffer_ s) n → M < 2 ^ 31 → data ≠ [] → zlen data = n →
  ∃ s1 off size s2,
    Next s = Ok (s1, (off, size)) ∧ 4096 ≤ size ∧ fill off (ztake size data) s1 = Ok s2 ∧ originalSize_ s2 = originalSize_ s ∧
    wf (buffer_ s2) ∧ Buffer.size (buffer_ s2) ≤ M ∧ readerIndex_ (buffer_ s2) ≤ Z.max (readerIndex_ (buffer_ s)) kCheapPrepend ∧
    ∃ junk, content (buffer_ s2) = content (buffer_ s) ++ ztake size data ++ junk ∧ zlen (ztake size data) + zlen junk = size.
Proof.
  intros (Hb & Hsz & Hm) HM Hne Hn. pose proof (writer_content _ Hb) as Hwc. pose proof (zlen_nonneg data).
  destruct (ensureWritableBytes_grow (buffer_ s) 4096) as (b1 & E & Hb1 & Hc & Hw & Hs1 & Hr1); [done|lia|unfold vec_max_size; lia|].
  pose proof (writable_wf b1 Hb1) as Hwr. assert (Buffer.size b1 ≤ M) as HsM by lia.
  assert (u64 (s32 (writableBytes b1)) = writableBytes b1 ∧ s32 (writableBytes b1) = writableBytes b1) as [Hu Hi].
  { assert (s32 (writableBytes b1) = writableBytes b1) as -> by (apply wraps_small; [lia|]; unfold in_s; buf; lia).
    split; [|done]. apply wrapu_small. unfold in_u. buf. lia. }
  unfold Next. rewrite E, bind_Ok. rewrite Hu, Hi. unfold hasWritten. rewrite check_true, !bind_Ok by (apply Z.leb_refl).
  rewrite wrapu_small by (buf; zlia). replace (writerIndex_ b1 + writableBytes b1) with (Buffer.size b1) by lia.
  set (b2 := mkBuffer (Buffer.buffer_ b1) (readerIndex_ b1) (Buffer.size b1)).
  set (d := ztake (writableBytes b1) data).
  assert (0 ≤ zlen d ≤ writableBytes b1) as Hd. { unfold d, ztake, zlen. rewrite length_take. unfold zlen in *. lia. }
  do 4 eexists. split; [done|]. split; [exact Hw|]. unfold fill. cbn [buffer_ originalSize_]. fold d.
  rewrite vec_write_Ok by (subst b2; buf; lia). rewrite bind_Ok. split; [done|]. cbn [buffer_ originalSize_ readerIndex_]. split; [done|].
  assert (zlen (ztake (beginWrite b1) (Buffer.buffer_ b1) ++ d ++ zdrop (beginWrite b1 + zlen d) (Buffer.buffer_ b1)) = Buffer.size b1) as Hlen
    by (apply zlen_vec_write; buf; lia).
  split_and!.
  - unfold wf. unfold Buffer.size at 1 2. cbn [Buffer.buffer_ readerIndex_ writerIndex_ b2]. rewrite Hlen. subst b2. buf. lia.
  - unfold Buffer.size at 1. cbn [Buffer.buffer_]. subst b2. cbn [Buffer.buffer_]. lia.
  - exact Hr1.
  - exists (zdrop (writerIndex_ b1 + zlen d) (Buffer.buffer_ b1)). split.
    + rewrite <- Hc. subst b2. unfold content. cbn [Buffer.buffer_ readerIndex_ writerIndex_]. buf.
      rewrite zdrop_app_le by (rewrite zlen_ztake; lia). rewrite ztake_app_ge by (rewrite zlen_zdrop; rewrite zlen_ztake; lia).
      rewrite zdrop_ztake by lia. f_equal. apply ztake_all. rewrite zlen_app, zlen_zdrop by lia. rewrite zlen_ztake by (rewrite zlen_zdrop; lia). lia.
    + rewrite zlen_zdrop by (buf; lia). buf. lia.
Qed.

Lemma serialize_content M fuel : ∀ data s,
  fits M (buffer_ s) (zlen data) → M < 2 ^ 31 → (length data ≤ fuel)%nat →
  ∃ s', serialize fuel data s = Some (Ok s') ∧ wf (buffer_ s') ∧ content (buffer_ s') = content (buffer_ s) ++ data ∧
        originalSize_ s' = originalSize_ s.
Proof.
  induction fuel as [|fuel IH]; intros data s Hf HM Hfuel.
  { destruct data; [|cbn in Hfuel; lia]. destruct Hf as [Hb _]. exists s. rewrite app_nil_r. auto. }
  destruct data as [|c data0]; [destruct Hf as [Hb _]; exists s; rewrite app_nil_r; auto|].
  remember (c :: data0) as data eqn:Ed. assert (data ≠ []) as Hne by (by rewrite Ed).
  destruct (piece_spec M s (zlen data) data) as (s1 & off & sz & s2 & E1 & Hsz & E2 & Ho & Hb2 & HsM & Hr2 & junk & Hc & Hj); [done..|].
  assert (serialize (S fuel) data s =
    if sz <? zlen data then serialize fuel (zdrop sz data) s2 else Some (BackUp (sz - zlen data) s2)) as ->
    by (rewrite Ed in *; cbn [serialize]; by rewrite E1, E2).
  pose proof (zlen_nonneg data). destruct Hf as (Hb & Hs & Hm). destruct (Z.ltb_spec sz (zlen data)).
  - rewrite zlen_ztake in Hj by lia. destruct junk as [|x junk]; [|rewrite zlen_cons in Hj; pose proof (zlen_nonneg junk); lia].
    rewrite app_nil_r in Hc. destruct (IH (zdrop sz data) s2) as (s' & E & Hb' & Hc' & Ho').
    + split_and!; [done..|]. rewrite Hc, zlen_app, zlen_ztake, zlen_zdrop by lia. lia.
    + done.
    + unfold zlen, zdrop in *. rewrite length_drop. lia.
    + exists s'. rewrite Hc', Hc, <- app_assoc, ztake_zdrop. auto with congruence.
  - rewrite ztake_all in Hc, Hj by lia. pose proof (zlen_content _ Hb2) as Hl. rewrite Hc, !zlen_app in Hl.
    pose proof (zlen_nonneg junk). pose proof (zlen_nonneg (content (buffer_ s))).
    unfold BackUp. rewrite wrapu_small by (rewrite readable_wf in Hl by done; buf; zlia).
    destruct (unwrite_ok (buffer_ s2) (sz - zlen data)) as (b' & E & Hb' & Hc'); [done|lia|]. rewrite E. eexists. split; [done|].
    cbn [buffer_ originalSize_]. split; [done|]. split; [|done]. rewrite Hc', Hc, app_assoc. apply ztake_app_exact. rewrite zlen_app. lia.
Qed.

(** A client that serialises a message through the stream, in whatever pieces the
    stream hands out, leaves the message behind what the buffer held before, and nothing
    else; the stream's count is the message's length. No assertion fails and nothing is written
    outside the buffer as long as the buffer's memory stays below 2 GiB. *)
Theorem stream_serializes M b data :
  fits M b (zlen data) → M < 2 ^ 31 →
  ∃ s, serialize (length data) data (make b) = Some (Ok s) ∧ content (buffer_ s) = content b ++ data ∧ ByteCount s = zlen data.
Proof.
  intros Hf HM. destruct (serialize_content M (length data) data (make b)) as (s & E & Hb & Hc & Ho); [done..|].
  exists s. split; [done|]. split; [done|]. destruct Hf as (Hb0 & Hs & Hm).
  pose proof (zlen_nonneg data). pose proof (zlen_nonneg (content b)).
  unfold ByteCount. rewrite <- (zlen_content _ Hb), Hc, Ho. cbn [make originalSize_ buffer_]. rewrite <- (zlen_content b Hb0), zlen_app.
  replace (zlen (content b) + zlen data - zlen (content b)) with (zlen data) by lia. rewrite wrapu_small by (buf; zlia).
  apply wraps_small; [lia|]. buf. zlia.
Qed.

Lemma stream_serializes_witness :
  fits 10000 small 3000 ∧ ∃ s, serialize 3000 (zrep 3000 "a"%char) (make small) = Some (Ok s) ∧
    content (buffer_ s) = content small ++ zrep 3000 "a"%char ∧ ByteCount s = 3000.
Proof.
  assert (fits 10000 small 3000) as H by (unfold fits; split; [by apply (bool_decide_unpack _); vm_compute|vm_compute; split; congruence]).
  split; [exact H|]. exact (stream_serializes 10000 small (zrep 3000 "a"%char) H eq_refl).
Defined.

End BufferStream.

Module ZlibStream.

Definition Z_NO_FLUSH : Z := 0.
Definition Z_FINISH : Z := 4.
Definition Z_OK : Z := 0.
Definition Z_STREAM_END : Z := 1.

(** zlib's functions. [deflate flush z input avail_out]: the state after the call, how much of
    [input] was taken, the bytes written, and the return value. *)
Class Zlib := {
  zstate : Type;
  deflateInit : zstate * Z;
  deflate : Z → zstate → bytes → Z → zstate * Z * bytes * Z;
  deflateEnd : zstate → Z;
  deflateBound : Z → Z;
  inflate : bytes → option bytes
}.

(** What zlib.h documents: [session z i o fin]: a stream that took the bytes [i] and wrote [o]; once
    it was told to finish, [fin] is the input it still has to take. *)
Class ZlibLaws (L : Zlib) := {
  session : zstate → bytes → bytes → option bytes → Prop;
  (* deflateInit: a stream that can be used. *)
  session_init : deflateInit.2 = Z_OK → session deflateInit.1 [] [] None;
  (* "deflate compresses as much data as possible, and stops when the input buffer becomes
     empty or the output buffer becomes full"; Z_OK "if some progress has been made". *)
  deflate_no_flush z i o input n : session z i o None → input ≠ [] → 0 < n →
    ∃ z' k p, deflate Z_NO_FLUSH z input n = (z', k, p, Z_OK) ∧ 0 ≤ k ≤ zlen input ∧ zlen p ≤ n ∧
      (k = zlen input ∨ zlen p = n) ∧ session z' (i ++ ztake k input) (o ++ p) None;
  (* Z_FINISH: "pending input is processed, pending output is flushed and deflate returns with
     Z_STREAM_END if there was enough output space"; otherwise it "must be called again with
     Z_FINISH and more output space but no more input data". *)
  deflate_finish z i o fin input n : session z i o fin → fin = None ∨ fin = Some input → 0 < n →
    ∃ z' k p e, deflate Z_FINISH z input n = (z', k, p, e) ∧ 0 ≤ k ≤ zlen input ∧ zlen p ≤ n ∧
      ((e = Z_OK ∧ zlen p = n ∧ session z' (i ++ ztake k input) (o ++ p) (Some (zdrop k input))) ∨
       (e = Z_STREAM_END ∧ k = zlen input ∧ inflate (o ++ p) = Some (i ++ input) ∧
        zlen (o ++ p) ≤ deflateBound (zlen (i ++ input)) ∧ deflateEnd z' = Z_OK));
  (* deflateBound: "an upper bound on the compressed size after deflation of sourceLen bytes",
     unless other flush values than these two are used. *)
  session_bound z i o fin : session z i o fin → zlen o ≤ deflateBound (zlen i)
}.

Section Stream.
Context {L : Zlib}.

(** [next_in_]: [None] for NULL, else the [avail_in] bytes it points at. *)
Record ZlibOutputStream := mkZ {
  output_ : Buffer;
  zstream_ : zstate;
  next_in : option bytes;
  total_in : Z;
  total_out : Z;
  zerror_ : Z;
  bufferSize_ : Z
}.
Definition input_of (s : ZlibOutputStream) : bytes := default [] (next_in s).
Definition avail_in (s : ZlibOutputStream) : Z := zlen (input_of s).

Definition make (output : Buffer) : ZlibOutputStream :=
  mkZ output deflateInit.1 None 0 0 deflateInit.2 1024.
Definition set_zerror (e : Z) (s : ZlibOutputStream) : ZlibOutputStream :=
  mkZ (output_ s) (zstream_ s) (next_in s) (total_in s) (total_out s) e (bufferSize_ s).
Definition set_next_in (p : option bytes) (s : ZlibOutputStream) : ZlibOutputStream :=
  mkZ (output_ s) (zstream_ s) p (total_in s) (total_out s) (zerror_ s) (bufferSize_ s).
Definition zlibErrorCode (s : ZlibOutputStream) : Z := zerror_ s.
Definition inputBytes (s : ZlibOutputStream) : Z := total_in s.
Definition outputBytes (s : ZlibOutputStream) : Z := total_out s.
Definition internalOutputBufferSize (s : ZlibOutputStream) : Z := bufferSize_ s.

Definition compress (flush : Z) (s : ZlibOutputStream) : result (ZlibOutputStream * Z) :=
  b ← ensureWritableBytes (output_ s) (bufferSize_ s);
  let avail_out := u32 (s32 (writableBytes b)) in
  let '(z, k, p, error) := deflate flush (zstream_ s) (input_of s) avail_out in
  v ← vec_write (Buffer.buffer_ b) (beginWrite b) p;
  let b := mkBuffer v (readerIndex_ b) (writerIndex_ b) in
  b ← hasWritten b (u64 (writableBytes b - (avail_out - zlen p)));
  let bufferSize := if (writableBytes b =? 0) && (bufferSize_ s <? 65536) then bufferSize_ s * 2 else bufferSize_ s in
  Ok (mkZ b z (zdrop k <$> next_in s) (total_in s + k) (total_out s + zlen p) (zerror_ s) bufferSize, error).

(** [while (zstream_.avail_in > 0 && zerror_ == Z_OK)] *)
Fixpoint write_loop (fuel : nat) (s : ZlibOutputStream) : option (result ZlibOutputStream) :=
  if (0 <? avail_in s) && (zerror_ s =? Z_OK) then
    match fuel with
    | O => None
    | S fuel =>
        match compress Z_NO_FLUSH s with
        | Fail f => Some (Fail f)
        | Ok (s, e) => write_loop fuel (set_zerror e s)
        end
    end
  else Some (Ok s).

(** [write(StringPiece)]; the piece's bytes. [next_in] is the input that is left, so
    that the assertion [next_in == buf.end()] for [avail_in == 0] holds by
    representation. *)
Definition write (fuel : nat) (buf : bytes) (s : ZlibOutputStream) : option (result (ZlibOutputStream * bool)) :=
  if negb (zerror_ s =? Z_OK) then Some (Ok (s, false))
  else
    match next_in s with
    | Some _ => Some (Fail AssertFailed)
    | None =>
        r ← write_loop fuel (set_next_in (Some buf) s);
        Some (s ← r;
          let s := if avail_in s =? 0 then set_next_in None s else s in
          Ok (s, zerror_ s =? Z_OK))
    end.

(** [write] of a [Buffer]: [next_in] keeps pointing into [input]. *)
Definition write_buffer (input : Buffer) (s : ZlibOutputStream) : result (Buffer * ZlibOutputStream * bool) :=
  if negb (zerror_ s =? Z_OK) then Ok (input, s, false)
  else
    let avail := u32 (s32 (readableBytes input)) in
    let s := set_next_in (Some (ztake avail (content input))) s in
    s ← (if 0 <? avail_in s then '(s, e) ← compress Z_NO_FLUSH s; Ok (set_zerror e s) else Ok s);
    input ← retrieve input (u64 (readableBytes input - avail_in s));
    Ok (input, s, zerror_ s =? Z_OK).

(** [while (zerror_ == Z_OK)] *)
Fixpoint finish_loop (fuel : nat) (s : ZlibOutputStream) : option (result ZlibOutputStream) :=
  if zerror_ s =? Z_OK then
    match fuel with
    | O => None
    | S fuel =>
        match compress Z_FINISH s with
        | Fail f => Some (Fail f)
        | Ok (s, e) => finish_loop fuel (set_zerror e s)
        end
    end
  else Some (Ok s).
Definition finish (fuel : nat) (s : ZlibOutputStream) : option (result (ZlibOutputStream * bool)) :=
  if negb (zerror_ s =? Z_OK) then Some (Ok (s, false))
  else
    r ← finish_loop fuel s;
    Some (s ← r;
      let ok := deflateEnd (zstream_ s) =? Z_OK in
      Ok (set_zerror Z_STREAM_END s, ok)).

(** A client: the pieces, then the end; whether every call said yes. *)
Fixpoint write_all (fuel : nat) (pieces : list bytes) (s : ZlibOutputStream) : option (result (ZlibOutputStream * bool)) :=
  match pieces with
  | [] => finish fuel s
  | p :: pieces =>
      r ← write fuel p s;
      match r with
      | Fail f => Some (Fail f)
      | Ok (s, true) => write_all fuel pieces s
      | Ok (s, false) => Some (Ok (s, false))
      end
  end.

End Stream.

Section Facts.
Context {L : Zlib} {LL : ZlibLaws L}.

(** The memory allowed, the largest headroom, and what the buffer held at the start. *)
Context (M R B : Z) (c0 : bytes).
Context (HM : M < 2 ^ 31) (HR : kCheapPrepend ≤ R) (HB : R + zlen c0 + B + 131072 ≤ M).

Definition out_inv (s : ZlibOutputStream) (o : bytes) : Prop :=
  wf (output_ s) ∧ size (output_ s) ≤ M ∧ readerIndex_ (output_ s) ≤ R ∧ content (output_ s) = c0 ++ o ∧
  1024 ≤ bufferSize_ s ≤ 131072.

Lemma compress_ok flush s o :
  out_inv s o → zlen o ≤ B →
  ∃ n, 1024 ≤ n ∧ ∀ z k p e, deflate flush (zstream_ s) (input_of s) n = (z, k, p, e) → zlen p ≤ n →
    ∃ s', compress flush s = Ok (s', e) ∧ out_inv s' (o ++ p) ∧ zstream_ s' = z ∧ next_in s' = zdrop k <$> next_in s.
Proof.
  intros (Hb & Hs & Hr & Hc & Hbs) Ho. pose proof (writer_content _ Hb) as Hw. rewrite Hc, zlen_app in Hw.
  destruct (ensureWritableBytes_grow (output_ s) (bufferSize_ s)) as (b1 & E & Hb1 & Hc1 & Hw1 & Hs1 & Hr1); [done|lia|unfold vec_max_size; lia|].
  pose proof (writable_wf b1 Hb1) as Hwr. assert (size b1 ≤ M) as HsM by lia.
  assert (u32 (s32 (writableBytes b1)) = writableBytes b1) as Hu.
  { assert (s32 (writableBytes b1) = writableBytes b1) as -> by (apply wraps_small; [lia|]; unfold in_s; buf; lia).
    apply wrapu_small. unfold in_u. buf. lia. }
  exists (writableBytes b1). split; [lia|]. intros z k p e Hd Hp. pose proof (zlen_nonneg p).
  unfold compress. rewrite E, bind_Ok, Hu, Hd. rewrite vec_write_Ok by (buf; lia). rewrite bind_Ok.
  destruct (hasWritten_ok b1 p) as (b' & E' & Hb' & Hc' & Hp' & Hw'); [done..|]. unfold beginWrite.
  set (b2 := mkBuffer _ _ _) in E' |- *. assert (size b2 = size b1) as Hs2 by (apply zlen_vec_write; buf; lia).
  assert (writableBytes b2 = writableBytes b1) as Hw2 by (unfold writableBytes; by rewrite Hs2).
  rewrite Hw2. replace (writableBytes b1 - (writableBytes b1 - zlen p)) with (zlen p) by lia.
  rewrite wrapu_small by (unfold in_u; buf; lia). rewrite E', bind_Ok. eexists. split; [done|]. split; [|done].
  unfold out_inv. cbn [output_ bufferSize_]. split_and!.
  - done.
  - rewrite writable_wf in Hw' by done. pose proof (writer_content _ Hb'). pose proof (writer_content _ Hb1). unfold prependableBytes in Hp'.
    rewrite Hc', zlen_app in *. lia.
  - unfold prependableBytes in Hp'. lia.
  - rewrite Hc', Hc1, Hc. by rewrite app_assoc.
  - destruct (_ && _) eqn:Hx; [apply andb_true_iff in Hx as [_ Hx%Z.ltb_lt]|]; lia.
  - destruct (_ && _) eqn:Hx; [apply andb_true_iff in Hx as [_ Hx%Z.ltb_lt]|]; lia.
Qed.

(** A buffer loses what the stream took of it, in order, and nothing else. *)
Lemma write_buffer_ok s i o input :
  out_inv s o → zlen o ≤ B → session (zstream_ s) i o None → zerror_ s = Z_OK → wf input → readableBytes input < 2 ^ 31 →
  ∃ input' s' o' taken, write_buffer input s = Ok (input', s', true) ∧ wf input' ∧ content input = taken ++ content input' ∧
    out_inv s' o' ∧ session (zstream_ s') (i ++ taken) o' None ∧ zerror_ s' = Z_OK.
Proof.
  intros Hinv Ho Hses Hz Hin Hlen. pose proof (zlen_content _ Hin) as Hl. pose proof (zlen_nonneg (content input)).
  assert (u32 (s32 (readableBytes input)) = readableBytes input) as Hu.
  { assert (s32 (readableBytes input) = readableBytes input) as -> by (apply wraps_small; [lia|]; unfold in_s; lia).
    apply wrapu_small. unfold in_u. lia. }
  unfold write_buffer. rewrite Hz, Z.eqb_refl. cbn [negb]. rewrite Hu, ztake_all by lia.
  set (s0 := set_next_in _ s). change (avail_in s0) with (zlen (content input)).
  destruct (Z.ltb_spec 0 (zlen (content input))) as [Hpos|Hzero].
  - assert (content input ≠ []) as Hne by (intros E; rewrite E, zlen_nil in Hpos; lia).
    destruct (compress_ok Z_NO_FLUSH s0 o) as (n & Hn & Hcomp); [done..|].
    destruct (deflate_no_flush _ _ _ (content input) n Hses) as (z' & k & p & Hd & Hk & Hp & _ & Hses'); [done|lia|].
    destruct (Hcomp _ _ _ _ Hd Hp) as (s' & -> & Hinv' & Hz' & Hin'). rewrite !bind_Ok.
    assert (avail_in (set_zerror Z_OK s') = zlen (content input) - k) as ->.
    { unfold avail_in, input_of. cbn [set_zerror next_in]. rewrite Hin'. cbn. rewrite zlen_zdrop; lia. }
    rewrite wrapu_small by (unfold in_u; lia). replace (readableBytes input - (zlen (content input) - k)) with k by lia.
    destruct (retrieve_ok input k) as (input' & -> & Hb' & Hc'); [done|lia|]. rewrite bind_Ok.
    exists input', (set_zerror Z_OK s'), (o ++ p), (ztake k (content input)). rewrite Hc', ztake_zdrop. subst z'. by split_and!.
  - rewrite bind_Ok. change (avail_in s0) with (zlen (content input)). rewrite wrapu_small by (unfold in_u; lia).
    destruct (retrieve_ok input (readableBytes input - zlen (content input))) as (input' & -> & Hb' & Hc'); [done|lia|]. rewrite bind_Ok.
    exists input', s0, o, []. rewrite Hc', app_nil_r. replace (readableBytes input - zlen (content input)) with 0 by lia. rewrite zdrop_0.
    cbn [s0 set_next_in zerror_]. rewrite Hz. by split_and!.
Qed.

Context (N : Z) (HN : ∀ n, 0 ≤ n ≤ N → deflateBound n ≤ B).

Lemma write_loop_ok fuel : ∀ s i o input,
  out_inv s o → session (zstream_ s) i o None → next_in s = Some input → zerror_ s = Z_OK →
  zlen i + zlen input ≤ N → B - zlen o < Z.of_nat fuel →
  ∃ s' o', write_loop fuel s = Some (Ok s') ∧ out_inv s' o' ∧ session (zstream_ s') (i ++ input) o' None ∧
           next_in s' = Some [] ∧ zerror_ s' = Z_OK.
Proof.
  induction fuel as [|fuel IH]; intros s i o input Hinv Hses Hin Hz Hlen Hfuel;
    pose proof (session_bound _ _ _ _ Hses) as Hbd; pose proof (HN (zlen i)); pose proof (zlen_nonneg i); pose proof (zlen_nonneg input); [lia|].
  cbn [write_loop]. unfold avail_in, input_of. rewrite Hin, Hz. cbn [default id]. rewrite Z.eqb_refl, andb_true_r.
  destruct (Z.ltb_spec 0 (zlen input)) as [Hpos|Hzero].
  2:{ destruct input as [|c input]; [|rewrite zlen_cons in *; pose proof (zlen_nonneg input); lia].
      exists s, o. rewrite app_nil_r. auto. }
  assert (input ≠ []) as Hne by (intros ->; rewrite zlen_nil in Hpos; lia).
  destruct (compress_ok Z_NO_FLUSH s o) as (n & Hn & Hcomp); [done|lia|]. unfold input_of in Hcomp. rewrite Hin in Hcomp. cbn [default id] in Hcomp.
  destruct (deflate_no_flush _ _ _ input n Hses) as (z' & k & p & Hd & Hk & Hp & Hor & Hses'); [done|lia|].
  destruct (Hcomp _ _ _ _ Hd Hp) as (s' & -> & Hinv' & Hz' & Hin'). cbn [fmap option_fmap option_map] in Hin'.
  assert (∃ s'' o', write_loop fuel (set_zerror Z_OK s') = Some (Ok s'') ∧ out_inv s'' o' ∧
    session (zstream_ s'') ((i ++ ztake k input) ++ zdrop k input) o' None ∧ next_in s'' = Some [] ∧ zerror_ s'' = Z_OK) as H'.
  { destruct Hor as [->|Hfull].
    - exists (set_zerror Z_OK s'), (o ++ p). rewrite zdrop_all in Hin' |- * by lia. rewrite app_nil_r. subst z'.
      assert (write_loop fuel (set_zerror Z_OK s') = Some (Ok (set_zerror Z_OK s'))) as ->.
      { destruct fuel; cbn [write_loop]; unfold avail_in, input_of; cbn [next_in set_zerror]; by rewrite Hin'. }
      done.
    - apply (IH (set_zerror Z_OK s') (i ++ ztake k input) (o ++ p) (zdrop k input)); [done|by subst z'|exact Hin'|done| |].
      + rewrite zlen_app, zlen_ztake, zlen_zdrop by lia. lia.
      + rewrite zlen_app. lia. }
  rewrite <- app_assoc, ztake_zdrop in H'. exact H'.
Qed.

Lemma finish_loop_ok fuel : ∀ s i o fin,
  out_inv s o → session (zstream_ s) i o fin → fin = None ∨ fin = Some (input_of s) → zerror_ s = Z_OK →
  zlen i + avail_in s ≤ N → B - zlen o < Z.of_nat fuel →
  ∃ s' o', finish_loop fuel s = Some (Ok s') ∧ out_inv s' o' ∧ inflate o' = Some (i ++ input_of s) ∧ zlen o' ≤ B ∧
           deflateEnd (zstream_ s') = Z_OK.
Proof.
  induction fuel as [|fuel IH]; intros s i o fin Hinv Hses Hfin Hz Hlen Hfuel; unfold avail_in in *;
    pose proof (session_bound _ _ _ _ Hses) as Hbd; pose proof (HN (zlen i)); pose proof (zlen_nonneg i); pose proof (zlen_nonneg (input_of s)); [lia|].
  cbn [finish_loop]. rewrite Hz, Z.eqb_refl.
  destruct (compress_ok Z_FINISH s o) as (n & Hn & Hcomp); [done|lia|].
  destruct (deflate_finish _ _ _ _ (input_of s) n Hses Hfin) as (z' & k & p & e & Hd & Hk & Hp & Hor); [lia|].
  destruct (Hcomp _ _ _ _ Hd Hp) as (s' & -> & Hinv' & Hz' & Hin').
  assert (input_of s' = zdrop k (input_of s)) as Hrest.
  { unfold input_of. rewrite Hin'. destruct (next_in s); [done|]. cbn. unfold zdrop. by rewrite drop_nil. }
  destruct Hor as [(-> & Hfull & Hses')|(-> & -> & Hinf & Hbd' & Hend)].
  - destruct (IH (set_zerror Z_OK s') (i ++ ztake k (input_of s)) (o ++ p) (Some (zdrop k (input_of s)))) as (s'' & o' & E & ? & Hi & ?);
      [done|by subst z'|right; by rewrite <- Hrest|done| | |].
    + change (input_of (set_zerror Z_OK s')) with (input_of s'). rewrite Hrest, zlen_app, zlen_ztake, zlen_zdrop by lia. lia.
    + rewrite zlen_app. lia.
    + exists s'', o'. change (input_of (set_zerror Z_OK s')) with (input_of s') in Hi.
      rewrite Hrest, <- app_assoc, ztake_zdrop in Hi. auto.
  - exists (set_zerror Z_STREAM_END s'), (o ++ p). split; [by destruct fuel|]. subst z'.
    split_and!; [done|done| |done]. etrans; [exact Hbd'|]. apply HN. rewrite zlen_app. lia.
Qed.

Lemma write_ok fuel buf s i o :
  out_inv s o → session (zstream_ s) i o None → next_in s = None → zerror_ s = Z_OK →
  zlen i + zlen buf ≤ N → B < Z.of_nat fuel →
  ∃ s' o', write fuel buf s = Some (Ok (s', true)) ∧ out_inv s' o' ∧ session (zstream_ s') (i ++ buf) o' None ∧
           next_in s' = None ∧ zerror_ s' = Z_OK.
Proof.
  intros Hinv Hses Hin Hz Hlen Hfuel. pose proof (zlen_nonneg o). unfold write. rewrite Hz, Z.eqb_refl, Hin. cbn [negb].
  destruct (write_loop_ok fuel (set_next_in (Some buf) s) i o buf) as (s' & o' & E & Hinv' & Hses' & Hin' & Hz'); [done..|lia|].
  rewrite E. cbn [mbind option_bind result_bind]. unfold avail_in, input_of. rewrite Hin'. cbn [default id]. rewrite zlen_nil, Z.eqb_refl.
  exists (set_next_in None s'), o'. cbn [set_next_in zerror_]. by rewrite Hz', Z.eqb_refl.
Qed.

Lemma finish_ok fuel s i o :
  out_inv s o → session (zstream_ s) i o None → next_in s = None → zerror_ s = Z_OK →
  zlen i ≤ N → B < Z.of_nat fuel →
  ∃ s' o', finish fuel s = Some (Ok (s', true)) ∧ out_inv s' o' ∧ inflate o' = Some i ∧ zlen o' ≤ B ∧ zerror_ s' = Z_STREAM_END.
Proof.
  intros Hinv Hses Hin Hz Hlen Hfuel. pose proof (zlen_nonneg o). unfold finish. rewrite Hz, Z.eqb_refl. cbn [negb].
  assert (input_of s = []) as Hi by (unfold input_of; by rewrite Hin).
  destruct (finish_loop_ok fuel s i o None) as (s' & o' & E & Hinv' & Hinf & Hbd & Hend); [done|done|by left|done|unfold avail_in; rewrite Hi, zlen_nil; lia|lia|].
  rewrite Hi, app_nil_r in Hinf. rewrite E. cbn [mbind option_bind result_bind]. rewrite Hend, Z.eqb_refl.
  by exists (set_zerror Z_STREAM_END s'), o'.
Qed.

Lemma write_all_ok fuel pieces : ∀ s i o,
  out_inv s o → session (zstream_ s) i o None → next_in s = None → zerror_ s = Z_OK →
  zlen i + zlen (concat pieces) ≤ N → B < Z.of_nat fuel →
  ∃ s' o', write_all fuel pieces s = Some (Ok (s', true)) ∧ out_inv s' o' ∧ inflate o' = Some (i ++ concat pieces) ∧ zlen o' ≤ B ∧
           zerror_ s' = Z_STREAM_END.
Proof.
  induction pieces as [|p pieces IH]; intros s i o Hinv Hses Hin Hz Hlen Hfuel; cbn [write_all concat].
  - rewrite app_nil_r. eapply finish_ok; try done. cbn in Hlen. rewrite zlen_nil in Hlen. lia.
  - cbn [concat] in Hlen. rewrite zlen_app in Hlen. pose proof (zlen_nonneg (concat pieces)).
    destruct (write_ok fuel p s i o) as (s1 & o1 & E & Hinv1 & Hses1 & Hin1 & Hz1); [done..|lia|done|].
    rewrite E. cbn [mbind option_bind]. destruct (IH s1 (i ++ p) o1) as (s' & o' & E' & ?); [done..|rewrite zlen_app; lia|done|].
    exists s', o'. by rewrite E', app_assoc.
Qed.

End Facts.

(** C35: Everything written to a stream, in any pieces, and then finished, appears behind what
    the buffer held before as bytes that inflate to exactly what was written, and every call
    succeeds. The loops end: each round but the last one fills at least 1024 bytes of output, of
    which there are at most [B]. *)
Theorem zlib_roundtrip {L : Zlib} {LL : ZlibLaws L} (M B : Z) b pieces fuel :
  deflateInit.2 = Z_OK → wf b → size b ≤ M → M < 2 ^ 31 →
  Z.max (readerIndex_ b) kCheapPrepend + zlen (content b) + B + 131072 ≤ M →
  (∀ n, 0 ≤ n ≤ zlen (concat pieces) → deflateBound n ≤ B) → B < Z.of_nat fuel →
  ∃ s z, write_all fuel pieces (make b) = Some (Ok (s, true)) ∧ wf (output_ s) ∧ content (output_ s) = content b ++ z ∧
    inflate z = Some (concat pieces) ∧ zlen z ≤ B.
Proof.
  intros Hi Hb Hs HM Hroom HN Hfuel.
  destruct (write_all_ok M (Z.max (readerIndex_ b) kCheapPrepend) B (content b) HM ltac:(lia) Hroom (zlen (concat pieces)) HN
    fuel pieces (make b) [] []) as (s & z & E & (Hb' & _ & _ & Hc & _) & Hinf & Hz & _); [|by apply session_init|done|done|done|done|].
  - split_and!; cbn; [done|done|lia|by rewrite app_nil_r|lia|lia].
  - by exists s, z.
Qed.

(** ** A stream that has failed or ended takes nothing any more *)

Lemma refused `{L : Zlib} fuel p b s :
  zerror_ s ≠ Z_OK →
  write fuel p s = Some (Ok (s, false)) ∧ finish fuel s = Some (Ok (s, false)) ∧ write_buffer b s = Ok (b, s, false).
Proof. intros Hz. unfold write, finish, write_buffer. by rewrite (proj2 (Z.eqb_neq _ _) Hz). Qed.

(** After a buffer, even an empty one, was written, a piece cannot be: [next_in] is not NULL. *)
Lemma piece_after_buffer `{L : Zlib} input s input' s' fuel p :
  zerror_ s = Z_OK → write_buffer input s = Ok (input', s', true) → write fuel p s' = Some (Fail AssertFailed).
Proof.
  intros Hz. unfold write_buffer. rewrite Hz, Z.eqb_refl. cbn [negb]. intros H. apply bind_Ok_inv in H as (s1 & H1 & H).
  apply bind_Ok_inv in H as (b & _ & [= <- <- Hz1]). unfold write. rewrite Hz1. cbn [negb].
  assert (is_Some (next_in s1)) as [x ->]; [|done]. destruct (0 <? _).
  - apply bind_Ok_inv in H1 as ([s2 e] & H1 & [= <-]). cbn [set_zerror next_in]. unfold compress in H1.
    apply bind_Ok_inv in H1 as (b1 & _ & H1). destruct (deflate _ _ _ _) as [[[z k] q] err]. apply bind_Ok_inv in H1 as (v & _ & H1).
    apply bind_Ok_inv in H1 as (b2 & _ & [= <- _]). cbn. eauto.
  - injection H1 as <-. cbn. eauto.
Qed.

(** ** zlib's promises can be kept: a format that stores the bytes and an end mark *)

Definition store_deflate (flush : Z) (z : bytes * bytes) (input : bytes) (n : Z) : bytes * bytes * Z * bytes * Z :=
  let i := z.1 ++ input in
  let all := if flush =? Z_FINISH then i ++ ["."%char] else i in
  let p := ztake n (zdrop (zlen z.2) all) in
  ((i, z.2 ++ p), zlen input, p, if (flush =? Z_FINISH) && (zlen z.2 + n >=? zlen all) then Z_STREAM_END else Z_OK).
#[local] Instance store : Zlib := {
  zstate := bytes * bytes;
  deflateInit := (([], []), Z_OK);
  deflate := store_deflate;
  deflateEnd := λ _, Z_OK;
  deflateBound := λ n, n + 1;
  inflate := λ l, Some (ztake (zlen l - 1) l)
}.
Lemma store_emits (a o : bytes) n :
  o `prefix_of` a → 0 < n → let p := ztake n (zdrop (zlen o) a) in
  zlen p ≤ n ∧ o ++ p `prefix_of` a ∧ (zlen o + n ≤ zlen a → zlen p = n) ∧ (zlen a ≤ zlen o + n → o ++ p = a).
Proof.
  intros [r ->] Hn p. subst p. rewrite zdrop_app_exact by done. rewrite zlen_app. pose proof (zlen_nonneg r). split_and!.
  - unfold ztake, zlen in *. rewrite length_take. lia.
  - apply prefix_app. exists (zdrop n r). by rewrite ztake_zdrop.
  - intros. apply zlen_ztake. lia.
  - intros. by rewrite ztake_all by lia.
Qed.
#[local] Program Instance store_laws : ZlibLaws store := {
  session := λ z i o fin, z = (i, o) ∧ o `prefix_of` i ∧ (fin = None ∨ fin = Some [])
}.
Next Obligation. intros _. split; [done|]. split; [done|]. by left. Qed.
Next Obligation.
  intros z i o input n (-> & Hp & _) Hne Hn. unfold deflate. cbn [store]. unfold store_deflate. cbn [fst snd].
  change (Z_NO_FLUSH =? Z_FINISH) with false. cbn [andb]. destruct (store_emits (i ++ input) o n) as (H1 & H2 & _); [by apply prefix_app_r|done|].
  do 3 eexists. split; [done|]. pose proof (zlen_nonneg input). rewrite (ztake_all (zlen input) input) by lia.
  split_and!; [lia|lia|done|by left|done|done|by left].
Qed.
Next Obligation.
  intros z i o fin input n (-> & Hp & Hf) Hfin Hn. unfold deflate. cbn [store]. unfold store_deflate. cbn [fst snd].
  change (Z_FINISH =? Z_FINISH) with true. cbn [andb].
  destruct (store_emits ((i ++ input) ++ ["."%char]) o n) as (H1 & H2 & H3 & H4); [by do 2 apply prefix_app_r|done|].
  set (p := ztake n _) in *. do 4 eexists. split; [done|]. pose proof (zlen_nonneg input). split_and!; [lia|lia|done|].
  destruct (zlen o + n >=? _) eqn:E; rewrite Z.geb_leb in E.
  - apply Z.leb_le in E. right. rewrite H4 by lia. split_and!; [done|done| | |done].
    + cbn. f_equal. apply ztake_app_exact. rewrite !zlen_app. change (zlen ["."%char]) with 1. lia.
    + cbn. rewrite !zlen_app. change (zlen ["."%char]) with 1. lia.
  - apply Z.leb_gt in E. left. rewrite (ztake_all (zlen input)), zdrop_all by lia. split_and!; [done|apply H3; lia|done| |by right].
    destruct H2 as [r Hr]. destruct r as [|x r _] using rev_ind.
    + rewrite app_nil_r in Hr. apply (f_equal zlen) in Hr. rewrite (zlen_app o p) in Hr. lia.
    + rewrite app_assoc in Hr. apply app_inj_tail in Hr as [Hr _]. by exists r.
Qed.
Next Obligation.
  intros z i o fin (_ & [r ->] & _). cbn. rewrite zlen_app. pose proof (zlen_nonneg r). lia.
Qed.

Lemma zlib_roundtrip_witness :
  wf small ∧ ∃ s z, write_all 3000 [zrep 1500 "a"%char; []; zrep 1200 "b"%char] (make small) = Some (Ok (s, true)) ∧ wf (output_ s) ∧
    content (output_ s) = content small ++ z ∧ inflate z = Some (zrep 1500 "a"%char ++ zrep 1200 "b"%char) ∧ zlen z ≤ 2701.
Proof.
  assert (wf small) as Hb by (apply (bool_decide_unpack _); by vm_compute). split; [exact Hb|].
  apply (zlib_roundtrip 140000 2701 small [zrep 1500 "a"%char; []; zrep 1200 "b"%char] 3000);
    [reflexivity|exact Hb|by vm_compute|by vm_compute|by vm_compute| |by vm_compute].
  change (zlen (concat [zrep 1500 "a"%char; []; zrep 1200 "b"%char])) with 2700. cbn. lia.
Defined.

End ZlibStream.
