(* ===== verification/LoopObject.v ===== *)
(** * Event loops and their threads ([EventLoop::EventLoop], [EventLoop::~EventLoop] of
    [net/EventLoop.cc], [TimerQueue::TimerQueue], [TimerQueue::~TimerQueue] of
    [net/TimerQueue.cc])

    Threads create and destroy loops and use their channels. The poller is any
    implementation of the interface of [Poller.v]. *)

From stdpp Require Import gmap sets.
From S2P Require Import Prelude Channel Poller EPollPoller EventLoop.
Import Channel.Channel Poller.Poller.

Module LoopObject.

Section object.
Context `{PollerLaws P}.

(** The members that are channels are named by their addresses. *)
Record EventLoop := mkLoop {
  chans : Channels.state (P := P);
  timerfdChannel_ : Z;
  wakeupChannel_ : Z
}.
(** [t_loop]: the thread variable [t_loopInThisThread] of each thread. *)
Record World := mkWorld { loops : gmap Z EventLoop; t_loop : gmap Z Z }.

Definition getEventLoopOfCurrentThread (tid : Z) (w : World) : option Z := t_loop w !! tid.

(** eventfd(2) and timerfd_create(2) return a descriptor or a negative number. *)
Definition createEventfd (evtfd : Z) : result Z := if evtfd <? 0 then Fail FatalLog else Ok evtfd.
Definition createTimerfd (timerfd : Z) : result Z := if timerfd <? 0 then Fail FatalLog else Ok timerfd.

Definition new_channel (c fd : Z) (s : Channels.state (P := P)) : Channels.state :=
  Channels.set_poller (<[c := make fd]> (Channels.objects s), Channels.poller_ s) s.
(** [Channel::~Channel] *)
Definition destroy_channel (tid c : Z) (s : Channels.state (P := P)) : result Channels.state :=
  ch ← deref c (Channels.objects s);
  _ ← check (negb (eventHandling_ ch));
  _ ← check (negb (addedToLoop_ ch));
  _ ← (if Channels.isInLoopThread tid s then has ← Channels.hasChannel tid c s; check (negb has) else Ok tt);
  Ok (Channels.set_poller (delete c (Channels.objects s), Channels.poller_ s) s).

(** The channel part of [TimerQueue::TimerQueue] and [~TimerQueue]. *)
Definition make_timer_queue (tid c fd : Z) (s : Channels.state (P := P)) : result Channels.state :=
  timerfd ← createTimerfd fd;
  let s := new_channel c timerfd s in
  Channels.updateChannel tid c kReadEvent s.
Definition destroy_timer_queue (tid c : Z) (s : Channels.state (P := P)) : result Channels.state :=
  s ← Channels.updateChannel tid c kNoneEvent s;
  s ← Channels.removeChannel tid c s;
  destroy_channel tid c s.

(** [EventLoop::EventLoop] of the object at [a] in thread [tid]. *)
Definition construct (tid a timerfd evtfd tc wc : Z) (w : World) : result World :=
  let s := Channels.mkState tid new_poller ∅ [] None false [] in
  s ← make_timer_queue tid tc timerfd s;
  wakeupFd ← createEventfd evtfd;
  let s := new_channel wc wakeupFd s in
  match t_loop w !! tid with
  | Some _ => Fail FatalLog
  | None =>
      s ← Channels.updateChannel tid wc kReadEvent s;
      Ok (mkWorld (<[a := mkLoop s tc wc]> (loops w)) (<[tid := a]> (t_loop w)))
  end.

(** [EventLoop::~EventLoop] called by thread [tid]; the members go in the reverse order of
    their declarations. *)
Definition destruct_loop (tid : Z) (l : EventLoop) : result Channels.state :=
  s ← Channels.updateChannel tid (wakeupChannel_ l) kNoneEvent (chans l);
  s ← Channels.removeChannel tid (wakeupChannel_ l) s;
  s ← destroy_channel tid (wakeupChannel_ l) s;
  destroy_timer_queue tid (timerfdChannel_ l) s.
Definition destruct (tid a : Z) (w : World) : result World :=
  match loops w !! a with
  | None => Fail OutOfRange
  | Some l => _ ← destruct_loop tid l; Ok (mkWorld (delete a (loops w)) (delete tid (t_loop w)))
  end.

(** A channel of somebody else on the loop, and its calls. *)
Definition on_loop (a : Z) (f : EventLoop → result EventLoop) (w : World) : result World :=
  match loops w !! a with
  | None => Fail OutOfRange
  | Some l => l ← f l; Ok (mkWorld (<[a := l]> (loops w)) (t_loop w))
  end.
Definition call_channel (tid : Z) (x : Channels.call) (l : EventLoop) : result EventLoop :=
  s ← Channels.do_call tid x (chans l); Ok (mkLoop s (timerfdChannel_ l) (wakeupChannel_ l)).
Definition add_object (c fd : Z) (l : EventLoop) : result EventLoop :=
  Ok (mkLoop (new_channel c fd (chans l)) (timerfdChannel_ l) (wakeupChannel_ l)).

Definition subject (x : Channels.call) : Z := match x with Channels.Update c _ | Channels.RemoveCh c => c end.

(** What a thread does. *)
Inductive action :=
  | Construct (a timerfd evtfd tc wc : Z)
  | NewChannel (a c fd : Z)
  | Call (a : Z) (x : Channels.call)
  | Destruct (a : Z).
Definition perform (tid : Z) (x : action) (w : World) : result World :=
  match x with
  | Construct a timerfd evtfd tc wc => construct tid a timerfd evtfd tc wc w
  | NewChannel a c fd => on_loop a (add_object c fd) w
  | Call a x => on_loop a (call_channel tid x) w
  | Destruct a => destruct tid a w
  end.
(** Objects have addresses of their own, calls are on loops that exist, follow the rules of
    the poller and leave the loop's own channels alone. *)
Definition allowed (x : action) (w : World) : Prop :=
  match x with
  | Construct a timerfd evtfd tc wc => loops w !! a = None ∧ 0 ≤ timerfd ∧ 0 ≤ evtfd ∧ timerfd ≠ evtfd ∧ tc ≠ wc
  | NewChannel a c _ => ∃ l, loops w !! a = Some l ∧ Channels.objects (chans l) !! c = None
  | Call a x => ∃ l, loops w !! a = Some l ∧ Channels.legal x (chans l) ∧ subject x ≠ timerfdChannel_ l ∧ subject x ≠ wakeupChannel_ l
  | Destruct a => is_Some (loops w !! a)
  end.
(** A second loop in a thread, or a call from a thread that is not the loop's. *)
Definition misplaced (tid : Z) (x : action) (w : World) : bool :=
  match x with
  | Construct _ _ _ _ _ => bool_decide (is_Some (t_loop w !! tid))
  | NewChannel _ _ _ => false
  | Call a _ | Destruct a => match loops w !! a with Some l => negb (Channels.isInLoopThread tid (chans l)) | None => false end
  end.

Inductive reachable : World → Prop :=
  | Initial : reachable (mkWorld ∅ ∅)
  | Step tid x w w' : reachable w → allowed x w → perform tid x w = Ok w' → reachable w'.

(** ** Invariant *)

(** A channel of the loop itself: always registered for reading. *)
Definition watched (c : Z) (s : Channels.state (P := P)) : Prop :=
  ∃ ch, Channels.objects s !! c = Some ch ∧ registered c ch (Channels.poller_ s) ∧ events_ ch = kReadEvent ∧ eventHandling_ ch = false.
Record loop_inv (l : EventLoop) : Prop := {
  li_poller : pinv (Channels.objects (chans l)) (Channels.poller_ (chans l));
  li_idle : Channels.eventHandling_ (chans l) = false;
  li_timer : watched (timerfdChannel_ l) (chans l);
  li_wakeup : watched (wakeupChannel_ l) (chans l);
  li_diff : timerfdChannel_ l ≠ wakeupChannel_ l
}.
Record world_inv (w : World) : Prop := {
  wi_loops : ∀ a l, loops w !! a = Some l → loop_inv l;
  wi_thread : ∀ tid a, t_loop w !! tid = Some a ↔ ∃ l, loops w !! a = Some l ∧ Channels.threadId_ (chans l) = tid
}.

Lemma registered_fd_ne c d ch dh p : c ≠ d → registered c ch p → registered d dh p → fd_ ch ≠ fd_ dh.
Proof. unfold registered. congruence. Qed.

Lemma in_thread tid s : Channels.threadId_ (P := P) s = tid → Channels.assertInLoopThread tid s = Ok tt.
Proof. intros E. unfold Channels.assertInLoopThread, Channels.isInLoopThread. by rewrite E, Z.eqb_refl. Qed.
Lemma other_thread tid s : Channels.threadId_ (P := P) s ≠ tid → Channels.assertInLoopThread tid s = Fail FatalLog.
Proof. intros E. unfold Channels.assertInLoopThread, Channels.isInLoopThread. by rewrite (proj2 (Z.eqb_neq _ _) E). Qed.

(** Changing the interest of [c]: it is registered, and watched channels stay watched. *)
Lemma update_spec tid c ch e s :
  Channels.threadId_ s = tid → pinv (Channels.objects s) (Channels.poller_ s) → Channels.objects s !! c = Some ch → events_ok e →
  (fresh ch (Channels.poller_ s) ∧ e ≠ 0 ∨ registered c ch (Channels.poller_ s) ∧ (e ≠ 0 ∨ events_ ch ≠ 0)) →
  ∃ s' ch', Channels.updateChannel tid c e s = Ok s' ∧ pinv (Channels.objects s') (Channels.poller_ s') ∧
    Channels.threadId_ s' = tid ∧ Channels.eventHandling_ s' = Channels.eventHandling_ s ∧
    Channels.objects s' = <[c := ch']> (Channels.objects s) ∧ registered c ch' (Channels.poller_ s') ∧ events_ ch' = e ∧ eventHandling_ ch' = eventHandling_ ch ∧
    channels_ (Channels.poller_ s') = <[fd_ ch := c]> (channels_ (Channels.poller_ s)) ∧
    (∀ d, d ≠ c → watched d s → watched d s').
Proof.
  intros Ht Hi Hc Hok Hcase. destruct (update_law _ _ c ch e Hi Hc Hok Hcase) as (i & σ' & p' & E & Hi' & _ & -> & Ech).
  unfold Channels.updateChannel. rewrite in_thread by done. rewrite bind_Ok, E, bind_Ok. eexists _, (set_index i (with_added true (with_events e ch))). split; [done|].
  unfold Channels.set_poller. cbn. split_and!; try done; [unfold registered; rewrite Ech; apply lookup_insert_eq|].
  intros d Hd (dh & Hdo & Hdr & He & Hh). exists dh. cbn. rewrite lookup_insert_ne by done. split_and!; try done.
  unfold registered in *. rewrite Ech, lookup_insert_ne; [done|].
  destruct Hcase as [[(_ & _ & Hn) _]|[Hreg _]]; congruence.
Qed.

Lemma same_index_lookup σ σ' d dh :
  same_but_index σ σ' → σ !! d = Some dh →
  ∃ dh', σ' !! d = Some dh' ∧ fd_ dh' = fd_ dh ∧ events_ dh' = events_ dh ∧ eventHandling_ dh' = eventHandling_ dh ∧ addedToLoop_ dh' = addedToLoop_ dh.
Proof.
  intros Hs Hd. specialize (Hs d). rewrite Hd in Hs. apply fmap_Some in Hs as (dh' & E & Eq). exists dh'. split; [done|].
  cbn in Eq. unfold set_revents, set_index in Eq. cbn in Eq. injection Eq. intros. split_and!; congruence.
Qed.

(** Removing [c]: the other watched channels stay. *)
Lemma remove_spec tid c ch s :
  Channels.threadId_ s = tid → Channels.eventHandling_ s = false → pinv (Channels.objects s) (Channels.poller_ s) →
  Channels.objects s !! c = Some ch → registered c ch (Channels.poller_ s) → events_ ch = 0 →
  ∃ s' ch', Channels.removeChannel tid c s = Ok s' ∧ pinv (Channels.objects s') (Channels.poller_ s') ∧
    Channels.threadId_ s' = tid ∧ Channels.eventHandling_ s' = false ∧
    Channels.objects s' !! c = Some ch' ∧ fd_ ch' = fd_ ch ∧ addedToLoop_ ch' = false ∧ eventHandling_ ch' = eventHandling_ ch ∧
    channels_ (Channels.poller_ s') = delete (fd_ ch) (channels_ (Channels.poller_ s)) ∧
    (∀ d, d ≠ c → watched d s → watched d s').
Proof.
  intros Ht Hh Hi Hc Hr He. destruct (remove_law _ _ c ch Hi Hc Hr He) as (σ' & p' & E & Hi' & Ech & Hs & _).
  unfold Channels.removeChannel. rewrite in_thread by done. rewrite bind_Ok, Hh, bind_Ok, E, bind_Ok.
  destruct (same_index_lookup _ _ c (with_added false ch) Hs) as (ch' & Hc' & Hf & He' & Hh' & Ha); [apply lookup_insert_eq|].
  eexists _, ch'. split; [done|]. unfold Channels.set_poller. cbn. split_and!; try done.
  intros d Hd (dh & Hdo & Hdr & Hde & Hdh). destruct (same_index_lookup _ _ d dh Hs) as (dh' & Hd' & Hf' & Hev & Hhd & _).
  { by rewrite lookup_insert_ne. }
  exists dh'. cbn. split_and!; try congruence. unfold registered in *. rewrite Ech, Hf', lookup_delete_ne; congruence.
Qed.

Lemma destroy_channel_spec tid c ch s :
  Channels.threadId_ s = tid → Channels.objects s !! c = Some ch → eventHandling_ ch = false → addedToLoop_ ch = false →
  (∀ fd, channels_ (Channels.poller_ s) !! fd ≠ Some c) →
  pinv (Channels.objects s) (Channels.poller_ s) →
  ∃ s', destroy_channel tid c s = Ok s' ∧ pinv (Channels.objects s') (Channels.poller_ s') ∧ Channels.threadId_ s' = tid ∧
    Channels.eventHandling_ s' = Channels.eventHandling_ s ∧ Channels.poller_ s' = Channels.poller_ s ∧
    (∀ d, d ≠ c → watched d s → watched d s').
Proof.
  intros Ht Hc Hh Ha Hno Hi. unfold destroy_channel. rewrite (deref_Ok _ _ _ Hc), bind_Ok, Hh, Ha. rewrite !check_true, !bind_Ok by done.
  unfold Channels.isInLoopThread, Channels.hasChannel. rewrite in_thread, Ht, Z.eqb_refl, bind_Ok by done.
  unfold Poller.hasChannel. rewrite (deref_Ok _ _ _ Hc), bind_Ok, bind_Ok, bool_decide_false, check_true, bind_Ok by (done || apply Hno).
  eexists. split; [done|]. unfold Channels.set_poller. cbn. split_and!; try done.
  - eapply pinv_frame; [exact Hi|]. intros fd d dh Hd Hdh. exists dh. rewrite lookup_delete_ne; [done|]. intros ->. by apply (Hno fd).
  - intros d Hd (dh & ?). exists dh. cbn. by rewrite lookup_delete_ne.
Qed.

(** A channel of the loop is taken out of the poller and destroyed. *)
Lemma teardown tid c s :
  Channels.threadId_ s = tid → Channels.eventHandling_ s = false → pinv (Channels.objects s) (Channels.poller_ s) → watched c s →
  ∃ s' fd, destroy_timer_queue tid c s = Ok s' ∧ pinv (Channels.objects s') (Channels.poller_ s') ∧
    Channels.threadId_ s' = tid ∧ Channels.eventHandling_ s' = false ∧
    channels_ (Channels.poller_ s) !! fd = Some c ∧ channels_ (Channels.poller_ s') = delete fd (channels_ (Channels.poller_ s)) ∧
    (∀ d, d ≠ c → watched d s → watched d s').
Proof.
  intros Ht Hh Hi (ch & Hc & Hr & He & Hch).
  destruct (update_spec tid c ch 0 s) as (s1 & ch1 & E1 & Hi1 & Ht1 & Hh1 & Hc1 & Hr1 & He1 & Hch1 & Ech1 & Hw1); [done..|by left| |].
  { right. split; [done|]. right. rewrite He. discriminate. }
  apply (f_equal (lookup c)) in Hc1. rewrite lookup_insert_eq in Hc1.
  destruct (remove_spec tid c ch1 s1) as (s2 & ch2 & E2 & Hi2 & Ht2 & Hh2 & Hc2 & Hf2 & Ha2 & Hch2 & Ech2 & Hw2); [done|congruence|done..|].
  assert (fd_ ch1 = fd_ ch) as Hfd.
  { destruct (pinv_channel _ _ (fd_ ch) c Hi1) as (x & Hx & Hfx & _); [rewrite Ech1; apply lookup_insert_eq|]. congruence. }
  destruct (destroy_channel_spec tid c ch2 s2) as (s3 & E3 & Hi3 & Ht3 & Hh3 & Ep3 & Hw3); [done|done|congruence|done| |done|].
  { intros fd. rewrite Ech2. intros [Hne Hl]%lookup_delete_Some. rewrite Ech1 in Hl.
    destruct (pinv_channel _ _ fd c Hi1) as (x & Hx & Hfx & _); [by rewrite Ech1|]. congruence. }
  exists s3, (fd_ ch). unfold destroy_timer_queue. change kNoneEvent with 0. rewrite E1, bind_Ok, E2, bind_Ok, E3.
  split_and!; try done; [congruence|rewrite Ep3, Ech2, Ech1, Hfd; apply delete_insert_eq|auto].
Qed.

Lemma destruct_loop_teardown tid l :
  destruct_loop tid l = s ← destroy_timer_queue tid (wakeupChannel_ l) (chans l); destroy_timer_queue tid (timerfdChannel_ l) s.
Proof.
  unfold destruct_loop, destroy_timer_queue. destruct (Channels.updateChannel _ _ _ _) as [s|]; [|done]. rewrite !bind_Ok.
  destruct (Channels.removeChannel _ _ s) as [s1|]; [|done]. by rewrite !bind_Ok.
Qed.

(** The destructor leaves in the poller what others registered. *)
Lemma destruct_loop_spec tid l :
  loop_inv l → Channels.threadId_ (chans l) = tid →
  ∃ s fd1 fd2, destruct_loop tid l = Ok s ∧
    channels_ (Channels.poller_ (chans l)) !! fd1 = Some (wakeupChannel_ l) ∧
    channels_ (Channels.poller_ (chans l)) !! fd2 = Some (timerfdChannel_ l) ∧
    channels_ (Channels.poller_ s) = delete fd2 (delete fd1 (channels_ (Channels.poller_ (chans l)))).
Proof.
  intros [Hi Hh Htc Hwc Hne] Ht. rewrite destruct_loop_teardown.
  destruct (teardown tid (wakeupChannel_ l) (chans l)) as (s1 & fd1 & E1 & Hi1 & Ht1 & Hh1 & Hf1 & Ech1 & Hw1); [done..|].
  destruct (teardown tid (timerfdChannel_ l) s1) as (s2 & fd2 & E2 & _ & _ & _ & Hf2 & Ech2 & _); [done..|by apply Hw1|].
  exists s2, fd1, fd2. rewrite E1, bind_Ok, E2. split_and!; try done.
  - rewrite Ech1 in Hf2. by apply lookup_delete_Some in Hf2 as [_ Hf2].
  - by rewrite Ech2, Ech1.
Qed.
Lemma destruct_other tid l : Channels.threadId_ (chans l) ≠ tid → destruct_loop tid l = Fail FatalLog.
Proof. intros Ht. unfold destruct_loop, Channels.updateChannel. by rewrite other_thread. Qed.

Lemma new_channel_watched c d fd s :
  Channels.objects s !! c = None → pinv (Channels.objects s) (Channels.poller_ s) →
  pinv (Channels.objects (new_channel c fd s)) (Channels.poller_ s) ∧ (watched d s → watched d (new_channel c fd s)).
Proof.
  intros Hc Hi. unfold new_channel, Channels.set_poller. cbn. split.
  - eapply pinv_frame; [exact Hi|]. intros f x xh Hx Hxh. exists xh. rewrite lookup_insert_ne; [done|]. congruence.
  - intros (dh & Hd & ?). exists dh. cbn. rewrite lookup_insert_ne; [done|]. congruence.
Qed.

(** A new loop watches its timer and its wake-up descriptor, and nothing else. *)
Lemma construct_spec tid a timerfd evtfd tc wc w :
  0 ≤ timerfd → 0 ≤ evtfd → timerfd ≠ evtfd → tc ≠ wc →
  (is_Some (t_loop w !! tid) → construct tid a timerfd evtfd tc wc w = Fail FatalLog) ∧
  (t_loop w !! tid = None → ∃ l, construct tid a timerfd evtfd tc wc w = Ok (mkWorld (<[a := l]> (loops w)) (<[tid := a]> (t_loop w))) ∧
     loop_inv l ∧ Channels.threadId_ (chans l) = tid ∧ channels_ (Channels.poller_ (chans l)) = {[timerfd := tc; evtfd := wc]}).
Proof.
  intros Hf1 Hf2 Hne Hcc. set (s0 := Channels.mkState (P := P) tid new_poller ∅ [] None false []).
  destruct (update_spec tid tc (make timerfd) kReadEvent (new_channel tc timerfd s0)) as (s1 & ch1 & E1 & Hi1 & Ht1 & Hh1 & Hc1 & Hr1 & He1 & Hch1 & Ech1 & _).
  { done. } { apply pinv_new. } { apply lookup_insert_eq. } { by right; left. }
  { left. split; [|done]. split_and!; [done..|]. cbn. by rewrite channels_new. }
  assert (construct tid a timerfd evtfd tc wc w =
    match t_loop w !! tid with Some _ => Fail FatalLog | None =>
      s ← Channels.updateChannel tid wc kReadEvent (new_channel wc evtfd s1);
      Ok (mkWorld (<[a := mkLoop s tc wc]> (loops w)) (<[tid := a]> (t_loop w))) end) as Ec.
  { unfold construct, make_timer_queue, createTimerfd, createEventfd. rewrite (proj2 (Z.ltb_ge timerfd 0)), (proj2 (Z.ltb_ge evtfd 0)), bind_Ok by lia.
    fold s0. by rewrite E1, !bind_Ok. }
  split; [intros [b Hb]; by rewrite Ec, Hb|]. intros Hn. rewrite Ec, Hn. set (s2 := new_channel wc evtfd s1).
  assert (Channels.objects s1 !! wc = None) as Hwc by (rewrite Hc1, lookup_insert_ne by done; cbn; by rewrite lookup_insert_ne).
  assert (watched tc s1) as Hw1 by (exists ch1; rewrite Hc1, lookup_insert_eq; by rewrite Hch1).
  destruct (new_channel_watched wc tc evtfd s1 Hwc Hi1) as [Hi2 Hw2]. fold s2 in Hi2, Hw2.
  assert (channels_ (Channels.poller_ s2) = {[timerfd := tc]}) as Ech2 by (cbn; rewrite Ech1; cbn; by rewrite channels_new).
  destruct (update_spec tid wc (make evtfd) kReadEvent s2) as (s3 & ch3 & E3 & Hi3 & Ht3 & Hh3 & Hc3 & Hr3 & He3 & Hch3 & Ech3 & Hw3).
  { done. } { done. } { apply lookup_insert_eq. } { by right; left. }
  { left. split; [|done]. split_and!; [done..|]. rewrite Ech2. by rewrite lookup_singleton_ne. }
  rewrite E3, bind_Ok. eexists. split; [done|]. split; [constructor; cbn|].
  - done.
  - rewrite Hh3. cbn. by rewrite Hh1.
  - by apply Hw3; [|apply Hw2].
  - exists ch3. rewrite Hc3, lookup_insert_eq. by rewrite Hch3.
  - done.
  - split; [done|]. cbn [chans]. rewrite Ech3, Ech2. cbn [make fd_]. by apply insert_insert_ne.
Qed.

(** A lawful call leaves the loop's own channels alone. *)
Lemma call_spec tid x l :
  loop_inv l → Channels.threadId_ (chans l) = tid → Channels.legal x (chans l) →
  subject x ≠ timerfdChannel_ l → subject x ≠ wakeupChannel_ l →
  ∃ l', call_channel tid x l = Ok l' ∧ loop_inv l' ∧ Channels.threadId_ (chans l') = tid.
Proof.
  intros [Hi Hh Htc Hwc Hne] Ht Hl H1 H2. unfold call_channel. destruct x as [c e|c]; cbn in Hl, H1, H2 |- *.
  - destruct Hl as (ch & Hc & Hok & Hcase).
    destruct (update_spec tid c ch e (chans l)) as (s' & ch' & E & Hi' & Ht' & Hh' & _ & _ & _ & _ & _ & Hw); [done..|].
    rewrite E, bind_Ok. eexists. split; [done|]. split; [|done]. constructor; cbn; try done; [congruence|auto..].
  - destruct Hl as (ch & Hc & Hr & He).
    destruct (remove_spec tid c ch (chans l)) as (s' & ch' & E & Hi' & Ht' & Hh' & _ & _ & _ & _ & _ & Hw); [done..|].
    rewrite E, bind_Ok. eexists. split; [done|]. split; [|done]. constructor; cbn; try done; auto.
Qed.
Lemma call_other tid x l : Channels.threadId_ (chans l) ≠ tid → call_channel tid x l = Fail FatalLog.
Proof.
  intros Ht. unfold call_channel. destruct x; cbn; unfold Channels.updateChannel, Channels.removeChannel; by rewrite other_thread.
Qed.

Lemma update_loop w a l l' :
  world_inv w → loops w !! a = Some l → loop_inv l' → Channels.threadId_ (chans l') = Channels.threadId_ (chans l) →
  world_inv (mkWorld (<[a := l']> (loops w)) (t_loop w)).
Proof.
  intros [Hl Hw] Ha Hl' Ht. constructor; cbn.
  - intros b k. rewrite lookup_insert_Some. intros [[_ <-]|[_ Hb]]; [done|by eapply Hl].
  - intros tid b. rewrite Hw. split.
    + intros (k & Hb & Hk). destruct (decide (a = b)) as [->|Hab]; [exists l'; rewrite lookup_insert_eq|exists k; rewrite lookup_insert_ne by done];
        (split; [done|]); congruence.
    + intros (k & Hb & Hk). apply lookup_insert_Some in Hb as [[-> <-]|[_ Hb]]; [exists l; split; [done|congruence]|by exists k].
Qed.

Lemma construct_inv tid a timerfd evtfd tc wc w :
  world_inv w → loops w !! a = None → 0 ≤ timerfd → 0 ≤ evtfd → timerfd ≠ evtfd → tc ≠ wc → t_loop w !! tid = None →
  ∃ w', construct tid a timerfd evtfd tc wc w = Ok w' ∧ world_inv w'.
Proof.
  intros [Hl Ht] Ha Hf1 Hf2 Hne Hcc Hn. destruct (construct_spec tid a timerfd evtfd tc wc w Hf1 Hf2 Hne Hcc) as [_ Hnone].
  destruct (Hnone Hn) as (l & -> & Hinv & Hth & _). eexists. split; [done|]. constructor; cbn.
  - intros b k. rewrite lookup_insert_Some. intros [[_ <-]|[_ Hb]]; [done|by eapply Hl].
  - intros t b. rewrite lookup_insert_Some. split.
    + intros [[-> ->]|[Hnt Hb]]; [exists l; by rewrite lookup_insert_eq|].
      apply Ht in Hb as (k & Hb & Hk). exists k. rewrite lookup_insert_ne by congruence. done.
    + intros (k & Hb & Hk). apply lookup_insert_Some in Hb as [[-> ->]|[Hab Hb]]; [left; split; congruence|].
      right. assert (t_loop w !! t = Some b) as Htb by (apply Ht; by exists k). split; [congruence|done].
Qed.
Lemma destruct_inv tid a l w :
  world_inv w → loops w !! a = Some l → Channels.threadId_ (chans l) = tid → ∃ w', destruct tid a w = Ok w' ∧ world_inv w'.
Proof.
  intros [Hl Ht] Ha Hth. unfold destruct. rewrite Ha. destruct (destruct_loop_spec tid l (Hl a l Ha) Hth) as (s & fd1 & fd2 & -> & _).
  cbn. eexists. split; [done|]. constructor; cbn.
  - intros b k [_ Hb]%lookup_delete_Some. by eapply Hl.
  - intros t b. rewrite lookup_delete_Some. split.
    + intros [Hnt (k & Hb & Hk)%Ht]. exists k. rewrite lookup_delete_ne by congruence. done.
    + intros (k & [Hab Hb]%lookup_delete_Some & Hk). assert (t_loop w !! t = Some b) as Htb by (apply Ht; by exists k).
      split; [|done]. intros <-. assert (t_loop w !! tid = Some a) by (apply Ht; by exists l). congruence.
Qed.

Lemma world_perform_inv tid x w :
  world_inv w → allowed x w →
  if misplaced tid x w then perform tid x w = Fail FatalLog else ∃ w', perform tid x w = Ok w' ∧ world_inv w'.
Proof.
  intros Hw Hx. pose proof Hw as [Hl Ht]. destruct x as [a timerfd evtfd tc wc|a c fd|a x|a]; cbn in Hx |- *.
  - destruct Hx as (Ha & Hf1 & Hf2 & Hne & Hcc). case_bool_decide as Hs.
    + by apply (construct_spec tid a timerfd evtfd tc wc w).
    + apply construct_inv; try done. by apply eq_None_not_Some.
  - destruct Hx as (l & Ha & Hc). unfold on_loop, add_object. rewrite Ha. cbn. eexists. split; [done|]. eapply update_loop; [done..| |done].
    destruct (Hl a l Ha) as [Hi Hh Htc Hwc Hd]. constructor; cbn [chans timerfdChannel_ wakeupChannel_]; try done.
    + exact (proj1 (new_channel_watched c c fd (chans l) Hc Hi)).
    + by apply (new_channel_watched c (timerfdChannel_ l)).
    + by apply (new_channel_watched c (wakeupChannel_ l)).
  - destruct Hx as (l & Ha & Hlg & H1 & H2). rewrite Ha. unfold on_loop, Channels.isInLoopThread. rewrite Ha.
    destruct (Z.eqb_spec (Channels.threadId_ (chans l)) tid) as [Hth|Hth]; cbn [negb].
    + destruct (call_spec tid x l (Hl a l Ha) Hth Hlg H1 H2) as (l' & E & Hinv' & Hth'). rewrite E. cbn.
      eexists. split; [done|]. eapply update_loop; [done..|congruence].
    + by rewrite call_other.
  - destruct Hx as [l Ha]. rewrite Ha. unfold Channels.isInLoopThread.
    destruct (Z.eqb_spec (Channels.threadId_ (chans l)) tid) as [Hth|Hth]; cbn [negb].
    + by eapply destruct_inv.
    + unfold destruct. by rewrite Ha, destruct_other.
Qed.

Lemma world_reachable_inv w : reachable w → world_inv w.
Proof.
  induction 1 as [|tid x w w' _ IH Hx Hp].
  - constructor; cbn; [done|]. intros tid a. rewrite lookup_empty. split; [done|]. intros (l & Hl & _). by rewrite lookup_empty in Hl.
  - pose proof (world_perform_inv tid x w IH Hx) as Hs. rewrite Hp in Hs. destruct (misplaced tid x w); [done|]. by destruct Hs as (w2 & [= <-] & H2).
Qed.

(** C22: However threads create, use and destroy loops: every thread's variable names the one loop
    that was made in it and exists; no assertion of the loops or of their channels fails, and the
    process is aborted, with a fatal message, exactly by a second loop in a thread or by
    a call from a thread that is not the loop's. Until it is destroyed each loop watches its timer
    and its wake-up descriptor, and a destroyed loop leaves in the poller only what
    others have not removed. *)
Theorem one_loop_per_thread w :
  reachable w →
  (∀ tid a, getEventLoopOfCurrentThread tid w = Some a ↔ ∃ l, loops w !! a = Some l ∧ Channels.isInLoopThread tid (chans l) = true) ∧
  (∀ tid x, allowed x w → if misplaced tid x w then perform tid x w = Fail FatalLog else ∃ w', perform tid x w = Ok w') ∧
  (∀ a l, loops w !! a = Some l → watched (timerfdChannel_ l) (chans l) ∧ watched (wakeupChannel_ l) (chans l) ∧
     ∃ s fd1 fd2, destruct_loop (Channels.threadId_ (chans l)) l = Ok s ∧
       channels_ (Channels.poller_ (chans l)) !! fd1 = Some (wakeupChannel_ l) ∧
       channels_ (Channels.poller_ (chans l)) !! fd2 = Some (timerfdChannel_ l) ∧
       channels_ (Channels.poller_ s) = delete fd2 (delete fd1 (channels_ (Channels.poller_ (chans l))))).
Proof.
  intros Hr. pose proof (world_reachable_inv w Hr) as Hw. pose proof Hw as [Hl Ht]. split_and!.
  - intros tid a. unfold getEventLoopOfCurrentThread. rewrite Ht. unfold Channels.isInLoopThread.
    split; intros (l & Ha & E); exists l; (split; [done|]); [by apply Z.eqb_eq|by apply Z.eqb_eq in E].
  - intros tid x Hx. pose proof (world_perform_inv tid x w Hw Hx) as Hs. destruct (misplaced tid x w); [done|]. destruct Hs as (w' & E & _). eauto.
  - intros a l Ha. pose proof (Hl a l Ha) as Hinv. split_and!; [apply Hinv|apply Hinv|]. by apply destruct_loop_spec.
Qed.

End object.

(** Thread 7 has a loop at address 1, with epoll(7). *)
Definition example_world : World (P := EPollPoller.EPollPoller) :=
  match perform 7 (Construct 1 3 4 10 11) (mkWorld ∅ ∅) with Ok w => w | Fail _ => mkWorld ∅ ∅ end.
Lemma one_loop_per_thread_witness :
  reachable example_world ∧ is_Some (loops example_world !! 1) ∧
  perform 7 (Construct 2 5 6 12 13) example_world = Fail FatalLog ∧
  perform 8 (Destruct 1) example_world = Fail FatalLog ∧ ∃ w, perform 7 (Destruct 1) example_world = Ok w.
Proof.
  assert (reachable example_world) as Hr.
  { apply (Step 7 (Construct 1 3 4 10 11) (mkWorld ∅ ∅)); [apply Initial| |by vm_compute]. cbn. rewrite lookup_empty. split_and!; lia || done. }
  assert (is_Some (loops example_world !! 1)) as H1 by (vm_compute; eauto).
  destruct (one_loop_per_thread example_world Hr) as (_ & Hstep & _). split_and!; [exact Hr|exact H1|..].
  - apply (Hstep 7 (Construct 2 5 6 12 13)). split_and!; [by vm_compute|lia..].
  - apply (Hstep 8 (Destruct 1)). exact H1.
  - apply (Hstep 7 (Destruct 1)). exact H1.
Defined.

End LoopObject.
