(* ===== verification/RpcServer.v ===== *)
(** * The RPC server ([net/protorpc/RpcServer.cc])

    The map of services, one channel per connection, the callback that refers to it by
    a raw pointer, and the invocations that are still in the services. *)

From stdpp Require Import gmap.
From S2P Require Import Prelude Rpc.
Import RpcChannel.

Module RpcServer.

(** What the server sets in a connection: [context] is the shared pointer, [messageCallback_] the
    raw one. *)
Record Conn := mkConn { connected : bool; messageCallback_ : option Z; context_ : option Z }.
(** An invocation: the channel its closure is bound to and, as a ghost, the connection
    the request came from; service, method, request and number. *)
Record Work := mkWork { w_channel : Z; w_from : Z; w_service : bytes; w_method : bytes; w_request : bytes; w_id : Z }.
(** [channels]: the channels that exist, with their [conn_]. [sent]: connection the request
    came from, connection the answer goes to, answer. *)
Record Server := mkServer {
  services_ : gmap bytes Service;
  conns : gmap Z Conn;
  channels : gmap Z (RpcChannel * Z);
  working : list Work;
  sent : list (Z * Z * RpcMessage)
}.
Definition make : Server := mkServer ∅ ∅ ∅ [] [].

Definition registerService (full_name : bytes) (service : Service) (s : Server) : Server :=
  mkServer (<[full_name := service]> (services_ s)) (conns s) (channels s) (working s) (sent s).

(** [setContext]: the old context goes, and with it its channel, whose only owner it is. *)
Definition setContext (c : Z) (k : Conn) (context : option Z) (s : Server) : Server :=
  let channels := match context_ k with Some ch => delete ch (channels s) | None => channels s end in
  mkServer (services_ s) (<[c := mkConn (connected k) (messageCallback_ k) context]> (conns s)) channels (working s) (sent s).

(** [channel]: the address of the new object. *)
Definition onConnection (c channel : Z) (k : Conn) (s : Server) : Server :=
  if connected k then
    let s := mkServer (services_ s) (conns s) (<[channel := (RpcChannel.make, c)]> (channels s)) (working s) (sent s) in
    let k := mkConn (connected k) (Some channel) (context_ k) in
    setContext c k (Some channel) s
  else setContext c k None s.

(** The life of a connection, as [TcpServer] reports it. *)
Definition up (c channel : Z) (s : Server) : result Server := Ok (onConnection c channel (mkConn true None None) s).
Definition down (c : Z) (s : Server) : result Server :=
  match conns s !! c with
  | None => Fail OutOfRange
  | Some k => Ok (onConnection c 0 (mkConn false (messageCallback_ k) (context_ k)) s)
  end.

(** What a channel of connection [cc] does for a request from [c]. *)
Definition perform (c ch cc : Z) (es : list effect) (s : Server) : Server :=
  mkServer (services_ s) (conns s) (channels s)
    (working s ++ omap (λ e, match e with CallService v m r i => Some (mkWork ch c v m r i) | _ => None end) es)
    (sent s ++ omap (λ e, match e with SendMessage m => Some (c, cc, m) | _ => None end) es).

(** [RpcChannel::onMessage] through the raw pointer, for one message of the codec; the services are
    those of the map as it is now. *)
Definition message (c : Z) (m : RpcMessage) (s : Server) : result Server :=
  match conns s !! c with
  | None => Fail OutOfRange
  | Some k =>
      match messageCallback_ k with
      | None => Ok s
      | Some ch =>
          match channels s !! ch with
          | None => Fail OutOfRange
          | Some (chan, cc) =>
              _ ← check (bool_decide (c = cc));
              '(chan, es) ← onRpcMessage m (setServices (λ v, services_ s !! v) chan);
              Ok (perform c ch cc es (mkServer (services_ s) (conns s) (<[ch := (chan, cc)]> (channels s)) (working s) (sent s)))
          end
      end
  end.

(** A service runs its closure: [doneCallback] of the channel it was bound to. *)
Definition answer (n : nat) (resp : bytes) (s : Server) : result Server :=
  match working s !! n with
  | None => Ok s
  | Some w =>
      match channels s !! w_channel w with
      | None => Fail OutOfRange
      | Some (_, cc) =>
          Ok (perform (w_from w) (w_channel w) cc (doneCallback resp (w_id w))
                (mkServer (services_ s) (conns s) (channels s) (delete n (working s)) (sent s)))
      end
  end.

Inductive action :=
  | Register (full_name : bytes) (service : Service)
  | Up (c channel : Z)
  | Message (c : Z) (m : RpcMessage)
  | Answer (n : nat) (resp : bytes)
  | Down (c : Z).
Definition do_action (x : action) (s : Server) : result Server :=
  match x with
  | Register n v => Ok (registerService n v s)
  | Up c ch => up c ch s
  | Message c m => message c m s
  | Answer n r => answer n r s
  | Down c => down c s
  end.

(** Connections come up, receive and go down in this order, new channels get free addresses
    (which may have been used before), answers to calls have the field they must have, and, a rule the
    server does not enforce, a connection goes down when no service works for it any more. *)
Definition legal (x : action) (s : Server) : Prop :=
  match x with
  | Register _ _ | Answer _ _ => True
  | Up c ch => conns s !! c = None ∧ channels s !! ch = None
  | Message c m => (∃ k, conns s !! c = Some k ∧ connected k = true) ∧
      (type m = RESPONSE → is_Some (response m) ∨ is_Some (error m))
  | Down c => ∃ k, conns s !! c = Some k ∧ connected k = true ∧ Forall (λ w, w_from w ≠ c) (working s)
  end.

Inductive reachable : Server → Prop :=
  | Initial : reachable make
  | Step x s s' : reachable s → legal x s → do_action x s = Ok s' → reachable s'.

(** ** Invariant *)

Record server_inv (s : Server) : Prop := {
  si_conn : ∀ c k, conns s !! c = Some k → connected k = true →
    ∃ ch chan, context_ k = Some ch ∧ messageCallback_ k = Some ch ∧ channels s !! ch = Some (chan, c);
  si_channel : ∀ ch chan c, channels s !! ch = Some (chan, c) →
    ∃ k, conns s !! c = Some k ∧ connected k = true ∧ context_ k = Some ch;
  si_work : ∀ w, w ∈ working s → ∃ chan, channels s !! w_channel w = Some (chan, w_from w);
  si_sent : ∀ c cc m, (c, cc, m) ∈ sent s → c = cc
}.

(** Effects of a live channel on behalf of its own connection. *)
Lemma perform_inv s c ch chan es :
  server_inv s → channels s !! ch = Some (chan, c) → server_inv (perform c ch c es s).
Proof.
  intros [Hc Hch Hw Hs] Hl. constructor; cbn; [done|done|..].
  - intros w [Hin|Hin]%elem_of_app; [by apply Hw|]. apply list_elem_of_omap in Hin as (e & _ & He).
    destruct e; try done. injection He as <-. cbn. eauto.
  - intros a b m [Hin|Hin]%elem_of_app; [by eapply Hs|]. apply list_elem_of_omap in Hin as (e & _ & He). destruct e; try done. by injection He as <- <- _.
Qed.

(** A channel changes its own state. *)
Lemma channel_inv s ch chan chan' c :
  server_inv s → channels s !! ch = Some (chan, c) →
  server_inv (mkServer (services_ s) (conns s) (<[ch := (chan', c)]> (channels s)) (working s) (sent s)).
Proof.
  intros [Hc Hch Hw Hs] Hl. constructor; cbn; [..|done].
  - intros d k Hd Hk. destruct (Hc d k Hd Hk) as (x & xn & H1 & H2 & H3). exists x.
    destruct (decide (x = ch)) as [->|Hx]; [exists chan'; rewrite lookup_insert_eq|exists xn; rewrite lookup_insert_ne by done]; split_and!; congruence.
  - intros x xn d. rewrite lookup_insert_Some. intros [[<- [= <- <-]]|[_ Hx]]; by eapply Hch.
  - intros w Hin. destruct (Hw w Hin) as (xn & Hx). destruct (decide (w_channel w = ch)) as [E|Hne];
      [rewrite E, lookup_insert_eq; exists chan'; congruence|exists xn; by rewrite lookup_insert_ne by done].
Qed.

Lemma up_inv s c ch : server_inv s → conns s !! c = None → channels s !! ch = None → ∃ s', up c ch s = Ok s' ∧ server_inv s'.
Proof.
  intros [Hc Hch Hw Hs] Hcn Hchn. eexists. split; [done|]. constructor; cbn; [..|done].
  - intros d k. rewrite lookup_insert_Some. intros [[<- <-]|[Hne Hd]] Hk; [eexists _, _; split_and!; [done..|apply lookup_insert_eq]|].
    destruct (Hc d k Hd Hk) as (x & xn & H1 & H2 & H3). exists x, xn. rewrite lookup_insert_ne by congruence. done.
  - intros x xn d. rewrite lookup_insert_Some. intros [[<- [= <- <-]]|[Hne Hx]]; [eexists; split; [apply lookup_insert_eq|done]|].
    destruct (Hch x xn d Hx) as (k & Hd & ?). exists k. rewrite lookup_insert_ne by congruence. done.
  - intros w Hin. destruct (Hw w Hin) as (xn & Hx). exists xn. rewrite lookup_insert_ne by congruence. done.
Qed.

Lemma down_inv s c k :
  server_inv s → conns s !! c = Some k → connected k = true → Forall (λ w, w_from w ≠ c) (working s) →
  ∃ s', down c s = Ok s' ∧ server_inv s' ∧ (∀ ch, context_ k = Some ch → channels s' !! ch = None).
Proof.
  intros [Hc Hch Hw Hs] Hk Hup Hwork. unfold down. rewrite Hk. destruct (Hc c k Hk Hup) as (ch & chan & Hctx & _ & Hl).
  eexists. split; [done|]. unfold onConnection, setContext. cbn. rewrite Hctx. split; [constructor; cbn; [..|done]|].
  - intros d j. rewrite lookup_insert_Some. intros [[<- <-]|[Hne Hd]] Hj; [done|].
    destruct (Hc d j Hd Hj) as (x & xn & H1 & H2 & H3). exists x, xn. rewrite lookup_delete_ne by congruence. done.
  - intros x xn d [Hne Hx]%lookup_delete_Some. destruct (Hch x xn d Hx) as (j & Hd & Hj & Hx'). exists j.
    rewrite lookup_insert_ne by congruence. done.
  - intros w Hin. destruct (Hw w Hin) as (xn & Hx). exists xn. rewrite lookup_delete_ne; [done|]. intros E.
    rewrite list.Forall_forall in Hwork. apply (Hwork w Hin). congruence.
  - intros x [= <-]. apply lookup_delete_eq.
Qed.

Lemma onRpcMessage_defined m chan : (type m = RESPONSE → is_Some (response m) ∨ is_Some (error m)) → ∃ r, onRpcMessage m chan = Ok r.
Proof.
  intros Hm. unfold onRpcMessage. destruct (type m); [eauto| |eauto]. unfold onResponse. rewrite check_true.
  - rewrite bind_Ok. destruct (outstandings_ chan !! id m); eauto.
  - apply orb_true_iff. destruct (Hm eq_refl); [left|right]; by apply bool_decide_eq_true.
Qed.

Lemma action_inv x s : server_inv s → legal x s → ∃ s', do_action x s = Ok s' ∧ server_inv s'.
Proof.
  intros Hs Hx. pose proof Hs as [Hc Hch Hw Hse]. destruct x as [n v|c ch|c m|n r|c]; cbn in Hx |- *.
  - eexists. split; [done|]. by constructor.
  - destruct Hx. by apply up_inv.
  - destruct Hx as [(k & Hk & Hup) Hm]. unfold message. rewrite Hk. destruct (Hc c k Hk Hup) as (ch & chan & _ & -> & Hl).
    rewrite Hl, bool_decide_true, check_true, bind_Ok by done.
    destruct (onRpcMessage_defined m (setServices (λ v, services_ s !! v) chan) Hm) as [[chan' es] ->]. rewrite bind_Ok.
    eexists. split; [done|]. eapply perform_inv; [by eapply channel_inv|]. cbn. apply lookup_insert_eq.
  - unfold answer. destruct (working s !! n) as [w|] eqn:E; [|eauto]. destruct (Hw w) as [chan Hl]; [by eapply list_elem_of_lookup_2|].
    rewrite Hl. eexists. split; [done|]. eapply perform_inv; [|exact Hl]. constructor; cbn; try done.
    intros w' Hin. apply Hw. by eapply list_elem_of_delete_inv.
  - destruct Hx as (k & Hk & Hup & Hwork). destruct (down_inv s c k Hs Hk Hup Hwork) as (s' & E & Hi & _). eauto.
Qed.

Lemma server_reachable_inv s : reachable s → server_inv s.
Proof.
  induction 1 as [|x s s' _ IH Hx Hd]; [|destruct (action_inv x s IH Hx) as (s2 & E & H2); congruence].
  constructor; cbn; [intros c k Hc|intros ch chan c Hc|intros w Hw|intros c cc m Hm]; [by rewrite lookup_empty in Hc..|by apply elem_of_nil in Hw|by apply elem_of_nil in Hm].
Qed.

(** C37: As long as no connection goes down while a service works for it, no message and no answer uses a
    channel that does not exist, however connections, registrations, requests and answers interleave
    and although addresses of channels are used again; every answer goes to the connection
    the request came from; and exactly the connections that are up have a channel, so that none is leaked. *)
Theorem rpcserver_safe s :
  reachable s →
  (∀ x, legal x s → ∃ s', do_action x s = Ok s') ∧
  (∀ c cc m, (c, cc, m) ∈ sent s → cc = c) ∧
  (∀ ch c, (∃ chan, channels s !! ch = Some (chan, c)) ↔ ∃ k, conns s !! c = Some k ∧ connected k = true ∧ context_ k = Some ch).
Proof.
  intros Hr. pose proof (server_reachable_inv s Hr) as Hs. pose proof Hs as [Hc Hch Hw Hse]. split_and!.
  - intros x Hx. destruct (action_inv x s Hs Hx) as (s' & ? & _). eauto.
  - intros c cc m Hm. symmetry. by eapply Hse.
  - intros ch c. split; [intros [chan Hl]; by eapply Hch|]. intros (k & Hk & Hup & Hctx).
    destruct (Hc c k Hk Hup) as (x & chan & H1 & _ & H3). exists chan. congruence.
Qed.

(** The rule matters. When a connection goes down while a service works for it, the answer is given to a
    channel that was destroyed; or, if a new channel has got its address, to that one's client. *)
Lemma late_answer s s' n w r :
  server_inv s → working s !! n = Some w → down (w_from w) s = Ok s' →
  answer n r s' = Fail OutOfRange ∧
  ∀ c s'', up c (w_channel w) s' = Ok s'' → ∃ t, answer n r s'' = Ok t ∧
    (w_from w, c, mkRpcMessage RESPONSE (w_id w) [] [] None (Some r) None) ∈ sent t.
Proof.
  intros [Hc Hch Hw Hse] Hn. destruct (Hw w) as [chan Hl]; [by eapply list_elem_of_lookup_2|].
  destruct (Hch _ _ _ Hl) as (k & Hk & Hup & Hctx). unfold down. rewrite Hk. intros [= <-].
  unfold onConnection, setContext. cbn. rewrite Hctx. split.
  - unfold answer. cbn. by rewrite Hn, lookup_delete_eq.
  - intros c s'' [= <-]. unfold onConnection, setContext, answer. cbn. rewrite Hn, lookup_insert_eq. eexists. split; [done|].
    cbn. apply elem_of_app. right. by apply list_elem_of_singleton.
Qed.

(** ** An example: two clients, and an address that is used again *)

Definition echo : Service := mkService (λ _, true) (λ _ _, true).
Definition request_of (i : Z) : RpcMessage := mkRpcMessage REQUEST i ["e"%char] ["m"%char] (Some ["x"%char]) None None.
Definition example_actions : list action :=
  [Register ["e"%char] echo; Up 1 100; Message 1 (request_of 7); Answer 0 ["y"%char]; Down 1; Up 2 100; Message 2 (request_of 8); Up 3 101; Answer 0 ["z"%char]].
Fixpoint run (xs : list action) (s : Server) : result Server :=
  match xs with [] => Ok s | x :: xs => s ← do_action x s; run xs s end.
Definition is_up (c : Z) (s : Server) : bool := match conns s !! c with Some k => connected k | None => false end.
Definition legalb (x : action) (s : Server) : bool :=
  match x with
  | Register _ _ | Answer _ _ => true
  | Up c ch => match conns s !! c, channels s !! ch with None, None => true | _, _ => false end
  | Message c m => is_up c s && match type m with RESPONSE => bool_decide (is_Some (response m)) | _ => true end
  | Down c => is_up c s && forallb (λ w, negb (w_from w =? c)) (working s)
  end.
Lemma is_up_spec c s : is_up c s = true → ∃ k, conns s !! c = Some k ∧ connected k = true.
Proof. unfold is_up. destruct (conns s !! c) as [k|]; [eauto|done]. Qed.
Lemma legalb_legal x s : legalb x s = true → legal x s.
Proof.
  destruct x as [n v|c ch|c m|n r|c]; cbn; [done| | |done|].
  - destruct (conns s !! c); [done|]. by destruct (channels s !! ch).
  - intros [Hu Hm]%andb_true_iff. split; [by apply is_up_spec|]. intros E. rewrite E in Hm. left. by apply bool_decide_eq_true in Hm.
  - intros [Hu Hw]%andb_true_iff. destruct (is_up_spec c s Hu) as (k & ? & ?). exists k. split_and!; [done..|].
    apply list.Forall_forall. intros w Hin E.
    rewrite forallb_forall in Hw. specialize (Hw w). rewrite <- list_elem_of_In in Hw. specialize (Hw Hin). by rewrite E, Z.eqb_refl in Hw.
Qed.
Fixpoint legal_run (xs : list action) (s : Server) : bool :=
  match xs with [] => true | x :: xs => legalb x s && match do_action x s with Ok s => legal_run xs s | Fail _ => false end end.
Lemma legal_run_reachable xs : ∀ s s', reachable s → legal_run xs s = true → run xs s = Ok s' → reachable s'.
Proof.
  induction xs as [|x xs IH]; intros s s' Hs Hl Hr; cbn in *; [by injection Hr as <-|]. apply andb_true_iff in Hl as [Hx%legalb_legal Hl].
  destruct (do_action x s) as [s1|] eqn:E; [|done]. rewrite bind_Ok in Hr. eapply IH; [|exact Hl|exact Hr]. by eapply Step.
Qed.
Definition example_server : Server := match run example_actions make with Ok s => s | Fail _ => make end.

Lemma rpcserver_safe_witness :
  reachable example_server ∧ length (sent example_server) = 2%nat ∧ (∀ c cc m, (c, cc, m) ∈ sent example_server → cc = c) ∧
  ∃ s', do_action (Down 2) example_server = Ok s'.
Proof.
  assert (reachable example_server) as Hr.
  { apply (legal_run_reachable example_actions make); [apply Initial|by vm_compute..]. }
  destruct (rpcserver_safe example_server Hr) as (Hstep & Hsent & _). split_and!; [exact Hr|by vm_compute|exact Hsent|].
  apply (Hstep (Down 2)), legalb_legal. by vm_compute.
Defined.

End RpcServer.
