(* ===== verification/Sockets.v ===== *)
(** * Sockets ([net/Socket.cc], [net/SocketsOps.cc])

    The wrappers of socket calls: a socket of the kernel is a record, and whether a call
    succeeds is an input. [sockets::accept] and the conversions of addresses are modelled
    with [Server.v] and [InetAddress.v]. *)

From S2P Require Import Prelude Endian Format Channel InetAddress.
Import Format.

Module Sockets.

Definition O_NONBLOCK : Z := 2048.
Definition FD_CLOEXEC : Z := 1.

(** What the kernel keeps of a descriptor; [closed] counts successful calls of close(2). *)
Record Sock := mkSock {
  fl : Z;                  (* file status flags *)
  fd_flags : Z;
  nodelay : Z;
  reuseaddr : Z;
  reuseport : Z;
  keepalive : Z;
  bound : option bytes;    (* the address object given to bind *)
  listening : bool;
  write_open : bool;
  closed : Z
}.
Definition fresh (fl fd_flags : Z) : Sock := mkSock fl fd_flags 0 0 0 0 None false true 0.

Definition set_fl (x : Z) (s : Sock) : Sock :=
  mkSock x (fd_flags s) (nodelay s) (reuseaddr s) (reuseport s) (keepalive s) (bound s) (listening s) (write_open s) (closed s).
Definition set_fd_flags (x : Z) (s : Sock) : Sock :=
  mkSock (fl s) x (nodelay s) (reuseaddr s) (reuseport s) (keepalive s) (bound s) (listening s) (write_open s) (closed s).

(** [fcntl] succeeds on an open descriptor. *)
Definition setNonBlockAndCloseOnExec (s : Sock) : Sock :=
  let flags := Z.lor (fl s) O_NONBLOCK in
  let s := set_fl flags s in
  let flags := Z.lor (fd_flags s) FD_CLOEXEC in
  set_fd_flags flags s.

(** [socket(2)]: a descriptor or a negative number. The two branches of the conditional compilation. *)
Definition createNonblockingOrDie (accept4 : bool) (sockfd : Z) : result Sock :=
  if sockfd <? 0 then Fail FatalLog
  else Ok (if accept4 then fresh O_NONBLOCK FD_CLOEXEC else setNonBlockAndCloseOnExec (fresh 0 0)).

Definition bindOrDie (ret : Z) (addr : bytes) (s : Sock) : result Sock :=
  if ret <? 0 then Fail FatalLog
  else Ok (mkSock (fl s) (fd_flags s) (nodelay s) (reuseaddr s) (reuseport s) (keepalive s) (Some addr) (listening s) (write_open s) (closed s)).
Definition listenOrDie (ret : Z) (s : Sock) : result Sock :=
  if ret <? 0 then Fail FatalLog
  else Ok (mkSock (fl s) (fd_flags s) (nodelay s) (reuseaddr s) (reuseport s) (keepalive s) (bound s) true (write_open s) (closed s)).

(** A failed call is logged and changes nothing; the log: was something written? *)
Definition close (ret : Z) (s : Sock) : Sock * bool :=
  if ret <? 0 then (s, true)
  else (mkSock (fl s) (fd_flags s) (nodelay s) (reuseaddr s) (reuseport s) (keepalive s) (bound s) (listening s) (write_open s) (closed s + 1), false).
Definition shutdownWrite (ret : Z) (s : Sock) : Sock * bool :=
  if ret <? 0 then (s, true)
  else (mkSock (fl s) (fd_flags s) (nodelay s) (reuseaddr s) (reuseport s) (keepalive s) (bound s) (listening s) false (closed s), false).

(** [getsockopt(SO_ERROR)]: the pending error, or the [errno] of the call. *)
Definition getSocketError (ret : Z) (errno optval : Z) : Z := if ret <? 0 then errno else optval.
(** [getsockname] and [getpeername] into a zeroed [sockaddr_in6]. *)
Definition getLocalAddr (ret : Z) (addr : bytes) : bytes * bool := if ret <? 0 then (zrep 28 "000"%char, true) else (addr, false).
Definition getPeerAddr (ret : Z) (addr : bytes) : bytes * bool := if ret <? 0 then (zrep 28 "000"%char, true) else (addr, false).

(** ** [Socket] *)

Definition optval (on : bool) : Z := if on then 1 else 0.
Definition setTcpNoDelay (ret : Z) (on : bool) (s : Sock) : Sock :=
  if ret <? 0 then s
  else mkSock (fl s) (fd_flags s) (optval on) (reuseaddr s) (reuseport s) (keepalive s) (bound s) (listening s) (write_open s) (closed s).
Definition setReuseAddr (ret : Z) (on : bool) (s : Sock) : Sock :=
  if ret <? 0 then s
  else mkSock (fl s) (fd_flags s) (nodelay s) (optval on) (reuseport s) (keepalive s) (bound s) (listening s) (write_open s) (closed s).
Definition setReusePort (ret : Z) (on : bool) (s : Sock) : Sock * bool :=
  if ret <? 0 then (s, on)
  else (mkSock (fl s) (fd_flags s) (nodelay s) (reuseaddr s) (optval on) (keepalive s) (bound s) (listening s) (write_open s) (closed s), false).
Definition setKeepAlive (ret : Z) (on : bool) (s : Sock) : Sock :=
  if ret <? 0 then s
  else mkSock (fl s) (fd_flags s) (nodelay s) (reuseaddr s) (reuseport s) (optval on) (bound s) (listening s) (write_open s) (closed s).
Definition destructor (ret : Z) (s : Sock) : Sock * bool := close ret s.

Definition bindAddress (ret : Z) (addr : InetAddress.InetAddress) (s : Sock) : result Sock :=
  bindOrDie ret (InetAddress.addr6_ addr) s.
Definition listen (ret : Z) (s : Sock) : result Sock := listenOrDie ret s.
Definition socket_shutdownWrite (ret : Z) (s : Sock) : Sock * bool := shutdownWrite ret s.
(** [sys_accept]: what [sockets::accept] returns for and leaves in the zeroed address. *)
Definition accept (sys_accept : bytes → Z * bytes) (peeraddr : InetAddress.InetAddress) : Z * InetAddress.InetAddress :=
  let addr := zrep InetAddress.sizeof_in6 "000"%char in
  let '(connfd, addr) := sys_accept addr in
  (connfd, if 0 <=? connfd then InetAddress.setSockAddrInet6 addr peeraddr else peeraddr).

(** [struct tcp_info], the members that are printed; each has 32 bits or fewer. *)
Record tcp_info := mkTcpInfo {
  tcpi_retransmits : Z; tcpi_rto : Z; tcpi_ato : Z; tcpi_snd_mss : Z; tcpi_rcv_mss : Z; tcpi_lost : Z;
  tcpi_retrans : Z; tcpi_rtt : Z; tcpi_rttvar : Z; tcpi_snd_ssthresh : Z; tcpi_snd_cwnd : Z; tcpi_total_retrans : Z
}.
(** The format and its arguments. *)
Definition tcp_info_text (t : tcp_info) : bytes :=
  Channel.str "unrecovered=" ++ dec (tcpi_retransmits t) ++ Channel.str " " ++
  Channel.str "rto=" ++ dec (tcpi_rto t) ++ Channel.str " ato=" ++ dec (tcpi_ato t) ++
  Channel.str " snd_mss=" ++ dec (tcpi_snd_mss t) ++ Channel.str " rcv_mss=" ++ dec (tcpi_rcv_mss t) ++ Channel.str " " ++
  Channel.str "lost=" ++ dec (tcpi_lost t) ++ Channel.str " retrans=" ++ dec (tcpi_retrans t) ++
  Channel.str " rtt=" ++ dec (tcpi_rtt t) ++ Channel.str " rttvar=" ++ dec (tcpi_rttvar t) ++ Channel.str " " ++
  Channel.str "sshthresh=" ++ dec (tcpi_snd_ssthresh t) ++ Channel.str " cwnd=" ++ dec (tcpi_snd_cwnd t) ++
  Channel.str " total_retrans=" ++ dec (tcpi_total_retrans t).
(** [answer]: what getsockopt(2) stores, if it succeeds. *)
Definition getTcpInfo (answer : option tcp_info) : tcp_info * bool :=
  let tcpi := mkTcpInfo 0 0 0 0 0 0 0 0 0 0 0 0 in
  match answer with Some t => (t, true) | None => (tcpi, false) end.
(** [None]: getsockopt(2) fails and the buffer is not written. *)
Definition getTcpInfoString (len : Z) (tcpi : option tcp_info) : option bytes := snprintf len ∘ tcp_info_text <$> tcpi.
(** [TcpConnection::getTcpInfoString], with [char buf[1024]] *)
Definition connection_info (tcpi : option tcp_info) : bytes := default [] (getTcpInfoString 1024 tcpi).

(** ** Facts *)

(** Both ways to make a socket give the same flags; the other bits of a descriptor are kept. *)
Lemma nonblocking_either sockfd s : createNonblockingOrDie true sockfd = Ok s ↔ createNonblockingOrDie false sockfd = Ok s.
Proof. unfold createNonblockingOrDie. by destruct (sockfd <? 0). Qed.
Lemma nonblock_bits s n :
  0 ≤ n →
  Z.testbit (fl (setNonBlockAndCloseOnExec s)) n = (Z.testbit (fl s) n || (n =? 11)) ∧
  Z.testbit (fd_flags (setNonBlockAndCloseOnExec s)) n = (Z.testbit (fd_flags s) n || (n =? 0)).
Proof.
  intros Hn. cbn. rewrite !Z.lor_spec. change O_NONBLOCK with (2 ^ 11). change FD_CLOEXEC with (2 ^ 0).
  rewrite !Z.pow2_bits_eqb by lia. by rewrite (Z.eqb_sym 11), (Z.eqb_sym 0).
Qed.

Definition u32_ok (x : Z) : Prop := 0 ≤ x < 2 ^ 32.
Definition tcp_info_ok (t : tcp_info) : Prop :=
  Forall u32_ok [tcpi_retransmits t; tcpi_rto t; tcpi_ato t; tcpi_snd_mss t; tcpi_rcv_mss t; tcpi_lost t;
    tcpi_retrans t; tcpi_rtt t; tcpi_rttvar t; tcpi_snd_ssthresh t; tcpi_snd_cwnd t; tcpi_total_retrans t].
Lemma dec_u32_length x : u32_ok x → zlen (dec x) ≤ 10.
Proof. intros Hx. unfold u32_ok in Hx. unfold dec. destruct (Z.ltb_spec x 0); [lia|]. apply (digits_length x 10); lia. Qed.
(** The information of a connection is never cut off by its buffer. *)
Lemma connection_info_whole t : tcp_info_ok t → connection_info (Some t) = tcp_info_text t.
Proof.
  intros Ht. apply ztake_all. unfold tcp_info_ok in Ht. repeat (apply Forall_cons in Ht as [?%dec_u32_length Ht]).
  unfold tcp_info_text. repeat rewrite zlen_app.
  repeat match goal with |- context [zlen (Channel.str ?s)] => let n := eval vm_compute in (zlen (Channel.str s)) in change (zlen (Channel.str s)) with n end.
  lia.
Qed.

(** A socket that listens: an accepted connection comes with the peer's address, which
    the kernel fills in completely or leaves zero; a refused one leaves the caller's. *)
Lemma accept_peer sys_accept peeraddr connfd peeraddr' :
  accept sys_accept peeraddr = (connfd, peeraddr') →
  (connfd < 0 → peeraddr' = peeraddr) ∧
  (0 ≤ connfd → sys_accept (zrep 28 "000"%char) = (connfd, InetAddress.addr6_ peeraddr')).
Proof.
  unfold accept. change InetAddress.sizeof_in6 with 28. destruct (sys_accept _) as [n a]. intros [= <- <-].
  destruct (Z.leb_spec 0 n); split; intros; try done; lia.
Qed.
(** The order in which the acceptor uses its socket gives a listening, bound one. *)
Lemma bind_listen addr s :
  ∃ s', (s1 ← bindAddress 0 addr s; listen 0 s1) = Ok s' ∧ bound s' = Some (InetAddress.addr6_ addr) ∧ listening s' = true.
Proof. by eexists. Qed.

End Sockets.
