(* ===== verification/EndToEnd.v ===== *)
(** * Codec over connections ([net/TcpConnection.cc], [net/protobuf/ProtobufCodecLite.cc])

    What a run of a connection does to the data that passes through it, as one
    induction principle over the events ([Flow]); and the composition of two
    connections with the codec at both ends: the messages one side sends are
    the messages the other side is given. *)

From stdpp Require Import sets.
From S2P Require Import Prelude Endian NetBuffer Channel TcpConnection Codec.

Module Flow.
Import Buffer(Buffer, content, wf).
Import TcpConnection.

(** The data of a connection: what was taken over, what waits in the loop, the
    input buffer, what arrived, and what was shown to the message callback. *)
Record View := mkView {
  taken : list bytes;
  pending : list bytes;
  input : Buffer;
  arrived : list bytes;
  shown : list bytes
}.

Definition sent_by (f : functor) : option bytes := match f with SendInLoop m => Some m | _ => None end.
Definition shown_by (x : call) : option bytes := match x with MessageArrived buf => Some buf | _ => None end.
Definition view (w : World) : View :=
  mkView (accepted w) (omap sent_by (queue w)) (inputBuffer_ (conn w)) (received w) (omap shown_by (log w)).

(** [v] after another message was taken over, or after it was queued. *)
Definition take_over (m : bytes) (v : View) : View :=
  mkView (taken v ++ [m]) (pending v) (input v) (arrived v) (shown v).
Definition postpone (m : bytes) (v : View) : View :=
  mkView (taken v) (pending v ++ [m]) (input v) (arrived v) (shown v).

(** ** Single operations *)

Lemma view_queue f w :
  view (queueInLoop f w) = match sent_by f with Some m => postpone m (view w) | None => view w end.
Proof. unfold view, queueInLoop, postpone. cbn. rewrite omap_app. by destruct f; cbn; rewrite ?app_nil_r. Qed.

Lemma view_set_queue q q' w : omap sent_by q = omap sent_by q' → view (set_queue q w) = view (set_queue q' w).
Proof. unfold view. cbn. by intros ->. Qed.

Lemma view_log x w : shown_by x = None → view (set_log (log w ++ [x]) w) = view w.
Proof. intros Hx. unfold view. cbn. rewrite omap_app. cbn. by rewrite Hx, app_nil_r. Qed.

Lemma view_buffer_rest data n r w w' : buffer_rest data n r w = Ok w' → view w' = view w.
Proof.
  unfold buffer_rest. cbv zeta. set (w1 := if (_ : bool) then _ else w). intros E. inv_result.
  transitivity (view w1); [by case_match|]. unfold w1. case_match; [apply view_queue|done].
Qed.

Lemma view_write data w w' n e : write data w = (w', n, e) → view w' = view w.
Proof. intros [(_ & _ & k & ->)|(_ & _ & k & ->)]%write_spec; done. Qed.

(** [sendInLoop] takes the message over or drops it. *)
Lemma view_sendInLoop m w w' :
  sendInLoop m w = Ok w' → view w' = view w ∨ view w' = take_over m (view w).
Proof.
  unfold sendInLoop. case_bool_decide; [intros [= <-]; by left|].
  set (p := if (_ && _) then _ else _).
  assert (∃ w1 n r fault, p = (w1, n, r, fault) ∧ view w1 = view w) as (w1 & n & r & fault & -> & Ev).
  { unfold p. case_match; [|by eauto 10]. destruct (write m w) as [[w1 n] e] eqn:E.
    apply view_write in E. case_match; [|by eauto 10]. eexists _, _, _, _. split; [reflexivity|].
    case_match; [|done]. by rewrite view_queue. }
  intros E. inv_result. destruct fault; cbn [negb andb] in E.
  - injection E as <-. by left.
  - right. assert (view w' = view (accept m w1)) as ->.
    { case_match; [by eapply view_buffer_rest|by injection E as <-]. }
    rewrite <- Ev. done.
Qed.

(** What an action passes to the connection. *)
Definition message_of (a : action) : option bytes :=
  match a with Send m => Some m | SendBuffer b => Some (content b) | _ => None end.
Definition retrieves (a : action) : bool :=
  match a with Retrieve _ | RetrieveAll => true | _ => false end.

Definition flows (a : action) (v v' : View) : Prop :=
  v' = v ∨ ∃ m, message_of a = Some m ∧ (v' = take_over m v ∨ v' = postpone m v).

Lemma view_act b a w w' :
  retrieves a = false → (∀ buf, a = SendBuffer buf → wf buf) → act b a w = Ok w' → flows a (view w) (view w').
Proof.
  unfold flows. intros Hr Hb. destruct a as [m|buf| | | | | |n| ]; cbn [act message_of] in *; try done.
  - unfold send. case_bool_decide; [|intros [= <-]; by left]. destruct b; [|intros [= <-]].
    + intros [?|?]%view_sendInLoop; eauto.
    + rewrite view_queue. eauto.
  - specialize (Hb _ eq_refl). unfold send_buffer. case_bool_decide; [|intros [= <-]; by left]. destruct b.
    + rewrite Buffer.range_content, bind_Ok by done. intros E.
      destruct (sendInLoop (content buf) w) as [w1|] eqn:E1; [|done]. injection E as <-.
      apply view_sendInLoop in E1 as [?|?]; eauto.
    + unfold Buffer.retrieveAllAsString.
      assert (0 ≤ Buffer.readableBytes buf) by (rewrite Buffer.readable_wf by done; Buffer.buf; lia).
      destruct (Buffer.retrieveAsString_ok buf (Buffer.readableBytes buf)) as (b' & -> & _ & _); [done|lia|].
      rewrite bind_Ok. rewrite (ztake_all _ (content buf)) by (rewrite Buffer.zlen_content by done; lia).
      intros [= <-]. rewrite view_queue. eauto.
  - intros [= <-]. left. unfold shutdown, shutdown_commit, shutdownInLoop. repeat case_match; try done.
    by rewrite view_queue.
  - intros [= <-]. left. unfold forceClose. case_match; [|done]. by rewrite view_queue.
  - intros [= <-]. left. unfold forceCloseWithDelay. by case_match.
  - intros [= <-]. left. unfold startRead, startReadInLoop. repeat case_match; try done. by rewrite view_queue.
  - intros [= <-]. left. unfold stopRead, stopReadInLoop. repeat case_match; try done. by rewrite view_queue.
Qed.

Lemma view_handleWrite w w' : handleWrite w = Ok w' → view w' = view w.
Proof.
  unfold handleWrite. case_match; [|by intros [= <-]]. cbv zeta. intros E. apply bind_Ok_inv in E as (data & _ & E).
  destruct (write data w) as [[w1 n] e] eqn:Ew. apply view_write in Ew. rewrite <- Ew.
  case_match; [|by injection E as <-]. apply bind_Ok_inv in E as (b & _ & E).
  case_match; [|by injection E as <-]. injection E as <-.
  transitivity (view (change Channel.disableWriting (set_conn (with_output b (conn w1)) w1))); [|done].
  set (w2 := change _ _). unfold shutdownInLoop.
  destruct (writeCompleteCallback_ (conn w2)); repeat case_match; try done; apply view_queue.
Qed.

(** ** Runs

    [J] holds of the data in every state of a run if the actions of the
    callbacks and of the other code respect it, and so does a message callback
    after a read. *)
Definition after_read (got : bytes) (b : Buffer) (w : World) : World :=
  receive got (set_conn (with_input b (conn w)) w).
Definition good_event (good : action → Prop) (e : event) : Prop :=
  match e with InLoop a | Foreign a => good a | _ => True end.

Section principle.
Context (user : call → World → list action) (Hu : user_ok user).
Context (J : View → Prop) (good : action → Prop).
Hypothesis Huser : ∀ x w, shown_by x = None → Forall good (user x w).
Hypothesis Hact : ∀ b a w w', good a → act b a w = Ok w' → J (view w) → J (view w').
Hypothesis Hpop : ∀ m p v, J v → pending v = m :: p →
  let v' := mkView (taken v) p (input v) (arrived v) (shown v) in J v' ∧ J (take_over m v').
Hypothesis Hread : ∀ got b w w', inv w → J (view w) → wf b → content b = inp w ++ got → 0 < zlen got →
  call_user user (MessageArrived (content b)) (after_read got b w) = Ok w' → J (view w').
Hypothesis Heof : ∀ b w, J (view w) → wf b → content b = inp w → J (view (after_read [] b w)).

Lemma acts_J l : ∀ w w', Forall good l → acts l w = Ok w' → J (view w) → J (view w').
Proof.
  induction l as [|a l IH]; intros w w' Hl; cbn [acts]; [by intros [= <-]|].
  apply Forall_cons in Hl as [Ha Hl]. intros (w1 & E1 & E2)%bind_Ok_inv HJ. by eapply IH, Hact.
Qed.

Lemma call_user_J x w w' : call_user user x w = Ok w' → shown_by x = None → J (view w) → J (view w').
Proof. intros E Hx HJ. eapply acts_J; [|exact E|by rewrite view_log]. by apply Huser. Qed.

Lemma handleClose_J w w' : handleClose user w = Ok w' → J (view w) → J (view w').
Proof.
  unfold handleClose. intros E HJ. apply bind_Ok_inv in E as (_ & _ & E). cbv zeta in E.
  apply bind_Ok_inv in E as (w1 & E1 & [= <-]). apply call_user_J in E1; [|done|done].
  change (view (set_held _ _)) with (view (set_log (log w1 ++ [CloseCalled]) w1)). by rewrite view_log.
Qed.

Lemma connectDestroyed_J w w' : connectDestroyed user w = Ok w' → J (view w) → J (view w').
Proof.
  unfold connectDestroyed. intros (w1 & E1 & E)%bind_Ok_inv HJ. unfold remove_channel in E. inv_result.
  assert (J (view w1)); [|done]. case_match; [|by injection E1 as <-]. by eapply call_user_J.
Qed.

Lemma handleRead_J o w w' :
  inv w → readv_ok o w → handleRead user o w = Ok w' → J (view w) → J (view w').
Proof.
  intros Hi Hr E HJ. destruct (inv_wf w Hi) as [Hb _]. unfold handleRead in E. destruct o as [e|got].
  { rewrite (Buffer.readFd_content _ (Buffer.ReadvError e) Hb), bind_Ok in E. by injection E as <-. }
  destruct Hr as [Hcap Hmax]. pose proof (Buffer.readFd_safe _ got Hb Hcap Hmax) as Hs.
  destruct (Buffer.readFd _ _) as [r|]; [|done]. destruct Hs as (b & -> & Hb' & Hc).
  rewrite bind_Ok in E. cbv zeta in E. fold (after_read got b w) in E. fold (inp w) in Hc.
  pose proof (zlen_nonneg got).
  destruct (Z.ltb_spec 0 (zlen got)) as [Hpos|Hz]; [by eapply Hread|].
  assert (zlen got = 0) as Hg by lia. rewrite Hg in E. cbn [Z.eqb] in E. apply zlen_zero_inv in Hg as ->.
  rewrite app_nil_r in Hc. eapply handleClose_J; [exact E|]. by apply Heof.
Qed.

Lemma readiness_J r o w w' :
  settled w → legal (Readiness r o) w → readiness user r o w = Ok w' → J (view w) → J (view w').
Proof.
  intros Hst (He & Hkr & Hrv) E HJ. unfold readiness, Channel.handleEvent, get_chan in E. rewrite bind_Ok in E.
  pose proof (watched_open w (proj1 Hst) He) as Ho.
  set (w0 := put_chan (Channel.with_handling true (chan (put_chan (Channel.set_revents r (chan w)) w)))
    (put_chan (Channel.set_revents r (chan w)) w)).
  assert (settled w0) as Hs0 by (repeat (apply settled_put_chan; try done)).
  assert (∃ w1 w2 w3,
    (if hung_up r then if Channel.closeCallback_ (chan w0) then handleClose user w0 else Ok w0 else Ok w0) = Ok w1 ∧
    (if read_events (Channel.revents_ (chan w1))
     then if Channel.readCallback_ (chan w1) then handleRead user o w1 else Ok w1 else Ok w1) = Ok w2 ∧
    (if Channel.bits (Channel.revents_ (chan w2)) Channel.POLLOUT
     then if Channel.writeCallback_ (chan w2) then handleWrite w2 else Ok w2 else Ok w2) = Ok w3 ∧
    view w' = view w3) as (w1 & w2 & w3 & E1 & E2 & E3 & ->).
  { assert (Channel.handleEventWithGuard get_chan put_chan (run_callback user o)
      (put_chan (Channel.set_revents r (chan w)) w) = Ok w') as E' by (by destruct (Channel.tied_ _)).
    clear E. unfold Channel.handleEventWithGuard, get_chan in E'. rewrite !bind_Ok in E'. fold w0 in E'.
    change (Channel.revents_ (chan w0)) with r in E'. fold (hung_up r) in E'.
    apply bind_Ok_inv in E' as (w1 & E1 & E'). rewrite bind_Ok in E'. apply bind_Ok_inv in E' as (w1' & E1' & E').
    assert (w1' = w1) as -> by (cbn [run_callback] in E1'; unfold handleError in E1'; repeat case_match; congruence).
    rewrite bind_Ok in E'. apply bind_Ok_inv in E' as (w2 & E2 & E'). rewrite bind_Ok in E'.
    apply bind_Ok_inv in E' as (w3 & E3 & E'). rewrite bind_Ok in E'. injection E' as <-. by exists w1, w2, w3. }
  assert (J (view w1) ∧ Channel.revents_ (chan w1) = r ∧ (hung_up r = false → w1 = w0)) as (HJ1 & Hr1 & Hw1).
  { destruct (hung_up r); [|injection E1 as <-; done].
    destruct (Channel.closeCallback_ _); [|injection E1 as <-; done]. split; [by eapply handleClose_J|].
    pose proof (handleClose_handled user Hu (queue w0) w0 (proj1 Hs0) Ho (rest_of_self w0)) as Hh.
    rewrite set_queue_self, E1 in Hh. destruct Hh as [_ ->]. done. }
  assert (J (view w2)) as HJ2.
  { rewrite Hr1 in E2. destruct (read_events r) eqn:Er; [|by injection E2 as <-].
    destruct (Channel.readCallback_ _); [|by injection E2 as <-]. destruct (hung_up r); [by specialize (Hkr eq_refl)|].
    rewrite (Hw1 eq_refl) in *. by eapply handleRead_J; [apply Hs0| |exact E2|]. }
  destruct (Channel.bits _ Channel.POLLOUT), (Channel.writeCallback_ (chan w2)); try by injection E3 as <-.
  by apply view_handleWrite in E3 as ->.
Qed.

Lemma run_functor_J f q w w' :
  queue w = f :: q → run_functor user f (set_queue q w) = Ok w' → J (view w) → J (view w').
Proof.
  intros Eq E HJ. set (w0 := set_queue q w) in *.
  destruct (sent_by f) as [m|] eqn:Ef.
  { destruct f; try done. injection Ef as ->. cbn [run_functor] in E.
    destruct (Hpop m (omap sent_by q) (view w) HJ) as [H1 H2]; [cbn; by rewrite Eq|].
    by apply view_sendInLoop in E as [-> | ->]. }
  assert (J (view w0)) as HJ0.
  { replace (view w0) with (view w); [done|]. unfold view. cbn. rewrite Eq. cbn. by rewrite Ef. }
  destruct f; try done; cbn [run_functor] in E.
  - injection E as <-. unfold shutdownInLoop. by case_match.
  - unfold forceCloseInLoop in E. case_match; [by eapply handleClose_J|by injection E as <-].
  - injection E as <-. unfold startReadInLoop. by case_match.
  - injection E as <-. unfold stopReadInLoop. by case_match.
  - by eapply call_user_J.
  - by eapply call_user_J.
  - by eapply connectDestroyed_J.
Qed.

Lemma do_event_J e w w' :
  settled w → legal e w → good_event good e → do_event user e w = Ok w' → J (view w) → J (view w').
Proof.
  intros Hst Hl Hg E HJ. destruct e as [|r o| |a|a| | |]; cbn [do_event good_event] in *.
  - unfold connectEstablished in E. apply bind_Ok_inv in E as (_ & _ & E). by eapply call_user_J.
  - by eapply readiness_J.
  - destruct (queue w) as [|f q] eqn:Eq; [by injection E as <-|]. by eapply run_functor_J.
  - by eapply Hact.
  - by eapply Hact.
  - injection E as <-. unfold forceClose. case_match; [|done]. by rewrite view_queue.
  - injection E as <-. change (view (set_held _ ?x)) with (view x). by rewrite view_queue.
  - by eapply connectDestroyed_J.
Qed.

Lemma do_events_J es : ∀ w w',
  settled w → legal_run user es w → Forall (good_event good) es →
  do_events user es w = Ok w' → J (view w) → J (view w').
Proof.
  induction es as [|e es IH]; intros w w' Hst Hl Hg E HJ; cbn [do_events legal_run] in *; [by injection E as <-|].
  apply Forall_cons in Hg as [Hge Hg]. destruct Hl as [Hle Hl]. apply bind_Ok_inv in E as (w1 & E1 & E).
  eapply IH; [|by apply Hl|done|exact E|by eapply do_event_J].
  exact (safe_Ok _ _ _ (do_event_settled user Hu e w Hst Hle) E1).
Qed.
End principle.
End Flow.

Module EndToEnd.
Import Buffer(Buffer, content, wf).
Import TcpConnection Flow Endian.
Import ProtobufCodecLite(Message, MessageLaws, ProtobufCodecLite, report, Received, Skipped, Refused,
  tag_, kMinMessageLen, kChecksumLen, kHeaderLen).

(** ** The sending side *)

Section sender.
(** What the messages handed to the connection satisfy. *)
Context (Q : bytes → Prop).
Definition sends (a : action) : Prop :=
  match a with Send m => Q m | SendBuffer b => wf b ∧ Q (content b) | _ => True end.
Definition all_sent (v : View) : Prop := Forall Q (taken v) ∧ Forall Q (pending v).

Lemma sends_act b a w w' : sends a → act b a w = Ok w' → all_sent (view w) → all_sent (view w').
Proof.
  intros Ha E [H1 H2]. destruct (retrieves a) eqn:Hr.
  { destruct a; try done; cbn [act] in E; inv_result; done. }
  apply view_act in E as [-> |(m & Hm & Hv)]; [done| |done|].
  - assert (Q m) by (destruct a; try done; injection Hm as <-; [done|by destruct Ha]).
    destruct Hv as [-> | ->]; split; cbn; auto using Forall_app_2.
  - intros buf ->. by destruct Ha.
Qed.

(** Everything a connection takes over was handed to it. *)
Lemma sender_accepted user es w0 w :
  user_ok user → (∀ x w, Forall sends (user x w)) → Forall (good_event sends) es →
  settled w0 → legal_run user es w0 → all_sent (view w0) →
  do_events user es w0 = Ok w → Forall Q (accepted w).
Proof.
  intros Hu Hs Hes Hst Hl H0 E. assert (all_sent (view w)) as [H _]; [|exact H].
  refine (do_events_J user Hu all_sent sends _ _ _ _ _ es w0 w Hst Hl Hes E H0).
  - auto.
  - eauto using sends_act.
  - intros m p v [H1 H2] Ep. rewrite Ep in H2. apply Forall_cons in H2 as [Hm Hp].
    split; (split; [|done]); cbn; auto using Forall_app_2.
  - intros got b w1 w2 _ [H1 H2] _ _ _ E1. unfold call_user in E1.
    eapply (acts_J all_sent sends); [eauto using sends_act|apply Hs|exact E1|]. done.
  - intros b w1 [H1 H2] _ _. done.
Qed.
End sender.

(** ** Sequences of actions *)

Lemma acts_app l1 l2 : ∀ w w', acts (l1 ++ l2) w = Ok w' → ∃ w1, acts l1 w = Ok w1 ∧ acts l2 w1 = Ok w'.
Proof.
  induction l1 as [|a l1 IH]; intros w w' E; [by exists w|]. cbn [acts app] in *.
  apply bind_Ok_inv in E as (w1 & E1 & E). destruct (IH _ _ E) as (w2 & ? & ?). exists w2. by rewrite E1, bind_Ok.
Qed.

Lemma acts_ok_app l1 l2 : ∀ w,
  acts_ok l1 w → (∀ w', acts l1 w = Ok w' → acts_ok l2 w') → acts_ok (l1 ++ l2) w.
Proof.
  induction l1 as [|a l1 IH]; intros w H1 H2; [by apply H2|]. destruct H1 as [Ha H1]. split; [done|].
  intros w1 E1. apply IH; [by apply H1|]. intros w' E. apply H2. cbn [acts]. by rewrite E1, bind_Ok.
Qed.

(** Actions that leave the input buffer alone and are allowed at any time. *)
Definition plain (a : action) : Prop := foreign_ok a ∧ a ≠ StartRead ∧ a ≠ StopRead.
Definition same_input (v v' : View) : Prop := input v' = input v ∧ arrived v' = arrived v ∧ shown v' = shown v.

Lemma plain_act b a w w' : plain a → act b a w = Ok w' → same_input (view w) (view w').
Proof.
  intros (Hf & _ & _) E. apply view_act in E as [-> |(m & _ & [-> | ->])]; try done; [by destruct a|].
  by intros buf ->.
Qed.

Lemma plain_acts l : ∀ w w', Forall plain l → acts l w = Ok w' → same_input (view w) (view w').
Proof.
  induction l as [|a l IH]; intros w w' Hl E; cbn [acts] in E; [by injection E as <-|].
  apply Forall_cons in Hl as [Ha Hl]. apply bind_Ok_inv in E as (w1 & E1 & E).
  apply plain_act in E1 as (? & ? & ?); [|done]. apply IH in E as (? & ? & ?); [|done].
  repeat split; congruence.
Qed.

Lemma plain_acts_ok l : ∀ w, Forall plain l → acts_ok l w.
Proof.
  induction l as [|a l IH]; intros w Hl; [done|]. apply Forall_cons in Hl as [(Hf & Hs1 & Hs2) Hl].
  split; [by destruct a|]. auto.
Qed.

(** ** The receiving side *)

Section receiver.
Context {Hhost : Host} {M : Type} {Hmsg : Message M} {Hlaws : MessageLaws M}.
Context (adler32 : bytes → Z) (c : ProtobufCodecLite).
Hypothesis Hmin : kMinMessageLen c = zlen (tag_ c) + kChecksumLen.
Hypothesis Htag : zlen (tag_ c) ≤ 1024.

Notation pure_round := (ProtobufCodecLite.pure_round (M := M) adler32 c).
Notation pure_receive := (ProtobufCodecLite.pure_receive (M := M) adler32 c).
Notation stream := (ProtobufCodecLite.stream (M := M) adler32 c).

(** What the application does about a report, and in the other callbacks: it
    leaves the input buffer to the codec. *)
Context (react : report (M := M) → list action) (idle : call → World → list action).
Hypothesis Hreact : ∀ r, Forall plain (react r).
Hypothesis Happ : ∀ x w, Forall plain (idle x w).

(** [onMessage] as the calls it makes on the connection: in each round the
    callback, then [retrieve] of what the round has used. *)
Fixpoint codec_calls (fuel : nat) (b : Buffer) : list action :=
  match fuel with
  | O => []
  | S fuel =>
      match ProtobufCodecLite.receive_round adler32 c b with
      | Ok (b', rs, more) =>
          flat_map react rs ++
          (if more then Retrieve (Buffer.readableBytes b - Buffer.readableBytes b') :: codec_calls fuel b' else [])
      | Fail _ => []
      end
  end.
Definition codec_user (x : call) (w : World) : list action :=
  match x with
  | MessageArrived _ => let b := inputBuffer_ (conn w) in codec_calls (ProtobufCodecLite.enough b) b
  | _ => idle x w
  end.

(** The reports of a run: those of [onMessage] on each input buffer shown. *)
Definition holding (d : bytes) : Buffer :=
  Buffer.mkBuffer (d ++ zrep (Buffer.kCheapPrepend - zlen d) "000"%char) 0 (zlen d).
Definition reports_of (d : bytes) : list (report (M := M)) :=
  match ProtobufCodecLite.onMessage adler32 c (holding d) with Some (Ok (_, rs)) => rs | _ => [] end.
Definition delivered (w : World) : list (report (M := M)) := flat_map reports_of (omap shown_by (log w)).

Lemma holding_wf d : message_ok d → wf (holding d) ∧ content (holding d) = d.
Proof.
  intros Hd. unfold message_ok, vec_max_size in Hd. pose proof (zlen_nonneg d).
  unfold holding. set (pad := zrep _ _).
  assert (zlen pad = Z.max 0 (Buffer.kCheapPrepend - zlen d)) as Hp.
  { unfold pad. destruct (Z.le_ge_cases 0 (Buffer.kCheapPrepend - zlen d)).
    - rewrite zlen_zrep by done. lia.
    - unfold zrep, zlen. rewrite length_replicate. lia. }
  split.
  - unfold wf, Buffer.size. cbn [Buffer.readerIndex_ Buffer.writerIndex_ Buffer.buffer_]. rewrite zlen_app, Hp.
    unfold Buffer.kCheapPrepend, vec_max_size in *. lia.
  - unfold content. cbn [Buffer.readerIndex_ Buffer.writerIndex_ Buffer.buffer_].
    rewrite Z.sub_0_r, zdrop_0. by apply ztake_app_exact.
Qed.

Lemma reports_of_receive d l rs :
  message_ok d → pure_receive (S (length d)) d = Some (l, rs) → reports_of d = rs.
Proof.
  intros [Hw Hc]%holding_wf E. unfold reports_of.
  destruct (ProtobufCodecLite.onMessage_spec adler32 c Hmin Htag _ Hw) as (l' & rs' & b' & E' & -> & _).
  rewrite Hc, E in E'. congruence.
Qed.

Lemma react_plain rs : Forall plain (flat_map react rs).
Proof. apply Forall_flat_map, Forall_true. auto. Qed.

Lemma round_stays l l' rs : pure_round l = (l', rs, false) → l' = l.
Proof. unfold ProtobufCodecLite.pure_round. repeat case_match; by intros [= <- _]. Qed.

Lemma round_suffix l l' rs : pure_round l = (l', rs, true) → ∃ p, l = p ++ l'.
Proof.
  unfold ProtobufCodecLite.pure_round. repeat case_match; intros [= <- _];
    eexists; symmetry; apply ztake_zdrop.
Qed.

(** A round that goes on, as a [retrieve] on any buffer with the same content. *)
Lemma round_retrieve b b1 b' rs :
  wf b → wf b1 → content b1 = content b → wf b' → pure_round (content b) = (content b', rs, true) →
  let n := Buffer.readableBytes b - Buffer.readableBytes b' in
  0 ≤ n ≤ Buffer.readableBytes b1 ∧
  ∃ b2, Buffer.retrieve b1 n = Ok b2 ∧ wf b2 ∧ content b2 = content b'.
Proof.
  intros Hb Hb1 Hc Hb' [p Hp]%round_suffix n.
  pose proof (Buffer.zlen_content b Hb) as Z0. pose proof (Buffer.zlen_content b1 Hb1) as Z1.
  pose proof (Buffer.zlen_content b' Hb') as Z2. pose proof (zlen_nonneg p).
  rewrite Hc in Z1. rewrite Hp, zlen_app in Z0, Z1.
  assert (0 ≤ n ≤ Buffer.readableBytes b1) as Hn by (unfold n; pose proof (zlen_nonneg (content b')); lia).
  split; [done|]. destruct (Buffer.retrieve_ok b1 n Hb1 Hn) as (b2 & -> & Hb2 & Hc2).
  exists b2. split_and!; [done|done|]. rewrite Hc2, Hc, Hp. apply zdrop_app_exact. unfold n. lia.
Qed.

Lemma calls_run fuel : ∀ b w w' l rs,
  wf b → wf (inputBuffer_ (conn w)) → inp w = content b → pure_receive fuel (content b) = Some (l, rs) →
  acts (codec_calls fuel b) w = Ok w' →
  wf (inputBuffer_ (conn w')) ∧ inp w' = l ∧ received w' = received w ∧
  omap shown_by (log w') = omap shown_by (log w).
Proof.
  induction fuel as [|fuel IH]; intros b w w' l rs Hb Hbw Hc Er E; [done|].
  cbn [ProtobufCodecLite.pure_receive codec_calls] in *.
  pose proof (ProtobufCodecLite.codec_round_refines adler32 c Hmin Htag b Hb) as Hr.
  destruct (pure_round (content b)) as [[l1 rs1] more] eqn:E1. destruct Hr as (b' & Er1 & Hb' & <-).
  rewrite Er1 in E. apply acts_app in E as (w1 & Ea & E).
  destruct (plain_acts _ _ _ (react_plain _) Ea) as (Hi & Ha & Hs). cbn in Hi, Ha, Hs.
  destruct more.
  - destruct (pure_receive fuel (content b')) as [[l2 rs2]|] eqn:E2; [|done]. injection Er as -> _.
    cbn [acts act] in E. rewrite Hi in E. destruct (round_retrieve b _ b' rs1 Hb Hbw Hc Hb' E1) as (_ & b2 & Eb & Hb2 & Hc2).
    rewrite Eb, !bind_Ok in E. rewrite <- Ha, <- Hs.
    destruct (IH b' _ _ _ _ Hb' (Hb2 : wf (inputBuffer_ (conn (consume _ (set_conn (with_input b2 (conn w1)) w1))))) Hc2 E2 E)
      as (? & ? & ? & ?). done.
  - injection E as <-. injection Er as <- _. apply round_stays in E1. rewrite Hi, <- Ha, <- Hs.
    unfold inp. rewrite Hi. by rewrite E1.
Qed.

Lemma calls_ok fuel : ∀ b w,
  wf b → wf (inputBuffer_ (conn w)) → inp w = content b → acts_ok (codec_calls fuel b) w.
Proof.
  induction fuel as [|fuel IH]; intros b w Hb Hbw Hc; [done|]. cbn [codec_calls].
  pose proof (ProtobufCodecLite.codec_round_refines adler32 c Hmin Htag b Hb) as Hr.
  destruct (pure_round (content b)) as [[l1 rs1] more] eqn:E1. destruct Hr as (b' & -> & Hb' & <-).
  apply acts_ok_app; [apply plain_acts_ok, react_plain|]. intros w1 Ea.
  destruct (plain_acts _ _ _ (react_plain _) Ea) as (Hi & _ & _). cbn in Hi. destruct more; [|done].
  destruct (round_retrieve b _ b' rs1 Hb Hbw Hc Hb' E1) as (Hn & b2 & Eb & Hb2 & Hc2).
  cbn [acts_ok action_ok act]. rewrite Hi. split; [done|]. intros w2 E2. rewrite Eb, bind_Ok in E2.
  injection E2 as <-. by apply IH.
Qed.

(** The codec keeps to the contract of a message callback. *)
Lemma codec_user_ok : user_ok codec_user.
Proof.
  intros x w Hw. destruct x; cbn [codec_user]; try by apply plain_acts_ok, Happ. by apply calls_ok.
Qed.

(** While what arrives is the beginning of a stream of frames: the reports are
    the first messages, and the input buffer holds less than a frame. *)
Definition in_step (ms : list M) (v : View) : Prop :=
  wf (input v) ∧ (∃ rs, pure_round (content (input v)) = (content (input v), rs, false)) ∧
  ∀ k, concat (arrived v) ++ k = stream ms → ∃ ms1 ms2,
    ms = ms1 ++ ms2 ∧ flat_map reports_of (shown v) = Received <$> ms1 ∧ content (input v) ++ k = stream ms2.

Lemma in_step_same ms v v' : same_input v v' → in_step ms v → in_step ms v'.
Proof. intros (Ei & Ea & Es). unfold in_step. by rewrite Ei, Ea, Es. Qed.

Lemma in_step_read ms got b w w' :
  ProtobufCodecLite.accepts_all c → Forall (ProtobufCodecLite.fits c) ms →
  in_step ms (view w) → wf b → content b = inp w ++ got →
  call_user codec_user (MessageArrived (content b)) (after_read got b w) = Ok w' → in_step ms (view w').
Proof.
  intros Hacc Hfit (Hbw & _ & Hin) Hb Hc E. unfold call_user in E. cbn [codec_user] in E. cbv zeta in E.
  change (inputBuffer_ (conn (after_read got b w))) with b in E.
  assert (ProtobufCodecLite.enough b = S (length (content b))) as Ef.
  { unfold ProtobufCodecLite.enough. rewrite <- Buffer.zlen_content by done. unfold zlen. by rewrite Nat2Z.id. }
  rewrite Ef in E.
  destruct (ProtobufCodecLite.onMessage_spec adler32 c Hmin Htag b Hb) as (l & rs & _ & Er & _ & _ & _).
  apply calls_run with (l := l) (rs := rs) in E as (Hb' & Hl & Ha & Hs); [|done..].
  unfold in_step. change (input (view w')) with (inputBuffer_ (conn w')). fold (inp w'). rewrite Hl.
  split_and!; [done|by eapply ProtobufCodecLite.receive_stops|].
  cbn [arrived shown view]. rewrite Ha, Hs. cbn [received log after_read receive set_log]. intros k Hk.
  rewrite concat_app in Hk. cbn [concat] in Hk. rewrite app_nil_r, <- app_assoc in Hk.
  destruct (Hin _ Hk) as (ms1 & ms2 & -> & Hrep & Hst). rewrite app_assoc in Hst.
  change (content (input (view w))) with (inp w) in Hst. rewrite <- Hc in Hst. apply Forall_app in Hfit as [_ Hfit].
  destruct (ProtobufCodecLite.receive_stream adler32 c Hmin ms2 (content b) k _ Hacc Hfit Hst
    (Nat.lt_succ_diag_r _)) as (ms3 & ms4 & l' & -> & Er' & Hl').
  rewrite Er in Er'. injection Er' as -> ->. exists (ms1 ++ ms3), ms4. rewrite <- app_assoc. split_and!; [done| |done].
  rewrite omap_app, flat_map_app. cbn [omap list_omap shown_by flat_map]. rewrite app_nil_r, fmap_app.
  f_equal; [exact Hrep|]. by eapply reports_of_receive; [apply content_message|exact Er].
Qed.

Lemma in_step_initial ms c2 k2 : inv (initial c2 k2) → in_step ms (view (initial c2 k2)).
Proof.
  intros Hi. pose proof (inv_in _ Hi) as Hin. change (inp (initial c2 k2) = []) in Hin. unfold in_step.
  change (content (input (view (initial c2 k2)))) with (inp (initial c2 k2)). rewrite Hin.
  split_and!; [apply (inv_wf _ Hi)| |].
  - exists []. unfold ProtobufCodecLite.pure_round. rewrite (proj2 (Z.leb_gt _ _)); [done|].
    pose proof (zlen_nonneg (tag_ c)). unfold kHeaderLen, kChecksumLen in *. change (zlen []) with 0. lia.
  - intros k' Hk'. by exists [], ms.
Qed.

(** A run of the receiving connection stays in step. *)
Lemma receiver_in_step ms es w0 w :
  ProtobufCodecLite.accepts_all c → Forall (ProtobufCodecLite.fits c) ms →
  settled w0 → legal_run codec_user es w0 → Forall (good_event plain) es → in_step ms (view w0) →
  do_events codec_user es w0 = Ok w → in_step ms (view w).
Proof.
  intros Hacc Hfit Hst Hl Hes H0 E.
  refine (do_events_J codec_user codec_user_ok (in_step ms) plain _ _ _ _ _ es w0 w Hst Hl Hes E H0).
  - intros x w1 Hx. destruct x; try done; apply Happ.
  - intros b a w1 w2 Ha E1. by eapply in_step_same, plain_act.
  - intros m p v Hv _. done.
  - intros got b w1 w2 _ Hv Hb Hc _ E1. by eapply in_step_read.
  - intros b w1 (_ & Hs & Hin) Hb Hc. unfold in_step. cbn [input view after_read receive set_conn conn with_input
      inputBuffer_ arrived received shown log] in *. rewrite Hc. split_and!; [done|exact Hs|].
    intros k. rewrite concat_app. cbn. rewrite app_nil_r. apply Hin.
Qed.

(** ** Both ends *)

(** What the sender's application may send: messages, each as the codec puts
    it into a fresh buffer. *)
Definition encoded (d : bytes) : Prop :=
  ∃ m, ProtobufCodecLite.fits c m ∧ ProtobufCodecLite.encodes adler32 c m d.

Lemma encoded_all ds : Forall encoded ds →
  ∃ ms, Forall (ProtobufCodecLite.fits c) ms ∧ Forall2 (ProtobufCodecLite.encodes adler32 c) ms ds.
Proof.
  induction 1 as [|d ds (m & Hf & He) _ (ms & Hms & H2)]; [by exists []|]. exists (m :: ms). by split; constructor.
Qed.

(** C7: The codec over two connections. Whatever else the two applications do (the
    receiver leaves its input buffer to the codec and does not switch reading on or
    off) and however the kernels cut the streams: if one application sends only
    encoded messages and TCP delivers a beginning of what the kernel took, then
    the other application is given, without error, a beginning of the messages
    sent, in order and each once; and all of them as soon as everything taken
    over has been written and has arrived. *)
Theorem messages_delivered fd1 wc1 hw1 c1 k1 user1 es1 w1 fd2 wc2 hw2 c2 k2 es2 w2 :
  ProtobufCodecLite.accepts_all c →
  configure wc1 hw1 <$> make fd1 = Ok c1 → user_ok user1 → legal_run user1 es1 (initial c1 k1) →
  (∀ x w, Forall (sends encoded) (user1 x w)) → Forall (good_event (sends encoded)) es1 →
  do_events user1 es1 (initial c1 k1) = Ok w1 →
  configure wc2 hw2 <$> make fd2 = Ok c2 → legal_run codec_user es2 (initial c2 k2) →
  Forall (good_event plain) es2 → do_events codec_user es2 (initial c2 k2) = Ok w2 →
  concat (received w2) `prefix_of` wire w1 →
  ∃ ms, Forall2 (ProtobufCodecLite.encodes adler32 c) ms (accepted w1) ∧
    (∃ ms1, ms1 `prefix_of` ms ∧ delivered w2 = Received <$> ms1) ∧
    (content (outputBuffer_ (conn w1)) = [] → concat (received w2) = wire w1 →
     delivered w2 = Received <$> ms ∧ content (inputBuffer_ (conn w2)) = []).
Proof.
  intros Hacc Hm1 Hu1 Hl1 Hs1 Hg1 E1 Hm2 Hl2 Hg2 E2 [k Hk].
  destruct (run_settled fd1 wc1 hw1 c1 k1 user1 es1 Hm1 Hu1 Hl1 w1 E1) as [Hi1 _].
  pose proof (inv_out w1 Hi1) as Hout.
  assert (all_sent encoded (view (initial c1 k1))) as H01 by (by split).
  pose proof (sender_accepted encoded user1 es1 _ _ Hu1 Hs1 Hg1 (make_settled _ _ _ _ k1 Hm1) Hl1 H01 E1) as Hacc1.
  destruct (encoded_all _ Hacc1) as (ms & Hfit & Henc). exists ms. split; [done|].
  rewrite (ProtobufCodecLite.encodes_stream adler32 c Htag ms _ Hfit Henc) in Hout.
  pose proof (make_settled _ _ _ _ k2 Hm2) as Hst2. pose proof (in_step_initial ms c2 k2 (proj1 Hst2)) as H02.
  destruct (receiver_in_step ms es2 _ _ Hacc Hfit Hst2 Hl2 Hg2 H02 E2) as (Hb2 & [rs Hstop] & Hin).
  change (flat_map reports_of (shown (view w2))) with (delivered w2) in Hin.
  change (content (input (view w2))) with (inp w2) in *. change (arrived (view w2)) with (received w2) in Hin.
  split.
  - destruct (Hin (k ++ out w1)) as (ms1 & ms2 & -> & -> & _); [by rewrite app_assoc, <- Hk|].
    exists ms1. split; [by exists ms2|done].
  - intros Ho Hr. fold (out w1) in Ho. fold (inp w2).
    destruct (Hin []) as (ms1 & [|m ms2] & -> & -> & Hl); [by rewrite app_nil_r, Hr, <- Hout, Ho, app_nil_r| |].
    + rewrite !app_nil_r in *. done.
    + exfalso. rewrite app_nil_r in Hl. rewrite Hl in Hstop. apply Forall_app in Hfit as [_ [Hm _]%Forall_cons].
      change (stream (m :: ms2)) with (ProtobufCodecLite.frame adler32 c m ++ stream ms2) in Hstop.
      by rewrite (ProtobufCodecLite.round_frame adler32 c Hmin) in Hstop.
Qed.
End receiver.

(** ** An instance: two messages, written and read in pieces *)

#[local] Existing Instances ProtobufCodecLite.bytes_message ProtobufCodecLite.bytes_laws ProtobufCodecLite.example_host.
Definition example_m1 : bytes := Channel.str "first".
Definition example_m2 : bytes := Channel.str "second message".
Definition example_sender (x : call) (w : World) : list action :=
  match x with ConnectionUp => [SendBuffer (ProtobufCodecLite.example_fill example_m1)] | _ => [] end.
Definition example_writes : list write_outcome :=
  [WriteRoom 3; WriteRoom 7; WriteError EWOULDBLOCK; WriteRoom 100; WriteRoom 100].
Definition example_sends : list event :=
  let ready := Readiness Channel.POLLOUT (Buffer.ReadvError EWOULDBLOCK) in
  [Establish; ready; Foreign (SendBuffer (ProtobufCodecLite.example_fill example_m2)); ready; ready;
   RunFunctor; RunFunctor].
Definition example_run (user : call → World → list action) (es : list event) (k : list write_outcome) : World :=
  match do_events user es (initial example_conn k) with Ok w => w | Fail _ => initial example_conn [] end.
Definition example_sent : World := example_run example_sender example_sends example_writes.

(** The receiver answers each message with a greeting. *)
Definition example_react (r : report (M := bytes)) : list action :=
  match r with Received _ => [Send greeting] | Skipped _ => [] | Refused _ => [Shutdown] end.
Definition example_receiver : call → World → list action :=
  codec_user ProtobufCodecLite.example_adler32 ProtobufCodecLite.example_codec example_react (λ _ _, []).
Definition example_reads : list event :=
  let piece i n := Readiness Channel.POLLIN (Buffer.ReadvData (ztake n (zdrop i (wire example_sent)))) in
  [Establish; piece 0 10; piece 10 20; piece 30 100].
Definition example_got : World := example_run example_receiver example_reads example_kernel.

Lemma example_encoded m :
  m = example_m1 ∨ m = example_m2 →
  sends (encoded ProtobufCodecLite.example_adler32 ProtobufCodecLite.example_codec)
    (SendBuffer (ProtobufCodecLite.example_fill m)).
Proof.
  intros Hm. split; [destruct Hm as [-> | ->]; vm_compute; intuition discriminate|].
  exists m. split; [destruct Hm as [-> | ->]; vm_compute; discriminate|].
  exists ProtobufCodecLite.example_buffer, (ProtobufCodecLite.example_fill m).
  destruct Hm as [-> | ->]; (split; [vm_compute; reflexivity|]); split; vm_compute; reflexivity.
Qed.

Lemma example_sender_ok : user_ok example_sender.
Proof.
  intros [] w _; cbn [example_sender acts_ok]; try exact I. split; [|intros; exact I].
  apply (example_encoded example_m1). by left.
Qed.

Lemma messages_delivered_witness :
  ∃ ms, Forall2 (ProtobufCodecLite.encodes ProtobufCodecLite.example_adler32 ProtobufCodecLite.example_codec)
      ms (accepted example_sent) ∧
    delivered ProtobufCodecLite.example_adler32 ProtobufCodecLite.example_codec example_got = Received <$> ms ∧
    length ms = 2%nat ∧ content (inputBuffer_ (conn example_got)) = [].
Proof.
  destruct (messages_delivered ProtobufCodecLite.example_adler32 ProtobufCodecLite.example_codec eq_refl
    ltac:(vm_compute; discriminate) example_react (λ _ _, [])
    ltac:(intros []; cbn; repeat constructor; vm_compute; discriminate) ltac:(constructor)
    5 true (Some 8) example_conn example_writes example_sender example_sends example_sent
    5 true (Some 8) example_conn example_kernel example_reads example_got)
    as (ms & Henc & _ & Hall).
  - exact I.
  - reflexivity.
  - exact example_sender_ok.
  - apply check_legal_run. vm_compute. reflexivity.
  - intros [] w; cbn [example_sender]; try apply Forall_nil_2. apply Forall_cons_2; [|apply Forall_nil_2].
    apply example_encoded. left. reflexivity.
  - repeat (apply Forall_cons_2; [first [exact I|apply example_encoded; right; reflexivity]|]). apply Forall_nil_2.
  - vm_compute. reflexivity.
  - reflexivity.
  - apply check_legal_run. vm_compute. reflexivity.
  - repeat (apply Forall_cons_2; [exact I|]). apply Forall_nil_2.
  - vm_compute. reflexivity.
  - exists []. vm_compute. reflexivity.
  - destruct Hall as [Hd Hi]; [vm_compute; reflexivity|vm_compute; reflexivity|].
    exists ms. split; [exact Henc|]. split; [exact Hd|]. split; [|exact Hi].
    apply Forall2_length in Henc. rewrite Henc. vm_compute. reflexivity.
Defined.
End EndToEnd.
