(* ===== verification/HttpOverTcp.v ===== *)
(** * An HTTP server on a connection ([net/http/HttpServer.cc], [net/TcpConnection.cc])

    The callbacks of [HttpServer] as the user code of a connection, and what a
    client sees of it through the socket. *)

From stdpp Require Import sets.
From S2P Require Import Prelude Endian NetBuffer Channel TcpConnection Http Codec EndToEnd.

Module HttpOverTcp.
Import Buffer(Buffer, content, wf).
Import TcpConnection Flow HttpFacts HttpContext.
Import EndToEnd(plain, plain_acts, plain_acts_ok, same_input, holding, holding_wf).

Section http.
Context (cb : HttpRequest.HttpRequest → HttpResponse.HttpResponse → HttpResponse.HttpResponse).
(** The time stamp of the n-th message of the connection. *)
Context (time : nat → Z).

Definition response (req : HttpRequest.HttpRequest) : HttpResponse.HttpResponse :=
  cb req (HttpResponse.make (HttpServer.wants_close req)).
Hypothesis Hcb : ∀ req, response_ok (response req).

(** The context of the connection and the calls made on it so far, from what
    the message callback was shown. [onConnection] starts with a new context. *)
Definition serve_shown (s : nat * HttpContext * list action) (d : bytes) : nat * HttpContext * list action :=
  let '(n, c, a) := s in
  match HttpServer.onMessage cb c (holding d) (time n) with
  | Some (Ok (c', _, a')) => (S n, c', a ++ a')
  | _ => (S n, c, a)
  end.
Definition tracked (l : list bytes) : nat * HttpContext * list action :=
  fold_left serve_shown l (0%nat, HttpServer.onConnection true HttpContext.make, []).

(** The callbacks: [onMessage] takes what it parses out of the input buffer, then
    sends. *)
Definition http_user (x : call) (w : World) : list action :=
  match x with
  | MessageArrived _ =>
      let '(n, c, _) := tracked (omap shown_by (log w)) in
      let b := inputBuffer_ (conn w) in
      match HttpServer.onMessage cb c b (time n) with
      | Some (Ok (_, b', a)) => Retrieve (Buffer.readableBytes b - Buffer.readableBytes b') :: a
      | _ => []
      end
  | _ => []
  end.
Definition issued (w : World) : list action := (tracked (omap shown_by (log w))).2.

(** ** What a call of [onMessage] does *)

Lemma loop_suffix t fuel : ∀ c l ok c' l' ok',
  pure_loop fuel t c l ok = Some (Ok (c', l', ok')) → ∃ p, l = p ++ l'.
Proof.
  induction fuel as [|fuel IH]; intros c l ok c' l' ok'; [done|]. cbn.
  destruct (pure_round t c l ok) as [[[[c1 l1] ok1] more]|f] eqn:E; [|done].
  assert (∃ p, l = p ++ l1) as [p ->].
  { revert E. unfold pure_round. destruct (line_of l) as [[line rest]|] eqn:El.
    - destruct (line_of_length _ _ _ El) as [Hl _]. rewrite app_assoc in Hl.
      destruct (state_ c); [destruct (processRequestLine _ _) as [[q []]|]|..]; cbn; cbv zeta; try done;
        repeat case_match; intros [= <- <- <- <-]; first [by exists []|by eexists].
    - destruct (state_ c); intros [= <- <- <- <-]; by exists []. }
  destruct more; [|intros [= <- <- <-]; eauto].
  intros [p' ->]%IH. exists (p ++ p'). by rewrite app_assoc.
Qed.

Lemma onRequest_shape req a :
  HttpServer.onRequest cb req = Ok a →
  ∃ buf, a = SendBuffer buf :: (if HttpResponse.closeConnection_ (response req) then [Shutdown] else []) ∧
    wf buf ∧ content buf = response_text (response req).
Proof.
  unfold HttpServer.onRequest. destruct (Buffer.make_ok Buffer.kInitialSize) as (b & -> & Hb & Hc & _); [done|done|].
  rewrite bind_Ok. fold (response req). pose proof (appendToBuffer_safe (response req) b Hb (Hcb req)) as Hs.
  destruct (HttpResponse.appendToBuffer _ _) as [b'|]; [|done]. destruct Hs as [Hb' Hc']. rewrite bind_Ok.
  intros [= <-]. exists b'. rewrite Hc in Hc'. done.
Qed.

Lemma onRequest_plain req a : HttpServer.onRequest cb req = Ok a → Forall plain a.
Proof.
  intros (buf & -> & Hb & _)%onRequest_shape. apply Forall_cons_2; [by split|]. case_match; by repeat constructor.
Qed.

(** On two buffers with the same content it does the same. *)
Lemma onMessage_same c t b1 b2 :
  wf b1 → wf b2 → content b1 = content b2 →
  match HttpServer.onMessage cb c b1 t with
  | Some (Ok (c', b1', a)) =>
      (∃ b2', HttpServer.onMessage cb c b2 t = Some (Ok (c', b2', a)) ∧ content b2' = content b1') ∧
      wf b1' ∧ (∃ p, content b1 = p ++ content b1') ∧ Forall plain a
  | r => HttpServer.onMessage cb c b2 t = r
  end.
Proof.
  intros H1 H2 E. unfold HttpServer.onMessage, parseRequest. rewrite !enough_length, E by done.
  pose proof (loop_refines t (S (length (content b2))) c b1 true H1) as R1.
  pose proof (loop_refines t (S (length (content b2))) c b2 true H2) as R2. rewrite E in R1.
  destruct (pure_loop _ t c (content b2) true) as [[[[c' l'] ok']|f]|] eqn:El; [|by rewrite R1, R2..].
  destruct R1 as (b1' & -> & Hb1 & Hc1), R2 as (b2' & -> & Hb2 & Hc2). rewrite !bind_Ok. cbv zeta.
  apply loop_suffix in El as [p Hp].
  assert (content b2' = content b1') by congruence.
  assert (Forall plain (if ok' then [] else [Send HttpServer.bad_request; Shutdown])) as Href.
  { destruct ok'; repeat constructor; vm_compute; discriminate. }
  destruct (gotAll c').
  - destruct (HttpServer.onRequest cb (request_ c')) as [answer|] eqn:Ea; [|done]. rewrite !bind_Ok.
    apply onRequest_plain in Ea. split_and!; [by exists b2'|done|exists p; congruence|by apply Forall_app_2].
  - split_and!; [by exists b2'|done|exists p; congruence|done].
Qed.

(** [retrieve] of what was parsed. *)
Lemma retrieve_parsed b b' p :
  wf b → wf b' → content b = p ++ content b' →
  let n := Buffer.readableBytes b - Buffer.readableBytes b' in
  0 ≤ n ≤ Buffer.readableBytes b ∧ ∃ b2, Buffer.retrieve b n = Ok b2 ∧ wf b2 ∧ content b2 = content b'.
Proof.
  intros Hb Hb' Hp n. pose proof (Buffer.zlen_content b Hb) as Z0. pose proof (Buffer.zlen_content b' Hb') as Z1.
  rewrite Hp, zlen_app in Z0. pose proof (zlen_nonneg p). pose proof (zlen_nonneg (content b')).
  assert (0 ≤ n ≤ Buffer.readableBytes b) as Hn by (unfold n; lia). split; [done|].
  destruct (Buffer.retrieve_ok b n Hb Hn) as (b2 & -> & Hb2 & Hc2). exists b2. split_and!; [done|done|].
  rewrite Hc2, Hp. apply zdrop_app_exact. unfold n. lia.
Qed.

(** The server keeps to the contract of the callbacks. *)
Lemma http_user_ok : user_ok http_user.
Proof.
  intros x w Hw. destruct x; cbn [http_user]; try done. destruct (tracked _) as [[n c] a0]. cbv zeta.
  pose proof (onMessage_same c (time n) _ _ Hw Hw eq_refl) as Hs.
  destruct (HttpServer.onMessage cb c _ (time n)) as [[[[c' b'] a]|f]|]; try done.
  destruct Hs as (_ & Hb' & [p Hp] & Ha). destruct (retrieve_parsed _ _ _ Hw Hb' Hp) as (Hn & _).
  split; [exact Hn|]. intros w' _. by apply plain_acts_ok.
Qed.

Lemma tracked_snoc l d : tracked (l ++ [d]) = serve_shown (tracked l) d.
Proof. unfold tracked. by rewrite fold_left_app. Qed.

(** A message callback, seen through the data of the connection. *)
Lemma message_served got b w w' :
  wf b → call_user http_user (MessageArrived (content b)) (after_read got b w) = Ok w' →
  let '(n, c, a0) := tracked (shown (view w)) in
  arrived (view w') = arrived (view w) ++ [got] ∧ shown (view w') = shown (view w) ++ [content b] ∧
  match HttpServer.onMessage cb c b (time n) with
  | Some (Ok (c', b', a)) =>
      tracked (shown (view w')) = (S n, c', a0 ++ a) ∧ wf (input (view w')) ∧
      content (input (view w')) = content b' ∧
      ∃ w2, taken (view w2) = taken (view w) ∧ pending (view w2) = pending (view w) ∧ acts a w2 = Ok w'
  | _ => tracked (shown (view w')) = (S n, c, a0) ∧ wf (input (view w'))
  end.
Proof.
  intros Hb E. unfold call_user in E. cbn [http_user] in E.
  change (omap shown_by (log (after_read got b w))) with (shown (view w)) in E.
  change (inputBuffer_ (conn (after_read got b w))) with b in E. cbv zeta in E.
  destruct (tracked (shown (view w))) as [[n c] a0] eqn:Et.
  set (w1 := set_log _ (after_read got b w)) in E.
  assert (shown (view w1) = shown (view w) ++ [content b]) as Hsh by (cbn; by rewrite omap_app).
  destruct (holding_wf (content b) (content_message b Hb)) as [Hh Hch].
  pose proof (onMessage_same c (time n) b (holding (content b)) Hb Hh (eq_sym Hch)) as Hs.
  pose proof (tracked_snoc (shown (view w)) (content b)) as Ht. rewrite Et in Ht. cbn [serve_shown] in Ht.
  destruct (HttpServer.onMessage cb c b (time n)) as [[[[c' b'] a]|f]|].
  - destruct Hs as ((b2' & Eh & _) & Hb' & [p Hp] & Ha). rewrite Eh in Ht. cbn [acts act] in E.
    change (inputBuffer_ (conn w1)) with b in E.
    destruct (retrieve_parsed _ _ _ Hb Hb' Hp) as (_ & b2 & Er & Hb2 & Hc2). rewrite Er, !bind_Ok in E.
    destruct (plain_acts _ _ _ Ha E) as (Hi & Har & Hs2). rewrite Hi, Har, Hs2.
    change (shown (view (consume _ _))) with (shown (view w1)). rewrite Hsh.
    split_and!; [done|done|exact Ht|exact Hb2|exact Hc2|]. eexists. split_and!; [| |exact E]; done.
  - injection E as <-. rewrite Hsh. rewrite Hs in Ht. by split_and!.
  - injection E as <-. rewrite Hsh. rewrite Hs in Ht. by split_and!.
Qed.

(** What sending an answer adds to the data taken over. *)
Definition sent (v : View) : list bytes := taken v ++ pending v.
Lemma answer_sent req a w w' :
  HttpServer.onRequest cb req = Ok a → acts a w = Ok w' → sent (view w) = [] →
  sent (view w') = [] ∨ sent (view w') = [response_text (response req)].
Proof.
  intros (buf & -> & Hb & Hc)%onRequest_shape E H0. cbn [acts] in E. apply bind_Ok_inv in E as (w1 & E1 & E).
  apply app_eq_nil in H0 as [Ht Hp].
  assert (view w' = view w1) as ->.
  { case_match; cbn [acts] in E; [|by injection E as <-]. apply bind_Ok_inv in E as (w2 & E2 & [= <-]).
    apply view_act in E2 as [? |(m & ? & _)]; done. }
  apply view_act in E1 as [-> |(m & [= <-] & [-> | ->])]; [left|right|right|done|by intros ? [= <-]];
    unfold sent; cbn [taken pending take_over postpone]; by rewrite Ht, Hp, ?Hc.
Qed.

(** ** A request *)

Section request.
Context (r : HttpRequest.HttpRequest) (hs : list (bytes * bytes)) (times : list Z).
Context (answer : Z → list action).
Hypothesis Hline : line_ok r.
Hypothesis Hheaders : Forall header_ok hs.
Hypothesis Htimes : ∀ n, time n ∈ times.
Hypothesis Hanswer : ∀ t, HttpServer.onRequest cb (parsed t r hs) = Ok (answer t).

Definition text : bytes := request_text r hs.
(** Code around the server that leaves data alone. *)
Definition quiet (a : action) : Prop := message_of a = None ∧ retrieves a = false.

(** While the request is arriving nothing was sent and the context waits for the
    rest of it; afterwards the answer was given. *)
Definition arriving (v : View) (c : HttpContext) (a : list action) (k : bytes) : Prop :=
  a = [] ∧ sent v = [] ∧ waiting c (content (input v)) ∧ promises r hs times c (content (input v) ++ k).
Definition answered (v : View) (a : list action) (k : bytes) : Prop :=
  k = [] ∧ content (input v) = [] ∧ ∃ t, t ∈ times ∧ a = answer t ∧
    (sent v = [] ∨ sent v = [response_text (response (parsed t r hs))]).
Definition serving (v : View) : Prop :=
  wf (input v) ∧ let '(n, c, a) := tracked (shown v) in
  ∀ k, concat (arrived v) ++ k = text → arriving v c a k ∨ answered v a k.

Lemma serving_same v v' :
  input v' = input v → arrived v' = arrived v → shown v' = shown v →
  (sent v' = sent v ∨ sent v' = []) → serving v → serving v'.
Proof.
  intros Ei Ea Es Ht [Hw Hv]. unfold serving, arriving, answered in *. rewrite Ei, Ea, Es. split; [done|].
  destruct (tracked (shown v)) as [[n c] a]. intros k Hk. destruct (Hv k Hk) as [(? & H0 & ? & ?)|(? & ? & t & ? & ? & H0)].
  - left. split_and!; try done. destruct Ht as [-> | ->]; done.
  - right. split_and!; try done. exists t. split_and!; try done. destruct Ht as [-> | ->]; auto.
Qed.

Lemma serving_pop m p v :
  serving v → pending v = m :: p →
  let v' := mkView (taken v) p (input v) (arrived v) (shown v) in serving v' ∧ serving (take_over m v').
Proof.
  intros Hv Hp v'. pose proof Hv as [_ Hk].
  assert (sent (take_over m v') = sent v) as E1.
  { unfold sent. cbn. by rewrite Hp, <- app_assoc. }
  split; [|by apply (serving_same v); auto]. unfold serving, arriving, answered in *. split; [apply Hv|].
  unfold v'. cbn [shown arrived input]. destruct (tracked (shown v)) as [[n c] a]. intros k Hk'.
  assert (sent v ≠ []) as Hne by (unfold sent; rewrite Hp; by destruct (taken v)).
  destruct (Hk k Hk') as [(_ & H0 & _)|(? & ? & t & ? & ? & [H0|H0])]; [done|done|].
  right. split_and!; try done. exists t. split_and!; try done. left.
  unfold sent in *. rewrite Hp in H0. cbn. destruct (taken v) as [|x [|]]; by simplify_eq/=.
Qed.

Lemma serving_read got b w w' :
  serving (view w) → wf b → content b = inp w ++ got → 0 < zlen got →
  call_user http_user (MessageArrived (content b)) (after_read got b w) = Ok w' → serving (view w').
Proof.
  intros [Hw Hv] Hb Hc Hgot E. pose proof (message_served got b w w' Hb E) as Hm. unfold serving.
  destruct (tracked (shown (view w))) as [[n c] a0]. destruct Hm as (Ha & _ & Hm). rewrite Ha.
  assert (∀ k, concat (arrived (view w) ++ [got]) ++ k = text →
    a0 = [] ∧ sent (view w) = [] ∧ waiting c (inp w) ∧ promises r hs times c (content b ++ k)) as Hk.
  { intros k. rewrite concat_app. cbn [concat]. rewrite app_nil_r, <- app_assoc. intros Hk.
    destruct (Hv _ Hk) as [(? & ? & ? & ?)|([-> _]%app_eq_nil & _)]; [|done].
    rewrite Hc, <- app_assoc. done. }
  destruct (HttpServer.onMessage cb c b (time n)) as [[[[c' b'] a]|f]|] eqn:Eo.
  - destruct Hm as (-> & Hw' & Hc' & w2 & Ht & Hp & Eact). split; [done|]. unfold arriving, answered. rewrite Hc'.
    intros k Hk'. destruct (Hk k Hk') as (-> & Hs & [Hexp Hl] & Hprom).
    assert (sent (view w2) = []) as Hs2 by (unfold sent in *; by rewrite Ht, Hp).
    destruct (onMessage_step cb r hs answer Hanswer times c b (time n) k Hb Hexp (Htimes n) Hprom)
      as [(tt & b2 & Htt & -> & E2 & _ & Hc2)|(c2 & b2 & E2 & _ & Hw2 & Hp2)];
      rewrite Eo in E2; injection E2 as -> -> ->.
    + right. split_and!; [done|done|]. exists tt. split_and!; [done|done|]. by eapply answer_sent.
    + left. injection Eact as <-. done.
  - destruct Hm as (-> & Hw'). split; [done|]. intros k Hk'. destruct (Hk k Hk') as (-> & Hs & [Hexp Hl] & Hprom).
    by destruct (onMessage_step cb r hs answer Hanswer times c b (time n) k Hb Hexp (Htimes n) Hprom)
      as [(tt & b2 & _ & _ & E2 & _)|(c2 & b2 & E2 & _)]; rewrite Eo in E2.
  - destruct Hm as (-> & Hw'). split; [done|]. intros k Hk'. destruct (Hk k Hk') as (-> & Hs & [Hexp Hl] & Hprom).
    by destruct (onMessage_step cb r hs answer Hanswer times c b (time n) k Hb Hexp (Htimes n) Hprom)
      as [(tt & b2 & _ & _ & E2 & _)|(c2 & b2 & E2 & _)]; rewrite Eo in E2.
Qed.

Lemma serving_initial c k : inv (initial c k) → serving (view (initial c k)).
Proof.
  intros Hi. pose proof (inv_in _ Hi) as Hin. change (inp (initial c k) = []) in Hin.
  split; [apply (inv_wf _ Hi)|]. change (tracked (shown (view (initial c k)))) with (0%nat, HttpContext.make, @nil action).
  intros k' Hk. left. unfold arriving. change (content (input (view (initial c k)))) with (inp (initial c k)).
  rewrite Hin. split_and!; [done|done|by split; [left|]|]. right. intros t. cbn in Hk. rewrite app_nil_l, Hk.
  pose proof (request_parses t r hs [] Hline Hheaders) as Hp. by rewrite app_nil_r in Hp.
Qed.

(** C13: An HTTP server on a connection. However the text of a well-formed request
    arrives, and whatever the kernel does with the writes: nothing is sent
    before the request is complete; then the server makes exactly the calls that
    answer it, the input buffer is empty, and what the client gets is the text of the
    response or a beginning of it. *)
Theorem request_answered fd wc hw c k es w :
  configure wc hw <$> TcpConnection.make fd = Ok c → legal_run http_user es (initial c k) →
  Forall (good_event quiet) es → do_events http_user es (initial c k) = Ok w →
  (concat (received w) `prefix_of` text → concat (received w) ≠ text →
   issued w = [] ∧ accepted w = [] ∧ wire w = []) ∧
  (concat (received w) = text → content (inputBuffer_ (conn w)) = [] ∧
   ∃ t, t ∈ times ∧ issued w = answer t ∧
     (accepted w = [] ∨ accepted w = [response_text (response (parsed t r hs))]) ∧
     wire w `prefix_of` response_text (response (parsed t r hs))).
Proof.
  intros Hm Hl Hg E. pose proof (make_settled _ _ _ _ k Hm) as Hst.
  destruct (run_settled fd wc hw c k http_user es Hm http_user_ok Hl w E) as [Hi _]. pose proof (inv_out w Hi) as Hout.
  assert (serving (view w)) as [_ Hv].
  { refine (do_events_J http_user http_user_ok serving quiet _ _ _ _ _ es _ w Hst Hl Hg E (serving_initial c k (proj1 Hst))).
    - intros x w1 Hx. destruct x; try done; apply Forall_nil_2.
    - intros b a w1 w2 [Hm1 Hr1] E1 HJ. apply view_act in E1 as [-> |(m & Hm2 & _)]; [done|congruence|done|].
      intros buf ->. done.
    - intros m p v HJ Hp. by apply serving_pop.
    - intros got b w1 w2 _ HJ Hb Hc Hgot E1. by eapply serving_read.
    - intros b w1 [_ HJ] Hb Hc. unfold serving, arriving, answered in *.
      change (shown (view (after_read [] b w1))) with (shown (view w1)).
      change (content (input (view (after_read [] b w1)))) with (content b). rewrite Hc.
      change (sent (view (after_read [] b w1))) with (sent (view w1)). split; [done|].
      destruct (tracked (shown (view w1))) as [[n x] a]. intros k'. cbn [arrived view received after_read receive].
      rewrite concat_app. cbn [concat]. rewrite !app_nil_r. apply HJ. }
  unfold issued. change (omap shown_by (log w)) with (shown (view w)).
  destruct (tracked (shown (view w))) as [[n x] a]. cbn [snd]. change (arrived (view w)) with (received w) in Hv. split.
  - intros [k' Hk'] Hne. destruct (Hv k') as [(-> & Hs & _)|(-> & _)]; [done| |by rewrite app_nil_r in Hk'].
    apply app_eq_nil in Hs as [Hs _]. change (accepted w = []) in Hs. rewrite Hs in *.
    apply app_eq_nil in Hout as [Hwire _]. done.
  - intros Hk'. destruct (Hv []) as [(_ & _ & Hw & Hp)|(_ & Hc & t & Ht & -> & Hs)]; [by rewrite app_nil_r| |].
    { rewrite app_nil_r in Hp. by destruct (promises_more r hs times x _ Hw Hp). }
    split; [done|]. exists t. assert (accepted w = [] ∨ accepted w = [response_text (response (parsed t r hs))]) as Hacc.
    { unfold sent in Hs. change (taken (view w)) with (accepted w) in Hs.
      destruct Hs as [[? _]%app_eq_nil|Hs]; [by left|]. destruct (accepted w) as [|m [|]]; [by left|right|done].
      by injection Hs as ->. }
    split_and!; [done|done|done|]. destruct Hacc as [Ha|Ha]; rewrite Ha in Hout.
    + apply app_eq_nil in Hout as [-> _]. apply prefix_nil.
    + exists (out w). cbn in Hout. by rewrite app_nil_r in Hout.
Qed.
End request.
End http.

(** ** An instance: a request in two pieces, the answer written in two *)

Definition example_user : call → World → list action := http_user HttpServer.defaultHttpCallback (λ _, 7).
Definition example_text : bytes := text example_request example_headers.
Definition example_reads : list event :=
  [Establish; Readiness Channel.POLLIN (Buffer.ReadvData (ztake 20 example_text));
   Readiness Channel.POLLIN (Buffer.ReadvData (zdrop 20 example_text))].
Definition example_served (es : list event) : World :=
  match do_events example_user es (initial example_conn [WriteRoom 10; WriteRoom 100]) with
  | Ok w => w | Fail _ => initial example_conn [] end.

Lemma default_response_ok req : response_ok (response HttpServer.defaultHttpCallback req).
Proof.
  split; [split; [discriminate|reflexivity]|]. split; [reflexivity|]. split; [discriminate|]. split.
  - apply (bool_decide_unpack _). vm_compute. exact I.
  - apply Forall_nil_2.
Qed.

Lemma request_answered_witness :
  let w := example_served example_reads in
  wire w = Channel.str "HTTP/1.1 4" ∧
  wire w `prefix_of` response_text (response HttpServer.defaultHttpCallback (parsed 7 example_request example_headers)) ∧
  issued HttpServer.defaultHttpCallback (λ _, 7) w = example_answer.
Proof.
  intros w.
  destruct (request_answered HttpServer.defaultHttpCallback (λ _, 7) default_response_ok example_request example_headers [7]
    (λ _, example_answer) example_request_ok example_headers_ok ltac:(intros; apply list_elem_of_here)
    ltac:(intros t; vm_compute; reflexivity) 5 true (Some 8) example_conn [WriteRoom 10; WriteRoom 100] example_reads w)
    as [_ H].
  - reflexivity.
  - apply check_legal_run. vm_compute. reflexivity.
  - repeat (apply Forall_cons_2; [exact I|]). apply Forall_nil_2.
  - vm_compute. reflexivity.
  - destruct H as (_ & t & Ht & Hi & _ & Hw); [vm_compute; reflexivity|].
    apply list_elem_of_singleton in Ht as ->. split; [vm_compute; reflexivity|]. split; [exact Hw|exact Hi].
Defined.
End HttpOverTcp.
