(* ===== verification/Gzip.v ===== *)
(** * Compressed files ([base/GzipFile.h])

    [GzipFile] owns a [gzFile] of zlib; it can be moved but not copied. The living
    objects are a map from names to their [file_], and what reaches zlib is
    the list of calls; what zlib answers is an input. *)

From stdpp Require Import sets gmap.
From S2P Require Import Prelude Channel.

Module GzipFile.

(** A [gzFile] by its address; [None] is NULL. *)
Notation gzFile := (option Z).

Inductive gzcall :=
  | Gzopen (filename mode : bytes) (result : gzFile)
  | Gzclose (file : gzFile)
  | Gzbuffer (file : gzFile) (size : Z)
  | Gzread (file : gzFile) (len : Z)
  | Gzwrite (file : gzFile) (data : bytes)
  | Gztell (file : gzFile)
  | Gzoffset (file : gzFile).

Record World := mkWorld { file_ : gmap nat gzFile; calls : list gzcall }.
Definition initial : World := mkWorld ∅ [].
Definition get (x : nat) (w : World) : gzFile := default None (file_ w !! x).
Definition set (x : nat) (f : gzFile) (w : World) : World := mkWorld (<[x := f]> (file_ w)) (calls w).
Definition zlib (c : gzcall) (w : World) : World := mkWorld (file_ w) (calls w ++ [c]).

(** The factories construct a new object [x] from what [gzopen] returns. *)
Definition open (mode filename : bytes) (x : nat) (result : gzFile) (w : World) : World :=
  set x result (zlib (Gzopen filename mode result) w).
Definition openForRead := open (Channel.str "rbe").
Definition openForAppend := open (Channel.str "abe").
Definition openForWriteExclusive := open (Channel.str "wbxe").
Definition openForWriteTruncate := open (Channel.str "wbe").

(** [GzipFile x(std::move(rhs))] *)
Definition move_construct (x rhs : nat) (w : World) : World :=
  let w := set x (get rhs w) w in set rhs None w.
Definition swap (x rhs : nat) (w : World) : World :=
  let f := get x w in let w := set x (get rhs w) w in set rhs f w.
(** [x = std::move(rhs)] *)
Definition move_assign (x rhs : nat) (w : World) : World := swap x rhs w.
Definition destruct_ (x : nat) (w : World) : World :=
  let w := match get x w with Some h => zlib (Gzclose (Some h)) w | None => w end in
  mkWorld (delete x (file_ w)) (calls w).

Definition valid (x : nat) (w : World) : bool := bool_decide (get x w ≠ None).
(** The calls that forward; [r] is zlib's answer. *)
Definition setBuffer (x : nat) (size r : Z) (w : World) : World * bool := (zlib (Gzbuffer (get x w) size) w, r =? 0).
Definition read (x : nat) (len r : Z) (w : World) : World * Z := (zlib (Gzread (get x w) len) w, r).
Definition write (x : nat) (buf : bytes) (r : Z) (w : World) : World * Z := (zlib (Gzwrite (get x w) buf) w, r).
Definition tell (x : nat) (r : Z) (w : World) : World * Z := (zlib (Gztell (get x w)) w, r).
Definition offset (x : nat) (r : Z) (w : World) : World * Z := (zlib (Gzoffset (get x w)) w, r).

(** ** Programs that use it *)

Inductive op :=
  | OpenForRead (x : nat) (name : bytes) (r : gzFile)
  | OpenForAppend (x : nat) (name : bytes) (r : gzFile)
  | OpenForWriteExclusive (x : nat) (name : bytes) (r : gzFile)
  | OpenForWriteTruncate (x : nat) (name : bytes) (r : gzFile)
  | MoveConstruct (x rhs : nat)
  | MoveAssign (x rhs : nat)
  | Swap (x rhs : nat)
  | Destruct (x : nat)
  | SetBuffer (x : nat) (size r : Z)
  | Read (x : nat) (len r : Z)
  | Write (x : nat) (buf : bytes) (r : Z)
  | Tell (x : nat) (r : Z)
  | Offset (x : nat) (r : Z).

Definition do_op (o : op) (w : World) : World :=
  match o with
  | OpenForRead x name r => openForRead name x r w
  | OpenForAppend x name r => openForAppend name x r w
  | OpenForWriteExclusive x name r => openForWriteExclusive name x r w
  | OpenForWriteTruncate x name r => openForWriteTruncate name x r w
  | MoveConstruct x rhs => move_construct x rhs w
  | MoveAssign x rhs => move_assign x rhs w
  | Swap x rhs => swap x rhs w
  | Destruct x => destruct_ x w
  | SetBuffer x size r => (setBuffer x size r w).1
  | Read x len r => (read x len r w).1
  | Write x buf r => (write x buf r w).1
  | Tell x r => (tell x r w).1
  | Offset x r => (offset x r w).1
  end.
Definition run (os : list op) : World := fold_left (λ w o, do_op o w) os initial.

(** ** What zlib is entitled to *)

(** The files open after the calls [cs]; [None] when a call named a file that is
    not open, or closed NULL. [gzopen] returns an address that is not in use. *)
Definition use (f : gzFile) (s : gset Z) : option (gset Z) :=
  match f with Some h => if decide (h ∈ s) then Some s else None | None => Some s end.
Definition after_call (s : gset Z) (c : gzcall) : option (gset Z) :=
  match c with
  | Gzopen _ _ (Some h) => if decide (h ∈ s) then None else Some ({[h]} ∪ s)
  | Gzopen _ _ None => Some s
  | Gzclose (Some h) => if decide (h ∈ s) then Some (s ∖ {[h]}) else None
  | Gzclose None => None
  | Gzbuffer f _ | Gzread f _ | Gzwrite f _ | Gztell f | Gzoffset f => use f s
  end.
Fixpoint open_after (cs : list gzcall) (s : gset Z) : option (gset Z) :=
  match cs with [] => Some s | c :: cs => match after_call s c with Some s => open_after cs s | None => None end end.

(** A new object has a new name, other operations name living objects. *)
Definition opens (x : nat) (r : gzFile) (w : World) : Prop :=
  file_ w !! x = None ∧ ∀ h, r = Some h → h ∉ default ∅ (open_after (calls w) ∅).
Definition legal (o : op) (w : World) : Prop :=
  match o with
  | OpenForRead x _ r | OpenForAppend x _ r | OpenForWriteExclusive x _ r | OpenForWriteTruncate x _ r => opens x r w
  | MoveConstruct x rhs => file_ w !! x = None ∧ is_Some (file_ w !! rhs)
  | MoveAssign x rhs | Swap x rhs => is_Some (file_ w !! x) ∧ is_Some (file_ w !! rhs)
  | Destruct x | SetBuffer x _ _ | Read x _ _ | Write x _ _ | Tell x _ | Offset x _ => is_Some (file_ w !! x)
  end.
#[global] Instance legal_dec o w : Decision (legal o w).
Proof.
  assert (∀ x r, Decision (opens x r w)).
  { intros x [h|]; unfold opens.
    - destruct (decide (file_ w !! x = None ∧ h ∉ default ∅ (open_after (calls w) ∅))) as [[]|Hn];
        [left; naive_solver|right; naive_solver].
    - destruct (decide (file_ w !! x = None)); [left; naive_solver|right; naive_solver]. }
  destruct o; cbn; apply _.
Defined.
Fixpoint legal_run (os : list op) (w : World) : Prop :=
  match os with [] => True | o :: os => legal o w ∧ legal_run os (do_op o w) end.
#[global] Instance legal_run_dec os : ∀ w, Decision (legal_run os w).
Proof. induction os; cbn; apply _. Defined.

(** ** Ownership *)

(** Each open file is owned by exactly one object. *)
Record inv (w : World) : Prop := {
  inv_calls : ∃ s, open_after (calls w) ∅ = Some s ∧ ∀ h, h ∈ s ↔ ∃ x, file_ w !! x = Some (Some h);
  inv_unique : ∀ x y h, file_ w !! x = Some (Some h) → file_ w !! y = Some (Some h) → x = y
}.

Lemma open_after_snoc cs c s :
  open_after (cs ++ [c]) s = match open_after cs s with Some s => after_call s c | None => None end.
Proof. revert s. induction cs as [|d cs IH]; intros s; cbn; [by destruct (after_call s c)|]. by destruct (after_call s d). Qed.

Lemma inv_open mode name x r w : inv w → opens x r w → inv (open mode name x r w).
Proof.
  intros [(s & Es & Hs) Hu] [Hx Hr]. rewrite Es in Hr. cbn [default] in Hr. destruct r as [h|]; constructor; cbn.
  - specialize (Hr h eq_refl). exists ({[h]} ∪ s). rewrite open_after_snoc, Es. cbn. rewrite decide_False by done.
    split; [done|]. intros g. rewrite elem_of_union, elem_of_singleton, Hs. split.
    + intros [-> |(y & Hy)]; [exists x; by rewrite lookup_insert_eq|]. exists y. by rewrite lookup_insert_ne by congruence.
    + intros (y & [[-> [= ->]]|[? ?]]%lookup_insert_Some); eauto.
  - specialize (Hr h eq_refl). assert (∀ y, file_ w !! y ≠ Some (Some h)) by (intros y Hy; apply Hr, Hs; eauto).
    intros y z g [[<- [= <-]]|[? ?]]%lookup_insert_Some [[<- ?]|[? ?]]%lookup_insert_Some; naive_solver.
  - exists s. rewrite open_after_snoc, Es. split; [done|]. intros g. rewrite Hs. split; intros (y & Hy); exists y.
    + by rewrite lookup_insert_ne by congruence.
    + apply lookup_insert_Some in Hy as [[_ ?]|[_ ?]]; done.
  - intros y z g [[_ ?]|[? ?]]%lookup_insert_Some [[_ ?]|[? ?]]%lookup_insert_Some; naive_solver.
Qed.

(** A call that uses the file of a living object. *)
Lemma inv_use x c w :
  inv w → is_Some (file_ w !! x) → (∀ s, after_call s c = use (get x w) s) → inv (zlib c w).
Proof.
  intros [(s & Es & Hs) Hu] [f Hf] Hc. constructor; [|done]. exists s. cbn. rewrite open_after_snoc, Es, Hc.
  unfold get, use. rewrite Hf. cbn. destruct f as [h|]; [|done]. rewrite decide_True; [done|]. apply Hs. eauto.
Qed.

(** Moving files between objects: [m'] gives each file to one object again. *)
Lemma inv_moved (g : nat → nat) m' w :
  inv w → (∀ y h, m' !! y = Some (Some h) → file_ w !! g y = Some (Some h)) →
  (∀ x h, file_ w !! x = Some (Some h) → ∃ y, m' !! y = Some (Some h)) →
  (∀ y z, g y = g z → is_Some (m' !! y ≫= id) → is_Some (m' !! z ≫= id) → y = z) → inv (mkWorld m' (calls w)).
Proof.
  intros [(s & Es & Hs) Hu] H1 H2 H3. constructor; cbn.
  - exists s. split; [done|]. intros h. rewrite Hs. split; intros (x & Hx); eauto.
  - intros y z h Hy Hz. apply H3; [|by rewrite Hy|by rewrite Hz]. eapply Hu; by eapply H1.
Qed.

Definition swapped (x rhs y : nat) : nat := if decide (y = x) then rhs else if decide (y = rhs) then x else y.

Lemma inv_swap x rhs w : inv w → is_Some (file_ w !! x) → is_Some (file_ w !! rhs) → inv (swap x rhs w).
Proof.
  intros Hi [f Hf] [f' Hf']. unfold swap, set, get. cbn. rewrite Hf, Hf'. cbn.
  apply (inv_moved (swapped x rhs)); [done|..]; unfold swapped.
  - intros y h. rewrite !lookup_insert_Some. repeat case_decide; naive_solver.
  - intros y h Hy. exists (swapped x rhs y). unfold swapped. rewrite !lookup_insert_Some.
    repeat case_decide; subst; naive_solver.
  - intros y z. repeat case_decide; congruence.
Qed.

Lemma inv_move_construct x rhs w :
  inv w → file_ w !! x = None → is_Some (file_ w !! rhs) → inv (move_construct x rhs w).
Proof.
  intros Hi Hx [f Hf]. assert (x ≠ rhs) by congruence. unfold move_construct, set, get. cbn. rewrite Hf. cbn.
  apply (inv_moved (λ y, if decide (y = x) then rhs else y)); [done|..].
  - intros y h. rewrite !lookup_insert_Some. case_decide; naive_solver.
  - intros y h Hy. exists (if decide (y = rhs) then x else y). rewrite !lookup_insert_Some.
    case_decide; subst; [naive_solver|]. right. split; [done|]. right. split; [congruence|done].
  - intros y z Hg Hy Hz. repeat case_decide; subst; try congruence.
    + rewrite lookup_insert_eq in Hz. by destruct Hz.
    + rewrite lookup_insert_eq in Hy. by destruct Hy.
Qed.

Lemma inv_destruct x w : inv w → is_Some (file_ w !! x) → inv (destruct_ x w).
Proof.
  intros [(s & Es & Hs) Hu] [f Hf]. unfold destruct_, get. rewrite Hf. cbn. destruct f as [h|]; constructor; cbn.
  - exists (s ∖ {[h]}). assert (h ∈ s) by (apply Hs; eauto). rewrite open_after_snoc, Es. cbn. rewrite decide_True by done.
    split; [done|]. intros g. rewrite elem_of_difference, elem_of_singleton, Hs. split.
    + intros [[y Hy] Hg]. exists y. rewrite lookup_delete_ne; [done|]. intros ->. congruence.
    + intros (y & [? ?]%lookup_delete_Some). split; [eauto|]. intros ->. naive_solver.
  - intros y z g [? ?]%lookup_delete_Some [? ?]%lookup_delete_Some. eauto.
  - exists s. split; [done|]. intros g. rewrite Hs. split; intros (y & Hy); exists y.
    + rewrite lookup_delete_ne; [done|]. intros ->. congruence.
    + by apply lookup_delete_Some in Hy as [_ ?].
  - intros y z g [? ?]%lookup_delete_Some [? ?]%lookup_delete_Some. eauto.
Qed.

Lemma gzip_inv_step o w : inv w → legal o w → inv (do_op o w).
Proof.
  intros Hi Hl. destruct o; cbn [do_op legal] in *; try (by apply inv_open); try (by eapply inv_use).
  - by apply inv_move_construct; [|apply Hl..].
  - by apply inv_swap; [|apply Hl..].
  - by apply inv_swap; [|apply Hl..].
  - by apply inv_destruct.
Qed.

Lemma gzip_inv os : legal_run os initial → inv (run os).
Proof.
  assert (inv initial) as H0 by (constructor; [exists ∅; split; [done|set_solver]|set_solver]).
  unfold run. revert H0. generalize initial as w. induction os as [|o os IH]; intros w H0 Hl; [done|].
  destruct Hl. apply IH; [by apply gzip_inv_step|done].
Qed.

(** However [GzipFile] objects are opened, moved, swapped, used and destroyed, no
    call reaches zlib with a file that is closed, no file is closed twice, each
    open file belongs to exactly one object, and once all objects are
    destroyed all files are closed. *)
Theorem gzip_closed_once os :
  legal_run os initial →
  ∃ s, open_after (calls (run os)) ∅ = Some s ∧
    (∀ h, h ∈ s ↔ ∃ x, file_ (run os) !! x = Some (Some h)) ∧
    (∀ x y h, file_ (run os) !! x = Some (Some h) → file_ (run os) !! y = Some (Some h) → x = y) ∧
    (file_ (run os) = ∅ → s = ∅).
Proof.
  intros [(s & Es & Hs) Hu]%gzip_inv. exists s. split_and!; [done|done|done|]. intros E. rewrite E in Hs.
  apply set_eq. intros h. rewrite Hs. split; [intros (x & Hx); by rewrite lookup_empty in Hx|set_solver].
Qed.

(** ** An instance: a file moved through two objects *)
Definition example_ops : list op :=
  [OpenForWriteTruncate 0 (Channel.str "a.gz") (Some 100); OpenForRead 1 (Channel.str "b.gz") (Some 200);
   OpenForRead 2 (Channel.str "missing") None; Write 0 (Channel.str "text") 4; MoveConstruct 3 0;
   MoveAssign 1 3; Write 1 (Channel.str "more") 4; Destruct 1; Destruct 3; OpenForRead 4 (Channel.str "a.gz") (Some 100);
   Read 4 10 8; Destruct 0; Destruct 2; Destruct 4].

Lemma gzip_closed_once_witness : open_after (calls (run example_ops)) ∅ = Some ∅ ∧ length (calls (run example_ops)) = 10%nat.
Proof.
  destruct (gzip_closed_once example_ops) as (s & E & _ & _ & Hs); [apply (bool_decide_unpack _); vm_compute; exact I|].
  rewrite E, Hs; [split; [reflexivity|]; vm_compute; reflexivity|]. vm_compute. reflexivity.
Defined.
End GzipFile.
