(* ===== verification/Perf.v ===== *)
(** * Pages of the profiler ([net/inspect/PerformanceInspector.cc])

    The commands the inspector gets when the program is built with tcmalloc. The
    allocator and the profiler of gperftools are a class of functions
    ([Gperftools]) with the laws the code relies on. *)

From stdpp Require Import sets.
From S2P Require Import Prelude Endian Format Timestamp LogStream Channel Http Inspector ProcInfo.
Import Format Endian.

Module PerformanceInspector.
Import Inspector.

(** [MallocExtension::instance()] and the CPU profiler. *)
Class Gperftools := {
  GetHeapSample : bytes;
  GetHeapGrowthStacks : bytes;
  GetStats : Z → bytes;                      (* the C string left in a buffer of that size *)
  MallocMemoryStats : Z * Z * list Z;        (* blocks, total, histogram *)
  kMallocHistogramSize : Z;
  GetMemoryReleaseRate : bytes;              (* as %f prints it *)
  ProfilerStart : bytes → bool
}.
Class GperftoolsLaws `{Gperftools} := {
  histogram_size : zlen MallocMemoryStats.2 = kMallocHistogramSize ∧ 0 ≤ kMallocHistogramSize ≤ 64;
  stats_range : in_s 32 MallocMemoryStats.1.1 ∧ in_u 64 MallocMemoryStats.1.2 ∧ Forall (in_s 32) MallocMemoryStats.2;
  GetStats_fits : ∀ n, 0 < n → zlen (GetStats n) < n
}.

(** What a page does besides its answer. *)
Inductive effect :=
  | StartProfiler (filename : bytes) | SleepUsec (n : Z) | StopProfiler
  | ReadFile (filename : bytes) (maxSize : Z) | Unlink (filename : bytes) | ReleaseMemory.

Section pages.
Context `{Gperftools}.

Definition heap : bytes := GetHeapSample.
Definition growth : bytes := GetHeapGrowthStacks.

(** [stat]: the text of /proc/self/stat; [readFile]: the first bytes of a file. *)
Definition profile_filename (stat : bytes) (pid : Z) (now : Timestamp.Timestamp) : bytes :=
  let filename := Channel.str "/tmp/" ++ ProcessInfo.procname_string stat in
  let filename := filename ++ ["."%char] in
  let filename := filename ++ ProcessInfo.pidString pid in
  let filename := filename ++ ["."%char] in
  let filename := filename ++ Timestamp.toString now in
  filename ++ Channel.str ".profile".
Definition profile (filename : bytes) (readFile : bytes → Z → bytes) : list effect * bytes :=
  let profile := [] in
  if ProfilerStart filename then
    let effects := [StartProfiler filename; SleepUsec (30 * 1000 * 1000); StopProfiler] in
    let profile := readFile filename (1024 * 1024) in
    (effects ++ [ReadFile filename (1024 * 1024); Unlink filename], profile)
  else ([StartProfiler filename], profile).

Definition cmdline : bytes := [].
Definition memstats : bytes := GetStats (1024 * 64).

(** The rounds of the loop from [i] on. *)
Fixpoint histogram_lines (i : Z) (histogram : list Z) : list LogStream.item :=
  match histogram with
  | [] => []
  | n :: histogram =>
      [LogStream.Integer i; LogStream.CStr (Some [" "%char]); LogStream.Integer n; LogStream.CStr (Some ["010"%char])] ++
      histogram_lines (i + 1) histogram
  end.
Definition memhistogram_items : list LogStream.item :=
  let '(blocks, total, histogram) := MallocMemoryStats in
  [LogStream.CStr (Some (Channel.str "blocks ")); LogStream.Integer blocks;
   LogStream.CStr (Some ("010"%char :: Channel.str "total ")); LogStream.Integer total;
   LogStream.CStr (Some ["010"%char])] ++
  histogram_lines 0 (ztake kMallocHistogramSize histogram).
(** [storage]: the uninitialised buffer of the log stream. *)
Definition memhistogram (storage : bytes) : result bytes :=
  s ← LogStream.shl_all memhistogram_items (FixedBuffer.make storage);
  FixedBuffer.toString s.

Definition releaseFreeMemory : list effect * bytes :=
  ([ReleaseMemory], snprintf 256 (Channel.str "memory release rate: " ++ GetMemoryReleaseRate ++ ["010"%char] ++
    Channel.str "All free memory released." ++ ["010"%char])).

Definition registerCommands (heap growth profile cmdline memstats memhistogram release : Callback)
    (ins : Inspector) : Inspector :=
  let command := InspectorSetup.command "pprof" in
  let ins := command "heap" heap "get heap information" ins in
  let ins := command "growth" growth "get heap growth information" ins in
  let ins := command "profile" profile
    "get cpu profiling information. CAUTION: blocking thread for 30 seconds!" ins in
  let ins := command "cmdline" cmdline "get command line" ins in
  let ins := command "memstats" memstats "get memory stats" ins in
  let ins := command "memhistogram" memhistogram "get memory histogram" ins in
  command "releasefreememory" release "release free memory" ins.
End pages.

(** ** Properties *)
Section facts.
Context `{GperftoolsLaws}.

Lemma histogram_lines_legal l : ∀ i,
  0 ≤ i → i + zlen l < 2 ^ 31 → Forall (in_s 32) l → Forall LogStream.legal_item (histogram_lines i l).
Proof.
  induction l as [|n l IH]; intros i Hi Hl Hr; [apply Forall_nil_2|]. rewrite zlen_cons in Hl.
  apply Forall_cons in Hr as [Hn Hr]. cbn [histogram_lines app]. pose proof (zlen_nonneg l).
  repeat apply Forall_cons_2; try (by apply IH; [lia|lia|]); cbn [LogStream.legal_item]; try done;
    unfold Convert.numeric, in_s in *; lia.
Qed.

(** A line takes at most 44 characters. *)
Lemma histogram_lines_length l : ∀ i,
  0 ≤ i → i + zlen l < 2 ^ 31 → Forall (in_s 32) l →
  zlen (concat (LogStream.text_of <$> histogram_lines i l)) ≤ 44 * zlen l.
Proof.
  induction l as [|n l IH]; intros i Hi Hl Hr; [done|]. rewrite zlen_cons in *. apply Forall_cons in Hr as [Hn Hr].
  pose proof (zlen_nonneg l). specialize (IH (i + 1) ltac:(lia) ltac:(lia) Hr).
  cbn [histogram_lines app fmap list_fmap concat]. rewrite !zlen_app. cbn [LogStream.text_of default id].
  pose proof (proj2 (Convert.convert_stored i ltac:(unfold Convert.numeric; lia))).
  pose proof (proj2 (Convert.convert_stored n ltac:(unfold Convert.numeric, in_s in *; lia))).
  change (zlen [" "%char]) with 1. change (zlen ["010"%char]) with 1. lia.
Qed.

Lemma memhistogram_items_ok :
  Forall LogStream.legal_item memhistogram_items ∧
  zlen (concat (LogStream.text_of <$> memhistogram_items)) + LogStream.kMaxNumericSize ≤ FixedBuffer.kSmallBuffer.
Proof.
  destruct histogram_size as [Hsz Hk], stats_range as (Hb & Ht & Hh). unfold memhistogram_items.
  destruct MallocMemoryStats as [[blocks total] hist]. cbn [fst snd] in *. rewrite ztake_all by lia.
  pose proof (histogram_lines_legal hist 0 ltac:(lia) ltac:(lia) Hh) as Hlegal.
  pose proof (histogram_lines_length hist 0 ltac:(lia) ltac:(lia) Hh) as Hlen.
  assert (Convert.numeric blocks) as Nb by (unfold Convert.numeric, in_s in *; lia).
  assert (Convert.numeric total) as Nt by (unfold Convert.numeric, in_u in *; lia).
  split.
  - cbn [app]. repeat apply Forall_cons_2; try done.
  - cbn [app fmap list_fmap concat]. rewrite !zlen_app. cbn [LogStream.text_of default id].
    pose proof (proj2 (Convert.convert_stored blocks Nb)). pose proof (proj2 (Convert.convert_stored total Nt)).
    change (zlen (Channel.str "blocks ")) with 7. change (zlen ("010"%char :: Channel.str "total ")) with 7.
    change (zlen ["010"%char]) with 1. unfold LogStream.kMaxNumericSize, FixedBuffer.kSmallBuffer.
    change (list_fmap LogStream.item bytes LogStream.text_of (histogram_lines 0 hist))
      with (LogStream.text_of <$> histogram_lines 0 hist). lia.
Qed.

(** The text the page should have. *)
Definition histogram_row (i : nat) (n : Z) : bytes := dec (Z.of_nat i) ++ " "%char :: dec n ++ ["010"%char].
Definition histogram_text : bytes :=
  let '(blocks, total, histogram) := MallocMemoryStats in
  Channel.str "blocks " ++ dec blocks ++ "010"%char :: Channel.str "total " ++ dec total ++ "010"%char ::
  concat (imap histogram_row histogram).

Lemma histogram_lines_text l : ∀ i,
  concat (LogStream.text_of <$> histogram_lines (Z.of_nat i) l) = concat (imap (λ j, histogram_row (i + j)) l).
Proof.
  induction l as [|n l IH]; intros i; [done|]. cbn [histogram_lines app fmap list_fmap concat imap].
  replace (Z.of_nat i + 1) with (Z.of_nat (S i)) by lia.
  change (list_fmap LogStream.item bytes LogStream.text_of (histogram_lines (Z.of_nat (S i)) l))
    with (LogStream.text_of <$> histogram_lines (Z.of_nat (S i)) l). rewrite IH.
  cbn [LogStream.text_of default id]. unfold histogram_row at 2. rewrite Nat.add_0_r, <- app_assoc. cbn [app].
  rewrite <- app_assoc. cbn [app]. do 4 f_equal. f_equal. apply imap_ext. intros j x _. cbn. by rewrite Nat.add_succ_r.
Qed.

(** The histogram page is whole: the numbers of a histogram of up to 64 classes
    always fit the buffer of the log stream, so nothing is dropped. *)
Theorem memhistogram_whole storage :
  zlen storage = FixedBuffer.kSmallBuffer → memhistogram storage = Ok histogram_text.
Proof.
  intros Hz. destruct memhistogram_items_ok as [Hlegal Hlen]. unfold memhistogram.
  assert (FixedBuffer.buf_inv FixedBuffer.kSmallBuffer (FixedBuffer.make storage)) as Hb
    by (rewrite <- Hz; apply FixedBuffer.make_inv; rewrite Hz; done).
  destruct (LogStream.shl_all_spec FixedBuffer.kSmallBuffer _ _ Hb Hlegal) as (b & -> & Hb' & Ht). rewrite bind_Ok.
  rewrite (FixedBuffer.toString_text FixedBuffer.kSmallBuffer) by done. rewrite Ht.
  change (FixedBuffer.text (FixedBuffer.make storage)) with (ztake 0 storage). rewrite ztake_0.
  rewrite LogStream.render_complete by (rewrite zlen_nil; lia). f_equal.
  destruct histogram_size as [Hsz _]. unfold memhistogram_items, histogram_text.
  destruct MallocMemoryStats as [[blocks total] hist]. cbn [fst snd] in *. rewrite ztake_all by lia.
  pose proof (histogram_lines_text hist 0) as E. change (Z.of_nat 0) with 0 in E.
  rewrite fmap_app, concat_app, E. cbn [app fmap list_fmap concat LogStream.text_of default id].
  do 2 (rewrite <- ?app_assoc; cbn [app]). done.
Qed.

(** [profile] leaves no file behind, and stops the profiler if it started it. *)
Lemma profile_cleans filename readFile :
  let '(effects, text) := profile filename readFile in
  if ProfilerStart filename
  then effects = [StartProfiler filename; SleepUsec 30000000; StopProfiler; ReadFile filename 1048576; Unlink filename] ∧
       text = readFile filename 1048576
  else effects = [StartProfiler filename] ∧ text = [].
Proof. unfold profile. by destruct (ProfilerStart filename). Qed.
End facts.

(** An allocator with three size classes. *)
#[local] Instance example_gperftools : Gperftools := {|
  GetHeapSample := Channel.str "heap"; GetHeapGrowthStacks := Channel.str "growth"; GetStats _ := [];
  MallocMemoryStats := (7, 2 ^ 40, [5; 0; 2]); kMallocHistogramSize := 3;
  GetMemoryReleaseRate := Channel.str "1.000000"; ProfilerStart _ := false |}.
#[local] Instance example_laws : GperftoolsLaws.
Proof.
  split; cbn; [split; [reflexivity|lia]| |intros; rewrite zlen_nil; lia].
  unfold in_s, in_u. split; [lia|]. split; [lia|]. repeat constructor; lia.
Qed.

Lemma memhistogram_whole_witness :
  memhistogram (zrep 4000 "?"%char) = Ok (Channel.str "blocks 7" ++ "010"%char :: Channel.str "total 1099511627776" ++
    "010"%char :: Channel.str "0 5" ++ "010"%char :: Channel.str "1 0" ++ "010"%char :: Channel.str "2 2" ++ ["010"%char]).
Proof. rewrite memhistogram_whole; [vm_compute; reflexivity|]. vm_compute. reflexivity. Defined.

(** The seven commands, as additions to what the inspector had. *)
Lemma pprof_registered heap growth profile cmdline memstats memhistogram release ins :
  let ins' := registerCommands heap growth profile cmdline memstats memhistogram release ins in
  ins' = fold_left apply_op
    [Add (Channel.str "pprof") (Channel.str "heap") (Some heap) (Channel.str "get heap information");
     Add (Channel.str "pprof") (Channel.str "growth") (Some growth) (Channel.str "get heap growth information");
     Add (Channel.str "pprof") (Channel.str "profile") (Some profile)
       (Channel.str "get cpu profiling information. CAUTION: blocking thread for 30 seconds!");
     Add (Channel.str "pprof") (Channel.str "cmdline") (Some cmdline) (Channel.str "get command line");
     Add (Channel.str "pprof") (Channel.str "memstats") (Some memstats) (Channel.str "get memory stats");
     Add (Channel.str "pprof") (Channel.str "memhistogram") (Some memhistogram) (Channel.str "get memory histogram");
     Add (Channel.str "pprof") (Channel.str "releasefreememory") (Some release) (Channel.str "release free memory")] ins.
Proof. done. Qed.
End PerformanceInspector.
