(* ===== verification/Support.v ===== *)
(** * Language support ([base/WeakCallback.h], [base/Types.h], [base/Exception.*],
    [net/poller/DefaultPoller.cc], [net/protorpc/google-inl.h])

    A callback bound to an object it does not keep alive, the checked cast, and
    what the code uses of other small helpers. *)

From stdpp Require Import sets list.
From S2P Require Import Prelude Channel.

(** ** A callback that holds a weak pointer *)
Module WeakCallback.
Local Open Scope nat_scope.

(** An object managed by [std::shared_ptr]: the owners in the program, the
    pointers of running callbacks, how often the destructor has run, and, for
    each run of [function_], whether the object existed. *)
Record Object := mkObject { owners : nat; locked : nat; destroyed : nat; runs : list bool }.

Definition use_count (o : Object) : nat := owners o + locked o.
Definition expired (o : Object) : bool := bool_decide (use_count o = 0).
(** The last [shared_ptr] to go destroys the object. *)
Definition release (o : Object) : Object :=
  if expired o then mkObject (owners o) (locked o) (S (destroyed o)) (runs o) else o.

(** [object_.lock()] *)
Definition lock (o : Object) : option Object :=
  if expired o then None else Some (mkObject (owners o) (S (locked o)) (destroyed o) (runs o)).
Definition unlock (o : Object) : Object :=
  release (mkObject (owners o) (pred (locked o)) (destroyed o) (runs o)).

(** [function_] is any code that copies and drops owning pointers and invokes the
    callback again. *)
Inductive code := Copy | Drop | Invoke (function_ : list code).

(** [operator()]; [body] is what [function_] does. *)
Definition invoke (body : Object → Object) (o : Object) : Object :=
  match lock o with
  | Some o => unlock (body (mkObject (owners o) (locked o) (destroyed o) (runs o ++ [bool_decide (destroyed o = 0)])))
  | None => o
  end.

Fixpoint exec (c : code) (o : Object) : Object :=
  match c with
  | Copy => if decide (owners o = 0) then o else mkObject (S (owners o)) (locked o) (destroyed o) (runs o)
  | Drop => if decide (owners o = 0) then o else release (mkObject (pred (owners o)) (locked o) (destroyed o) (runs o))
  | Invoke l => invoke (λ o, fold_left (λ o c, exec c o) l o) o
  end.
Definition exec_all (l : list code) (o : Object) : Object := fold_left (λ o c, exec c o) l o.
Definition make_shared : Object := mkObject 1 0 0 [].

(** The object exists exactly as long as something points to it. *)
Definition inv (o : Object) : Prop :=
  destroyed o = (if expired o then 1 else 0) ∧ Forall (λ b, b = true) (runs o).
(** Between calls the pointers of callbacks are back to what they were. *)
Definition balanced (f : Object → Object) : Prop :=
  ∀ o, inv o → inv (f o) ∧ locked (f o) = locked o.

Lemma release_inv o : destroyed o = 0 → Forall (λ b, b = true) (runs o) → inv (release o).
Proof.
  intros Hd Hr. unfold release. destruct (expired o) eqn:E; [|split; [by rewrite E|done]]. split; [|done].
  unfold expired, use_count in *. cbn. by rewrite E, Hd.
Qed.
Lemma release_locked o : locked (release o) = locked o.
Proof. unfold release. by destruct (expired o). Qed.

Lemma invoke_balanced body : balanced body → balanced (invoke body).
Proof.
  intros Hb o [Hd Hr]. unfold invoke, lock.
  destruct (expired o) eqn:E; [by split; [split; rewrite ?E|]|].
  cbn [owners locked destroyed runs]. rewrite Hd. set (o1 := mkObject _ _ _ _).
  assert (inv o1) as Hi1.
  { split; [|apply Forall_app_2; [done|by apply Forall_cons_2]]. unfold expired, use_count. cbn.
    by rewrite bool_decide_false by lia. }
  destruct (Hb o1 Hi1) as [[Hd2 Hr2] Hl2]. unfold unlock. rewrite release_locked. split; [|cbn; by rewrite Hl2].
  apply release_inv; [|done]. cbn. rewrite Hd2. unfold expired, use_count. rewrite Hl2. cbn.
  by rewrite bool_decide_false by lia.
Qed.

Lemma exec_balanced : ∀ c, balanced (exec c).
Proof.
  fix IH 1. intros [| |l]; cbn [exec].
  - intros o [Hd Hr]. case_decide as Ho; [done|]. split; [|done]. split; [|done]. cbn. rewrite Hd.
    unfold expired, use_count. cbn. by rewrite !bool_decide_false by lia.
  - intros o [Hd Hr]. case_decide as Ho; [done|]. rewrite release_locked. split; [|done].
    apply release_inv; [|done]. cbn. rewrite Hd. unfold expired, use_count. by rewrite bool_decide_false by lia.
  - apply invoke_balanced. induction l as [|c l IHl]; [done|]. intros o Hi. cbn [fold_left].
    destruct (IH c o Hi) as [Hi1 Hl1]. destruct (IHl _ Hi1) as [Hi2 Hl2]. split; [done|congruence].
Qed.

(** However the callback is invoked, also from within itself, while owners come
    and go: [function_] only runs on an object that exists, the object is not
    destroyed while a call uses it, and it is destroyed exactly once, when the
    last owner is gone. *)
Theorem weak_callback_safe l :
  let o := exec_all l make_shared in
  Forall (λ b, b = true) (runs o) ∧ locked o = 0 ∧ destroyed o = (if decide (owners o = 0) then 1 else 0).
Proof.
  intros o. assert (balanced (exec_all l)) as Hb.
  { intros o1. unfold exec_all. revert o1. induction l as [|c l IH]; intros o1 Hi; [done|]. cbn [fold_left].
    destruct (exec_balanced c o1 Hi) as [Hi1 Hl1]. destruct (IH _ Hi1) as [Hi2 Hl2]. split; [done|congruence]. }
  destruct (Hb make_shared) as [[Hd Hr] Hl]; [by split|]. split_and!; [done|done|]. fold o in Hd, Hl. rewrite Hd.
  unfold expired, use_count. rewrite Hl. cbn. rewrite Nat.add_0_r. by case_decide; case_bool_decide.
Qed.
(** After the object is gone the callback does nothing. *)
Lemma weak_callback_expired body o : expired o = true → invoke body o = o.
Proof. unfold invoke, lock. by intros ->. Qed.

(** A call during which the last owner lets go. *)
Example last_owner_lets_go :
  exec_all [Invoke [Drop; Invoke []]; Invoke [Copy]] make_shared = mkObject 0 0 1 [true; true].
Proof. reflexivity. Qed.
End WeakCallback.

(** ** Casts, exceptions and defaults *)
Module Types.
Section cast.
(** Classes, and whether the first is the second or derived from it. *)
Context {class : Type} (derived : class → class → bool).

(** [dynamic_cast<To>]; an object is its dynamic class. *)
Definition dynamic_cast (To : class) (f : option class) : option class :=
  match f with Some k => if derived k To then Some k else None | None => None end.
Definition implicit_cast {A} (f : A) : A := f.
Definition down_cast (To : class) (f : option class) : result (option class) :=
  _ ← check (bool_decide (f = None) || bool_decide (is_Some (dynamic_cast To f)));
  Ok f.

(** With assertions on, what is cast is null or an object of the class. *)
Lemma down_cast_checked To f r :
  down_cast To f = Ok r → r = f ∧ (f = None ∨ ∃ k, f = Some k ∧ derived k To = true).
Proof.
  unfold down_cast. destruct f as [k|]; cbn; [|intros [= <-]; auto].
  destruct (derived k To) eqn:E; cbn; [|done]. intros [= <-]. eauto.
Qed.
End cast.
End Types.

Module Exception.
Record Exception := mkException { message_ : bytes; stack_ : bytes }.
(** [stackTrace]: that of the current thread. *)
Definition make (msg stackTrace : bytes) : Exception := mkException msg stackTrace.
Definition what (e : Exception) : bytes := message_ e.
Definition stackTrace (e : Exception) : bytes := stack_ e.

(** What a worker of [ThreadPool] does with an exception of a task. *)
Inductive thrown := ThrownException (e : Exception) | ThrownStd (what : bytes) | ThrownOther.
Inductive outcome := Aborted | Rethrown.
Definition line (prefix text : bytes) : bytes := prefix ++ text ++ ["010"%char].
Definition caught (name : bytes) (t : thrown) : list bytes * outcome :=
  match t with
  | ThrownException ex =>
      ([line (Channel.str "exception caught in ThreadPool ") name; line (Channel.str "reason: ") (what ex);
        line (Channel.str "stack trace: ") (stackTrace ex)], Aborted)
  | ThrownStd what =>
      ([line (Channel.str "exception caught in ThreadPool ") name; line (Channel.str "reason: ") what], Aborted)
  | ThrownOther => ([line (Channel.str "unknown exception caught in ThreadPool ") name], Rethrown)
  end.
End Exception.

Module DefaultPoller.
Inductive poller := UsePoll | UseEPoll.
(** [getenv] of the process. *)
Definition newDefaultPoller (getenv : bytes → option bytes) : poller :=
  match getenv (Channel.str "MUDUO_USE_POLL") with Some _ => UsePoll | None => UseEPoll end.
End DefaultPoller.

Module GoogleInl.
(** The message with which the program ends when the serialiser did not write
    what it announced. *)
Definition ByteSizeConsistencyError (before after produced : Z) : bytes :=
  if negb (before =? after)
  then Channel.str "Protocol message was modified concurrently during serialization."
  else if negb (produced =? before)
  then Channel.str "Byte size calculation and serialization were inconsistent.  This " ++
       Channel.str "may indicate a bug in protocol buffers or it may be caused by " ++
       Channel.str "concurrent modification of the message."
  else Channel.str "This shouldn't be called if all the sizes are equal.".
Definition quote : ascii := "034"%char.
Definition InitializationErrorMessage (action typeName errorString : bytes) : bytes :=
  let result := Channel.str "Can't " in
  let result := result ++ action in
  let result := result ++ Channel.str " message of type " ++ [quote] in
  let result := result ++ typeName in
  let result := result ++ [quote] ++ Channel.str " because it is missing required fields: " in
  result ++ errorString.
End GoogleInl.
